(* ===== verification/_CoqProject ===== *)
-Q . S2P
Prelude.v
CommandLine.v
PrivateData.v
Verbs.v
Buffer.v
Queue.v
Connection.v
Messages.v
ResourceDB.v
Rdma.v
ResourceManager.v
ExecutorManager.v
Invocation.v
ExecutorThread.v
ExecutorOptions.v
ClientConnection.v
ClientExecutor.v
System.v
LeasePath.v
Archive.v
ResourceStart.v
Admission.v
ExecutorStart.v
Deployment.v
Symbols.v
Atomics.v
ReaderWriterQueue.v
QueueProtocol.v
QueueConsumer.v
QueueSpec.v
QueueBounds.v
QueueTheorems.v
Semaphore.v
BlockingQueue.v
BlockingTheorems.v
ExampleFunctions.v
ClosedLoop.v
TrapClient.v
IntervalClient.v
Benchmarks.v
WarmBenchmark.v
CppInterface.v
ParallelInvocations.v
