(* ===== verification/Prelude.v ===== *)
(** * rFaaS: a verification development

    rFaaS is a serverless platform over RDMA.  A client asks the resource manager for a
    lease; the resource manager picks a node and tells the node's executor manager; the client
    connects to the executor manager, which starts an executor process; the threads of the
    executor connect to the client, receive the code of the functions, and from then on the
    client writes inputs directly into the threads' memory and gets results written back.  The
    C++ code is in src/rdmalib (the RDMA library), src/rfaas (the client library) and
    src/server (resource manager, executor manager, executor).

    ** The files

    - Prelude.v: faults and results, machine integers, byte order, bit fields, arrays of
      characters, the hint database and the tactics of the development.
    - CommandLine.v: the parser of command lines as a class with its laws.
    - PrivateData.v: the 32 bits of private data of a connection request
      (src/rdmalib/include/rdmalib/connection.hpp, [PrivateData]).
    - Verbs.v: the calls of libibverbs, librdmacm and the operating system as a trace, the
      environment that answers them, the state and error monad [M] in which all operations are
      written, the [expect_*] checks (src/rdmalib/include/rdmalib/util.hpp), and four generic
      notions with their lemmas and hints: what an operation leaves alone ([frames]), what it
      keeps true ([stable]), which calls it makes ([emits]), that it ends ([halts]).
    - Buffer.v: registered memory (src/rdmalib/{include/rdmalib/buffer.hpp,lib/buffer.cpp}).
    - Queue.v: receive and send queues (src/rdmalib/{include/rdmalib/queue.hpp,lib/queue.cpp}).
    - Connection.v: posting and polling (src/rdmalib/{include/rdmalib/connection.hpp,
      lib/connection.cpp}).
    - Messages.v: the messages between the processes (src/rfaas/include/rfaas/allocation.hpp,
      src/server/common/messages.hpp).
    - ResourceDB.v: the database of nodes and leases (src/server/resource_manager/{executor,db}.
      {hpp,cpp}).
    - Rdma.v: active and passive endpoints, connection events, pollers
      (src/rdmalib/{include/rdmalib,lib}/{rdmalib,poller}.{hpp,cpp}).
    - ResourceManager.v: the three threads and the HTTP interface of the resource manager
      (src/server/resource_manager/{manager,client,http}.{hpp,cpp}).
    - ExecutorManager.v: leases, clients, executor processes and the loops of the executor
      manager (src/server/executor_manager).
    - Invocation.v: the words that identify invocations and results.
    - ExecutorThread.v: the threads of the executor (src/server/executor/{fast_executor,functions}.
      {hpp,cpp}).
    - ExecutorOptions.v: the command line of the executor and its main
      (src/server/executor/{opts,cli}.cpp).
    - ClientConnection.v, ClientExecutor.v: the client library (src/rfaas).
    - System.v: the client, the executor manager and the executor together; LeasePath.v: the path of a
      lease from the resource manager over the executor manager to the process that is started.
    - Symbols.v: how client and executor read the names of the functions of a library
      (src/rfaas/lib/executor.cpp, src/server/executor/functions.cpp).
    - Archive.v: the JSON files of devices, servers and server status (src/rfaas/{include/rfaas,lib}/
      {devices,resources}.{hpp,cpp}, src/rdmalib/{include/rdmalib,lib}/server.{hpp,cpp}).
    - ResourceStart.v and ExecutorStart.v: options, settings and main of the two managers
      (src/server/{resource,executor}_manager/{opts,settings,cli,manager}.{hpp,cpp}); Admission.v: the
      secret of the resource manager; Deployment.v: the two managers as they are configured and
      started.
    - Atomics.v: programs of atomic accesses, the interleavings of two threads, and a
      rely/guarantee logic for them (src/server/atomicops.h, [weak_atomic] and fences).
    - ReaderWriterQueue.v: the queue between a producer and a consumer
      (src/server/common/readerwriterqueue.h); QueueProtocol.v: its invariant and the producer,
      QueueConsumer.v: the consumer, QueueSpec.v: histories and contents, QueueBounds.v: construction,
      capacity and destruction, QueueTheorems.v: the theorems.
    - Semaphore.v: the semaphores of src/server/atomicops.h; BlockingQueue.v: the blocking queue
      that the threads of the managers use; BlockingTheorems.v: its theorems.
    - ClosedLoop.v and TrapClient.v: clients whose result function submits the next invocation
      (src/benchmarks/{high_concurrency,closeloop_trap_client}.cpp); IntervalClient.v: clients that send
      at random intervals (closeloop_exponential.cpp, closeloop_log_normal.cpp); Benchmarks.v: the
      benchmarker, the settings and the measuring loops (src/rdmalib/include/rdmalib/benchmarker.hpp,
      src/benchmarks/settings.{hpp,cpp}); WarmBenchmark.v, ParallelInvocations.v and CppInterface.v:
      three programs with their options.
    - ExampleFunctions.v: the functions of src/examples that are deployed.

    Each file but this one, Verbs.v and Messages.v has one module of its name; operations have the names of
    the source.

    ** How the code is modelled

    An object is a record with the fields of the class; a method is a computation in
    [M S A], a function from the state and the trace of calls made so far to a result and the
    new state and trace.  A result is a value or a [fault]: an exception, a failed
    assertion, undefined behaviour (a null or dangling pointer, an index out of bounds, a shift
    by the width), or [StillRunning].  Integers are kept at their width where they can overflow.
    Objects that the code shares by pointer live in a store indexed by pointers (connections of
    a passive endpoint, executors of the resource manager).  The threads of a manager share
    its state; their loops are modelled as operations that can be interleaved, each handler as a whole.
    The database of the resource manager has a lock; the table of executors is used without it by the thread
    of the executors, and accesses inside a handler that race with it are not modelled.

    What is outside the code is an argument: the class [Env] of Verbs.v has one function per
    call, from the trace to the answer, so that a theorem for all [Env] holds for every
    behaviour of the hardware and the kernel; the contents that other processes write into
    receive buffers are functions of the trace and the slot ([requests], [statuses], [responses],
    [infos], [header], ...); the symbols of a library are a list of names, except in Symbols.v, which
    reads them from the memory of a process; the parser of command lines is the class [Cxxopts] with
    its laws, which [reference_parser] satisfies, the archive of JSON files the class [Cereal], which
    [reference_archive] satisfies, the parser of HTTP bodies the argument [Parse], the read of an erased
    list element the argument [erased], and [std::nth_element] the class [NthElement], which [sorting_nth]
    satisfies.  A client of the library that keeps invocations open is the class [LoopClient], with two
    instances.  [scripted_env] is
    an instance in which calls succeed; the examples are evaluated in it.

    ** Bounds

    A loop that waits (for a completion, an event, the end of a process) follows at most the
    number of iterations it is given: [env_spin] for polling, an argument [fuel] for the others,
    the list of wake-ups for the background thread, the turns of a schedule for the queue.  Theorems about what was returned hold for
    every bound; theorems that something ends say for which bounds.  The chain of receive requests
    is followed for 32 elements, its length in the source.

    ** What the theorems show

    - Resources: a node never has more cores or memory leased than it offers, in every order of handlers
      that run one after another, for clients that ask for amounts that are not negative, managers that
      close a lease once while it is open, and a read of the erased list element in [open_lease] that
      yields the old pointer or crashes (manager_leases_accounted, leases_accounted); a
      lease goes to the first node that fits, and the lease of a fully leased node to what that read
      yields (open_lease_first_fit); a request is answered to the
      client after its executor manager was told (lease_request_served); only executors with the
      secret are admitted (executor_admission), those whose settings agree are
      (configured_managers_meet); the lease that was granted is in the table of the executor manager when
      the request is handled, and the process is started with its cores, whatever else
      the executor manager handles in between (lease_reaches_executor; no argument carries the memory); the
      nodes that were written to
      the database file are there after a restart (database_survives_restart).
    - Executors: a request starts one process with the arguments of the lease and is
      answered (allocation_served); a goodbye ends it and sends the resource manager one message with the
      lease and the accounted times (goodbye_served);
      executors are matched to waiting clients (executor_matching); the process that is
      started, outside a container, reads what it was given and starts its threads accordingly
      (spawned_executor_configured).
    - Invocations: the word of an invocation is read back by the executor and its answer by
      the client (invocation_roundtrip); an asynchronous invocation that a thread reads alone calls the
      function of its name and its answer fulfils its own future while that is pending
      (invocation_end_to_end); futures implement promises, a simulation over every operation of
      the client (futures_refine_promises); a synchronous invocation returns its own result
      (execute_own_result); submitting does not wait (asynchronous_interface_ends); a thread answers
      every invocation once and bills all its time (warm_answers_each_once, thread_time_accounted);
      client and executor number the functions of a library alike (function_numbers_agree).
    - Clients: a client that submits from its result function keeps one invocation per core in
      flight (closed_loop_window); one that sends at intervals polls the answer of each request before it writes the next
      (interval_requests_answered); what is measured are answered invocations
      (measured_invocations_answered), and the median is one (summary_median); the hash functions
      notice a changed character (one_change_noticed).
    - The RDMA library: buffers own the memory that is mapped, a receive queue is never over-posted and
      its count matches what is posted while no call fails, requests stay inside their buffers, endpoints are created and destroyed once,
      connection events reach the connection they are about.
    - The queues between the threads of a manager: in every interleaving no access faults and the
      values come out in the order in which they went in (queue_linearizable, and
      blocking_linearizable with its semaphore), no wake-up is lost (blocking_no_lost_wakeup), every
      call ends after a bounded number of accesses (queue_wait_free); alone it is a list
      (queue_refines_list); it takes what it was made for without allocating (queue_capacity),
      stays well-formed (queue_well_formed) and leaves nothing behind (queue_destroyed).  This is
      why ResourceManager.v and ExecutorManager.v can use lists for these queues.
    - What does not work: nobody fulfils the first future the test of the interface waits for, because
      neither the constructor nor [allocate] starts the thread that would (interface_test_waits_forever).
    - Errors: what the code does with failures, and the places where it does not do what it
      means to; each such theorem says in its comment what goes wrong.

    ** Not modelled

    Logging, and the HTTP library under the handler; memory orders weaker than sequential consistency (the
    fences of the queue order nothing in the model) and the versions of src/server/atomicops.h for other
    systems; opening a library (dlopen) and the arithmetic in floating point of printed rates and
    latencies; src/server/executor/server.cpp and
    src/rdmalib/lib/functions.cpp, an earlier server and its test function; the benchmark programs that
    repeat the loops above with several libraries or a cold start; the examples with
    images, which are calls of OpenCV and PyTorch.

    ** What could follow

    The interleavings of the two threads of the executor manager as a step relation with an invariant
    on the client table (LeasePath.v follows the lease table through them); the queues under the memory
    model of the hardware. *)

From Stdlib Require Export ZArith Lia.
From stdpp Require Export base gmap gmultiset strings list sorting relations.

#[global] Open Scope Z_scope.

(** ** Faults and results

    A C++ statement either completes, throws, fails an [assert], has undefined
    behaviour, or (for a loop followed up to a bound) has not finished yet. *)

Inductive fault : Type :=
  | Throw (what : string)
  | AssertFailed (what : string)
  | Undefined (why : string)
  | StillRunning.

Inductive result (A : Type) : Type :=
  | Ok (a : A)
  | Fault (f : fault).

Arguments Ok {A} a.
Arguments Fault {A} f.

#[export] Instance fault_eq_dec : EqDecision fault.
Proof. solve_decision. Defined.

#[export] Instance result_ret : MRet result := @Ok.

#[export] Instance result_bind : MBind result := λ A B k m,
  match m with
  | Ok a => k a
  | Fault f => Fault f
  end.

#[export] Instance result_fmap : FMap result := λ A B g m,
  match m with
  | Ok a => Ok (g a)
  | Fault f => Fault f
  end.

(** [from_opt why o]: the value of [o], or undefined behaviour. *)
Definition from_opt {A} (why : string) (o : option A) : result A :=
  match o with
  | Some a => Ok a
  | None => Fault (Undefined why)
  end.

Lemma result_bind_Ok {A B} (m : result A) (k : A → result B) b :
  m ≫= k = Ok b ↔ ∃ a, m = Ok a ∧ k a = Ok b.
Proof. destruct m; cbn; naive_solver. Qed.

Lemma from_opt_Ok {A} why (o : option A) a : from_opt why o = Ok a ↔ o = Some a.
Proof. destruct o; cbn; naive_solver. Qed.

(** ** Machine integers

    A [w]-bit unsigned integer is a [Z] reduced modulo [2^w]; a signed one is
    the two's complement representative. *)

Definition wrap (w x : Z) : Z := x mod 2 ^ w.
Definition swrap (w x : Z) : Z := (x + 2 ^ (w - 1)) mod 2 ^ w - 2 ^ (w - 1).

Abbreviation u8 := (wrap 8).
Abbreviation u16 := (wrap 16).
Abbreviation u32 := (wrap 32).
Abbreviation u64 := (wrap 64).
Abbreviation i16 := (swrap 16).
Abbreviation i32 := (swrap 32).

(** [x << n] on a [w]-bit operand: a shift count outside [0, w) is undefined. *)
Definition shl (w x n : Z) : option Z :=
  if bool_decide (0 ≤ n < w) then Some (wrap w (Z.shiftl x n)) else None.

Definition shr (w x n : Z) : option Z :=
  if bool_decide (0 ≤ n < w) then Some (Z.shiftr x n) else None.

(** Truth value of an integer condition. *)
Definition nonzero (x : Z) : bool := negb (x =? 0).

Lemma wrap_range w x : 0 ≤ w → 0 ≤ wrap w x < 2 ^ w.
Proof. intros. apply Z.mod_pos_bound. lia. Qed.

Lemma wrap_small w x : 0 ≤ x < 2 ^ w → wrap w x = x.
Proof. apply Z.mod_small. Qed.

Lemma wrap_wrap w x : 0 ≤ w → wrap w (wrap w x) = wrap w x.
Proof. intros. apply Z.mod_mod. lia. Qed.

Lemma wrap_add_wrap_l w x y : wrap w (wrap w x + y) = wrap w (x + y).
Proof. apply Zplus_mod_idemp_l. Qed.

Lemma wrap_add_wrap_r w x y : wrap w (x + wrap w y) = wrap w (x + y).
Proof. apply Zplus_mod_idemp_r. Qed.

Lemma swrap_range w x : 0 < w → - 2 ^ (w - 1) ≤ swrap w x < 2 ^ (w - 1).
Proof.
  intros. unfold swrap.
  assert (2 ^ w = 2 * 2 ^ (w - 1)) as E.
  { replace w with (Z.succ (w - 1)) at 1 by lia. apply Z.pow_succ_r. lia. }
  pose proof (Z.mod_pos_bound (x + 2 ^ (w - 1)) (2 ^ w) ltac:(lia)). lia.
Qed.

Lemma swrap_small w x : 0 < w → - 2 ^ (w - 1) ≤ x < 2 ^ (w - 1) → swrap w x = x.
Proof.
  intros Hw Hx. unfold swrap.
  assert (2 ^ w = 2 * 2 ^ (w - 1)) as E.
  { replace w with (Z.succ (w - 1)) at 1 by lia. apply Z.pow_succ_r. lia. }
  rewrite Z.mod_small by lia. lia.
Qed.

(** Reading a signed integer back as unsigned loses nothing. *)
Lemma wrap_swrap w x : 0 < w → wrap w (swrap w x) = wrap w x.
Proof.
  intros Hw. unfold wrap, swrap.
  rewrite Zminus_mod_idemp_l. f_equal. lia.
Qed.

Lemma swrap_wrap w x : 0 < w → swrap w (wrap w x) = swrap w x.
Proof. intros. unfold wrap, swrap. by rewrite Zplus_mod_idemp_l. Qed.

(** Bitwise equality: push [Z.testbit] to the leaves, decide the index
    comparisons with [lia], and finish propositionally. *)
Ltac zbits_push :=
  repeat first
    [ rewrite Z.land_spec | rewrite Z.lor_spec | rewrite Z.bits_0
    | rewrite Z.shiftr_spec by lia | rewrite Z.shiftl_spec by lia
    | rewrite Z.testbit_ones by lia
    | match goal with
      | |- context [Z.testbit ?x ?e] =>
          lazymatch x with
          | Z.shiftr _ _ => idtac | Z.shiftl _ _ => idtac | Z.ones _ => idtac
          end;
          destruct (Z.ltb_spec e 0); [rewrite (Z.testbit_neg_r x e) by lia|]
      end ].

Ltac zbits_leaf :=
  repeat match goal with
  | |- context [Z.leb ?a ?b] => destruct (Z.leb_spec a b); try lia
  | |- context [Z.ltb ?a ?b] => destruct (Z.ltb_spec a b); try lia
  | |- context [Z.testbit ?x ?a] => rewrite (Z.testbit_neg_r x a) by lia
  | |- context [Z.testbit ?x ?a] =>
      match goal with
      | |- context [Z.testbit x ?b] => assert_fails (constr_eq a b); replace a with b by lia
      end
  end; cbn [andb orb negb];
  rewrite ?andb_false_r, ?andb_true_r, ?orb_false_r, ?orb_true_r;
  repeat match goal with
  | |- context [Z.testbit ?x ?i] => destruct (Z.testbit x i)
  end; try done.

Ltac zbits :=
  apply Z.bits_inj'; let i := fresh "i" in let Hi := fresh "Hi" in intros i Hi;
  zbits_push; zbits_leaf.

(** ** Network byte order *)

Definition bswap32 (x : Z) : Z :=
  Z.lor (Z.shiftl (Z.land x 0xFF) 24)
  (Z.lor (Z.shiftl (Z.land (Z.shiftr x 8) 0xFF) 16)
  (Z.lor (Z.shiftl (Z.land (Z.shiftr x 16) 0xFF) 8)
         (Z.land (Z.shiftr x 24) 0xFF))).

Definition htonl (x : Z) : Z := bswap32 (u32 x).
Definition ntohl (x : Z) : Z := bswap32 (u32 x).

Lemma land_wrap w x : 0 ≤ w → Z.land x (Z.ones w) = wrap w x.
Proof. intros. by apply Z.land_ones. Qed.

Lemma bswap32_involutive x : bswap32 (bswap32 x) = u32 x.
Proof.
  rewrite <-land_wrap by lia. unfold bswap32. change 0xFF with (Z.ones 8).
  zbits.
Qed.

Lemma bswap32_range x : 0 ≤ bswap32 x < 2 ^ 32.
Proof.
  assert (bswap32 x = wrap 32 (bswap32 x)) as ->; [|by apply wrap_range].
  rewrite <-land_wrap by lia. unfold bswap32. change 0xFF with (Z.ones 8).
  zbits.
Qed.

Lemma ntohl_htonl x : ntohl (htonl x) = u32 x.
Proof.
  unfold ntohl, htonl. rewrite (wrap_small 32 (bswap32 _)) by apply bswap32_range.
  rewrite bswap32_involutive. by apply wrap_wrap.
Qed.

(** ** Bit fields *)

Lemma lor_shiftl_add x y n : 0 ≤ n → 0 ≤ y < 2 ^ n →
  Z.lor (Z.shiftl x n) y = Z.shiftl x n + y.
Proof.
  intros Hn Hy. rewrite <-Z.lxor_lor; [symmetry; apply Z.add_nocarry_lxor|].
  all: apply Z.bits_inj'; intros k Hk;
    rewrite Z.land_spec, Z.bits_0, Z.shiftl_spec by done;
    destruct (decide (k < n));
    [rewrite (Z.testbit_neg_r x) by lia; done|];
    rewrite andb_false_iff; right;
    rewrite <-(Z.mod_small y (2 ^ n)) by done;
    apply Z.mod_pow2_bits_high; lia.
Qed.

(** ** Lists *)

Definition range (n : Z) : list Z := seqZ 0 n.

Lemma elem_of_range i n : i ∈ range n ↔ 0 ≤ i < n.
Proof. unfold range. rewrite elem_of_seqZ. lia. Qed.

Lemma length_range n : length (range n) = Z.to_nat n.
Proof. apply length_seqZ. Qed.

(** Index of a list by a [Z], as a subscript of a C array or vector. *)
Definition znth {A} (l : list A) (i : Z) : option A :=
  if bool_decide (0 ≤ i) then l !! Z.to_nat i else None.

Definition zset {A} (l : list A) (i : Z) (a : A) : option (list A) :=
  if bool_decide (0 ≤ i < Z.of_nat (length l)) then Some (<[Z.to_nat i := a]> l) else None.

Lemma znth_Some {A} (l : list A) i :
  0 ≤ i < Z.of_nat (length l) → is_Some (znth l i).
Proof.
  intros. unfold znth. rewrite bool_decide_eq_true_2 by lia.
  apply lookup_lt_is_Some. lia.
Qed.

Lemma znth_lt {A} (l : list A) i a : znth l i = Some a → 0 ≤ i < Z.of_nat (length l).
Proof.
  unfold znth. case_bool_decide; [|done]. intros ?%lookup_lt_Some. lia.
Qed.

Lemma znth_In {A} (l : list A) i a : znth l i = Some a → a ∈ l.
Proof. unfold znth. case_bool_decide; [|done]. apply list_elem_of_lookup_2. Qed.

Lemma znth_zset {A} (l l' : list A) i j a b :
  zset l i a = Some l' → znth l' j = Some b → (j = i ∧ b = a) ∨ (j ≠ i ∧ znth l j = Some b).
Proof.
  unfold zset, znth. case_bool_decide as Hi; [|done]. intros [= <-]. case_bool_decide; [|done].
  destruct (decide (j = i)) as [->|Hne].
  - rewrite list_lookup_insert_eq by lia. intros [= ->]. by left.
  - rewrite list_lookup_insert_ne by lia. by right.
Qed.

(** ** Fixed-size character arrays

    A [char\[n\]] is a list of [n] characters; [strncpy] copies at most [n]
    characters and pads with NUL; reading a C string stops at the first NUL and
    is undefined when there is none in the array. *)

Definition nul : Ascii.ascii := Ascii.zero.

Definition strncpy (n : nat) (s : list Ascii.ascii) : list Ascii.ascii :=
  take n (s ++ replicate n nul).

Fixpoint c_str (a : list Ascii.ascii) : option (list Ascii.ascii) :=
  match a with
  | [] => None
  | c :: a' => if Ascii.eqb c nul then Some [] else cons c <$> c_str a'
  end.

Lemma length_strncpy n s : length (strncpy n s) = n.
Proof. unfold strncpy. rewrite length_take, length_app, length_replicate. lia. Qed.

Lemma c_str_app s rest : nul ∉ s → c_str (s ++ nul :: rest) = Some s.
Proof.
  induction s as [|c s IH]; intros Hn; cbn [app c_str]; [done|].
  apply not_elem_of_cons in Hn as [Hc Hs].
  destruct (Ascii.eqb_spec c nul) as [->|]; [done|]. by rewrite IH.
Qed.

Lemma c_str_no_nul a : nul ∉ a → c_str a = None.
Proof.
  induction a as [|c a IH]; intros Hn; cbn [c_str]; [done|].
  apply not_elem_of_cons in Hn as [Hc Hs].
  destruct (Ascii.eqb_spec c nul) as [->|]; [done|]. by rewrite IH.
Qed.

(** A string that leaves room for its terminator survives [strncpy]. *)
Lemma c_str_strncpy n s : nul ∉ s → (length s < n)%nat → c_str (strncpy n s) = Some s.
Proof.
  intros Hs Hl. unfold strncpy.
  replace (take n (s ++ replicate n nul))
    with (s ++ nul :: replicate (n - length s - 1) nul); [by apply c_str_app|].
  rewrite take_app_ge by lia. f_equal.
  rewrite take_replicate. replace (_ `min` _)%nat with (S (n - length s - 1)) by lia. done.
Qed.

Lemma c_str_strncpy_full n s : nul ∉ s → (n ≤ length s)%nat → c_str (strncpy n s) = None.
Proof.
  intros Hs Hl. apply c_str_no_nul. unfold strncpy.
  rewrite take_app_le by lia. intros Hin. apply Hs.
  apply list_elem_of_lookup in Hin as [i Hi].
  apply lookup_take_Some in Hi as [Hi _]. by eapply list_elem_of_lookup_2.
Qed.

(** ** Automation *)

Create HintDb rfaas discriminated.
#[export] Hint Resolve wrap_range swrap_range wrap_small swrap_small bswap32_range : rfaas.

(** Split the booleans of the goal and hypotheses and close with [lia]. *)
Ltac bsolve := repeat case_bool_decide; repeat case_match; try done; try lia.

(** Destruct a [bind] that ended well. *)
Ltac inv_ok :=
  repeat match goal with
  | H : Ok _ = Ok _ |- _ => apply (f_equal (λ r, match r with Ok a => Some a | _ => None end)) in H; simplify_eq/=
  | H : Fault _ = Ok _ |- _ => discriminate H
  | H : Ok _ = Fault _ |- _ => discriminate H
  | H : @mbind result _ _ _ _ _ = Ok _ |- _ =>
      let a := fresh "v" in let E := fresh "E" in
      apply result_bind_Ok in H as (a & E & H)
  | H : from_opt _ _ = Ok _ |- _ => apply from_opt_Ok in H
  end.
