(* ===== verification/CommandLine.v ===== *)
(** * Command lines

    The options of the programs are parsed by cxxopts, a third-party library: it is a parameter, a class
    with its documented behaviour as laws, and [reference_parser] is an instance.  The programs that use it
    are in ExecutorOptions.v and the files of the other programs. *)

From stdpp Require Import pretty.
From S2P Require Import Prelude.

Module CommandLine.

(** ** The parser *)

(** An option: its short name (empty if it has none), its name, whether it is a flag (a [bool], which takes
    no argument), its default. *)
Record option_spec := mk_option { o_short : string; o_name : string; o_flag : bool; o_default : option string }.

(** The option an argument names: [--name] or [-s]. *)
Definition find_option (specs : list option_spec) (arg : string) : option option_spec :=
  snd <$> list_find (λ o, arg = "--" +:+ o_name o ∨ o_short o ≠ "" ∧ arg = "-" +:+ o_short o)%string specs.

Definition default_value (specs : list option_spec) (name : string) : option string :=
  list_find (λ o, o_name o = name) specs ≫= o_default ∘ snd.

(** Options with their values; a flag has none. *)
Definition arguments (args : list (string * option string)) : list string := args ≫= λ a, a.1 :: option_list a.2.

Definition well_formed (specs : list option_spec) (a : string * option string) : Prop :=
  ∃ o, find_option specs a.1 = Some o ∧ o_flag o = bool_decide (a.2 = None).

(** What was given, in order; a flag that is given is [true]. *)
Definition occurrences (specs : list option_spec) (args : list (string * option string)) : list (string * string) :=
  omap (λ a, o ← find_option specs a.1; Some (o_name o, default "true"%string a.2)) args.

Definition given (occ : list (string * string)) (name : string) : list string := snd <$> filter (λ x, x.1 = name) occ.

(** The value of an option is the last one given, or the default. *)
Definition last_value (specs : list option_spec) (occ : list (string * string)) (name : string) : option string :=
  match last (given occ name) with Some v => Some v | None => default_value specs name end.

(** [options.parse(argc, argv)], [None] for an exception, then [parsed_options\[name\]] and
    [parsed_options.count(name)]; [as<T>()]. *)
Class Cxxopts := {
  cx_parse : list option_spec → list string → option ((string → option string) * (string → nat));
  cx_int : string → option Z;
  cx_u64 : string → option Z;
  cx_u32 : string → option Z;
  cx_bool : string → option bool;
}.

Definition to_string (n : Z) : string := pretty n.

(** Declared options are accepted, each with a value unless it is a flag; decimal numbers in the range of the
    type are read. *)
Class CxxoptsLaws (cx : Cxxopts) : Prop := {
  cx_accepts : ∀ specs program args, Forall (well_formed specs) args →
    ∃ p, cx_parse specs (program :: arguments args) = Some p ∧
      ∀ name, p.1 name = last_value specs (occurrences specs args) name ∧
              p.2 name = length (given (occurrences specs args) name);
  cx_int_decimal : ∀ n, - 2 ^ 31 ≤ n < 2 ^ 31 → cx_int (to_string n) = Some n;
  cx_u64_decimal : ∀ n, 0 ≤ n < 2 ^ 64 → cx_u64 (to_string n) = Some n;
  cx_u32_decimal : ∀ n, 0 ≤ n < 2 ^ 32 → cx_u32 (to_string n) = Some n;
  cx_bool_false : cx_bool "false" = Some false;
  cx_bool_true : cx_bool "true" = Some true;
}.

Section Values.
Context `{Cxxopts}.

Definition or_throw {A} (what : string) (o : option A) : result A :=
  match o with Some a => Ok a | None => Fault (Throw what) end.

(** [parsed_options\[name\].as<T>()] *)
Definition as_type {A} (read : string → option A) (p : string → option string) (name : string) : result A :=
  s ← or_throw "option has no value" (p name); or_throw "argument incorrect type" (read s).

Definition as_string : (string → option string) → string → result string := as_type Some.
Definition as_int : (string → option string) → string → result Z := as_type cx_int.
Definition as_bool : (string → option string) → string → result bool := as_type cx_bool.

Lemma as_type_Some {A} (read : string → option A) p name v a :
  p name = Some v → read v = Some a → as_type read p name = Ok a.
Proof using. intros Hp Hr. unfold as_type. rewrite Hp. cbn. by rewrite Hr. Qed.

Lemma as_int_to_string `{!CxxoptsLaws _} p name n :
  p name = Some (to_string n) → - 2 ^ 31 ≤ n < 2 ^ 31 → as_int p name = Ok n.
Proof using. intros Hp Hn. eapply as_type_Some; [exact Hp|]. by apply cx_int_decimal. Qed.
End Values.

(** ** A parser

    Arguments are taken in order; an option that is not a flag takes the next argument as its value; an
    argument that names no option is skipped.  Numbers are decimal, with a sign. *)

Fixpoint walk (specs : list option_spec) (args : list string) : list (string * string) :=
  match args with
  | [] => []
  | arg :: rest =>
      match find_option specs arg with
      | None => walk specs rest
      | Some o =>
          if o_flag o then (o_name o, "true"%string) :: walk specs rest else
          match rest with [] => [] | value :: rest => (o_name o, value) :: walk specs rest end
      end
  end.

Definition digit (c : Ascii.ascii) : option Z :=
  let n := Z.of_N (Ascii.N_of_ascii c) - 48 in if bool_decide (0 ≤ n < 10) then Some n else None.

Fixpoint read_digits (s : string) (acc : Z) : option Z :=
  match s with
  | EmptyString => Some acc
  | String c s => d ← digit c; read_digits s (10 * acc + d)
  end.

Definition dash : Ascii.ascii := Ascii.ascii_of_N 45.

Definition read_number (s : string) : option Z :=
  match s with
  | EmptyString => None
  | String c s' => if Ascii.eqb c dash then Z.opp <$> read_digits s' 0 else read_digits s 0
  end.

Definition within (lo hi : Z) (n : option Z) : option Z :=
  n ← n; if bool_decide (lo ≤ n < hi) then Some n else None.

Definition reference_parser : Cxxopts := {|
  cx_parse := λ specs argv, let occ := walk specs (tail argv) in
    Some (last_value specs occ, λ name, length (given occ name));
  cx_int := λ s, within (- 2 ^ 31) (2 ^ 31) (read_number s);
  cx_u64 := λ s, within 0 (2 ^ 64) (read_number s);
  cx_u32 := λ s, within 0 (2 ^ 32) (read_number s);
  cx_bool := λ s, if bool_decide (s = "true") then Some true
                  else if bool_decide (s = "false") then Some false else None;
|}.

Lemma digit_char d : (d < 10)%N → digit (pretty_N_char d) = Some (Z.of_N d).
Proof.
  intros Hd. assert (d = 0 ∨ d = 1 ∨ d = 2 ∨ d = 3 ∨ d = 4 ∨ d = 5 ∨ d = 6 ∨ d = 7 ∨ d = 8 ∨ d = 9)%N as Hc by lia.
  destruct_or! Hc; subst d; reflexivity.
Qed.

(** Reading the digits of [x], most significant first, then those of [s]. *)
Lemma read_digits_go x s : ∃ k, 0 ≤ k ∧ ∀ acc, read_digits (pretty_N_go x s) acc = read_digits s (acc * 10 ^ k + Z.of_N x).
Proof.
  revert s. induction (N.lt_wf_0 x) as [x _ IH]; intros s. destruct (decide (x = 0)%N) as [->|Hx].
  { exists 0. split; [done|]. intros acc. rewrite pretty_N_go_0. f_equal. lia. }
  rewrite pretty_N_go_step by lia.
  destruct (IH (x `div` 10)%N ltac:(apply N.div_lt; lia) (String (pretty_N_char (x `mod` 10)) s)) as (k & Hk & E).
  exists (k + 1). split; [lia|]. intros acc. rewrite E. cbn [read_digits]. rewrite digit_char by (apply N.mod_lt; lia).
  cbn. f_equal. rewrite Z.pow_add_r by lia. pose proof (N.div_mod x 10 ltac:(lia)). lia.
Qed.

Lemma read_digits_pos p acc : acc = 0 → read_digits (pretty (N.pos p)) acc = Some (Z.pos p).
Proof.
  intros ->. unfold pretty, pretty_N. rewrite decide_False by done.
  destruct (read_digits_go (N.pos p) "") as (k & _ & ->). done.
Qed.

Lemma read_to_string n : read_number (to_string n) = Some n.
Proof.
  unfold to_string. destruct n as [|p|p].
  - reflexivity.
  - change (pretty (Z.pos p)) with (pretty (N.pos p)).
    assert (∀ s', pretty (N.pos p) ≠ "-" +:+ s') as Hd.
    { intros s'. unfold pretty, pretty_N. rewrite decide_False by done. by apply pretty_N_go_ne_dash. }
    pose proof (read_digits_pos p 0 eq_refl) as E. unfold read_number.
    destruct (pretty (N.pos p)) as [|c s'] eqn:Ep; [discriminate E|].
    destruct (Ascii.eqb_spec c dash) as [->|Hc]; [by destruct (Hd s')|done].
  - change (pretty (Z.neg p)) with (String dash (pretty (N.pos p))). cbn [read_number].
    rewrite Ascii.eqb_refl. by rewrite read_digits_pos.
Qed.

Lemma within_range lo hi n : lo ≤ n < hi → within lo hi (Some n) = Some n.
Proof. intros Hn. unfold within. cbn. by rewrite bool_decide_eq_true_2. Qed.

Lemma walk_arguments specs args :
  Forall (well_formed specs) args → walk specs (arguments args) = occurrences specs args.
Proof.
  induction 1 as [|[arg value] args (o & Ho & Hf) _ IH]; [done|]. cbn [fst snd] in Ho, Hf.
  change (arguments ((arg, value) :: args)) with (arg :: option_list value ++ arguments args).
  cbn [walk]. unfold occurrences. cbn [omap list_omap fst snd]. rewrite Ho. cbn [mbind option_bind].
  fold (occurrences specs args). rewrite Hf, <-IH. by destruct value as [v|]; cbn.
Qed.

#[global] Instance reference_laws : CxxoptsLaws reference_parser.
Proof.
  split.
  - intros specs program args Ha. eexists. split; [reflexivity|]. intros name. cbn [fst snd tail].
    by rewrite walk_arguments.
  - intros n Hn. cbn [cx_int reference_parser]. rewrite read_to_string. by apply within_range.
  - intros n Hn. cbn [cx_u64 reference_parser]. rewrite read_to_string. by apply within_range.
  - intros n Hn. cbn [cx_u32 reference_parser]. rewrite read_to_string. by apply within_range.
  - reflexivity.
  - reflexivity.
Qed.
End CommandLine.
