(* ===== verification/PrivateData.v ===== *)
(** * Connection private data

    [rdmalib::PrivateData<Key, UserData, Secret>] of
    src/rdmalib/include/rdmalib/connection.hpp: three bit fields packed in the
    32-bit word that the RDMA connection manager hands to the passive side.
    The word is the model's state; a setter returns the new word, an accessor
    the field; [None] is a shift count the language leaves undefined. *)

From S2P Require Import Prelude.

Module PrivateData.

Section Template.
(** The template parameters. *)
Context (Key UserData Secret : Z).

(** [(static_cast<uint32_t>(1) << n) - 1] *)
Definition pattern (n : Z) : option Z :=
  one ← shl 32 1 n; Some (u32 (one - 1)).

Definition secret (d : Z) : option Z :=
  p ← pattern Secret; Some (Z.land d p).

Definition set_secret (value d : Z) : option Z :=
  p ← pattern Secret; Some (Z.lor d (Z.land value p)).

Definition key (d : Z) : option Z :=
  p ← pattern Key;
  p ← shl 32 p (UserData + Secret);
  shr 32 (Z.land d p) (UserData + Secret).

Definition set_key (value d : Z) : option Z :=
  p ← pattern Key;
  v ← shl 32 (Z.land value p) (UserData + Secret);
  Some (Z.lor d v).

Definition user_data (d : Z) : option Z :=
  p ← pattern UserData;
  p ← shl 32 p Secret;
  shr 32 (Z.land d p) Secret.

Definition set_user_data (value d : Z) : option Z :=
  p ← pattern UserData;
  v ← shl 32 (Z.land value p) Secret;
  Some (Z.lor d v).

(** Every shift count of the class is below the width and the fields fit. *)
Definition template_ok : Prop :=
  0 ≤ Key ∧ 0 ≤ UserData ∧ 0 ≤ Secret ∧
  Key < 32 ∧ UserData < 32 ∧ UserData + Secret < 32 ∧
  Key + UserData + Secret ≤ 32.
End Template.

(** ** Closed forms *)

Lemma pattern_ones n : 0 ≤ n < 32 → pattern n = Some (Z.ones n).
Proof.
  intros Hn. unfold pattern, shl. rewrite bool_decide_eq_true_2 by done. cbn.
  assert (0 < 2 ^ n < 2 ^ 32) by (split; [lia|apply Z.pow_lt_mono_r; lia]).
  rewrite Z.shiftl_1_l, Z.ones_equiv.
  rewrite (wrap_small 32 (2 ^ n)) by lia. rewrite wrap_small by lia. f_equal; lia.
Qed.

Lemma wrap_shiftl_land w x k n : 0 ≤ k → 0 ≤ n → k + n ≤ w →
  wrap w (Z.shiftl (Z.land x (Z.ones k)) n) = Z.shiftl (wrap k x) n.
Proof.
  intros. rewrite land_wrap by done. apply wrap_small.
  pose proof (wrap_range k x ltac:(done)).
  rewrite Z.shiftl_mul_pow2 by done. split; [nia|].
  apply Z.lt_le_trans with (2 ^ k * 2 ^ n); [nia|].
  rewrite <-Z.pow_add_r by done. apply Z.pow_le_mono_r; lia.
Qed.

Section Closed.
Context (K U S : Z) (Hok : template_ok K U S).

Lemma secret_closed d : secret S d = Some (wrap S d).
Proof using Hok.
  destruct Hok as (?&?&?&?&?&?&?). unfold secret. rewrite pattern_ones by lia.
  cbn. by rewrite land_wrap.
Qed.

Lemma set_secret_closed v d : set_secret S v d = Some (Z.lor d (wrap S v)).
Proof using Hok.
  destruct Hok as (?&?&?&?&?&?&?). unfold set_secret. rewrite pattern_ones by lia.
  cbn. by rewrite land_wrap.
Qed.

Lemma set_key_closed v d :
  set_key K U S v d = Some (Z.lor d (Z.shiftl (wrap K v) (U + S))).
Proof using Hok.
  destruct Hok as (?&?&?&?&?&?&?). unfold set_key. rewrite pattern_ones by lia. cbn.
  unfold shl. rewrite bool_decide_eq_true_2 by lia. cbn. do 2 f_equal.
  by rewrite wrap_shiftl_land by lia.
Qed.

Lemma set_user_data_closed v d :
  set_user_data U S v d = Some (Z.lor d (Z.shiftl (wrap U v) S)).
Proof using Hok.
  destruct Hok as (?&?&?&?&?&?&?). unfold set_user_data. rewrite pattern_ones by lia. cbn.
  unfold shl. rewrite bool_decide_eq_true_2 by lia. cbn. do 2 f_equal.
  by rewrite wrap_shiftl_land by lia.
Qed.

Lemma wrap_shiftl_ones k n : 0 ≤ k → 0 ≤ n → k + n ≤ 32 →
  wrap 32 (Z.shiftl (Z.ones k) n) = Z.shiftl (Z.ones k) n.
Proof using.
  intros. rewrite <-(Z.land_diag (Z.ones k)).
  rewrite wrap_shiftl_land by lia. by rewrite land_wrap by lia.
Qed.

Lemma field_shift d k n : 0 ≤ k → 0 ≤ n →
  Z.shiftr (Z.land d (Z.shiftl (Z.ones k) n)) n = wrap k (Z.shiftr d n).
Proof using. intros. rewrite <-land_wrap by done. zbits. Qed.

Lemma key_closed d : key K U S d = Some (wrap K (Z.shiftr d (U + S))).
Proof using Hok.
  destruct Hok as (?&?&?&?&?&?&?). unfold key. rewrite pattern_ones by lia. cbn.
  unfold shl, shr. rewrite !bool_decide_eq_true_2 by lia. cbn.
  rewrite wrap_shiftl_ones by lia. by rewrite field_shift by lia.
Qed.

Lemma user_data_closed d : user_data U S d = Some (wrap U (Z.shiftr d S)).
Proof using Hok.
  destruct Hok as (?&?&?&?&?&?&?). unfold user_data. rewrite pattern_ones by lia. cbn.
  unfold shl, shr. rewrite !bool_decide_eq_true_2 by lia. cbn.
  rewrite wrap_shiftl_ones by lia. by rewrite field_shift by lia.
Qed.
End Closed.

(** ** Fields do not overlap *)

Section Fields.
Context (K U S : Z) (Hok : template_ok K U S).

Lemma field_of_lor k n d v : 0 ≤ k → 0 ≤ n →
  wrap k (Z.shiftr (Z.lor d (Z.shiftl (wrap k v) n)) n) =
  Z.lor (wrap k (Z.shiftr d n)) (wrap k v).
Proof using. intros. rewrite <-!land_wrap by done. zbits. Qed.

Lemma field_of_lor_low k n k' n' d v : 0 ≤ k → 0 ≤ n → 0 ≤ k' → 0 ≤ n' → k' + n' ≤ n →
  wrap k (Z.shiftr (Z.lor d (Z.shiftl (wrap k' v) n')) n) = wrap k (Z.shiftr d n).
Proof using. intros. rewrite <-!land_wrap by done. zbits. Qed.

Lemma field_of_lor_high k n k' n' d v : 0 ≤ k → 0 ≤ n → 0 ≤ k' → 0 ≤ n' → k + n ≤ n' →
  wrap k (Z.shiftr (Z.lor d (Z.shiftl (wrap k' v) n')) n) = wrap k (Z.shiftr d n).
Proof using. intros. rewrite <-!land_wrap by done. zbits. Qed.

Lemma lor_range a b w : 0 ≤ w → 0 ≤ a < 2 ^ w → 0 ≤ b < 2 ^ w → 0 ≤ Z.lor a b < 2 ^ w.
Proof using.
  intros Hw Ha Hb. rewrite <-(wrap_small w a), <-(wrap_small w b) by done.
  assert (Z.lor (wrap w a) (wrap w b) = wrap w (Z.lor (wrap w a) (wrap w b))) as ->.
  { rewrite <-!land_wrap by done. zbits. }
  by apply wrap_range.
Qed.

Lemma shifted_range k n v w : 0 ≤ k → 0 ≤ n → k + n ≤ w →
  0 ≤ Z.shiftl (wrap k v) n < 2 ^ w.
Proof using.
  intros. rewrite <-(wrap_shiftl_land w) by lia. apply wrap_range. lia.
Qed.
End Fields.

(** ** Theorems *)

(** C35. Round trip of the packed private data. For every template whose shifts
    are defined and whose three fields fit in 32 bits, writing the secret, the key and the user data of an empty
    [PrivateData] is defined, fits in 32 bits, and each accessor gives back the
    low bits of what was written: the three fields do not disturb each other. *)
Theorem private_data_roundtrip (K U S : Z) (s k u : Z) :
  template_ok K U S →
  ∃ d, (d1 ← set_secret S s 0; d2 ← set_key K U S k d1; set_user_data U S u d2) = Some d ∧
       0 ≤ d < 2 ^ 32 ∧
       secret S d = Some (wrap S s) ∧
       key K U S d = Some (wrap K k) ∧
       user_data U S d = Some (wrap U u).
Proof.
  intros Hok. pose proof Hok as (?&?&?&?&?&?&?).
  rewrite (set_secret_closed K U S) by done. cbn [mbind option_bind].
  rewrite set_key_closed by done. cbn [mbind option_bind].
  rewrite (set_user_data_closed K U S) by done.
  eexists; split; [done|]. rewrite Z.lor_0_l. split.
  { apply lor_range; [lia| |apply shifted_range; lia].
    apply lor_range; [lia| |apply shifted_range; lia].
    pose proof (wrap_range S s ltac:(lia)).
    assert (2 ^ S ≤ 2 ^ 32) by (apply Z.pow_le_mono_r; lia). lia. }
  rewrite (secret_closed K U S), key_closed, (user_data_closed K U S) by done.
  repeat split; f_equal.
  - rewrite <-(Z.shiftr_0_r (Z.lor _ _)) , !field_of_lor_high by lia.
    by rewrite Z.shiftr_0_r, wrap_wrap by lia.
  - rewrite field_of_lor_low, field_of_lor by lia.
    rewrite <-!land_wrap by lia. zbits.
  - rewrite field_of_lor, field_of_lor_high by lia.
    rewrite <-!land_wrap by lia. zbits.
Qed.

Lemma private_data_roundtrip_witness :
  template_ok 8 8 16 ∧
  ∃ d, (d1 ← set_secret 16 0x12345 0; d2 ← set_key 8 8 16 1 d1; set_user_data 8 16 7 d2) = Some d ∧
       0 ≤ d < 2 ^ 32 ∧
       secret 16 d = Some (wrap 16 0x12345) ∧
       key 8 8 16 d = Some (wrap 8 1) ∧
       user_data 8 16 d = Some (wrap 8 7).
Proof.
  split; [repeat split; lia|].
  apply (private_data_roundtrip 8 8 16 0x12345 1 7). repeat split; lia.
Defined.

(** A setter only adds bits: a second [key(value)] or [secret(value)] on the
    same object yields the bitwise or of both values, and leaves the other two
    fields as they were. *)
Theorem private_data_setters_accumulate (K U S : Z) (v d : Z) :
  template_ok K U S →
  (∃ d' o, set_key K U S v d = Some d' ∧ key K U S d = Some o ∧
     key K U S d' = Some (Z.lor o (wrap K v)) ∧
     secret S d' = secret S d ∧ user_data U S d' = user_data U S d) ∧
  (∃ d' o, set_secret S v d = Some d' ∧ secret S d = Some o ∧
     secret S d' = Some (Z.lor o (wrap S v)) ∧
     key K U S d' = key K U S d ∧ user_data U S d' = user_data U S d).
Proof.
  intros Hok. pose proof Hok as (?&?&?&?&?&?&?).
  rewrite set_key_closed, (set_secret_closed K U S) by done. split; do 2 eexists.
  all: rewrite !(secret_closed K U S), !key_closed, !(user_data_closed K U S) by done.
  all: repeat split; f_equal.
  - by rewrite field_of_lor by lia.
  - rewrite <-(Z.shiftr_0_r (Z.lor _ _)), field_of_lor_high by lia. by rewrite Z.shiftr_0_r.
  - by rewrite field_of_lor_high by lia.
  - rewrite <-!land_wrap by lia. zbits.
  - rewrite <-(Z.shiftl_0_r (wrap S v)). by rewrite field_of_lor_low by lia.
  - rewrite <-(Z.shiftl_0_r (wrap S v)). by rewrite field_of_lor_low by lia.
Qed.

Lemma private_data_setters_accumulate_witness :
  template_ok 8 8 16 ∧
  (∃ d' o, set_key 8 8 16 2 0x01000003 = Some d' ∧ key 8 8 16 0x01000003 = Some o ∧
     key 8 8 16 d' = Some (Z.lor o (wrap 8 2)) ∧
     secret 16 d' = secret 16 0x01000003 ∧ user_data 8 16 d' = user_data 8 16 0x01000003).
Proof.
  split; [repeat split; lia|].
  apply (private_data_setters_accumulate 8 8 16 2 0x01000003). repeat split; lia.
Defined.

(** The instantiation [PrivateData<0, 0, 32>] that the executor manager uses
    for the identifier of a client shifts a 32-bit one by 32: neither its secret
    accessor nor its setter has a defined result, for any value and word. *)
Theorem full_width_secret_undefined (v d : Z) :
  secret 32 d = None ∧ set_secret 32 v d = None ∧ key 0 0 32 d = None ∧ set_key 0 0 32 v d = None.
Proof. done. Qed.

End PrivateData.
