(* ===== verification/Verbs.v ===== *)
(** * The environment: RDMA verbs, connection manager, operating system

    The program's effects are calls of libibverbs, librdmacm and the operating
    system, none of which is part of the repository.  They are a parameter: an
    [Env] gives the answer to each call as a function of the calls made so far
    (the [trace], newest first).  Every operation of the program runs in the
    monad [M S], which threads the state [S] of the object it works on and the
    trace, so a theorem can speak about which calls were made, in which order and
    with which arguments, for every environment. *)

From S2P Require Import Prelude.

(** ** Data of the verbs interface *)

Record ibv_sge := mk_sge { sge_addr : Z; sge_length : Z; sge_lkey : Z }.

Record ibv_mr := mk_mr { mr_handle : Z; mr_addr : Z; mr_lkey : Z; mr_rkey : Z }.

(** A queue pair as the code reads it: its number and its completion queues;
    [qp_channel] is the completion channel of the receive queue. *)
Record ibv_qp := mk_qp { qp_num : Z; qp_send_cq : Z; qp_recv_cq : Z; qp_channel : Z }.

(** A communication identifier; a zero [cm_recv_cq_channel] is a null pointer. *)
Record rdma_cm_id := mk_cm_id {
  cm_handle : Z; cm_qp : ibv_qp; cm_recv_cq_channel : Z; cm_pd : Z }.

Inductive ibv_wr_opcode : Type :=
  | IBV_WR_RDMA_WRITE | IBV_WR_RDMA_WRITE_WITH_IMM | IBV_WR_SEND | IBV_WR_SEND_WITH_IMM
  | IBV_WR_ATOMIC_CMP_AND_SWP | IBV_WR_ATOMIC_FETCH_AND_ADD.

Definition IBV_SEND_SIGNALED : Z := 2.
Definition IBV_SEND_SOLICITED : Z := 4.
Definition IBV_SEND_INLINE : Z := 8.

Definition IBV_ACCESS_LOCAL_WRITE : Z := 1.
Definition IBV_ACCESS_REMOTE_WRITE : Z := 2.
Definition IBV_ACCESS_REMOTE_ATOMIC : Z := 8.

Definition IBV_WC_SUCCESS : Z := 0.

(** A send work request; [wr_remote_addr], [wr_rkey], [wr_compare_add] and
    [wr_swap] are the fields of the union [wr.rdma] / [wr.atomic]. *)
Record ibv_send_wr := mk_send_wr {
  wr_id : Z; wr_sg_list : list ibv_sge; wr_num_sge : Z; wr_opcode : ibv_wr_opcode;
  wr_send_flags : Z; wr_imm_data : Z;
  wr_remote_addr : Z; wr_rkey : Z; wr_compare_add : Z; wr_swap : Z }.

Record ibv_recv_wr := mk_recv_wr { rwr_id : Z; rwr_sg_list : list ibv_sge; rwr_num_sge : Z }.

Record ibv_wc := mk_wc {
  wc_status : Z; wc_wr_id : Z; wc_qp_num : Z; wc_imm_data : Z; wc_byte_len : Z }.

#[export] Instance ibv_sge_eq_dec : EqDecision ibv_sge.
Proof. solve_decision. Defined.
#[export] Instance ibv_qp_eq_dec : EqDecision ibv_qp.
Proof. solve_decision. Defined.
#[export] Instance rdma_cm_id_eq_dec : EqDecision rdma_cm_id.
Proof. solve_decision. Defined.
#[export] Instance ibv_wr_opcode_eq_dec : EqDecision ibv_wr_opcode.
Proof. solve_decision. Defined.
#[export] Instance ibv_send_wr_eq_dec : EqDecision ibv_send_wr.
Proof. solve_decision. Defined.
#[export] Instance ibv_recv_wr_eq_dec : EqDecision ibv_recv_wr.
Proof. solve_decision. Defined.
#[export] Instance ibv_wc_eq_dec : EqDecision ibv_wc.
Proof. solve_decision. Defined.

(** ** Calls and traces *)

Inductive call : Type :=
  | Cmmap (bytes : Z)
  | Cmunmap (ptr bytes : Z)
  | Creg_mr (pd ptr bytes access : Z)
  | Cdereg_mr (mr : Z)
  | Cpost_send (qp : ibv_qp) (wr : ibv_send_wr)
  | Cpost_recv (qp : ibv_qp) (wrs : list ibv_recv_wr)
  | Cpoll_cq (cq num : Z)
  | Creq_notify_cq (cq : Z) (only_solicited : bool)
  | Cget_cq_event (channel : Z)
  | Cack_cq_events (cq len : Z)
  | Ccreate_ep (addrinfo : Z)
  | Ccreate_qp (id : rdma_cm_id) (pd send_cq recv_cq : Z)
  | Cdestroy_qp (id : rdma_cm_id)
  | Cdestroy_ep (id : rdma_cm_id)
  | Cdestroy_id (id : rdma_cm_id)
  | Cconnect (id : rdma_cm_id) (private_data : option Z)
  | Cdisconnect (id : rdma_cm_id)
  | Caccept (id : rdma_cm_id)
  | Creject (id : rdma_cm_id)
  | Cget_cm_event
  | Cack_cm_event
  | Ccreate_comp_channel
  | Ccreate_cq (cqe channel : Z)
  | Cgetaddrinfo (host : string) (port : Z) (passive : bool)
  | Cfreeaddrinfo (info : Z)
  | Ccreate_event_channel
  | Cdestroy_event_channel (channel : Z)
  | Ccreate_id (channel : Z)
  | Cbind_addr (id : rdma_cm_id) (info : Z)
  | Clisten (id : rdma_cm_id) (backlog : Z)
  | Cget_src_port (id : rdma_cm_id)
  | Cdestroy_cq (cq : Z)
  | Cdestroy_comp_channel (channel : Z)
  | Cset_nonblocking (channel : Z)
  | Cpoll_fd (channel timeout : Z)
  | Cepoll_create
  | Cepoll_add (epoll channel data : Z)
  | Cepoll_wait (epoll max timeout : Z)
  | Cfork
  | Cexecvp (argv : list string)
  | Ckill (pid sig : Z)
  | Cwaitpid (pid options : Z)
  | Cclock
  | Cdlsym (name : string)
  | Cinvoke (func in_size : Z).

Abbreviation trace := (list call).

(** An event of the connection manager: the constants of [rdma_cm_event_type]
    the code distinguishes. [ev_id] is the identifier the event is about. *)
Inductive rdma_cm_event_type : Type :=
  | RDMA_CM_EVENT_ADDR_RESOLVED | RDMA_CM_EVENT_ADDR_ERROR | RDMA_CM_EVENT_ROUTE_RESOLVED
  | RDMA_CM_EVENT_ROUTE_ERROR | RDMA_CM_EVENT_CONNECT_REQUEST | RDMA_CM_EVENT_CONNECT_ERROR
  | RDMA_CM_EVENT_UNREACHABLE | RDMA_CM_EVENT_REJECTED | RDMA_CM_EVENT_ESTABLISHED
  | RDMA_CM_EVENT_DISCONNECTED | RDMA_CM_EVENT_DEVICE_REMOVAL | RDMA_CM_EVENT_OTHER.

Record rdma_cm_event := mk_cm_event {
  ev_event : rdma_cm_event_type; ev_id : rdma_cm_id;
  ev_private_data_len : Z; ev_private_data : Z }.

(** ** Environments *)

Class Env := {
  (** how many iterations of a spinning loop are followed *)
  env_spin : nat;
  (** whether the build defines NDEBUG, which removes [assert] *)
  env_ndebug : bool;
  env_mmap : trace → Z → Z;
  env_reg_mr : trace → Z → Z → Z → Z → option ibv_mr;
  env_post_send : trace → ibv_qp → ibv_send_wr → Z;
  env_post_recv : trace → ibv_qp → list ibv_recv_wr → Z;
  env_poll_cq : trace → Z → Z → Z * list ibv_wc;
  env_req_notify_cq : trace → Z → Z;
  env_get_cq_event : trace → Z → Z * Z;
  env_create_ep : trace → Z → Z * rdma_cm_id;
  env_create_qp : trace → rdma_cm_id → Z → Z → Z → Z * ibv_qp;
  env_destroy_id : trace → rdma_cm_id → Z;
  env_connect : trace → rdma_cm_id → Z;
  env_disconnect : trace → rdma_cm_id → Z;
  env_accept : trace → rdma_cm_id → Z;
  env_reject : trace → rdma_cm_id → Z;
  env_get_cm_event : trace → Z * rdma_cm_event;
  env_create_comp_channel : trace → Z;
  env_create_cq : trace → Z → Z → Z;
  env_getaddrinfo : trace → string → Z → Z * Z;
  env_create_event_channel : trace → Z;
  env_create_id : trace → Z * rdma_cm_id;
  env_bind_addr : trace → Z;
  env_listen : trace → Z;
  env_src_port : trace → Z;
  env_set_nonblocking : trace → Z → Z;
  env_poll_fd : trace → Z → Z;
  env_epoll_create : trace → Z;
  env_epoll_add : trace → Z → Z;
  env_epoll_wait : trace → Z * list Z;
  env_fork : trace → Z;
  (** the process found, its status and [errno] *)
  env_waitpid : trace → Z → Z → Z * Z * Z;
  (** nanoseconds *)
  env_clock : trace → Z;
  env_dlsym : trace → string → Z;
  env_invoke : trace → Z → Z → Z;
}.

(** ** The monad *)

Definition M (S A : Type) : Type := S → trace → result (A * S * trace).

#[export] Instance M_ret {S} : MRet (M S) := λ A a s t, Ok (a, s, t).

#[export] Instance M_bind {S} : MBind (M S) := λ A B k m s t,
  match m s t with
  | Ok (a, s', t') => k a s' t'
  | Fault f => Fault f
  end.

Definition read {S} : M S S := λ s t, Ok (s, s, t).
Definition gets {S A} (f : S → A) : M S A := λ s t, Ok (f s, s, t).
Definition modify {S} (f : S → S) : M S unit := λ s t, Ok (tt, f s, t).
Definition raise {S A} (f : fault) : M S A := λ s t, Fault f.
Definition lift {S A} (r : result A) : M S A := λ s t, a ← r; Ok (a, s, t).

(** A call: the answer is computed from the calls before it, then it is logged. *)
Definition ext {S A} (c : call) (answer : trace → A) : M S A := λ s t, Ok (answer t, s, c :: t).

(** A value that the outside world determines, without a call. *)
Definition peek {S A} (f : trace → A) : M S A := λ s t, Ok (f t, s, t).

(** Run an operation of a part of the state. *)
Definition zoom {S T A} (get : S → T) (set : T → S → S) (m : M T A) : M S A := λ s t,
  match m (get s) t with
  | Ok (a, x, t') => Ok (a, set x s, t')
  | Fault f => Fault f
  end.

(** Run an operation of an object that is not part of the state. *)
Definition on_object {S T} (x : T) (op : M T unit) : M S T := λ s t,
  match op x t with
  | Ok (_, x', t') => Ok (x', s, t')
  | Fault f => Fault f
  end.

(** The same for an operation that has a result; the object is gone afterwards. *)
Definition with_object {S T A} (x : T) (op : M T A) : M S A := λ s t,
  match op x t with
  | Ok (a, _, t') => Ok (a, s, t')
  | Fault f => Fault f
  end.

Definition when {S} (b : bool) (m : M S unit) : M S unit := if b then m else mret tt.

Fixpoint for_each {S A} (l : list A) (body : A → M S unit) : M S unit :=
  match l with
  | [] => mret tt
  | a :: l' => body a ;; for_each l' body
  end.

(** ** [rdmalib::impl::expect_*] (src/rdmalib/include/rdmalib/util.hpp) *)

Section Expect.
Context `{Env} {S : Type}.

(** [assert(b)]: nothing in a build with NDEBUG. *)
Definition assert_ (b : bool) (what : string) : M S unit :=
  if b || env_ndebug then mret tt else raise (AssertFailed what).

Definition expect_zero (u : Z) : M S unit := assert_ (u =? 0) "expect_zero".
Definition expect_nonzero (u : Z) : M S unit := assert_ (nonzero u) "expect_nonzero".
Definition expect_nonnegative (u : Z) : M S unit := assert_ (0 <=? u) "expect_nonnegative".
Definition expect_nonnull {A} (p : option A) : M S unit :=
  assert_ (match p with Some _ => true | None => false end) "expect_nonnull".
Definition expect_true (b : bool) : M S unit := expect_nonzero (Z.b2z b).
Definition expect_false (b : bool) : M S unit := expect_zero (Z.b2z b).
End Expect.

(** ** Reasoning about runs *)

Lemma bind_Ok {S A B} (m : M S A) (k : A → M S B) s t b s'' t'' :
  (m ≫= k) s t = Ok (b, s'', t'') ↔
  ∃ a s' t', m s t = Ok (a, s', t') ∧ k a s' t' = Ok (b, s'', t'').
Proof.
  unfold mbind, M_bind. destruct (m s t) as [[[a s'] t']|f]; naive_solver.
Qed.

Lemma bind_run {S A B} (m : M S A) (k : A → M S B) s t a s' t' :
  m s t = Ok (a, s', t') → (m ≫= k) s t = k a s' t'.
Proof. intros E. unfold mbind, M_bind. by rewrite E. Qed.

Lemma bind_assoc {S A B C} (m : M S A) (k : A → M S B) (g : B → M S C) s t :
  ((m ≫= k) ≫= g) s t = (m ≫= (λ a, k a ≫= g)) s t.
Proof. unfold mbind, M_bind. by destruct (m s t) as [[[a s'] t']|f]. Qed.

Lemma zoom_run {S T A} (get : S → T) set (m : M T A) s t a x t' :
  m (get s) t = Ok (a, x, t') → zoom get set m s t = Ok (a, set x s, t').
Proof. intros E. unfold zoom. by rewrite E. Qed.

Lemma assert_Ok `{Env} {S} b what (s : S) t u s' t' :
  assert_ b what s t = Ok (u, s', t') ↔ b || env_ndebug = true ∧ u = tt ∧ s' = s ∧ t' = t.
Proof.
  unfold assert_. destruct (b || env_ndebug); split.
  - by intros [= <- <- <-].
  - by intros (_ & -> & -> & ->).
  - done.
  - by intros (? & _).
Qed.

Lemma lift_Ok {S A} (r : result A) (s : S) t a s' t' :
  lift r s t = Ok (a, s', t') ↔ r = Ok a ∧ s' = s ∧ t' = t.
Proof.
  unfold lift. destruct r; cbn; split.
  - by intros [= <- <- <-].
  - by intros ([= ->] & -> & ->).
  - done.
  - by intros (? & _).
Qed.

Lemma zoom_Ok {S T A} (get : S → T) set (m : M T A) s t a s' t' :
  zoom get set m s t = Ok (a, s', t') ↔ ∃ x, m (get s) t = Ok (a, x, t') ∧ s' = set x s.
Proof.
  unfold zoom. destruct (m (get s) t) as [[[b x] t1]|]; split.
  - intros [= <- <- <-]. by exists x.
  - by intros (y & [= -> -> ->] & ->).
  - done.
  - by intros (y & ? & _).
Qed.

Lemma on_object_Ok {S T} (x : T) (op : M T unit) (s : S) t x' s' t' :
  on_object x op s t = Ok (x', s', t') ↔ op x t = Ok (tt, x', t') ∧ s' = s.
Proof.
  unfold on_object. destruct (op x t) as [[[[] y] t1]|]; split.
  - by intros [= <- <- <-].
  - by intros [[= <- <-] ->].
  - done.
  - by intros [? _].
Qed.

(** Step through a concrete prefix of an operation. *)
Ltac run :=
  cbv beta iota delta [mbind M_bind result_bind option_bind mret M_ret result_ret read gets modify
                       ext peek raise lift zoom when from_opt]; cbn [fst snd].

(** What a primitive statement that ended well did. *)
Ltac run_inv_at H :=
  lazymatch type of H with
  | mret _ _ _ = Ok _ => first [injection H as <- <- <- | injection H as <- <-]
  | read _ _ = Ok _ => first [injection H as <- <- <- | injection H as <- <-]
  | gets _ _ _ = Ok _ => first [injection H as <- <- <- | injection H as <- <-]
  | modify _ _ _ = Ok _ => first [injection H as <- <- <- | injection H as <- <-]
  | ext _ _ _ _ = Ok _ => first [injection H as <- <- <- | injection H as <- <-]
  | peek _ _ _ = Ok _ => first [injection H as <- <- <- | injection H as <- <-]
  | raise _ _ _ = Ok _ => discriminate H
  | assert_ _ _ _ _ = Ok _ => apply assert_Ok in H as (H & -> & -> & ->)
  | lift _ _ _ = Ok _ => apply lift_Ok in H as (H & -> & ->)
  | zoom _ _ _ _ _ = Ok _ => let x := fresh "x" in apply zoom_Ok in H as (x & H & ->)
  end.

(** The first statement of a run, as [E1]; the rest stays in [H]. *)
Tactic Notation "bind_inv" hyp(H) "as" simple_intropattern(a) simple_intropattern(s)
    simple_intropattern(t) simple_intropattern(E) :=
  apply bind_Ok in H as (a & s & t & E & H).
Tactic Notation "step_inv" hyp(H) "as" simple_intropattern(a) :=
  let E := fresh "Hrun" in apply bind_Ok in H as (a & ? & ? & E & H); run_inv_at E.
Tactic Notation "step_inv" hyp(H) := step_inv H as ?.

(** Decompose a run that ended well into the runs of its statements. *)
Ltac run_inv :=
  repeat match goal with
  | H : mbind _ _ _ _ = Ok _ |- _ =>
      let a := fresh "a" in let s := fresh "s" in let t := fresh "t" in
      let E := fresh "E" in apply bind_Ok in H as (a & s & t & E & H)
  | H : _ = Ok _ |- _ => run_inv_at H
  end.

(** ** What an operation leaves alone *)

(** The operation does not change the part [f] of the state. *)
Definition frames {S X A} (f : S → X) (op : M S A) : Prop :=
  ∀ s t a s' t', op s t = Ok (a, s', t') → f s' = f s.

Section Frames.
Context `{Env} {S X : Type} (f : S → X).

Lemma frames_ret {A} (a : A) : frames f (mret a).
Proof using. intros s t b s' t' E. by run_inv_at E. Qed.

Lemma frames_read : frames f read.
Proof using. intros s t b s' t' E. by run_inv_at E. Qed.

Lemma frames_gets {A} (g : S → A) : frames f (gets g).
Proof using. intros s t b s' t' E. by run_inv_at E. Qed.

Lemma frames_lift {A} (r : result A) : frames f (lift r).
Proof using. intros s t b s' t' E. by run_inv_at E. Qed.

Lemma frames_raise {A} e : frames f (raise e : M S A).
Proof using. intros s t b s' t' E. by run_inv_at E. Qed.

Lemma frames_ext {A} c (g : trace → A) : frames f (ext c g).
Proof using. intros s t b s' t' E. by run_inv_at E. Qed.

Lemma frames_bind {A B} (op : M S A) (k : A → M S B) :
  frames f op → (∀ a, frames f (k a)) → frames f (op ≫= k).
Proof using.
  intros Ho Hk s t b s' t' E. bind_inv E as a s1 t1 E1.
  by rewrite (Hk _ _ _ _ _ _ E), (Ho _ _ _ _ _ E1).
Qed.

Lemma frames_assert b what : frames f (assert_ b what).
Proof using. intros s t u s' t' (_ & _ & -> & _)%assert_Ok. done. Qed.

Lemma frames_modify g : (∀ s, f (g s) = f s) → frames f (modify g).
Proof using. intros Hg s t u s' t' E. run_inv_at E. apply Hg. Qed.

Lemma frames_zoom {T A} get set (op : M T A) :
  (∀ x s, f (set x s) = f s) → frames f (zoom get set op).
Proof using. intros Hs s t a s' t' E. run_inv_at E. apply Hs. Qed.

Lemma frames_peek {A} (g : S → trace → A) : frames f (λ s t, Ok (g s t, s, t)).
Proof using. by intros s t a s' t' [= <- <- <-]. Qed.

Lemma frames_outside {A} (g : trace → A) : frames f (peek g).
Proof using. intros s t a s' t' E. by run_inv_at E. Qed.
End Frames.

#[export] Hint Resolve frames_ret frames_read frames_gets frames_lift frames_raise frames_ext
  frames_assert frames_peek frames_outside : rfaas.
#[export] Hint Extern 2 (frames _ (modify _)) => apply frames_modify; intros; reflexivity : rfaas.
#[export] Hint Extern 2 (frames _ (zoom _ _ _)) => apply frames_zoom; intros; reflexivity : rfaas.
#[export] Hint Extern 3 (frames _ (_ ≫= _)) => apply frames_bind; [|intros ?] : rfaas.

Lemma frames_for_each {S X A} (f : S → X) (l : list A) (body : A → M S unit) :
  (∀ a, frames f (body a)) → frames f (for_each l body).
Proof. intros Hb. induction l as [|a l IH]; cbn [for_each]; auto with rfaas. Qed.

#[export] Hint Extern 3 (frames _ (for_each _ _)) => apply frames_for_each; intros ? : rfaas.

(** Unfold the operations that do not touch the framed part and close. *)
Ltac frame :=
  repeat case_match;
  auto 20 with rfaas.

(** ** Properties of the state that an operation keeps *)

Definition stable {S A} (P : S → Prop) (op : M S A) : Prop :=
  ∀ s t a s' t', P s → op s t = Ok (a, s', t') → P s'.

Section Stable.
Context {S : Type} (P : S → Prop).

Lemma stable_frames {X A} (f : S → X) (op : M S A) :
  (∀ s s', f s' = f s → P s → P s') → frames f op → stable P op.
Proof using. intros HP Hf s t a s' t' Hs E. eapply HP; [|exact Hs]. by eapply Hf. Qed.

Lemma stable_bind {A B} (op : M S A) (k : A → M S B) :
  stable P op → (∀ a, stable P (k a)) → stable P (op ≫= k).
Proof using. intros Ho Hk s t b s' t' Hs E. bind_inv E as a s1 t1 E1. eapply Hk; [|exact E]. by eapply Ho. Qed.

Lemma stable_modify g : (∀ s, P s → P (g s)) → stable P (modify g).
Proof using. intros Hg s t u s' t' Hs E. run_inv_at E. by apply Hg. Qed.

Lemma stable_for_each {A} (l : list A) (body : A → M S unit) :
  (∀ a, a ∈ l → stable P (body a)) → stable P (for_each l body).
Proof using.
  induction l as [|a l IH]; intros Hb; cbn [for_each].
  - intros s t u s' t' Hs E. by run_inv_at E.
  - apply stable_bind; [apply Hb; constructor|]. intros _. apply IH. intros b Hin. apply Hb. by constructor.
Qed.
End Stable.

(** ** Operations that end *)

(** Whatever the outcome is, it is one: the operation is not still running. *)
Definition halts {S A} (op : M S A) : Prop := ∀ s t, op s t ≠ Fault StillRunning.

Section Halts.
Context {S : Type}.

Lemma halts_pure {A} (op : M S A) : (∀ s t, ∃ a s' t', op s t = Ok (a, s', t')) → halts op.
Proof using. intros Ho s t E. destruct (Ho s t) as (a & s' & t' & E'). congruence. Qed.

Lemma halts_ret {A} (a : A) : halts (mret a : M S A).
Proof using. apply halts_pure. intros s t. by eexists _, _, _. Qed.
Lemma halts_read : halts (read : M S S).
Proof using. apply halts_pure. intros s t. by eexists _, _, _. Qed.
Lemma halts_gets {A} (f : S → A) : halts (gets f).
Proof using. apply halts_pure. intros s t. by eexists _, _, _. Qed.
Lemma halts_modify (g : S → S) : halts (modify g).
Proof using. apply halts_pure. intros s t. by eexists _, _, _. Qed.
Lemma halts_ext {A} c (f : trace → A) : halts (ext c f : M S A).
Proof using. apply halts_pure. intros s t. by eexists _, _, _. Qed.
Lemma halts_raise {A} f : f ≠ StillRunning → halts (raise f : M S A).
Proof using. intros Hf s t [= E]. done. Qed.
Lemma halts_from_opt {A} why (o : option A) : halts (lift (from_opt why o) : M S A).
Proof using. intros s t. destruct o; done. Qed.
Lemma halts_assert `{Env} b what : halts (assert_ b what : M S unit).
Proof using. intros s t. unfold assert_. by destruct (_ || _). Qed.

Lemma halts_bind {A B} (op : M S A) (k : A → M S B) : halts op → (∀ a, halts (k a)) → halts (op ≫= k).
Proof using.
  intros Ho Hk s t. cbv [mbind M_bind]. pose proof (Ho s t) as Hst.
  destruct (op s t) as [[[a s'] t']|f]; cbn; [apply Hk|congruence].
Qed.

Lemma halts_zoom {T A} get set (op : M T A) : halts op → halts (zoom get set op : M S A).
Proof using.
  intros Ho s t. unfold zoom. pose proof (Ho (get s) t) as Hst.
  destruct (op (get s) t) as [[[a x] t']|f]; cbn; congruence.
Qed.

Lemma halts_for_each {A} (l : list A) (body : A → M S unit) :
  (∀ a, halts (body a)) → halts (for_each l body).
Proof using.
  intros Hb. induction l as [|a l IH]; cbn [for_each]; [apply halts_ret|]. by apply halts_bind.
Qed.
End Halts.

#[export] Hint Resolve halts_ret halts_read halts_gets halts_modify halts_ext halts_from_opt halts_assert
  halts_zoom : rfaas.
#[export] Hint Extern 2 (halts (raise _)) => apply halts_raise; discriminate : rfaas.
#[export] Hint Extern 3 (halts (_ ≫= _)) => apply halts_bind; [|intros ?] : rfaas.
#[export] Hint Extern 3 (halts (for_each _ _)) => apply halts_for_each; intros ? : rfaas.
#[export] Hint Extern 2 (halts (match ?x with _ => _ end)) => destruct x : rfaas.
#[export] Hint Extern 2 (halts (when ?b _)) => destruct b; unfold when : rfaas.

(** ** Which calls an operation makes *)

(** The operation makes only calls that satisfy [P]. *)
Definition emits {S A} (P : call → Prop) (op : M S A) : Prop :=
  ∀ s t a s' t', op s t = Ok (a, s', t') → ∃ u, t' = u ++ t ∧ Forall P u.

Section Emits.
Context `{Env} {S : Type} (P : call → Prop).

Lemma emits_pure {A} (op : M S A) :
  (∀ s t a s' t', op s t = Ok (a, s', t') → t' = t) → emits P op.
Proof using. intros Ho s t a s' t' ->%Ho. exists []. by split. Qed.

Lemma emits_ret {A} (a : A) : emits P (mret a : M S A).
Proof using. apply emits_pure. intros s t b s' t' E. by run_inv_at E. Qed.
Lemma emits_read : emits P (read : M S S).
Proof using. apply emits_pure. intros s t b s' t' E. by run_inv_at E. Qed.
Lemma emits_gets {A} (g : S → A) : emits P (gets g).
Proof using. apply emits_pure. intros s t b s' t' E. by run_inv_at E. Qed.
Lemma emits_modify (g : S → S) : emits P (modify g).
Proof using. apply emits_pure. intros s t b s' t' E. by run_inv_at E. Qed.
Lemma emits_lift {A} (r : result A) : emits P (lift r : M S A).
Proof using. apply emits_pure. intros s t b s' t' E. by run_inv_at E. Qed.
Lemma emits_raise {A} e : emits P (raise e : M S A).
Proof using. apply emits_pure. intros s t b s' t' E. by run_inv_at E. Qed.
Lemma emits_peek {A} (g : trace → A) : emits P (peek g : M S A).
Proof using. apply emits_pure. intros s t b s' t' E. by run_inv_at E. Qed.
Lemma emits_assert b what : emits P (assert_ b what : M S unit).
Proof using. apply emits_pure. by intros s t u s' t' (_ & _ & _ & ->)%assert_Ok. Qed.

Lemma emits_ext {A} c (g : trace → A) : P c → emits P (ext c g : M S A).
Proof using. intros Hc s t a s' t' E. run_inv_at E. exists [c]. split; [done|by constructor]. Qed.

Lemma emits_bind {A B} (op : M S A) (k : A → M S B) :
  emits P op → (∀ a, emits P (k a)) → emits P (op ≫= k).
Proof using.
  intros Ho Hk s t b s' t' E. bind_inv E as a s1 t1 E1.
  apply Ho in E1 as (u1 & -> & H1). apply Hk in E as (u2 & -> & H2).
  exists (u2 ++ u1). rewrite app_assoc. split; [done|]. by apply Forall_app.
Qed.

Lemma emits_weaken {A} (Q : call → Prop) (op : M S A) : (∀ c, P c → Q c) → emits P op → emits Q op.
Proof using.
  intros HQ Ho s t a s' t' E. apply Ho in E as (u & -> & Hu). exists u. split; [done|]. by eapply Forall_impl.
Qed.

Lemma emits_zoom {T A} get set (op : M T A) : emits P op → emits P (zoom get set op : M S A).
Proof using. intros Ho s t a s' t' E. run_inv_at E. by eapply Ho. Qed.
End Emits.

#[export] Hint Resolve emits_ret emits_read emits_gets emits_modify emits_lift emits_raise emits_peek
  emits_assert : rfaas.
#[export] Hint Extern 2 (emits _ (ext _ _)) => apply emits_ext; cbn; exact I : rfaas.
#[export] Hint Extern 2 (emits _ (zoom _ _ _)) => apply emits_zoom : rfaas.
#[export] Hint Extern 3 (emits _ (_ ≫= _)) => apply emits_bind; [|intros ?] : rfaas.

(** The call neither sends nor runs a function. *)
Definition not_send (c : call) : Prop :=
  match c with Cpost_send _ _ | Cinvoke _ _ => False | _ => True end.

(** The sends of a part of a trace, oldest first: queue pair, elements and
    immediate value. *)
Definition sends (u : trace) : list (ibv_qp * list ibv_sge * Z) :=
  rev (omap (λ c, match c with
                  | Cpost_send qp wr => Some (qp, wr_sg_list wr, ntohl (wr_imm_data wr))
                  | _ => None
                  end) u).

Lemma sends_app u v : sends (u ++ v) = sends v ++ sends u.
Proof. unfold sends. by rewrite omap_app, rev_app_distr. Qed.

Lemma sends_silent u : Forall not_send u → sends u = [].
Proof.
  intros Hu. unfold sends. induction Hu as [|c u Hc Hu IH]; [done|]. cbn.
  destruct c; try done; cbn in *; exact IH.
Qed.

(** ** A concrete environment

    Every call succeeds; handles are numbered by the length of the trace.  The
    answers to [ibv_poll_cq], [rdma_get_cm_event] and the results of posting are
    given. It is the instance on which the examples of the library are
    evaluated. *)

Definition some_qp : ibv_qp := mk_qp 7 70 71 72.
Definition some_id : rdma_cm_id := mk_cm_id 5 some_qp 0 3.

Definition scripted_env (spin : nat)
    (polls : trace → Z → Z → Z * list ibv_wc) (events : trace → Z * rdma_cm_event)
    (sends recvs : trace → Z) : Env := {|
  env_spin := spin;
  env_ndebug := true;
  env_mmap := λ tr n, if n =? 0 then -1 else 4096 * (1 + Z.of_nat (length tr));
  env_reg_mr := λ tr pd p n access, Some (mk_mr (Z.of_nat (length tr)) p 11 12);
  env_post_send := λ tr _ _, sends tr;
  env_post_recv := λ tr _ _, recvs tr;
  env_poll_cq := polls;
  env_req_notify_cq := λ _ _, 0;
  env_get_cq_event := λ _ ch, (0, ch);
  env_create_ep := λ _ _, (0, some_id);
  env_create_qp := λ tr _ _ s r,
    (0, mk_qp (Z.of_nat (length tr)) (if s =? 0 then 70 else s) (if r =? 0 then 71 else r) 72);
  env_destroy_id := λ _ _, 0;
  env_connect := λ _ _, 0;
  env_disconnect := λ _ _, 0;
  env_accept := λ _ _, 0;
  env_reject := λ _ _, 0;
  env_get_cm_event := events;
  env_create_comp_channel := λ tr, Z.of_nat (length tr) + 1;
  env_create_cq := λ tr _ _, Z.of_nat (length tr) + 1;
  env_getaddrinfo := λ tr _ _, (0, Z.of_nat (length tr) + 1);
  env_create_event_channel := λ tr, Z.of_nat (length tr) + 1;
  env_create_id := λ _, (0, some_id);
  env_bind_addr := λ _, 0;
  env_listen := λ _, 0;
  env_src_port := λ _, 8080;
  env_set_nonblocking := λ _ _, 0;
  env_poll_fd := λ _ _, 1;
  env_epoll_create := λ tr, Z.of_nat (length tr) + 1;
  env_epoll_add := λ _ _, 0;
  env_epoll_wait := λ _, (0, []);
  env_fork := λ _, 100;
  env_waitpid := λ _ _ _, (0, 0, 0);
  env_clock := λ tr, Z.of_nat (length tr);
  env_dlsym := λ _ name, Z.of_nat (String.length name) + 1;
  env_invoke := λ _ _ _, 4 |}.

Definition quiet_event : rdma_cm_event :=
  mk_cm_event RDMA_CM_EVENT_OTHER some_id 0 0.

Definition ideal_env : Env :=
  scripted_env 8 (λ _ _ _, (0, [])) (λ _, (0, quiet_event)) (λ _, 0) (λ _, 0).

(** An environment in which [rdma_connect] answers differently. *)
Definition with_connect (f : trace → rdma_cm_id → Z) (e : Env) : Env := {|
  env_spin := @env_spin e;
  env_ndebug := @env_ndebug e;
  env_mmap := @env_mmap e;
  env_reg_mr := @env_reg_mr e;
  env_post_send := @env_post_send e;
  env_post_recv := @env_post_recv e;
  env_poll_cq := @env_poll_cq e;
  env_req_notify_cq := @env_req_notify_cq e;
  env_get_cq_event := @env_get_cq_event e;
  env_create_ep := @env_create_ep e;
  env_create_qp := @env_create_qp e;
  env_destroy_id := @env_destroy_id e;
  env_connect := f;
  env_disconnect := @env_disconnect e;
  env_accept := @env_accept e;
  env_reject := @env_reject e;
  env_get_cm_event := @env_get_cm_event e;
  env_create_comp_channel := @env_create_comp_channel e;
  env_create_cq := @env_create_cq e;
  env_getaddrinfo := @env_getaddrinfo e;
  env_create_event_channel := @env_create_event_channel e;
  env_create_id := @env_create_id e;
  env_bind_addr := @env_bind_addr e;
  env_listen := @env_listen e;
  env_src_port := @env_src_port e;
  env_set_nonblocking := @env_set_nonblocking e;
  env_poll_fd := @env_poll_fd e;
  env_epoll_create := @env_epoll_create e;
  env_epoll_add := @env_epoll_add e;
  env_epoll_wait := @env_epoll_wait e;
  env_fork := @env_fork e;
  env_waitpid := @env_waitpid e;
  env_clock := @env_clock e;
  env_dlsym := @env_dlsym e;
  env_invoke := @env_invoke e |}.

(** An environment in which [waitpid] answers differently. *)
Definition with_waitpid (f : trace → Z → Z → Z * Z * Z) (e : Env) : Env := {|
  env_spin := @env_spin e;
  env_ndebug := @env_ndebug e;
  env_mmap := @env_mmap e;
  env_reg_mr := @env_reg_mr e;
  env_post_send := @env_post_send e;
  env_post_recv := @env_post_recv e;
  env_poll_cq := @env_poll_cq e;
  env_req_notify_cq := @env_req_notify_cq e;
  env_get_cq_event := @env_get_cq_event e;
  env_create_ep := @env_create_ep e;
  env_create_qp := @env_create_qp e;
  env_destroy_id := @env_destroy_id e;
  env_connect := @env_connect e;
  env_disconnect := @env_disconnect e;
  env_accept := @env_accept e;
  env_reject := @env_reject e;
  env_get_cm_event := @env_get_cm_event e;
  env_create_comp_channel := @env_create_comp_channel e;
  env_create_cq := @env_create_cq e;
  env_getaddrinfo := @env_getaddrinfo e;
  env_create_event_channel := @env_create_event_channel e;
  env_create_id := @env_create_id e;
  env_bind_addr := @env_bind_addr e;
  env_listen := @env_listen e;
  env_src_port := @env_src_port e;
  env_set_nonblocking := @env_set_nonblocking e;
  env_poll_fd := @env_poll_fd e;
  env_epoll_create := @env_epoll_create e;
  env_epoll_add := @env_epoll_add e;
  env_epoll_wait := @env_epoll_wait e;
  env_fork := @env_fork e;
  env_waitpid := f;
  env_clock := @env_clock e;
  env_dlsym := @env_dlsym e;
  env_invoke := @env_invoke e |}.
