(* ===== verification/Buffer.v ===== *)
(** * Registered memory buffers

    [rdmalib::impl::Buffer], [rdmalib::Buffer<T>], [RemoteBuffer] and
    [ScatterGatherElement] of src/rdmalib/include/rdmalib/buffer.hpp and
    src/rdmalib/lib/buffer.cpp, and the ownership of the mapped memory across
    construction, moves and destruction. *)

From S2P Require Import Prelude Verbs.

Module Buffer.

(** [nullptr] and the [MAP_FAILED] result of [mmap]. *)
Definition nullptr : Z := 0.
Definition MAP_FAILED : Z := -1.

Record t := mk {
  _size : Z; _header : Z; _bytes : Z; _byte_size : Z;
  _ptr : Z; _mr : option ibv_mr; _own_memory : bool }.

#[global] Instance ibv_mr_eq_dec : EqDecision ibv_mr.
Proof. solve_decision. Defined.
#[global] Instance t_eq_dec : EqDecision t.
Proof. solve_decision. Defined.

(** ** Constructors and moves *)

Definition default : t := mk 0 0 0 0 nullptr None false.

(** [Buffer(void* ptr, uint32_t size, uint32_t byte_size)] *)
Definition of_memory (ptr size byte_size : Z) : t :=
  mk size 0 (u32 (size * byte_size)) byte_size ptr None false.

(** [Buffer(Buffer && obj)]: the new object and what is left of [obj]. *)
Definition move_construct (obj : t) : t * t :=
  (mk (_size obj) (_header obj) (_bytes obj) (_byte_size obj) (_ptr obj) (_mr obj) (_own_memory obj),
   mk 0 0 0 (_byte_size obj) nullptr None (_own_memory obj)).

(** [operator=(Buffer && obj)]: the old fields of [this] are overwritten. *)
Definition move_assign (this obj : t) : t * t :=
  (mk (_size obj) (_header obj) (_bytes obj) (_byte_size obj) (_ptr obj) (_mr obj) (_own_memory obj),
   mk 0 (_header obj) 0 (_byte_size obj) nullptr None (_own_memory obj)).

(** ** Accessors *)

Definition data_size (b : t) : Z := _size b.
Definition size (b : t) : Z := u32 (_size b + _header b).
Definition bytes (b : t) : Z := _bytes b.
Definition ptr (b : t) : Z := _ptr b.
Definition mr (b : t) : option ibv_mr := _mr b.

(** [data()] and [&operator\[\](idx)] of [Buffer<T>]. *)
Definition data (b : t) : Z := _ptr b + _header b.
Definition elem_addr (b : t) (idx : Z) : Z := data b + idx * _byte_size b.

Section Ops.
Context `{Env}.

(** [Buffer(uint32_t size, uint32_t byte_size, uint32_t header)] *)
Definition allocate {S} (size byte_size header : Z) : M S t :=
  let n := u32 (size * byte_size + header) in
  p ← ext (Cmmap n) (λ tr, env_mmap tr n);
  mret (mk size header n byte_size p None true).

Definition destroy {S} (b : t) : M S unit :=
  match _mr b with
  | Some m => ext (Cdereg_mr (mr_handle m)) (λ _, tt)
  | None => mret tt
  end ;;
  when (_own_memory b) (ext (Cmunmap (_ptr b) (_bytes b)) (λ _, tt)).

Definition register_memory (pd access : Z) : M t unit :=
  b ← read;
  m ← ext (Creg_mr pd (_ptr b) (_bytes b) access)
          (λ tr, env_reg_mr tr pd (_ptr b) (_bytes b) access);
  modify (λ b, mk (_size b) (_header b) (_bytes b) (_byte_size b) (_ptr b) m (_own_memory b)) ;;
  expect_nonnull m.

(** The accessors that need a registration: [assert(_mr)], then a
    dereference of the pointer. *)
Definition with_mr {S A} (b : t) (f : ibv_mr → A) : M S A :=
  assert_ (match _mr b with Some _ => true | None => false end) "_mr" ;;
  lift (from_opt "null memory region" (f <$> _mr b)).

Definition lkey {S} (b : t) : M S Z := with_mr b mr_lkey.
Definition rkey {S} (b : t) : M S Z := with_mr b mr_rkey.
Definition address {S} (b : t) : M S Z :=
  assert_ (match _mr b with Some _ => true | None => false end) "_mr" ;; mret (_ptr b).

(** ** Scatter-gather elements *)

Definition sge {S} (b : t) (size offset : Z) : M S (list ibv_sge) :=
  a ← address b; k ← lkey b; mret [mk_sge (u64 (a + offset)) size k].

Definition add {S} (sges : list ibv_sge) (b : t) : M S (list ibv_sge) :=
  a ← address b; k ← lkey b; mret (sges ++ [mk_sge a (bytes b) k]).

(** [add(const Buffer<T>&, int elements)]; [sizeof(T)] is the element size. *)
Definition add_elements {S} (sges : list ibv_sge) (b : t) (elements : Z) : M S (list ibv_sge) :=
  a ← address b; k ← lkey b; mret (sges ++ [mk_sge a (u32 (_byte_size b * elements)) k]).

Definition add_range {S} (sges : list ibv_sge) (b : t) (size offset : Z) : M S (list ibv_sge) :=
  a ← address b; k ← lkey b; mret (sges ++ [mk_sge (u64 (a + offset)) size k]).
End Ops.

(** Run an operation of a buffer and return the buffer. *)
Definition on_buffer {S} (b : t) (op : M t unit) : M S t := λ s t,
  match op b t with
  | Ok (_, b', t') => Ok (b', s, t')
  | Fault f => Fault f
  end.

(** The single element that covers a registered buffer. *)
Definition whole (b : t) : list ibv_sge :=
  match _mr b with
  | Some r => [mk_sge (_ptr b) (bytes b) (mr_lkey r)]
  | None => []
  end.

Record RemoteBuffer := mk_remote { rb_addr : Z; rb_rkey : Z; rb_size : Z }.

Definition remote_default : RemoteBuffer := mk_remote 0 0 0.

(** ** Which mappings are live

    The ledger of a trace: the regions returned by successful [mmap] calls, less
    those given to [munmap].  A zero-length [munmap] fails with EINVAL. *)

Section Ledger.
Context `{Env}.

Fixpoint live (tr : trace) : gmultiset (Z * Z) :=
  match tr with
  | [] => ∅
  | Cmmap n :: tr' =>
      if env_mmap tr' n =? MAP_FAILED then live tr' else {[+ (env_mmap tr' n, n) +]} ⊎ live tr'
  | Cmunmap p n :: tr' => if n =? 0 then live tr' else live tr' ∖ {[+ (p, n) +]}
  | _ :: tr' => live tr'
  end.

(** The region a buffer object is responsible for. *)
Definition region (b : t) : gmultiset (Z * Z) :=
  if _own_memory b && nonzero (_bytes b) && nonzero (_ptr b - MAP_FAILED)
  then {[+ (_ptr b, _bytes b) +]} else ∅.

Definition owned (pool : gmap nat t) : gmultiset (Z * Z) :=
  foldr (λ kb acc, region kb.2 ⊎ acc) ∅ (map_to_list pool).

(** What a program may do with buffers: create one, move-construct another
    from it, register it, move-assign one to a buffer that owns nothing (a
    default-constructed or moved-from one), destroy one. *)
Inductive step : gmap nat t * trace → gmap nat t * trace → Prop :=
  | step_alloc pool tr i sz bs hd b tr' :
      pool !! i = None →
      allocate sz bs hd tt tr = Ok (b, tt, tr') →
      step (pool, tr) (<[i := b]> pool, tr')
  | step_default pool tr i :
      pool !! i = None → step (pool, tr) (<[i := default]> pool, tr)
  | step_wrap pool tr i p sz bs :
      pool !! i = None → step (pool, tr) (<[i := of_memory p sz bs]> pool, tr)
  | step_move pool tr i j b :
      pool !! i = Some b → pool !! j = None →
      step (pool, tr)
        (<[j := (move_construct b).1]> (<[i := (move_construct b).2]> pool), tr)
  | step_assign pool tr i j a b :
      i ≠ j → pool !! i = Some a → pool !! j = Some b → region a = ∅ →
      step (pool, tr)
        (<[i := (move_assign a b).1]> (<[j := (move_assign a b).2]> pool), tr)
  | step_register pool tr i b b' pd access u tr' :
      pool !! i = Some b → register_memory pd access b tr = Ok (u, b', tr') →
      step (pool, tr) (<[i := b']> pool, tr')
  | step_destroy pool tr i b u tr' :
      pool !! i = Some b → destroy b tt tr = Ok (u, tt, tr') →
      step (pool, tr) (delete i pool, tr').

Definition reachable : gmap nat t * trace → Prop := rtc step (∅, []).
End Ledger.

(** ** Lemmas *)

Section Lemmas.
Context `{Env}.

Lemma add_inv {S} b (s : S) t l s' t' :
  add [] b s t = Ok (l, s', t') → l = whole b ∧ s' = s ∧ t' = t.
Proof.
  unfold add, address, lkey, with_mr, whole. intros E. run_inv.
  destruct (_mr b); [|done]. cbn in *. by simplify_eq.
Qed.

Lemma owned_empty : owned ∅ = ∅.
Proof. unfold owned. by rewrite map_to_list_empty. Qed.

Lemma foldr_region_perm (l1 l2 : list (nat * t)) :
  l1 ≡ₚ l2 →
  foldr (λ kb acc, region kb.2 ⊎ acc) ∅ l1 = foldr (λ kb acc, region kb.2 ⊎ acc) ∅ l2.
Proof using.
  induction 1; cbn; [done|by f_equal| |by etrans].
  rewrite !(assoc_L (⊎)). f_equal. apply (comm_L (⊎)).
Qed.

Lemma owned_insert_new pool i b :
  pool !! i = None → owned (<[i := b]> pool) = region b ⊎ owned pool.
Proof.
  intros Hi. unfold owned. by rewrite (foldr_region_perm _ _ (map_to_list_insert _ _ _ Hi)).
Qed.

Lemma owned_delete pool i b :
  pool !! i = Some b → owned pool = region b ⊎ owned (delete i pool).
Proof.
  intros Hi. rewrite <-(insert_delete_id pool i b Hi) at 1.
  apply owned_insert_new, lookup_delete_eq.
Qed.

Lemma owned_insert pool i a b :
  pool !! i = Some a → region a ⊎ owned (<[i := b]> pool) = region b ⊎ owned pool.
Proof.
  intros Hi. rewrite (owned_delete pool i a Hi).
  rewrite <-insert_delete_eq, owned_insert_new by apply lookup_delete_eq.
  rewrite !(assoc_L (⊎)). f_equal. apply (comm_L (⊎)).
Qed.

Lemma move_construct_regions b :
  region (move_construct b).1 = region b ∧ region (move_construct b).2 = ∅.
Proof. split; [done|]. unfold region; cbn. by rewrite andb_false_r. Qed.

Lemma move_assign_regions a b :
  region (move_assign a b).1 = region b ∧ region (move_assign a b).2 = ∅.
Proof. split; [done|]. unfold region; cbn. by rewrite andb_false_r. Qed.

Lemma destroy_live b tr u tr' :
  destroy b tt tr = Ok (u, tt, tr') →
  live tr' = if _own_memory b && nonzero (_bytes b) then live tr ∖ {[+ (_ptr b, _bytes b) +]}
             else live tr.
Proof.
  unfold destroy, nonzero. destruct (_mr b), (_own_memory b); run; intros [= _ <-]; cbn;
    by destruct (_bytes b =? 0).
Qed.

Lemma register_memory_run pd access b tr u b' tr' :
  register_memory pd access b tr = Ok (u, b', tr') →
  region b' = region b ∧ live tr' = live tr.
Proof.
  unfold register_memory, expect_nonnull. intros Hr. run_inv. done.
Qed.

Lemma region_not_failed b n : (MAP_FAILED, n) ∉ region b.
Proof.
  unfold region. destruct (_ && _) eqn:E; [|multiset_solver].
  apply andb_true_iff in E as [_ E]. intros Hin.
  apply gmultiset_elem_of_singleton in Hin. injection Hin as E1 _.
  rewrite <-E1 in E. done.
Qed.

Lemma owned_not_failed pool n : (MAP_FAILED, n) ∉ owned pool.
Proof.
  unfold owned. induction (map_to_list pool) as [|kb l IH]; cbn; [multiset_solver|].
  pose proof (region_not_failed kb.2 n). multiset_solver.
Qed.

Lemma difference_not_elem (X : gmultiset (Z * Z)) x : x ∉ X → X ∖ {[+ x +]} = X.
Proof using. intros. multiset_solver. Qed.

Lemma destroy_owned pool tr i b u tr' :
  live tr = owned pool → pool !! i = Some b → destroy b tt tr = Ok (u, tt, tr') →
  live tr' = owned (delete i pool).
Proof.
  intros Hl Hi Hd. rewrite (destroy_live _ _ _ _ Hd), Hl.
  pose proof (owned_not_failed pool (_bytes b)) as Hnf.
  rewrite (owned_delete _ _ _ Hi) in *. unfold region in *.
  destruct (_own_memory b), (nonzero (_bytes b)) eqn:Eb; cbn [andb] in *;
    rewrite ?(left_id_L ∅ (⊎)) in *; [|done..].
  destruct (nonzero (_ptr b - MAP_FAILED)) eqn:Ep; cbn [andb] in *.
  - multiset_solver.
  - assert (_ptr b = MAP_FAILED) as ->.
    { unfold nonzero in Ep. apply negb_false_iff, Z.eqb_eq in Ep. lia. }
    rewrite (left_id_L ∅ (⊎)) in *. by apply difference_not_elem.
Qed.

Lemma allocate_owned sz bs hd tr b tr' :
  (∀ tr, env_mmap tr 0 = MAP_FAILED) →
  allocate sz bs hd tt tr = Ok (b, tt, tr') → live tr' = region b ⊎ live tr.
Proof.
  intros Hz. unfold allocate. run. set (n := u32 _). intros [= <- <-].
  unfold region, nonzero. cbn [_own_memory _bytes _ptr live andb].
  clearbody n. destruct (Z.eqb_spec n 0) as [->|].
  - rewrite Hz, !Z.eqb_refl. cbn [negb andb]. multiset_solver.
  - destruct (Z.eqb_spec (env_mmap tr n) MAP_FAILED) as [->|].
    + rewrite Z.sub_diag, Z.eqb_refl. cbn [negb andb].
      multiset_solver.
    + destruct (Z.eqb_spec (env_mmap tr n - MAP_FAILED) 0); [lia|done].
Qed.

Lemma step_preserves pool tr pool' tr' :
  (∀ tr, env_mmap tr 0 = MAP_FAILED) →
  step (pool, tr) (pool', tr') → live tr = owned pool → live tr' = owned pool'.
Proof.
  intros Hz Hs. remember (pool, tr) as st eqn:E0. remember (pool', tr') as st' eqn:E0'.
  destruct Hs as
    [???????? Hi Ha|??? Hi|?????? Hi|????? Hi Hj|?????? Hij Hi Hj Ha|????????? Hi Hr|?????? Hi Hd];
    apply pair_equal_spec in E0 as [-> ->], E0' as [<- <-]; intros Hl.
  - rewrite owned_insert_new, (allocate_owned _ _ _ _ _ _ Hz Ha), Hl by done. done.
  - rewrite owned_insert_new by done. multiset_solver.
  - rewrite owned_insert_new by done. multiset_solver.
  - destruct (move_construct_regions b) as [E1 E2].
    rewrite owned_insert_new by (rewrite lookup_insert_ne by congruence; done).
    rewrite E1. pose proof (owned_insert _ _ _ (move_construct b).2 Hi) as E.
    rewrite E2, (left_id_L ∅ (⊎)) in E. by rewrite E.
  - destruct (move_assign_regions a b) as [E1 E2].
    pose proof (owned_insert _ _ _ (move_assign a b).2 Hj) as E.
    rewrite E2, (left_id_L ∅ (⊎)) in E.
    assert (<[j:=(move_assign a b).2]> pool !! i = Some a) as Hi'
      by (rewrite lookup_insert_ne; done).
    pose proof (owned_insert _ _ _ (move_assign a b).1 Hi') as E'.
    rewrite Ha, E1, (left_id_L ∅ (⊎)) in E'. rewrite E', E. done.
  - apply register_memory_run in Hr as [E ->].
    pose proof (owned_insert _ _ _ b' Hi) as E'. rewrite E in E'. multiset_solver.
  - by eapply destroy_owned.
Qed.
End Lemmas.

(** ** What an operation leaves alone *)

Section FrameOps.
Context `{Env}.

Lemma destroy_state {S} b (s : S) t u s' t' : destroy b s t = Ok (u, s', t') → s' = s.
Proof.
  unfold destroy. destruct (_mr b); cbn; intros E; run_inv;
    unfold when in *; case_match; run_inv; done.
Qed.

Lemma allocate_state {S} sz bs hd (s : S) t b s' t' :
  allocate sz bs hd s t = Ok (b, s', t') → s' = s.
Proof. unfold allocate. intros E. run_inv. done. Qed.

Lemma frames_on_buffer {S X} (f : S → X) b op : frames f (on_buffer b op).
Proof.
  intros s t a s' t'. unfold on_buffer. destruct (op b t) as [[[? ?] ?]|]; [|done].
  by intros [= <- <- <-].
Qed.

Lemma frames_allocate {S X} (f : S → X) sz bs hd : frames f (allocate sz bs hd).
Proof. intros s t b s' t' ->%allocate_state. done. Qed.

Lemma frames_destroy {S X} (f : S → X) b : frames f (destroy b).
Proof. intros s t u s' t' ->%destroy_state. done. Qed.
End FrameOps.

(** The accessors only read. *)
Lemma frames_with_mr `{Env} {S X A} (f : S → X) b (g : ibv_mr → A) : frames f (with_mr b g : M S A).
Proof. unfold with_mr. frame. Qed.

Lemma frames_address `{Env} {S X} (f : S → X) b : frames f (address b).
Proof. unfold address. frame. Qed.

#[global] Hint Resolve frames_with_mr frames_address : rfaas.

Lemma frames_sge `{Env} {S X} (f : S → X) b size offset : frames f (sge b size offset).
Proof. unfold sge, lkey. frame. Qed.

Lemma frames_add `{Env} {S X} (f : S → X) l b : frames f (add l b).
Proof. unfold add, lkey. frame. Qed.

Lemma frames_add_range `{Env} {S X} (f : S → X) l b size offset : frames f (add_range l b size offset).
Proof. unfold add_range, lkey. frame. Qed.

#[global] Hint Resolve frames_on_buffer frames_allocate frames_destroy frames_sge frames_add
  frames_add_range : rfaas.

(** ** Theorems *)

Lemma reachable_live `{Env} (pool : gmap nat t) (tr : trace) :
  (∀ tr, env_mmap tr 0 = MAP_FAILED) →
  reachable (pool, tr) → live tr = owned pool.
Proof.
  intros Hz Hr.
  refine (rtc_ind_r (λ s : gmap nat t * trace, live s.2 = owned s.1) (∅, []) _ _ (pool, tr) Hr).
  - cbn. by rewrite owned_empty.
  - intros [p1 t1] [p2 t2] _ Hs Hl. by eapply step_preserves.
Qed.

(** C34. No leak and no double unmap. In every environment whose [mmap] refuses
    an empty mapping (as documented), along every sequence of constructions,
    moves into fresh or non-owning buffers, registrations and destructions, the
    mappings that are live are exactly those of the buffer objects that exist:
    once every buffer is destroyed no mapping is left, and a destructor only
    unmaps a region that is still mapped. *)
Theorem buffers_own_live_mappings `{Env} (pool : gmap nat t) (tr : trace) :
  (∀ tr, env_mmap tr 0 = MAP_FAILED) →
  reachable (pool, tr) →
  live tr = owned pool ∧
  (∀ i b tr', pool !! i = Some b → destroy b tt tr = Ok (tt, tt, tr') →
     region b ⊆ live tr ∧ live tr' = live tr ∖ region b).
Proof.
  intros Hz Hr. pose proof (reachable_live pool tr Hz Hr) as Hl. split; [done|].
  intros i b tr' Hi Hd. rewrite (destroy_owned _ _ _ _ _ _ Hl Hi Hd), Hl.
  rewrite (owned_delete _ _ _ Hi). multiset_solver.
Qed.

(** The pool after one allocation in the concrete environment. *)
Definition one_buffer : t := mk 4 12 28 4 4096 None true.
Definition two_buffers : gmap nat t := <[1%nat := mk 2 0 8 4 8192 None true]> {[ 0%nat := one_buffer ]}.

Lemma one_buffer_reachable : @reachable ideal_env ({[ 0%nat := one_buffer ]}, [Cmmap 28]).
Proof. apply rtc_once. by eapply (@step_alloc ideal_env ∅ [] 0 4 4 12). Qed.

Lemma two_buffers_reachable : @reachable ideal_env (two_buffers, [Cmmap 8; Cmmap 28]).
Proof.
  eapply rtc_r; [apply one_buffer_reachable|].
  by eapply (@step_alloc ideal_env {[ 0%nat := one_buffer ]} [Cmmap 28] 1 2 4 0).
Qed.

Lemma buffers_own_live_mappings_witness :
  @live ideal_env [Cmmap 28] = @owned {[ 0%nat := one_buffer ]} ∧
  (∀ i b tr', ({[ 0%nat := one_buffer ]} : gmap nat t) !! i = Some b →
     @destroy unit b tt [Cmmap 28] = Ok (tt, tt, tr') →
     region b ⊆ @live ideal_env [Cmmap 28] ∧
     @live ideal_env tr' = @live ideal_env [Cmmap 28] ∖ region b).
Proof.
  apply (@buffers_own_live_mappings ideal_env {[ 0%nat := one_buffer ]} [Cmmap 28]).
  - intros tr. reflexivity.
  - apply one_buffer_reachable.
Defined.

(** Assigning to a buffer that owns memory leaks it. [operator=] makes no
    call, and afterwards the region the target owned is live but belongs to no
    buffer, so no destructor will ever unmap it. *)
Theorem move_assign_leaks `{Env} (pool : gmap nat t) (tr : trace) i j a b :
  (∀ tr, env_mmap tr 0 = MAP_FAILED) →
  reachable (pool, tr) → i ≠ j → pool !! i = Some a → pool !! j = Some b →
  live tr = region a ⊎ owned (<[i := (move_assign a b).1]> (<[j := (move_assign a b).2]> pool)).
Proof.
  intros Hz Hr Hij Hi Hj. rewrite (reachable_live pool tr Hz Hr).
  destruct (move_assign_regions a b) as [E1 E2].
  pose proof (owned_insert _ _ _ (move_assign a b).2 Hj) as E.
  rewrite E2, (left_id_L ∅ (⊎)) in E.
  assert (<[j:=(move_assign a b).2]> pool !! i = Some a) as Hi'
    by (rewrite lookup_insert_ne; done).
  pose proof (owned_insert _ _ _ (move_assign a b).1 Hi') as E'. rewrite E1 in E'.
  rewrite E', E. done.
Qed.

Lemma move_assign_leaks_witness :
  region one_buffer = {[+ (4096, 28) +]} ∧
  @live ideal_env [Cmmap 8; Cmmap 28] =
    region one_buffer ⊎
    owned (<[0%nat := (move_assign one_buffer (mk 2 0 8 4 8192 None true)).1]>
          (<[1%nat := (move_assign one_buffer (mk 2 0 8 4 8192 None true)).2]> two_buffers)).
Proof.
  split; [reflexivity|].
  apply (@move_assign_leaks ideal_env two_buffers [Cmmap 8; Cmmap 28] 0 1).
  - intros tr. reflexivity.
  - apply two_buffers_reachable.
  - discriminate.
  - reflexivity.
  - reflexivity.
Defined.

(** Elements lie inside the mapping. If the byte count does not exceed 32
    bits, every element of an allocated buffer lies between the header and the
    end of the mapped region, and distinct elements do not overlap. *)
Theorem elements_inside_mapping `{Env} sz bs hd tr b tr' idx :
  0 ≤ sz → 0 ≤ bs → 0 ≤ hd → sz * bs + hd < 2 ^ 32 →
  allocate sz bs hd tt tr = Ok (b, tt, tr') → 0 ≤ idx < sz →
  ptr b + hd ≤ elem_addr b idx ∧ elem_addr b idx + bs ≤ ptr b + bytes b ∧
  elem_addr b (idx + 1) = elem_addr b idx + bs.
Proof.
  intros ???? Ha ?. unfold allocate in Ha. run_inv.
  unfold elem_addr, data, ptr, bytes. cbn. rewrite wrap_small by nia. nia.
Qed.

Lemma elements_inside_mapping_witness :
  ptr one_buffer + 12 ≤ elem_addr one_buffer 3 ∧
  elem_addr one_buffer 3 + 4 ≤ ptr one_buffer + bytes one_buffer ∧
  elem_addr one_buffer (3 + 1) = elem_addr one_buffer 3 + 4.
Proof.
  apply (@elements_inside_mapping ideal_env 4 4 12 [] one_buffer [Cmmap 28] 3); try lia; reflexivity.
Defined.

End Buffer.
