(* ===== verification/Queue.v ===== *)
(** * Receive and send work completions

    [rdmalib::RecvWorkCompletions] and [rdmalib::SendWorkCompletions] of
    src/rdmalib/include/rdmalib/queue.hpp and src/rdmalib/lib/queue.cpp: a
    preallocated chain of 32 receive requests that is posted in batches, and the
    count of receives believed to be posted. *)

From S2P Require Import Prelude Verbs Buffer.

Module Queue.

Definition rbatch : Z := 32.
Definition wc_size : Z := 32.
Definition DEFAULT_REFILL_THRESHOLD : Z := 256.

(** An element of [_batch_wrs]; [bw_next] is the index of the element [next]
    points to, [None] for a null pointer. *)
Record batch_wr := mk_batch {
  bw_id : Z; bw_sg_list : list ibv_sge; bw_num_sge : Z; bw_next : option nat }.

Record recv_wcs := mk {
  _queue_pair : option ibv_qp; _rcv_buf_size : Z; _refill_threshold : Z; _requests : Z;
  _batch_wrs : list batch_wr }.

Record send_wcs := mk_send { send_queue_pair : option ibv_qp }.

Definition set_requests (r : Z) (q : recv_wcs) : recv_wcs :=
  mk (_queue_pair q) (_rcv_buf_size q) (_refill_threshold q) r (_batch_wrs q).
Definition set_batch (b : list batch_wr) (q : recv_wcs) : recv_wcs :=
  mk (_queue_pair q) (_rcv_buf_size q) (_refill_threshold q) (_requests q) b.
Definition set_qp (qp : option ibv_qp) (q : recv_wcs) : recv_wcs :=
  mk qp (_rcv_buf_size q) (_refill_threshold q) (_requests q) (_batch_wrs q).

Definition set_next (n : option nat) (w : batch_wr) : batch_wr :=
  mk_batch (bw_id w) (bw_sg_list w) (bw_num_sge w) n.
Definition set_sges (l : list ibv_sge) (w : batch_wr) : batch_wr :=
  mk_batch (bw_id w) l (Z.of_nat (length l)) (bw_next w).

Definition rcv_buf_size (q : recv_wcs) : Z := _rcv_buf_size q.

(** The loop of the constructor, then [_batch_wrs\[_rbatch-1\].next = NULL]. *)
Definition initial_batch : list batch_wr :=
  alter (set_next None) (Z.to_nat (rbatch - 1))
    ((λ i, mk_batch i [] 0 (Some (Z.to_nat (i + 1)))) <$> range rbatch).

(** The linked list that starts at element [i], as [ibv_post_recv] reads it:
    [None] if it leaves the array or has not ended after [fuel] elements. *)
Fixpoint chain (fuel : nat) (wrs : list batch_wr) (i : nat) : option (list ibv_recv_wr) :=
  match fuel with
  | O => None
  | S fuel =>
      w ← wrs !! i;
      rest ← match bw_next w with
             | None => Some []
             | Some j => chain fuel wrs j
             end;
      Some (mk_recv_wr (bw_id w) (bw_sg_list w) (bw_num_sge w) :: rest)
  end.

Section Ops.
Context `{Env}.

Definition the_qp : M recv_wcs ibv_qp :=
  q ← read; lift (from_opt "null queue pair" (_queue_pair q)).

(** [for(int i = 0; i < _rbatch; i++)] with [buf.sge(offset, i*offset)]; both
    arguments of [sge] are 32-bit. *)
Definition initialize_batched_recv (buf : Buffer.t) (offset : Z) : M recv_wcs unit :=
  for_each (range rbatch) (λ i,
    l ← Buffer.sge buf (u32 offset) (u32 (i * offset));
    modify (λ q, set_batch (alter (set_sges l) (Z.to_nat i) (_batch_wrs q)) q)).

(** [do { ret = ibv_poll_cq(...) } while(blocking && ret == 0)] *)
Fixpoint poll_loop {S} (fuel : nat) (cq num : Z) (blocking : bool) : M S (Z * list ibv_wc) :=
  match fuel with
  | O => raise StillRunning
  | Datatypes.S fuel =>
      r ← ext (Cpoll_cq cq num) (λ tr, env_poll_cq tr cq num);
      if blocking && (r.1 =? 0) then poll_loop fuel cq num blocking else mret r
  end.

(** The tuple a polling function returns: the completions ([None]: a null
    pointer) and the count. *)
Definition poll_result (r : Z * list ibv_wc) : option (list ibv_wc) * Z :=
  if r.1 <? 0 then (None, -1) else (Some r.2, r.1).

Definition _poll (blocking : bool) (count : Z) : M recv_wcs (option (list ibv_wc) * Z) :=
  qp ← the_qp;
  r ← poll_loop env_spin (qp_recv_cq qp) (if count =? -1 then wc_size else count) blocking;
  mret (poll_result r).

(** [ibv_post_recv(_queue_pair, &_batch_wrs[0], &bad)] *)
Definition post_chain : M recv_wcs Z :=
  q ← read;
  qp ← the_qp;
  wrs ← lift (from_opt "receive chain" (chain (Z.to_nat rbatch) (_batch_wrs q) 0));
  ext (Cpost_recv qp wrs) (λ tr, env_post_recv tr qp wrs).

(** [for(int i = 0; i < loops; ++i) { ret = ...; if(ret) break; }] *)
Fixpoint post_loops (loops : nat) : M recv_wcs Z :=
  match loops with
  | O => mret 0
  | S loops => ret ← post_chain; if nonzero ret then mret ret else post_loops loops
  end.

Definition post_batched_empty_recv (count : Z) : M recv_wcs Z :=
  let loops := Z.quot count rbatch in
  let reminder := Z.rem count rbatch in
  ret ← post_loops (Z.to_nat loops);
  ret ← (if (ret =? 0) && (0 <? reminder) then
           let last := Z.to_nat (reminder - 1) in
           modify (λ q, set_batch (alter (set_next None) last (_batch_wrs q)) q) ;;
           ret ← post_chain;
           modify (λ q, set_batch (alter (set_next (Some (Z.to_nat reminder))) last
                                         (_batch_wrs q)) q) ;;
           mret ret
         else mret ret);
  mret (if nonzero ret then -1 else count).

Definition poll (blocking : bool) : M recv_wcs (option (list ibv_wc) * Z) :=
  wc ← _poll blocking (-1);
  modify (λ q, set_requests (_requests q - wc.2) q) ;;
  mret wc.

Definition update_requests (change : Z) : M recv_wcs unit :=
  modify (λ q, set_requests (_requests q + change) q).

Definition refill : M recv_wcs bool :=
  q ← read;
  if _requests q <? _refill_threshold q then
    post_batched_empty_recv (_rcv_buf_size q - _requests q) ;;
    modify (set_requests (_rcv_buf_size q)) ;;
    mret true
  else mret false.

(** [RecvWorkCompletions(int rcv_buf_size, ibv_qp* queue_pair)] *)
Definition construct {S} (size : Z) (qp : option ibv_qp) : M S recv_wcs :=
  let q := mk qp size (Z.min size DEFAULT_REFILL_THRESHOLD) 0 initial_batch in
  λ s t,
    match qp with
    | None => Ok (q, s, t)
    | Some _ =>
        match refill q t with
        | Ok (_, q', t') => Ok (q', s, t')
        | Fault f => Fault f
        end
    end.

(** [initialize(receive_buffer, stride)]; [sizeof(T)] is the element size. *)
Definition initialize (buf : Buffer.t) (stride : Z) : M recv_wcs unit :=
  q ← read;
  match _queue_pair q with
  | None => mret tt
  | Some _ =>
      (if stride =? -1 then initialize_batched_recv buf (Buffer._byte_size buf)
       else initialize_batched_recv buf stride) ;;
      modify (set_requests 0) ;;
      refill ;;
      mret tt
  end.

(** The completions of a poll. *)
Definition polled (r : option (list ibv_wc) * Z) : list ibv_wc :=
  match r.1 with Some l => take (Z.to_nat r.2) l | None => [] end.

(** ** The ledger of posted and completed receives *)

(** Receives accepted by a queue pair: those of the calls that returned zero. *)
Fixpoint accepted (qp : ibv_qp) (tr : trace) : Z :=
  match tr with
  | [] => 0
  | Cpost_recv qp' wrs :: tr' =>
      (if bool_decide (qp' = qp) && (env_post_recv tr' qp' wrs =? 0)
       then Z.of_nat (length wrs) else 0) + accepted qp tr'
  | _ :: tr' => accepted qp tr'
  end.

(** Completions returned by the polls of one completion queue. *)
Fixpoint completed (cq : Z) (tr : trace) : Z :=
  match tr with
  | [] => 0
  | Cpoll_cq cq' num :: tr' =>
      (if cq' =? cq then Z.max 0 (env_poll_cq tr' cq' num).1 else 0) + completed cq tr'
  | _ :: tr' => completed cq tr'
  end.
End Ops.

(** The [next] pointers form the list 0, 1, ..., 31, whatever the requests hold. *)
Definition batch_ok (wrs : list batch_wr) : Prop :=
  bw_next <$> wrs = bw_next <$> initial_batch ∧ bw_id <$> wrs = bw_id <$> initial_batch.

Definition to_recv (w : batch_wr) : ibv_recv_wr :=
  mk_recv_wr (bw_id w) (bw_sg_list w) (bw_num_sge w).

(** ** The chain *)

Lemma chain_spec wrs n fuel i :
  (i < n)%nat → (n ≤ length wrs)%nat → (n - i ≤ fuel)%nat →
  (∀ k w, (i ≤ k < n - 1)%nat → wrs !! k = Some w → bw_next w = Some (S k)) →
  (∀ w, wrs !! (n - 1)%nat = Some w → bw_next w = None) →
  chain fuel wrs i = Some (to_recv <$> take (n - i) (drop i wrs)).
Proof.
  intros Hi Hn. remember (n - i)%nat as m eqn:Em. revert i fuel Hi Em.
  induction m as [|m IH]; intros i fuel Hi Em Hf Hnext Hlast; [lia|].
  destruct fuel as [|fuel]; [lia|].
  destruct (lookup_lt_is_Some_2 wrs i) as [w Hw]; [lia|].
  cbn [chain]. rewrite Hw. cbn [mbind option_bind].
  rewrite (drop_S _ _ _ Hw). cbn [take fmap list_fmap].
  destruct (decide (i = n - 1)%nat) as [->|Hne].
  - rewrite (Hlast w Hw). cbn. replace m with O by lia. by rewrite take_0.
  - rewrite (Hnext i w ltac:(lia) Hw). rewrite (IH (S i) fuel) by (lia || eauto with lia).
    done.
Qed.

Lemma initial_batch_length : length initial_batch = 32%nat.
Proof. reflexivity. Qed.

Lemma batch_ok_length wrs : batch_ok wrs → length wrs = 32%nat.
Proof.
  intros [E _]. apply (f_equal length) in E. by rewrite !length_fmap in E.
Qed.

Lemma batch_ok_next wrs k w :
  batch_ok wrs → wrs !! k = Some w →
  bw_next w = if decide (k = 31)%nat then None else Some (S k).
Proof.
  intros Hok Hw. pose proof (lookup_lt_Some _ _ _ Hw) as Hlt.
  rewrite (batch_ok_length _ Hok) in Hlt. destruct Hok as [E _].
  apply (f_equal (.!! k)) in E. rewrite list_lookup_fmap, Hw in E. cbn in E.
  do 32 (destruct k as [|k]; [by injection E|]). lia.
Qed.

Lemma batch_ok_id wrs k w : batch_ok wrs → wrs !! k = Some w → bw_id w = Z.of_nat k.
Proof.
  intros Hok Hw. pose proof (lookup_lt_Some _ _ _ Hw) as Hlt.
  rewrite (batch_ok_length _ Hok) in Hlt. destruct Hok as [_ E].
  apply (f_equal (.!! k)) in E. rewrite list_lookup_fmap, Hw in E. cbn in E.
  do 32 (destruct k as [|k]; [by injection E|]). lia.
Qed.

Lemma chain_full wrs :
  batch_ok wrs → chain (Z.to_nat rbatch) wrs 0 = Some (to_recv <$> wrs).
Proof.
  intros Hok. pose proof (batch_ok_length _ Hok) as Hl.
  rewrite (chain_spec wrs 32).
  - rewrite drop_0, take_ge by lia. done.
  - lia.
  - lia.
  - unfold rbatch. lia.
  - intros k w Hk Hw. rewrite (batch_ok_next _ _ _ Hok Hw). by rewrite decide_False by lia.
  - intros w Hw. by rewrite (batch_ok_next _ _ _ Hok Hw).
Qed.

(** Cutting the chain after [r] elements posts the first [r] requests. *)
Lemma chain_cut wrs r :
  batch_ok wrs → (0 < r < 32)%nat →
  chain (Z.to_nat rbatch) (alter (set_next None) (r - 1)%nat wrs) 0 =
  Some (to_recv <$> take r wrs).
Proof.
  intros Hok Hr. pose proof (batch_ok_length _ Hok) as Hl.
  rewrite (chain_spec _ r).
  - rewrite drop_0, Nat.sub_0_r. f_equal. apply list_eq; intros k.
    rewrite !list_lookup_fmap. destruct (decide (k < r)%nat).
    + rewrite !lookup_take_lt by lia. destruct (decide (k = r - 1)%nat) as [->|].
      * rewrite list_lookup_alter_eq. by destruct (wrs !! _).
      * by rewrite list_lookup_alter_ne by lia.
    + rewrite !lookup_take_ge by lia. done.
  - lia.
  - rewrite length_alter. lia.
  - unfold rbatch. lia.
  - intros k w Hk Hw. rewrite list_lookup_alter_ne in Hw by lia.
    rewrite (batch_ok_next _ _ _ Hok Hw). by rewrite decide_False by lia.
  - intros w Hw. rewrite list_lookup_alter_eq in Hw.
    destruct (wrs !! _) as [w'|]; [|done]. by injection Hw as <-.
Qed.

(** Restoring the pointer gives the batch back. *)
Lemma cut_restore wrs r :
  batch_ok wrs → (0 < r < 32)%nat →
  alter (set_next (Some r)) (r - 1)%nat (alter (set_next None) (r - 1)%nat wrs) = wrs.
Proof.
  intros Hok Hr. apply list_eq; intros k. destruct (decide (k = r - 1)%nat) as [->|].
  - rewrite !list_lookup_alter_eq. destruct (wrs !! (r - 1)%nat) as [w|] eqn:Hw; [|done].
    cbn. f_equal. pose proof (batch_ok_next _ _ _ Hok Hw) as E.
    rewrite decide_False in E by lia. destruct w; cbn in *. unfold set_next; cbn. f_equal.
    rewrite E. f_equal. lia.
  - by rewrite !list_lookup_alter_ne by lia.
Qed.

(** ** Runs *)

(** A call that posts a prefix of at most [n] requests of the batch. *)
Definition posts_prefix (qp : ibv_qp) (wrs : list batch_wr) (n : Z) (c : call) : Prop :=
  ∃ m, (Z.of_nat m ≤ n) ∧ c = Cpost_recv qp (to_recv <$> take m wrs).

Section Runs.
Context `{Env}.

Lemma the_qp_run q qp t : _queue_pair q = Some qp → the_qp q t = Ok (qp, q, t).
Proof. intros E. unfold the_qp. run. by rewrite E. Qed.

Lemma post_chain_run q qp wrs t :
  _queue_pair q = Some qp → chain (Z.to_nat rbatch) (_batch_wrs q) 0 = Some wrs →
  post_chain q t = Ok (env_post_recv t qp wrs, q, Cpost_recv qp wrs :: t).
Proof.
  intros Eq Ec. unfold post_chain, the_qp. run. by rewrite Eq, Ec.
Qed.

Lemma post_loops_run q qp n t :
  _queue_pair q = Some qp → batch_ok (_batch_wrs q) →
  ∃ ret k u, post_loops n q t = Ok (ret, q, u ++ t) ∧
    Forall (posts_prefix qp (_batch_wrs q) 32) u ∧
    accepted qp (u ++ t) = accepted qp t + 32 * Z.of_nat k ∧
    (ret = 0 ∧ k = n ∨ ret ≠ 0 ∧ (k < n)%nat).
Proof.
  intros Eq Hok. pose proof (batch_ok_length _ Hok) as Hl. revert t.
  induction n as [|n IH]; intros t; cbn [post_loops].
  { exists 0, O, []. split; [done|]. split; [constructor|]. cbn [app]. split; [lia|]. by left. }
  pose proof (post_chain_run q qp _ t Eq (chain_full _ Hok)) as Hc.
  set (c := Cpost_recv qp (to_recv <$> _batch_wrs q)) in *.
  assert (posts_prefix qp (_batch_wrs q) 32 c) as Hp.
  { exists 32%nat. split; [lia|]. by rewrite take_ge by lia. }
  rewrite (bind_run _ _ _ _ _ _ _ Hc).
  destruct (nonzero (env_post_recv t qp (to_recv <$> _batch_wrs q))) eqn:En; unfold nonzero in En.
  - eexists _, O, [c]. split; [reflexivity|]. split; [by repeat constructor|].
    cbn [accepted app c]. rewrite bool_decide_eq_true_2, length_fmap, Hl by done. cbn [andb].
    apply negb_true_iff in En. rewrite En. split; [lia|].
    right. split; [by apply Z.eqb_neq|lia].
  - destruct (IH (c :: t)) as (ret & k & u & E & Hu & Ha & Hr).
    apply negb_false_iff in En.
    exists ret, (S k), (u ++ [c]). rewrite <-app_assoc. cbn [app]. split; [done|].
    split; [by apply Forall_app; split; [|repeat constructor]|].
    rewrite Ha. cbn [accepted c]. rewrite bool_decide_eq_true_2, length_fmap, Hl, En by done. cbn [andb]. split; [lia|].
    destruct Hr as [[-> ->]|[? ?]]; [left|right]; split; lia || done.
Qed.

Lemma posts_prefix_weaken qp wrs n n' c : n ≤ n' → posts_prefix qp wrs n c → posts_prefix qp wrs n' c.
Proof using. intros ? (m & ? & ->). exists m. split; [lia|done]. Qed.

(** The last, shorter batch: the chain is cut, posted and restored. *)
Lemma post_remainder_run q qp r t :
  _queue_pair q = Some qp → batch_ok (_batch_wrs q) → (0 < r < 32)%nat →
  let wrs := to_recv <$> take r (_batch_wrs q) in
  (modify (λ q, set_batch (alter (set_next None) (r - 1)%nat (_batch_wrs q)) q) ;;
   ret ← post_chain;
   modify (λ q, set_batch (alter (set_next (Some r)) (r - 1)%nat (_batch_wrs q)) q) ;;
   mret ret) q t
  = Ok (env_post_recv t qp wrs, q, Cpost_recv qp wrs :: t).
Proof.
  intros Eq Hok Hr wrs.
  rewrite (bind_run _ _ _ _ tt _ t (eq_refl (Ok (tt, _, t)))).
  set (q1 := set_batch _ q).
  rewrite (bind_run _ _ _ _ _ _ _ (post_chain_run q1 qp wrs t Eq (chain_cut _ _ Hok Hr))).
  run. unfold q1. cbn [set_batch _batch_wrs _queue_pair _rcv_buf_size _refill_threshold _requests].
  rewrite cut_restore by done. by destruct q.
Qed.

Lemma post_batched_run q qp count t :
  _queue_pair q = Some qp → batch_ok (_batch_wrs q) → 0 ≤ count →
  ∃ r u, post_batched_empty_recv count q t = Ok (r, q, u ++ t) ∧
    Forall (posts_prefix qp (_batch_wrs q) (Z.min 32 count)) u ∧
    (r = count ∧ accepted qp (u ++ t) = accepted qp t + count ∨
     r = -1 ∧ accepted qp (u ++ t) < accepted qp t + count).
Proof.
  intros Eq Hok Hc. pose proof (batch_ok_length _ Hok) as Hl.
  unfold post_batched_empty_recv, rbatch.
  pose proof (Z.quot_rem' count 32) as Hqr.
  pose proof (Z.rem_bound_pos count 32 Hc ltac:(lia)) as Hrb.
  pose proof (Z.quot_pos count 32 Hc ltac:(lia)) as Hq.
  set (loops := Z.quot count 32) in *. set (rem := Z.rem count 32) in *. cbn zeta.
  destruct (post_loops_run q qp (Z.to_nat loops) t Eq Hok) as (ret & k & u & E & Hu & Ha & Hr).
  assert (Forall (posts_prefix qp (_batch_wrs q) (Z.min 32 count)) u) as Hu'.
  { destruct (decide (loops = 0)) as [E0|].
    - rewrite E0 in E. cbn in E. injection E as _ E. change t with ([] ++ t) in E at 1.
      apply app_inv_tail in E as <-. constructor.
    - eapply Forall_impl; [exact Hu|]. intros c. apply posts_prefix_weaken. lia. }
  rewrite (bind_run _ _ _ _ _ _ _ E).
  destruct Hr as [[-> ->]|[Hr Hk]].
  - destruct (Z.ltb_spec 0 rem) as [Hrem|Hrem]; cbn [Z.eqb andb].
    + replace (Z.to_nat (rem - 1)) with (Z.to_nat rem - 1)%nat by lia.
      rewrite (bind_run _ _ _ _ _ _ _
        (post_remainder_run q qp (Z.to_nat rem) (u ++ t) Eq Hok ltac:(lia))).
      set (wrs := to_recv <$> _). set (c := Cpost_recv qp wrs).
      assert (Z.of_nat (length wrs) = rem) as Hlen
        by (unfold wrs; rewrite length_fmap, length_take; lia).
      eexists _, (c :: u). run. split; [reflexivity|]. split.
      { constructor; [|done]. exists (Z.to_nat rem). split; [lia|done]. }
      cbn [app accepted c]. rewrite bool_decide_eq_true_2, Hlen, Ha by done. cbn [andb]. unfold nonzero.
      destruct (env_post_recv (u ++ t) qp wrs =? 0); cbn [negb]; [left|right]; split; lia || done.
    + eexists _, u. run. split; [reflexivity|]. split; [done|]. left. rewrite Ha. split; [done|lia].
  - rewrite (proj2 (Z.eqb_neq ret 0) Hr). cbn [andb]. eexists _, u. run.
    split; [reflexivity|]. split; [done|]. right. unfold nonzero.
    rewrite (proj2 (Z.eqb_neq ret 0) Hr). split; [done|]. rewrite Ha. lia.
Qed.

Lemma posts_completed qp wrs n cq u t :
  Forall (posts_prefix qp wrs n) u → completed cq (u ++ t) = completed cq t.
Proof. induction 1 as [|c u (m & ? & ->) Hu IH]; cbn; done. Qed.

Lemma poll_accepted qp cq num t : accepted qp (Cpoll_cq cq num :: t) = accepted qp t.
Proof. done. Qed.

Lemma refill_run q qp t :
  _queue_pair q = Some qp → batch_ok (_batch_wrs q) →
  _requests q < _refill_threshold q → _refill_threshold q ≤ _rcv_buf_size q →
  ∃ u, refill q t = Ok (true, set_requests (_rcv_buf_size q) q, u ++ t) ∧
    Forall (posts_prefix qp (_batch_wrs q) (Z.min 32 (_rcv_buf_size q - _requests q))) u ∧
    (accepted qp (u ++ t) = accepted qp t + (_rcv_buf_size q - _requests q) ∨
     accepted qp (u ++ t) < accepted qp t + (_rcv_buf_size q - _requests q)).
Proof.
  intros Eq Hok Hlt Hle. unfold refill.
  rewrite (bind_run _ _ _ _ _ _ _ (eq_refl (Ok (q, q, t)))).
  rewrite (proj2 (Z.ltb_lt _ _) Hlt).
  destruct (post_batched_run q qp (_rcv_buf_size q - _requests q) t Eq Hok ltac:(lia))
    as (r & u & E & Hu & Hr).
  rewrite (bind_run _ _ _ _ _ _ _ E). exists u. run.
  split; [done|]. split; [done|]. destruct Hr as [[_ ?]|[_ ?]]; [by left|by right].
Qed.

(** ** Polling *)

Lemma poll_loop_returns {S} fuel cq num k t (s : S) :
  (k < fuel)%nat →
  (∀ j, (j < k)%nat → (env_poll_cq (replicate j (Cpoll_cq cq num) ++ t) cq num).1 = 0) →
  (env_poll_cq (replicate k (Cpoll_cq cq num) ++ t) cq num).1 ≠ 0 →
  poll_loop fuel cq num true s t =
  Ok (env_poll_cq (replicate k (Cpoll_cq cq num) ++ t) cq num, s,
      replicate (Datatypes.S k) (Cpoll_cq cq num) ++ t).
Proof.
  revert fuel t. induction k as [|k IH]; intros fuel t Hf Hz Hnz;
    (destruct fuel as [|fuel]; [lia|]); cbn [poll_loop]; run.
  - cbn [replicate app] in *. by rewrite (proj2 (Z.eqb_neq _ _) Hnz).
  - pose proof (Hz O ltac:(lia)) as H0. cbn in H0. rewrite H0. cbn [andb Z.eqb].
    assert (∀ j, replicate (Datatypes.S j) (Cpoll_cq cq num) ++ t
                 = replicate j (Cpoll_cq cq num) ++ Cpoll_cq cq num :: t) as Hs.
    { intros j. by rewrite replicate_S_end, <-app_assoc. }
    rewrite (IH fuel (Cpoll_cq cq num :: t)).
    + by rewrite <-!Hs.
    + lia.
    + intros j Hj. rewrite <-Hs. apply Hz. lia.
    + by rewrite <-Hs.
Qed.

(** Whatever a polling loop returned is the answer to its last poll; the
    polls before it returned nothing. *)
Lemma poll_loop_inv {S} fuel cq num b (s : S) t r s' t' qp :
  poll_loop fuel cq num b s t = Ok (r, s', t') →
  s' = s ∧ accepted qp t' = accepted qp t ∧
  completed cq t' = completed cq t + Z.max 0 r.1 ∧
  (b = true → r.1 ≠ 0) ∧
  ∃ tr, r = env_poll_cq tr cq num ∧ completed cq tr = completed cq t ∧
        accepted qp tr = accepted qp t.
Proof.
  revert t. induction fuel as [|fuel IH]; intros t; cbn [poll_loop]; run; [done|].
  destruct (b && _) eqn:Eb.
  - intros E. apply IH in E as (-> & Ha & Hc & Hb & tr & ? & Hct & Hat).
    apply andb_true_iff in Eb as [_ Ez%Z.eqb_eq].
    cbn [accepted completed] in *. rewrite Z.eqb_refl, Ez in *.
    repeat split; [done|lia|done|]. exists tr. repeat split; [done|lia|done].
  - intros [= <- <- <-]. cbn [accepted completed]. rewrite Z.eqb_refl.
    repeat split; [lia| |by exists t].
    intros ->. apply andb_false_iff in Eb as [|Ez%Z.eqb_neq]; done.
Qed.

Lemma poll_inv b q qp t wc q' t' :
  _queue_pair q = Some qp → poll b q t = Ok (wc, q', t') →
  ∃ r tr, r = env_poll_cq tr (qp_recv_cq qp) wc_size ∧ wc = poll_result r ∧
    completed (qp_recv_cq qp) tr = completed (qp_recv_cq qp) t ∧
    accepted qp tr = accepted qp t ∧
    q' = set_requests (_requests q - wc.2) q ∧
    accepted qp t' = accepted qp t ∧
    completed (qp_recv_cq qp) t' = completed (qp_recv_cq qp) t + Z.max 0 r.1 ∧
    (b = true → r.1 ≠ 0).
Proof.
  intros Eq Hp. unfold poll, _poll in Hp. run_inv.
  match goal with E : the_qp _ _ = _ |- _ =>
    rewrite (the_qp_run _ _ _ Eq) in E; injection E as <- <- <- end.
  match goal with E : poll_loop _ _ _ _ _ _ = _ |- _ =>
    apply (poll_loop_inv _ _ _ _ _ _ _ _ _ qp) in E as (-> & ? & ? & ? & tr & -> & ? & ?) end.
  eexists _, tr. repeat split; done.
Qed.
End Runs.

(** ** The invariant of a receive queue *)

Section Invariant.
Context `{Env} (qp : ibv_qp) (size : Z) (took : trace → list ibv_recv_wr → Z).

Abbreviation cq := (qp_recv_cq qp).

(** The receives the hardware has: all requests of a call that returned zero; of a call that failed, as many
    as it took before the bad one, [took]. *)
Fixpoint posted (tr : trace) : Z :=
  match tr with
  | [] => 0
  | Cpost_recv qp' wrs :: tr' =>
      (if bool_decide (qp' = qp) then
         if env_post_recv tr' qp' wrs =? 0 then Z.of_nat (length wrs)
         else Z.max 0 (Z.min (took tr' wrs) (Z.of_nat (length wrs)))
       else 0) + posted tr'
  | _ :: tr' => posted tr'
  end.

(** Of those, the ones that wait for a message. *)
Definition outstanding (tr : trace) : Z := posted tr - completed cq tr.

(** No call on this queue has failed. *)
Fixpoint no_failure (tr : trace) : Prop :=
  match tr with
  | [] => True
  | Cpost_recv qp' wrs :: tr' => (qp' = qp → env_post_recv tr' qp' wrs = 0) ∧ no_failure tr'
  | Cpoll_cq cq' num :: tr' => (cq' = cq → 0 ≤ (env_poll_cq tr' cq' num).1) ∧ no_failure tr'
  | _ :: tr' => no_failure tr'
  end.

(** The documented behaviour of polling: it fails, or reports completions of requests that were posted. *)
Definition polls_posted : Prop := ∀ tr n, (env_poll_cq tr cq n).1 ≤ outstanding tr.

Inductive qstep : recv_wcs * trace → recv_wcs * trace → Prop :=
  | qstep_poll b q t wc q' t' : poll b q t = Ok (wc, q', t') → qstep (q, t) (q', t')
  | qstep_refill q t r q' t' : refill q t = Ok (r, q', t') → qstep (q, t) (q', t').

Definition fresh_queue : recv_wcs :=
  mk (Some qp) size (Z.min size DEFAULT_REFILL_THRESHOLD) 0 initial_batch.

Definition queue_inv (st : recv_wcs * trace) : Prop :=
  let '(q, t) := st in
  _queue_pair q = Some qp ∧ batch_ok (_batch_wrs q) ∧ _rcv_buf_size q = size ∧
  _refill_threshold q = Z.min size DEFAULT_REFILL_THRESHOLD ∧
  0 ≤ outstanding t ≤ size ∧ outstanding t ≤ _requests q ∧ (no_failure t → _requests q = outstanding t).

(** One call of [ibv_post_recv]. *)
Lemma posted_call wrs t :
  posted t ≤ posted (Cpost_recv qp wrs :: t) ≤ posted t + Z.of_nat (length wrs) ∧
  (env_post_recv t qp wrs = 0 → posted (Cpost_recv qp wrs :: t) = posted t + Z.of_nat (length wrs)).
Proof using. cbn [posted]. rewrite bool_decide_eq_true_2 by done. destruct (Z.eqb_spec (env_post_recv t qp wrs) 0); lia. Qed.

Lemma no_failure_app u t : no_failure (u ++ t) → no_failure t.
Proof using. induction u as [|c u IH]; cbn; [done|]. destruct c; naive_solver. Qed.

(** What a sequence of posts of [n] requests adds to the ledger. *)
Definition posts (n : Z) (ret : Z) (t t' : trace) : Prop :=
  posted t ≤ posted t' ≤ posted t + n ∧ completed cq t' = completed cq t ∧
  (ret = 0 → posted t' = posted t + n) ∧ (no_failure t' → ret = 0 ∧ no_failure t).

Lemma posts_call wrs t : posts (Z.of_nat (length wrs)) (env_post_recv t qp wrs) t (Cpost_recv qp wrs :: t).
Proof using.
  destruct (posted_call wrs t) as [Hb He]. unfold posts. split_and!; [lia|lia|done|exact He|]. cbn [no_failure]. intros [Hz Hn]. auto.
Qed.

Lemma post_loops_posts q n t : _queue_pair q = Some qp → batch_ok (_batch_wrs q) →
  ∃ ret t', post_loops n q t = Ok (ret, q, t') ∧ posts (32 * Z.of_nat n) ret t t'.
Proof using.
  intros Eq Hok. revert t. induction n as [|n IH]; intros t; cbn [post_loops].
  { exists 0, t. split; [done|]. unfold posts. split_and!; done || lia. }
  rewrite (bind_run _ _ _ _ _ _ _ (post_chain_run q qp _ t Eq (chain_full _ Hok))).
  pose proof (posts_call (to_recv <$> _batch_wrs q) t) as (Hb & Hc & He & Hn).
  rewrite length_fmap, (batch_ok_length _ Hok) in Hb, He.
  set (wrs := to_recv <$> _batch_wrs q) in *. set (c := Cpost_recv qp wrs) in *.
  unfold nonzero. destruct (Z.eqb_spec (env_post_recv t qp wrs) 0) as [Ez|Ez]; cbn [negb].
  - destruct (IH (c :: t)) as (ret & t' & E & Hb' & Hc' & He' & Hn'). exists ret, t'. split; [done|].
    unfold posts. rewrite He in * by done. split_and!; [lia|lia|congruence|intros Hr; rewrite He' by done; lia|naive_solver].
  - eexists _, (c :: t). split; [done|]. unfold posts. split_and!; [lia|lia|done|done|naive_solver].
Qed.

Lemma post_batched_posts q count t : _queue_pair q = Some qp → batch_ok (_batch_wrs q) → 0 ≤ count →
  ∃ r t', post_batched_empty_recv count q t = Ok (r, q, t') ∧
    posted t ≤ posted t' ≤ posted t + count ∧ completed cq t' = completed cq t ∧
    (no_failure t' → posted t' = posted t + count ∧ no_failure t).
Proof using.
  intros Eq Hok Hc. pose proof (Z.quot_rem' count 32) as Hqr. pose proof (Z.rem_bound_pos count 32 Hc ltac:(lia)) as Hrb.
  pose proof (Z.quot_pos count 32 Hc ltac:(lia)) as Hq. unfold post_batched_empty_recv, rbatch.
  destruct (post_loops_posts q (Z.to_nat (Z.quot count 32)) t Eq Hok) as (ret & t1 & E & Hb & Hcc & He & Hn).
  cbn zeta. rewrite (bind_run _ _ _ _ _ _ _ E). destruct (Z.eqb_spec ret 0) as [->|Hret]; cbn [andb].
  2: { eexists _, t1. run. split; [reflexivity|]. split_and!; [lia|lia|done|naive_solver]. }
  specialize (He eq_refl). destruct (Z.ltb_spec 0 (Z.rem count 32)) as [Hrem|Hrem].
  2: { eexists _, t1. run. split; [reflexivity|]. split_and!; [lia|lia|done|]. intros [_ ?]%Hn. split; [lia|done]. }
  replace (Z.to_nat (Z.rem count 32 - 1)) with (Z.to_nat (Z.rem count 32) - 1)%nat by lia.
  rewrite (bind_run _ _ _ _ _ _ _ (post_remainder_run q qp (Z.to_nat (Z.rem count 32)) t1 Eq Hok ltac:(lia))).
  pose proof (posts_call (to_recv <$> take (Z.to_nat (Z.rem count 32)) (_batch_wrs q)) t1) as (Hb' & Hc' & He' & Hn').
  rewrite length_fmap, length_take, (batch_ok_length _ Hok) in Hb', He'.
  eexists _, _. run. split; [reflexivity|]. split_and!; [lia|lia|congruence|].
  intros [Hz [_ Hnn]%Hn]%Hn'. specialize (He' Hz). split; [lia|done].
Qed.

Lemma refill_preserves q t r q' t' : queue_inv (q, t) → refill q t = Ok (r, q', t') →
  queue_inv (q', t') ∧ (no_failure t' → Z.min size DEFAULT_REFILL_THRESHOLD ≤ outstanding t').
Proof using.
  intros (Eq & Hok & Es & Eth & Ho & Hle & Hx) Hr. unfold refill in Hr. step_inv Hr. rewrite Es, Eth in Hr.
  destruct (Z.ltb_spec (_requests q) (Z.min size DEFAULT_REFILL_THRESHOLD)).
  - destruct (post_batched_posts q (size - _requests q) t Eq Hok ltac:(lia)) as (v & t1 & E & Hb & Hc & Hn).
    rewrite (bind_run _ _ _ _ _ _ _ E) in Hr. step_inv Hr. run_inv_at Hr. unfold queue_inv, outstanding in *. cbn. rewrite Hc.
    assert (no_failure t1 → size = posted t1 - completed cq t) as Hfull.
    { intros [Hp Hnt]%Hn. specialize (Hx Hnt). lia. }
    split_and!; try done; try lia; intros Hnf; specialize (Hfull Hnf); lia.
  - run_inv_at Hr. split; [split_and!; done || lia|]. intros Hnf. specialize (Hx Hnf). lia.
Qed.

Lemma poll_loop_ledger {S} fuel num b (s : S) t r s' t' :
  poll_loop fuel cq num b s t = Ok (r, s', t') →
  ∃ tr, r = env_poll_cq tr cq num ∧ posted tr = posted t ∧ completed cq tr = completed cq t ∧
    posted t' = posted t ∧ completed cq t' = completed cq t + Z.max 0 r.1 ∧ (no_failure t' → 0 ≤ r.1 ∧ no_failure t).
Proof using.
  revert t. induction fuel as [|fuel IH]; intros t; cbn [poll_loop]; run; [done|]. destruct (b && _) eqn:Eb.
  - intros E. apply IH in E as (tr & -> & Hp & Hc & Hp' & Hc' & Hn). apply andb_true_iff in Eb as [_ Ez%Z.eqb_eq].
    cbn [posted completed no_failure] in *. rewrite Z.eqb_refl, Ez in *. exists tr. split_and!; try done; try lia.
    intros [? [? ?]]%Hn. done.
  - intros [= <- <- <-]. exists t. cbn [posted completed no_failure]. rewrite Z.eqb_refl.
    split_and!; try done; try lia. intros [? ?]. auto.
Qed.

Lemma poll_preserves b q t wc q' t' : polls_posted → queue_inv (q, t) → poll b q t = Ok (wc, q', t') → queue_inv (q', t').
Proof using.
  intros Hpp (Eq & Hok & Es & Eth & Ho & Hle & Hx) E. unfold poll, _poll in E. bind_inv E as v q1 t1 E1.
  rewrite (bind_run _ _ _ _ _ _ _ (the_qp_run _ _ _ Eq)) in E1. change (-1 =? -1) with true in E1. cbv iota in E1.
  bind_inv E1 as r q2 t2 E2. pose proof E2 as Eq2. apply (poll_loop_inv _ _ _ _ _ _ _ _ _ qp) in Eq2 as [-> _].
  apply poll_loop_ledger in E2 as (tr & -> & Hp & Hc & Hp' & Hc' & Hn). run_inv_at E1. step_inv E. run_inv_at E.
  pose proof (Hpp tr wc_size) as Hr. unfold outstanding in *. rewrite Hp, Hc in Hr.
  cbn [queue_inv set_requests _queue_pair _batch_wrs _rcv_buf_size _refill_threshold _requests]. unfold outstanding.
  rewrite Hp', Hc'. unfold poll_result. destruct (Z.ltb_spec (env_poll_cq tr cq wc_size).1 0);
    cbn [snd]; split_and!; try done; try lia; intros [? Hnt]%Hn; specialize (Hx Hnt); lia.
Qed.

(** Every sequence of polls and refills. *)
Lemma queue_runs q t : polls_posted → 0 ≤ size → rtc qstep (fresh_queue, []) (q, t) → queue_inv (q, t).
Proof using.
  intros Hpp Hs Hr. refine (rtc_ind_r queue_inv (fresh_queue, []) _ _ (q, t) Hr).
  - unfold queue_inv, outstanding. split_and!; cbn; done || lia.
  - intros s1 s2 _ Hstep Hinv. destruct Hstep as [b ????? Hp|????? Hf].
    + by eapply poll_preserves.
    + by eapply refill_preserves.
Qed.
End Invariant.

(** ** Theorems *)

(** [post_batched_empty_recv] is exact. On a well-formed batch and for every
    environment it returns, leaves the batch (with its [next] pointers) as it
    found it, posts only prefixes of the batch of at most [min(32, count)]
    requests, and returns [count] exactly when all [count] receives were
    accepted; if it returns -1, fewer were. *)
Theorem post_batched_empty_recv_exact `{Env} q qp count t :
  _queue_pair q = Some qp → batch_ok (_batch_wrs q) → 0 ≤ count →
  ∃ r u, post_batched_empty_recv count q t = Ok (r, q, u ++ t) ∧
    Forall (posts_prefix qp (_batch_wrs q) (Z.min 32 count)) u ∧
    (r = count ∧ accepted qp (u ++ t) = accepted qp t + count ∨
     r = -1 ∧ accepted qp (u ++ t) < accepted qp t + count).
Proof. apply post_batched_run. Qed.

Lemma post_batched_empty_recv_exact_witness :
  ∃ r u, @post_batched_empty_recv ideal_env 70 (fresh_queue some_qp 70) [] =
           Ok (r, fresh_queue some_qp 70, u ++ []) ∧
    Forall (posts_prefix some_qp initial_batch (Z.min 32 70)) u ∧
    (r = 70 ∧ @accepted ideal_env some_qp (u ++ []) = @accepted ideal_env some_qp [] + 70 ∨
     r = -1 ∧ @accepted ideal_env some_qp (u ++ []) < @accepted ideal_env some_qp [] + 70).
Proof.
  apply (@post_batched_empty_recv_exact ideal_env (fresh_queue some_qp 70) some_qp 70 []);
    [reflexivity|split; reflexivity|lia].
Defined.

(** C32. Invariant of the receive queue. For hardware that reports completions of posted receives only, in
    every state reached from a fresh queue by any sequence of polls and refills, whichever of the calls fail:
    the receives that wait for a message (posted, those a failing call took before the bad one included, and
    not completed) are between zero and the size of the queue, so the hardware queue is never over-posted; the
    request counter is at least their number; the counter is their number as long as no call on the queue has
    failed, and then a refill leaves at least the refill threshold waiting. After a failure the counter can be
    too large for good, so that a refill posts too few receives or none. *)
Theorem receive_queue_invariant `{Env} qp size took q t :
  polls_posted qp took → 0 ≤ size → rtc (qstep) (fresh_queue qp size, []) (q, t) →
  0 ≤ outstanding qp took t ≤ size ∧ outstanding qp took t ≤ _requests q ∧
  (no_failure qp t → _requests q = outstanding qp took t) ∧
  ∀ r q' t', refill q t = Ok (r, q', t') → no_failure qp t' →
    Z.min size DEFAULT_REFILL_THRESHOLD ≤ outstanding qp took t' ≤ size.
Proof.
  intros Hpp Hs Hr. pose proof (queue_runs qp size took q t Hpp Hs Hr) as Hi.
  pose proof Hi as (_ & _ & _ & _ & Ho & Hle & Hx). split_and!; try done; try lia.
  intros r q' t' Hf Hn. destruct (refill_preserves qp size took q t r q' t' Hi Hf) as [(_ & _ & _ & _ & Ho' & _) Hth].
  specialize (Hth Hn). lia.
Qed.

(** An environment in which a message arrives after every post. *)
Definition message_env : Env :=
  scripted_env 8 (λ t cq _,
      match t with
      | Cpost_recv qp (_ :: _) :: _ => if bool_decide (qp = some_qp) then (1, [mk_wc 0 0 7 0 4]) else (0, [])
      | _ => (0, [])
      end)
    (λ _, (0, quiet_event)) (λ _, 0) (λ _, 0).

Lemma message_polls_posted took : @polls_posted message_env some_qp took.
Proof.
  assert (∀ tr n, 0 ≤ (@env_poll_cq message_env tr 71 n).1 ≤ @outstanding message_env some_qp took tr) as Hall;
    [|intros tr n; apply Hall].
  induction tr as [|c tr IH]; intros n; [unfold outstanding; cbn; lia|]. pose proof (IH wc_size) as IH0. unfold outstanding in *.
  destruct c; try (cbn; cbn in IH0; lia).
  - cbn [posted completed]. change (env_post_recv tr qp wrs) with 0. change (0 =? 0) with true.
    change (env_poll_cq (Cpost_recv qp wrs :: tr) 71 n) with
      (match wrs with _ :: _ => if bool_decide (qp = some_qp) then (1, [mk_wc 0 0 7 0 4]) else (0, []) | [] => (0, []) end).
    destruct wrs as [|wr wrs]; case_bool_decide; cbn [fst length]; lia.
  - cbn [posted completed]. specialize (IH num). change (env_poll_cq (Cpoll_cq cq num :: tr) 71 n).1 with 0.
    change (qp_recv_cq some_qp) with 71 in *. destruct (Z.eqb_spec cq 71) as [->|]; lia.
Qed.

(** Filled, then a message arrives. *)
Lemma receive_queue_invariant_witness :
  ∃ q t, rtc (@qstep message_env) (fresh_queue some_qp 70, []) (q, t) ∧ _requests q = 69 ∧
    @outstanding message_env some_qp (λ _ _, 0) t = 69.
Proof.
  destruct (@refill message_env (fresh_queue some_qp 70) []) as [[[r q] t]|] eqn:E; [|vm_compute in E; discriminate E].
  destruct (@poll message_env true q t) as [[[wc q'] t']|] eqn:E';
    [|clear -E E'; vm_compute in E; injection E as <- <- <-; vm_compute in E'; discriminate E'].
  assert (_requests q' = 69 ∧ @no_failure message_env some_qp t') as [Hq Hn].
  { clear -E E'. vm_compute in E. injection E as <- <- <-. vm_compute in E'. injection E' as <- <- <-.
    split; [reflexivity|]. cbn. repeat split; done. }
  assert (rtc (@qstep message_env) (fresh_queue some_qp 70, []) (q', t')) as Hr.
  { eapply rtc_l; [exact (qstep_refill _ _ _ _ _ E)|]. apply rtc_once. exact (qstep_poll _ _ _ _ _ _ E'). }
  destruct (@receive_queue_invariant message_env some_qp 70 (λ _ _, 0) q' t' (message_polls_posted _) ltac:(lia) Hr)
    as (_ & _ & Hx & _).
  exists q', t'. split; [exact Hr|]. split; [exact Hq|]. rewrite <-(Hx Hn). exact Hq.
Defined.

(** Failed verbs corrupt the counter. When the queue is polled with an error,
    [poll] reports -1 completions and adds one to the number of posted receives;
    and whatever the answers to the posts were, [refill] records a full queue. *)
Theorem failures_corrupt_requests `{Env} q qp t :
  _queue_pair q = Some qp → batch_ok (_batch_wrs q) → (0 < env_spin)%nat →
  ((env_poll_cq t (qp_recv_cq qp) wc_size).1 < 0 →
   poll false q t =
     Ok ((None, -1), set_requests (_requests q + 1) q, Cpoll_cq (qp_recv_cq qp) wc_size :: t)) ∧
  (_requests q < _refill_threshold q ≤ _rcv_buf_size q →
   (∀ tr wrs, env_post_recv tr qp wrs ≠ 0) →
   ∃ u, refill q t = Ok (true, set_requests (_rcv_buf_size q) q, u ++ t) ∧
        accepted qp (u ++ t) = accepted qp t).
Proof.
  intros Eq Hok Hspin. split.
  - intros Hneg. unfold poll, _poll. destruct env_spin as [|n]; [lia|].
    rewrite (bind_run _ _ _ _ (None, -1) q (Cpoll_cq (qp_recv_cq qp) wc_size :: t)).
    + reflexivity.
    + rewrite (bind_run _ _ _ _ _ _ _ (the_qp_run _ _ _ Eq)).
      change (-1 =? -1) with true. cbn [poll_loop andb]. run.
      unfold poll_result. by rewrite (proj2 (Z.ltb_lt _ _) Hneg).
  - intros Hlt Hfail.
    destruct (refill_run q qp t Eq Hok ltac:(lia) ltac:(lia)) as (u & E & Hu & _).
    exists u. split; [done|]. clear E.
    induction Hu as [|c u (m & _ & ->) Hu IH]; [done|]. cbn.
    rewrite (proj2 (Z.eqb_neq _ _) (Hfail _ _)), andb_false_r. done.
Qed.

Definition failing_env : Env :=
  scripted_env 8 (λ _ _ _, (-5, [])) (λ _, (0, quiet_event)) (λ _, 0) (λ _, 12).

Lemma failures_corrupt_requests_witness :
  @poll failing_env false (fresh_queue some_qp 32) [] =
    Ok ((None, -1), set_requests 1 (fresh_queue some_qp 32), [Cpoll_cq 71 32]) ∧
  ∃ u, @refill failing_env (fresh_queue some_qp 32) [] =
         Ok (true, set_requests 32 (fresh_queue some_qp 32), u ++ []) ∧
       @accepted failing_env some_qp (u ++ []) = 0.
Proof.
  destruct (@failures_corrupt_requests failing_env (fresh_queue some_qp 32) some_qp [])
    as [Hp Hr]; [reflexivity|split; reflexivity|vm_compute; lia|].
  split; [apply Hp; reflexivity|]. apply Hr; [vm_compute; split; [done|discriminate]|]. discriminate.
Defined.

(** ** Where the receives land *)

Section Placement.
Context `{Env}.

Definition slot_sge (buf : Buffer.t) (m : ibv_mr) (offset i : Z) : list ibv_sge :=
  [mk_sge (u64 (Buffer._ptr buf + u32 (i * offset))) (u32 offset) (mr_lkey m)].

Lemma sge_run {S} buf m size offset (s : S) t :
  Buffer._mr buf = Some m →
  Buffer.sge buf size offset s t =
    Ok ([mk_sge (u64 (Buffer._ptr buf + offset)) size (mr_lkey m)], s, t).
Proof.
  intros E. unfold Buffer.sge, Buffer.address, Buffer.lkey, Buffer.with_mr, assert_.
  rewrite E. cbn [orb]. run. done.
Qed.

Lemma batched_recv_fold buf m offset l q t :
  Buffer._mr buf = Some m →
  for_each l (λ i,
    l ← Buffer.sge buf (u32 offset) (u32 (i * offset));
    modify (λ q, set_batch (alter (set_sges l) (Z.to_nat i) (_batch_wrs q)) q)) q t =
  Ok (tt, set_batch (foldl (λ b i, alter (set_sges (slot_sge buf m offset i)) (Z.to_nat i) b)
                           (_batch_wrs q) l) q, t).
Proof.
  intros E. revert q. induction l as [|i l IH]; intros q; cbn [for_each foldl].
  - run. by destruct q.
  - rewrite bind_assoc, (bind_run _ _ _ _ _ _ _ (sge_run _ _ _ _ _ _ E)).
    rewrite (bind_run _ _ _ _ _ _ _ (eq_refl (Ok (tt, _, t)))). rewrite IH. done.
Qed.

Lemma foldl_alter_lookup (f : Z → batch_wr → batch_wr) (l : list Z) (b : list batch_wr) (k : nat) :
  NoDup l → Forall (λ i, 0 ≤ i) l →
  foldl (λ b i, alter (f i) (Z.to_nat i) b) b l !! k =
  if bool_decide (Z.of_nat k ∈ l) then f (Z.of_nat k) <$> b !! k else b !! k.
Proof using.
  intros Hnd Hpos. revert b.
  induction l as [|i l IH]; intros b; cbn [foldl]; [done|].
  apply NoDup_cons in Hnd as [Hi Hnd]. apply Forall_cons in Hpos as [H0 Hpos].
  rewrite IH by done. destruct (decide (Z.of_nat k = i)) as [<-|Hne].
  - rewrite Nat2Z.id, (bool_decide_eq_false_2 _ Hi), bool_decide_eq_true_2 by constructor.
    apply list_lookup_alter_eq.
  - rewrite list_lookup_alter_ne by lia.
    by rewrite (bool_decide_ext (Z.of_nat k ∈ l) (Z.of_nat k ∈ i :: l))
      by (rewrite elem_of_cons; naive_solver).
Qed.

(** After [initialize_batched_recv] element [i] receives at [i * offset]. *)
Lemma initialize_batched_recv_run buf m offset q t :
  Buffer._mr buf = Some m → batch_ok (_batch_wrs q) →
  ∃ wrs, initialize_batched_recv buf offset q t = Ok (tt, set_batch wrs q, t) ∧
    batch_ok wrs ∧
    ∀ k w, wrs !! k = Some w → bw_sg_list w = slot_sge buf m offset (Z.of_nat k) ∧ bw_num_sge w = 1.
Proof.
  intros E Hok. unfold initialize_batched_recv. rewrite (batched_recv_fold _ _ _ _ _ _ E).
  eexists. split; [done|].
  assert (∀ k, foldl (λ b i, alter (set_sges (slot_sge buf m offset i)) (Z.to_nat i) b)
                 (_batch_wrs q) (range rbatch) !! k =
               set_sges (slot_sge buf m offset (Z.of_nat k)) <$> _batch_wrs q !! k) as Hk.
  { intros k. rewrite foldl_alter_lookup.
    - case_bool_decide as Hin; [done|]. rewrite elem_of_range in Hin.
      rewrite lookup_ge_None_2; [done|]. rewrite (batch_ok_length _ Hok). unfold rbatch in Hin. lia.
    - apply NoDup_seqZ.
    - apply Forall_forall. intros i Hi%elem_of_range. lia. }
  destruct Hok as [Hn Hi]. split; [split|].
  - rewrite <-Hn. apply list_eq; intros k. rewrite !list_lookup_fmap, Hk. by destruct (_ !! k).
  - rewrite <-Hi. apply list_eq; intros k. rewrite !list_lookup_fmap, Hk. by destruct (_ !! k).
  - intros k w. rewrite Hk. destruct (_batch_wrs q !! k); [|done]. by intros [= <-].
Qed.

(** The byte range of a scatter-gather element lies inside the buffer. *)
Definition inside (buf : Buffer.t) (e : ibv_sge) : Prop :=
  Buffer._ptr buf ≤ sge_addr e ∧ sge_addr e + sge_length e ≤ Buffer._ptr buf + Buffer._bytes buf.

Definition posts_inside (buf : Buffer.t) (c : call) : Prop :=
  match c with
  | Cpost_recv _ wrs => Forall (λ w, Forall (inside buf) (rwr_sg_list w)) wrs
  | _ => True
  end.
End Placement.

(** Posted receives stay inside their buffer. [initialize] on a registered
    buffer that has a slot for each of the first [min(32, queue size)] receives
    fills the queue with receives that all land inside the buffer. *)
Theorem initialize_posts_inside `{Env} q qp buf m stride t :
  _queue_pair q = Some qp → batch_ok (_batch_wrs q) → Buffer._mr buf = Some m →
  0 < _refill_threshold q ≤ _rcv_buf_size q →
  0 < stride → 0 ≤ Buffer._ptr buf → Buffer._ptr buf + Buffer._bytes buf < 2 ^ 64 →
  Buffer._bytes buf < 2 ^ 32 → Z.min 32 (_rcv_buf_size q) * stride ≤ Buffer._bytes buf →
  ∃ q' u, initialize buf stride q t = Ok (tt, q', u ++ t) ∧
    _requests q' = _rcv_buf_size q ∧ Forall (posts_inside buf) u.
Proof.
  intros Eq Hok Em Hth Hst Hp0 Hp1 Hb32 Hfit. unfold initialize.
  rewrite (bind_run _ _ _ _ _ _ _ (eq_refl (Ok (q, q, t)))), Eq.
  rewrite (proj2 (Z.eqb_neq stride (-1))) by lia.
  destruct (initialize_batched_recv_run buf m stride q t Em Hok) as (wrs & E & Hok' & Hw).
  rewrite (bind_run _ _ _ _ _ _ _ E).
  rewrite (bind_run _ _ _ _ _ _ _ (eq_refl (Ok (tt, set_requests 0 (set_batch wrs q), t)))).
  set (q1 := set_requests 0 (set_batch wrs q)).
  destruct (refill_run q1 qp t Eq Hok' ltac:(unfold q1; cbn; lia) ltac:(unfold q1; cbn; lia)) as (u & E1 & Hu & _).
  rewrite (bind_run _ _ _ _ _ _ _ E1). eexists _, u. split; [reflexivity|]. split; [done|].
  eapply Forall_impl; [exact Hu|]. intros c (k & Hk & ->). cbn [posts_inside q1] in *.
  apply Forall_fmap, Forall_forall. intros w Hin.
  apply list_elem_of_lookup in Hin as [j Hj]. apply lookup_take_Some in Hj as [Hj Hjk].
  destruct (Hw j w Hj) as [Hsg _]. cbn. rewrite Hsg. apply Forall_singleton.
  unfold q1 in Hk. cbn [_rcv_buf_size _requests set_requests set_batch] in Hk.
  assert ((Z.of_nat j + 1) * stride ≤ Buffer._bytes buf).
  { etrans; [|exact Hfit]. apply Z.mul_le_mono_nonneg_r; lia. }
  unfold inside, slot_sge; cbn.
  rewrite (wrap_small 32 (Z.of_nat j * stride)), (wrap_small 32 stride) by nia.
  rewrite wrap_small by nia. nia.
Qed.

Lemma initialize_posts_inside_witness :
  ∃ q' u, @initialize ideal_env (Buffer.mk 32 0 256 8 4096 (Some (mk_mr 1 4096 11 12)) true) 8
            (fresh_queue some_qp 70) [] = Ok (tt, q', u ++ []) ∧
    _requests q' = 70 ∧
    Forall (posts_inside (Buffer.mk 32 0 256 8 4096 (Some (mk_mr 1 4096 11 12)) true)) u.
Proof.
  apply (@initialize_posts_inside ideal_env (fresh_queue some_qp 70) some_qp
           (Buffer.mk 32 0 256 8 4096 (Some (mk_mr 1 4096 11 12)) true) (mk_mr 1 4096 11 12) 8 []).
  - reflexivity.
  - split; reflexivity.
  - reflexivity.
  - split; [reflexivity|discriminate].
  - reflexivity.
  - discriminate.
  - reflexivity.
  - reflexivity.
  - discriminate.
Defined.

End Queue.
