(* ===== verification/Connection.v ===== *)
(** * Connections

    [rdmalib::Connection] of src/rdmalib/include/rdmalib/connection.hpp and
    src/rdmalib/lib/connection.cpp: the queue pair of one communication
    identifier, posting of work requests and polling of completions. *)

From S2P Require Import Prelude Verbs Buffer Queue.

Module Connection.

Inductive ConnectionStatus : Type := UNKNOWN | REQUESTED | ESTABLISHED | DISCONNECTED.
Inductive QueueType : Type := SEND | RECV.

#[global] Instance ConnectionStatus_eq_dec : EqDecision ConnectionStatus.
Proof. solve_decision. Defined.

Record t := mk {
  _id : option rdma_cm_id; _qp : option ibv_qp; _channel : Z; _req_count : Z;
  _private_data : Z; _passive : bool; _status : ConnectionStatus;
  _send_wcs : Queue.send_wcs; _rcv_wcs : Queue.recv_wcs; _send_flags : Z }.

Definition set_req_count (n : Z) (c : t) : t :=
  mk (_id c) (_qp c) (_channel c) n (_private_data c) (_passive c) (_status c)
     (_send_wcs c) (_rcv_wcs c) (_send_flags c).
Definition set_status (s : ConnectionStatus) (c : t) : t :=
  mk (_id c) (_qp c) (_channel c) (_req_count c) (_private_data c) (_passive c) s
     (_send_wcs c) (_rcv_wcs c) (_send_flags c).
Definition set_private_data (d : Z) (c : t) : t :=
  mk (_id c) (_qp c) (_channel c) (_req_count c) (i32 d) (_passive c) (_status c)
     (_send_wcs c) (_rcv_wcs c) (_send_flags c).
Definition set_rcv_wcs (q : Queue.recv_wcs) (c : t) : t :=
  mk (_id c) (_qp c) (_channel c) (_req_count c) (_private_data c) (_passive c) (_status c)
     (_send_wcs c) q (_send_flags c).

(** [inlining(bool)] *)
Definition inlining (enable : bool) (c : t) : t :=
  mk (_id c) (_qp c) (_channel c) (_req_count c) (_private_data c) (_passive c) (_status c)
     (_send_wcs c) (_rcv_wcs c)
     (if enable then Z.lor IBV_SEND_SIGNALED IBV_SEND_INLINE else IBV_SEND_SIGNALED).

(** [Connection(int rcv_buf_size, bool passive)]; the queues have no queue pair
    yet, so the constructor makes no call. *)
Definition construct (rcv_buf_size : Z) (passive : bool) : t :=
  inlining false
    (mk None None 0 0 0 passive UNKNOWN (Queue.mk_send None)
        (Queue.mk None rcv_buf_size (Z.min rcv_buf_size Queue.DEFAULT_REFILL_THRESHOLD) 0
                  Queue.initial_batch) 0).

Definition private_data (c : t) : Z := u32 (_private_data c).
Definition status (c : t) : ConnectionStatus := _status c.
Definition rcv_buf_size (c : t) : Z := Queue.rcv_buf_size (_rcv_wcs c).

(** [initialize(id)] *)
Definition initialize (id : rdma_cm_id) (c : t) : t :=
  mk (Some id) (Some (cm_qp id))
     (if cm_recv_cq_channel id =? 0 then qp_channel (cm_qp id) else cm_recv_cq_channel id)
     (_req_count c) (_private_data c) (_passive c) (_status c)
     (Queue.mk_send (Some (cm_qp id))) (Queue.set_qp (Some (cm_qp id)) (_rcv_wcs c)) (_send_flags c).

(** [Connection(Connection&&)]: the new connection and what is left. *)
Definition move_construct (obj : t) : t * t :=
  (obj, mk None None (_channel obj) 0 (_private_data obj) (_passive obj) (_status obj)
           (_send_wcs obj) (_rcv_wcs obj) (_send_flags obj)).

Section Ops.
Context `{Env}.

(** [receive_wcs().f(...)] *)
Definition receive_wcs {A} (m : M Queue.recv_wcs A) : M t A := zoom _rcv_wcs set_rcv_wcs m.

Definition close : M t unit :=
  c ← read;
  match _id c with
  | None => mret tt
  | Some id =>
      (if negb (_passive c) then
         ext (Cdestroy_qp id) (λ _, tt) ;;
         ext (Cdestroy_ep id) (λ _, tt)
       else
         ext (Cdestroy_qp id) (λ _, tt) ;;
         r ← ext (Cdestroy_id id) (λ tr, env_destroy_id tr id);
         expect_zero r) ;;
      modify (λ c, mk None (_qp c) (_channel c) (_req_count c) (_private_data c) (_passive c)
                      DISCONNECTED (_send_wcs c) (_rcv_wcs c) (_send_flags c))
  end.

(** The destructor. *)
Definition destroy : M t unit := close.

Definition the_qp : M t ibv_qp := c ← read; lift (from_opt "null queue pair" (_qp c)).

(** [_req_count++] *)
Definition next_req : M t Z :=
  n ← gets _req_count; modify (set_req_count (i32 (n + 1))) ;; mret n.

(** [id == -1 ? _req_count++ : id], stored in a 64-bit field *)
Definition request_id (id : Z) : M t Z :=
  if id =? -1 then n ← next_req; mret (u64 n) else mret (u64 id).

Definition submit (wr : ibv_send_wr) : M t Z :=
  qp ← the_qp; ext (Cpost_send qp wr) (λ tr, env_post_send tr qp wr).

Definition base_flags (force_inline : bool) (c : t) : Z :=
  if force_inline then Z.lor IBV_SEND_SIGNALED IBV_SEND_INLINE else _send_flags c.

(** [post_send(elems, id, force_inline, immediate)]; the fields the function
    leaves uninitialised are zero here. *)
Definition post_send (elems : list ibv_sge) (id : Z) (force_inline : bool) (immediate : option Z) :
    M t Z :=
  rid ← request_id id;
  flags ← gets (base_flags force_inline);
  let wr := mk_send_wr rid elems (Z.of_nat (length elems))
              (match immediate with Some _ => IBV_WR_SEND_WITH_IMM | None => IBV_WR_SEND end)
              flags
              (match immediate with Some v => htonl v | None => 0 end) 0 0 0 0 in
  ret ← submit wr;
  n ← gets _req_count;
  mret (if nonzero ret then -1 else n - 1).

(** [for(int i = 0; i < count; ++i) { ret = ibv_post_recv(...); if(ret) break; }] *)
Fixpoint recv_loop (count : nat) (qp : ibv_qp) (wr : ibv_recv_wr) (ret : Z) : M t Z :=
  match count with
  | O => mret ret
  | S count =>
      r ← ext (Cpost_recv qp [wr]) (λ tr, env_post_recv tr qp [wr]);
      if nonzero r then mret r else recv_loop count qp wr r
  end.

(** [post_recv(elem, id, count)]; with [count <= 0] the result variable is
    read without having been assigned. *)
Definition post_recv (elem : list ibv_sge) (id : Z) (count : Z) : M t Z :=
  rid ← request_id id;
  qp ← the_qp;
  if count <=? 0 then raise (Undefined "post_recv: uninitialised ret") else
  ret ← recv_loop (Z.to_nat count) qp (mk_recv_wr rid elem (Z.of_nat (length elem))) 0;
  mret (if nonzero ret then -1 else i32 rid).

(** [_post_write(elems, wr, force_inline, force_solicited)] *)
Definition _post_write (elems : list ibv_sge) (wr : ibv_send_wr)
    (force_inline force_solicited : bool) : M t Z :=
  rid ← next_req;
  flags ← gets (base_flags force_inline);
  let flags := if force_solicited then Z.lor IBV_SEND_SOLICITED flags else flags in
  let num := match elems with
             | [e] => if sge_length e =? 0 then 0 else 1
             | _ => Z.of_nat (length elems)
             end in
  let wr := mk_send_wr (u64 rid) elems num (wr_opcode wr) flags (wr_imm_data wr)
              (wr_remote_addr wr) (wr_rkey wr) (wr_compare_add wr) (wr_swap wr) in
  ret ← submit wr;
  if nonzero ret then
    (* the error message of an inlined write reads sg_list[0] *)
    if nonzero (Z.land IBV_SEND_INLINE flags) && (Z.of_nat (length elems) =? 0)
    then raise (Undefined "_post_write: sg_list[0] of an empty list") else mret (-1)
  else
    n ← gets _req_count; mret (n - 1).

Definition zero_wr (op : ibv_wr_opcode) : ibv_send_wr := mk_send_wr 0 [] 0 op 0 0 0 0 0 0.

(** [post_write(elems, rbuf, force_inline)] *)
Definition post_write (elems : list ibv_sge) (rbuf : Buffer.RemoteBuffer) (force_inline : bool) :
    M t Z :=
  _post_write elems
    (mk_send_wr 0 [] 0 IBV_WR_RDMA_WRITE 0 0 (Buffer.rb_addr rbuf) (Buffer.rb_rkey rbuf) 0 0)
    force_inline false.

(** [post_write(elems, rbuf, immediate, force_inline, force_solicited)] *)
Definition post_write_imm (elems : list ibv_sge) (rbuf : Buffer.RemoteBuffer) (immediate : Z)
    (force_inline force_solicited : bool) : M t Z :=
  _post_write elems
    (mk_send_wr 0 [] 0 IBV_WR_RDMA_WRITE_WITH_IMM 0 (htonl immediate)
                (Buffer.rb_addr rbuf) (Buffer.rb_rkey rbuf) 0 0)
    force_inline force_solicited.

Definition post_cas (elems : list ibv_sge) (rbuf : Buffer.RemoteBuffer) (compare swap : Z) : M t Z :=
  rid ← next_req;
  ret ← submit (mk_send_wr (u64 rid) elems (Z.of_nat (length elems)) IBV_WR_ATOMIC_CMP_AND_SWP
                  IBV_SEND_SIGNALED 0 (Buffer.rb_addr rbuf) (Buffer.rb_rkey rbuf) compare swap);
  n ← gets _req_count;
  mret (if nonzero ret then -1 else n - 1).

Definition post_atomic_fadd (elems : list ibv_sge) (rbuf : Buffer.RemoteBuffer) (add : Z) : M t Z :=
  rid ← next_req;
  ret ← submit (mk_send_wr (u64 rid) elems (Z.of_nat (length elems)) IBV_WR_ATOMIC_FETCH_AND_ADD
                  IBV_SEND_SIGNALED 0 (Buffer.rb_addr rbuf) (Buffer.rb_rkey rbuf) add 0);
  n ← gets _req_count;
  mret (if nonzero ret then -1 else n - 1).

(** [poll_wc(type, blocking, count)] *)
Definition poll_wc (type : QueueType) (blocking : bool) (count : Z) :
    M t (option (list ibv_wc) * Z) :=
  qp ← the_qp;
  r ← Queue.poll_loop env_spin
        (match type with RECV => qp_recv_cq qp | SEND => qp_send_cq qp end)
        (if count =? -1 then Queue.wc_size else count) blocking;
  mret (Queue.poll_result r).

Definition notify_events (only_solicited : bool) : M t unit :=
  qp ← the_qp;
  r ← ext (Creq_notify_cq (qp_recv_cq qp) only_solicited)
          (λ tr, env_req_notify_cq tr (qp_recv_cq qp));
  expect_zero r.

Definition wait_events : M t Z :=
  ch ← gets _channel;
  r ← ext (Cget_cq_event ch) (λ tr, env_get_cq_event tr ch);
  expect_zero r.1 ;;
  mret r.2.

Definition ack_events (cq len : Z) : M t unit := ext (Cack_cq_events cq len) (λ _, tt).
End Ops.

(** ** Lemmas *)

Section Lemmas.
Context `{Env}.

Lemma conn_qp_run c qp tr : _qp c = Some qp → the_qp c tr = Ok (qp, c, tr).
Proof. intros E. unfold the_qp. run. by rewrite E. Qed.

(** The send work request of an RDMA write with immediate. *)
Definition write_wr (c : t) (elems : list ibv_sge) (rbuf : Buffer.RemoteBuffer) (imm : Z)
    (inl sol : bool) : ibv_send_wr :=
  mk_send_wr (u64 (_req_count c)) elems
    (match elems with
     | [e] => if sge_length e =? 0 then 0 else 1
     | _ => Z.of_nat (length elems)
     end)
    IBV_WR_RDMA_WRITE_WITH_IMM
    (if sol then Z.lor IBV_SEND_SOLICITED (base_flags inl c) else base_flags inl c)
    (htonl imm) (Buffer.rb_addr rbuf) (Buffer.rb_rkey rbuf) 0 0.

Lemma post_write_imm_run c qp elems rbuf imm inl sol tr :
  _qp c = Some qp → elems ≠ [] →
  let wr := write_wr c elems rbuf imm inl sol in
  let c' := set_req_count (i32 (_req_count c + 1)) c in
  post_write_imm elems rbuf imm inl sol c tr =
    Ok (if env_post_send tr qp wr =? 0 then i32 (_req_count c + 1) - 1 else -1,
        c', Cpost_send qp wr :: tr).
Proof.
  intros E Hne wr c'. unfold post_write_imm, _post_write, next_req, submit, the_qp. run.
  cbn [_qp set_req_count]. rewrite E. cbv beta iota.
  change (base_flags inl (set_req_count _ c)) with (base_flags inl c).
  unfold nonzero, wr, c', write_wr.
  cbn [wr_opcode wr_imm_data wr_remote_addr wr_rkey wr_compare_add wr_swap].
  destruct (env_post_send tr qp _ =? 0); cbn [negb]; [done|].
  destruct elems as [|e l]; [done|]. cbn [length].
  destruct (Z.eqb_spec (Z.of_nat (S (length l))) 0); [lia|]. by rewrite andb_false_r.
Qed.

Lemma close_run c tr :
  match _id c with
  | None => close c tr = Ok (tt, c, tr)
  | Some id =>
      let c' := mk None (_qp c) (_channel c) (_req_count c) (_private_data c) (_passive c)
                   DISCONNECTED (_send_wcs c) (_rcv_wcs c) (_send_flags c) in
      let tr' := (if _passive c then Cdestroy_id id else Cdestroy_ep id) :: Cdestroy_qp id :: tr in
      close c tr = if _passive c && nonzero (env_destroy_id (Cdestroy_qp id :: tr) id)
                      && negb env_ndebug
                   then Fault (AssertFailed "expect_zero") else Ok (tt, c', tr')
  end.
Proof.
  unfold close, expect_zero, assert_, nonzero. run. destruct (_id c) as [id|] eqn:Ei; [|done].
  destruct (_passive c) eqn:Ep; cbn [negb andb]; run; [|by rewrite Ep].
  destruct (_ =? 0); cbn [negb andb orb]; run; [by rewrite Ep|].
  destruct env_ndebug; cbn [negb andb orb]; run; [by rewrite Ep|done].
Qed.
End Lemmas.

(** ** Theorems *)

(** Closing is idempotent. A successful [close] destroys the queue pair and
    then the endpoint (active side) or the identifier (passive side), once; the
    connection is then disconnected and has no identifier, and closing again, as
    the destructor does, makes no further call. *)
Theorem close_once `{Env} c tr c' tr' :
  close c tr = Ok (tt, c', tr') →
  _id c' = None ∧
  (∀ id, _id c = Some id →
     status c' = DISCONNECTED ∧
     tr' = (if _passive c then Cdestroy_id id else Cdestroy_ep id) :: Cdestroy_qp id :: tr) ∧
  close c' tr' = Ok (tt, c', tr') ∧ destroy c' tr' = Ok (tt, c', tr').
Proof.
  intros Hc. pose proof (close_run c tr) as Hr. destruct (_id c) as [id|] eqn:Ei.
  - cbn zeta in Hr. rewrite Hr in Hc. destruct (_ && _ && _); [done|].
    injection Hc as <- <-. unfold status. cbn. split_and!; [done| |done..].
    intros ? [= <-]. done.
  - rewrite Hr in Hc. injection Hc as <- <-. by unfold destroy.
Qed.

Definition some_connection : t := initialize some_id (construct 32 true).

Lemma close_once_witness :
  ∃ c' tr', @close ideal_env some_connection [] = Ok (tt, c', tr') ∧
    _id c' = None ∧
    (∀ id, _id some_connection = Some id →
       status c' = DISCONNECTED ∧ tr' = [Cdestroy_id id; Cdestroy_qp id]) ∧
    @close ideal_env c' tr' = Ok (tt, c', tr') ∧ @destroy ideal_env c' tr' = Ok (tt, c', tr').
Proof.
  eexists _, _. split; [reflexivity|].
  apply (@close_once ideal_env some_connection []). reflexivity.
Defined.

(** What an RDMA write with immediate posts. One work request goes to the
    connection's queue pair: it carries the immediate value (in network order),
    the remote address and key, the next request number, the SIGNALED flag
    always, SOLICITED and INLINE exactly when asked for (or INLINE when the
    connection inlines); a single empty element is sent as no element at all.
    The call returns the request number, or -1 when posting fails, and advances
    the request counter either way. *)
Theorem post_write_imm_posts `{Env} c qp elems rbuf imm inl sol tr :
  _qp c = Some qp → elems ≠ [] → 0 ≤ _req_count c < 2 ^ 31 - 1 →
  _send_flags c = IBV_SEND_SIGNALED ∨ _send_flags c = Z.lor IBV_SEND_SIGNALED IBV_SEND_INLINE →
  ∃ wr r,
    post_write_imm elems rbuf imm inl sol c tr =
      Ok (r, set_req_count (_req_count c + 1) c, Cpost_send qp wr :: tr) ∧
    (r = _req_count c ∧ env_post_send tr qp wr = 0 ∨ r = -1 ∧ env_post_send tr qp wr ≠ 0) ∧
    wr_id wr = _req_count c ∧ wr_opcode wr = IBV_WR_RDMA_WRITE_WITH_IMM ∧
    ntohl (wr_imm_data wr) = u32 imm ∧
    wr_remote_addr wr = Buffer.rb_addr rbuf ∧ wr_rkey wr = Buffer.rb_rkey rbuf ∧
    Z.testbit (wr_send_flags wr) 1 = true ∧
    Z.testbit (wr_send_flags wr) 2 = sol ∧
    Z.testbit (wr_send_flags wr) 3 = (inl || Z.testbit (_send_flags c) 3) ∧
    (wr_num_sge wr = 0 ↔ ∃ e, elems = [e] ∧ sge_length e = 0).
Proof.
  intros Eq Hne Hn Hf. eexists (write_wr c elems rbuf imm inl sol), _.
  rewrite (post_write_imm_run c qp) by done.
  rewrite (swrap_small 32) by lia. split; [done|]. split.
  { destruct (Z.eqb_spec (env_post_send tr qp (write_wr c elems rbuf imm inl sol)) 0);
      [left|right]; split; lia || done. }
  unfold write_wr; cbn [wr_id wr_opcode wr_imm_data wr_remote_addr wr_rkey wr_send_flags wr_num_sge].
  rewrite ntohl_htonl, (wrap_small 64) by lia.
  split_and!; try done; unfold base_flags.
  1-3: destruct Hf as [-> | ->], inl, sol; reflexivity.
  destruct elems as [|e [|e' l]]; [done| |].
  - destruct (Z.eqb_spec (sge_length e) 0); split; try done.
    + intros _. by exists e.
    + by intros (e' & [= ->] & ?).
  - split; [cbn; lia|]. by intros (? & ? & _).
Qed.

Lemma post_write_imm_posts_witness :
  ∃ wr r,
    @post_write_imm ideal_env [mk_sge 4096 0 11] (Buffer.mk_remote 64 9 0) 0xABCD8001 false true
      some_connection [] =
      Ok (r, set_req_count 1 some_connection, [Cpost_send some_qp wr]) ∧
    (r = 0 ∧ @env_post_send ideal_env [] some_qp wr = 0 ∨
     r = -1 ∧ @env_post_send ideal_env [] some_qp wr ≠ 0) ∧
    wr_id wr = 0 ∧ wr_opcode wr = IBV_WR_RDMA_WRITE_WITH_IMM ∧
    ntohl (wr_imm_data wr) = 0xABCD8001 ∧ wr_remote_addr wr = 64 ∧ wr_rkey wr = 9 ∧
    Z.testbit (wr_send_flags wr) 1 = true ∧ Z.testbit (wr_send_flags wr) 2 = true ∧
    Z.testbit (wr_send_flags wr) 3 = false ∧
    (wr_num_sge wr = 0 ↔ ∃ e, [mk_sge 4096 0 11] = [e] ∧ sge_length e = 0).
Proof.
  apply (@post_write_imm_posts ideal_env some_connection some_qp [mk_sge 4096 0 11]
           (Buffer.mk_remote 64 9 0) 0xABCD8001 false true []).
  - reflexivity.
  - discriminate.
  - split; [discriminate|reflexivity].
  - left. reflexivity.
Defined.

End Connection.
