(* ===== verification/Messages.v ===== *)
(** * Messages

    The structures exchanged between clients, the resource manager, the executor
    managers and the executors: src/rfaas/include/rfaas/allocation.hpp,
    src/server/common/messages.hpp, [rdmalib::BufferInformation] and
    [rdmalib::functions::Submission]. *)

From S2P Require Import Prelude.

Abbreviation chars := (list Ascii.ascii).

(** ** Layout

    [sizeof] of a structure on the target (LP64): each member, given by size and
    alignment, is placed at the next multiple of its alignment, and the whole is
    padded to the largest alignment. *)

Definition align_up (n a : Z) : Z := ((n + a - 1) / a) * a.

Definition sizeof (fields : list (Z * Z)) : Z :=
  align_up (foldl (λ off f, align_up off f.2 + f.1) 0 fields)
           (foldl (λ a f, Z.max a f.2) 1 fields).

Definition int16 : Z * Z := (2, 2).
Definition int32 : Z * Z := (4, 4).
Definition int64 : Z * Z := (8, 8).
Definition char_array (n : Z) : Z * Z := (n, 1).

(** ** rfaas/allocation.hpp *)

Record LeaseRequest := mk_LeaseRequest { lr_cores : Z; lr_memory : Z }.

Record LeaseResponse := mk_LeaseResponse { resp_lease_id : Z; resp_port : Z; resp_address : chars }.

Record AllocationRequest := mk_AllocationRequest {
  ar_lease_id : Z; ar_cores : Z; ar_core_start_index : Z; ar_hot_timeout : Z; ar_timeout : Z;
  ar_input_buf_count : Z; ar_input_buf_size : Z; ar_output_buf_size : Z; ar_func_buf_size : Z;
  ar_listen_port : Z; ar_listen_address : chars }.

Definition ADDRESS_LENGTH : nat := 16.

Module LeaseStatus.
Definition ALLOCATED : Z := 0.
Definition UNKNOWN : Z := 1.
Definition FAILED_ALLOCATE : Z := 2.
Definition TERMINATING : Z := 3.
Definition FAILED : Z := 4.
End LeaseStatus.

Definition sizeof_LeaseRequest : Z := sizeof [int16; int32].
Definition sizeof_LeaseResponse : Z := sizeof [int32; int32; char_array 16].
Definition sizeof_AllocationRequest : Z :=
  sizeof [int32; int16; int16; int16; int16; int16; int32; int32; int32; int32; char_array 16].
Definition sizeof_LeaseStatus : Z := sizeof [int32].

(** ** common/messages.hpp *)

Definition NODE_REGISTRATION : Z := 1.
Definition LEASE_ALLOCATION : Z := 2.
Definition LEASE_DEALLOCATION : Z := 3.

Definition NODE_NAME_LENGTH : nat := 32.

Record LeaseAllocation := mk_LeaseAllocation { la_memory : Z; la_cores : Z; la_lease_id : Z }.

Record LeaseDeallocation := mk_LeaseDeallocation {
  ld_lease_id : Z; ld_allocation_time : Z; ld_hot_polling_time : Z; ld_execution_time : Z }.

(** A message from an executor manager in the receive buffer, by the value of its
    first four bytes. *)
Inductive exec_message : Type :=
  | NodeRegistration (node_name : chars)
  | LeaseDeallocationMsg (msg : LeaseDeallocation)
  | UnknownMessage (type : Z).

Definition sizeof_NodeRegistration : Z := sizeof [int32; char_array 32].
Definition sizeof_LeaseAllocation : Z := sizeof [int32; int32; int32; int32].
Definition sizeof_LeaseDeallocation : Z := sizeof [int32; int32; int64; int64; int64].

(** ** rdmalib *)

Definition sizeof_BufferInformation : Z := sizeof [int64; int32].
Definition DATA_HEADER_SIZE : Z := 12.

(** The sizes the rest of the library computes with. *)
Example message_sizes :
  (sizeof_LeaseRequest, sizeof_LeaseResponse, sizeof_AllocationRequest, sizeof_LeaseStatus,
   sizeof_NodeRegistration, sizeof_LeaseAllocation, sizeof_LeaseDeallocation,
   sizeof_BufferInformation) = (8, 24, 48, 4, 36, 16, 32, 16).
Proof. reflexivity. Qed.
