(* ===== verification/ResourceDB.v ===== *)
(** * Executors and leases of the resource manager

    [Executor], [Executors] and [Lease] of
    src/server/resource_manager/executor.{hpp,cpp} and [ExecutorDB] of
    src/server/resource_manager/db.{hpp,cpp}.

    Executors are shared objects: two maps own them by [shared_ptr], the free
    list and the leases refer to them by [weak_ptr].  The model has a heap of
    executors; an object is in the heap as long as one of the two maps refers to
    it, [release] runs the destructor when the last reference goes, and locking a
    weak pointer is a heap lookup.  Locations are never reused.  The free
    resources are [int]s: a result outside their range, undefined in the
    language, wraps around here. *)

From S2P Require Import Prelude Verbs Buffer Messages.

Module ResourceDB.

Definition RECV_BUF_SIZE : Z := 32.
Definition MSG_SIZE : Z := Z.max sizeof_NodeRegistration sizeof_LeaseDeallocation.

Record Executor := mk_Executor {
  node : string; address : string; port : Z; cores : Z; memory : Z;
  _connection : option Z; _free_cores : Z; _free_memory : Z;
  _receive_buffer : Buffer.t; _send_buffer : Buffer.t }.

Record Lease := mk_Lease { l_cores : Z; l_memory : Z; l_total : bool; l_node : nat }.

Record Executors := mk_Executors {
  heap : gmap nat Executor; next_loc : nat;
  _executors_by_name : gmap string nat; _executors_by_conn : gmap Z nat }.

Record server_data := mk_server_data {
  s_node : string; s_address : string; s_port : Z; s_cores : Z; s_memory : Z }.

(** ** Executor *)

Definition initialize_data (name ip : string) (p c m : Z) (e : Executor) : Executor :=
  mk_Executor name ip p c m (_connection e) c m (_receive_buffer e) (_send_buffer e).

Definition is_initialized (e : Executor) : bool :=
  negb (bool_decide (node e = ""%string)) && match _connection e with Some _ => true | None => false end.

(** [lease(cores, memory)]: [None] when the node has not enough left. *)
Definition lease (c m : Z) (e : Executor) : option Executor :=
  if _free_memory e <? m then None else
  if _free_cores e <? c then None else
  Some (mk_Executor (node e) (address e) (port e) (cores e) (memory e) (_connection e)
          (i32 (_free_cores e - c)) (i32 (_free_memory e - m)) (_receive_buffer e) (_send_buffer e)).

Definition is_fully_leased (e : Executor) : bool := (_free_cores e =? 0) || (_free_memory e =? 0).

Definition cancel_lease (l : Lease) (e : Executor) : Executor :=
  mk_Executor (node e) (address e) (port e) (cores e) (memory e) (_connection e)
    (i32 (_free_cores e + l_cores l)) (i32 (_free_memory e + l_memory l))
    (_receive_buffer e) (_send_buffer e).

Definition set_connection (c : option Z) (e : Executor) : Executor :=
  mk_Executor (node e) (address e) (port e) (cores e) (memory e) c
    (_free_cores e) (_free_memory e) (_receive_buffer e) (_send_buffer e).
Definition set_receive_buffer (b : Buffer.t) (e : Executor) : Executor :=
  mk_Executor (node e) (address e) (port e) (cores e) (memory e) (_connection e)
    (_free_cores e) (_free_memory e) b (_send_buffer e).
Definition set_send_buffer (b : Buffer.t) (e : Executor) : Executor :=
  mk_Executor (node e) (address e) (port e) (cores e) (memory e) (_connection e)
    (_free_cores e) (_free_memory e) (_receive_buffer e) b.

Definition set_heap (h : gmap nat Executor) (x : Executors) : Executors :=
  mk_Executors h (next_loc x) (_executors_by_name x) (_executors_by_conn x).
Definition set_by_name (m : gmap string nat) (x : Executors) : Executors :=
  mk_Executors (heap x) (next_loc x) m (_executors_by_conn x).
Definition set_by_conn (m : gmap Z nat) (x : Executors) : Executors :=
  mk_Executors (heap x) (next_loc x) (_executors_by_name x) m.

(** Whether some [shared_ptr] of the two maps refers to a location. *)
Definition referenced (x : Executors) (l : nat) : bool :=
  bool_decide (map_Exists (λ _ l', l' = l) (_executors_by_name x)) ||
  bool_decide (map_Exists (λ _ l', l' = l) (_executors_by_conn x)).

Section Executors.
Context `{Env}.

(** [std::make_shared<Executor>(...)]: both constructors allocate the buffers;
    [data] is the effect of [initialize_data]. *)
Definition make_shared (data : Executor → Executor) : M Executors nat :=
  rb ← Buffer.allocate (RECV_BUF_SIZE * MSG_SIZE) 1 0;
  sb ← Buffer.allocate 1 sizeof_LeaseAllocation 0;
  x ← read;
  let l := next_loc x in
  modify (λ x, mk_Executors
    (<[l := data (mk_Executor ""%string ""%string (-1) (-1) (-1) None 0 0 rb sb)]> (heap x))
    (S l) (_executors_by_name x) (_executors_by_conn x)) ;;
  mret l.

(** A [shared_ptr] to [l] was dropped: the destructor runs when it was the
    last one (members are destroyed in reverse order). *)
Definition release (l : nat) : M Executors unit :=
  x ← read;
  if referenced x l then mret tt else
  match heap x !! l with
  | None => mret tt
  | Some e =>
      Buffer.destroy (_send_buffer e) ;;
      Buffer.destroy (_receive_buffer e) ;;
      modify (λ x, set_heap (delete l (heap x)) x)
  end.

Definition deref (l : nat) : M Executors Executor :=
  x ← read; lift (from_opt "dangling executor" (heap x !! l)).

Definition update (l : nat) (f : Executor → Executor) : M Executors unit :=
  modify (λ x, set_heap (alter f l (heap x)) x).

(** The result is the weak pointer ([None]: empty) and the success flag. *)
Definition add_executor (name ip : string) (p c m : Z) : M Executors (option nat * bool) :=
  exec ← make_shared (initialize_data name ip (i32 p) (i16 c) (i32 m));
  x ← read;
  match _executors_by_name x !! name with
  | Some it =>
      e ← deref it;
      (if is_initialized e then release exec ;; mret (None, false)
       else update it (initialize_data name ip (i32 p) (i16 c) (i32 m)) ;;
            release exec ;; mret (Some exec, true))
  | None =>
      modify (λ x, set_by_name (<[name := exec]> (_executors_by_name x)) x) ;;
      mret (Some exec, true)
  end.

(** [connect_executor(exec)]: [qp_num] is the number of its queue pair. *)
Definition connect_executor (exec : nat) (qp_num : Z) : M Executors unit :=
  x ← read;
  modify (λ x, set_by_conn (<[qp_num := exec]> (_executors_by_conn x)) x) ;;
  match _executors_by_conn x !! qp_num with
  | Some old => release old
  | None => mret tt
  end.

(** [Executor::merge]: the two buffers are move-assigned. *)
Definition merge (this exec : nat) : M Executors unit :=
  e ← deref exec;
  update this (set_connection (_connection e)) ;;
  a ← deref this; b ← deref exec;
  (let '(d, s) := Buffer.move_assign (_receive_buffer a) (_receive_buffer b) in
   update this (set_receive_buffer d) ;; update exec (set_receive_buffer s)) ;;
  a ← deref this; b ← deref exec;
  (let '(d, s) := Buffer.move_assign (_send_buffer a) (_send_buffer b) in
   update this (set_send_buffer d) ;; update exec (set_send_buffer s)).

Definition register_executor (qp_num : Z) (name : string) : M Executors bool :=
  x ← read;
  match _executors_by_conn x !! qp_num with
  | None => mret false
  | Some conn =>
      match _executors_by_name x !! name with
      | None =>
          modify (λ x, set_by_name (<[name := conn]> (_executors_by_name x)) x) ;;
          mret true
      | Some exec =>
          merge exec conn ;;
          modify (λ x, set_by_conn (<[qp_num := exec]> (_executors_by_conn x)) x) ;;
          release conn ;;
          mret true
      end
  end.

(** [remove_executor(const std::string&)] *)
Definition remove_executor_by_name (name : string) : M Executors bool :=
  raise (Throw "Not implemented!").

(** [remove_executor(uint32_t qp_num)] *)
Definition remove_executor (qp_num : Z) : M Executors bool :=
  x ← read;
  match _executors_by_conn x !! qp_num with
  | None => mret false
  | Some conn =>
      e ← deref conn;
      match _executors_by_name x !! node e with
      | None => mret tt
      | Some l =>
          modify (λ x, set_by_name (delete (node e) (_executors_by_name x)) x) ;;
          release l
      end ;;
      modify (λ x, set_by_conn (delete qp_num (_executors_by_conn x)) x) ;;
      release conn ;;
      mret true
  end.

Definition get_executor_by_name (name : string) : M Executors (option nat) :=
  gets (λ x, _executors_by_name x !! name).
Definition get_executor (qp_num : Z) : M Executors (option nat) :=
  gets (λ x, _executors_by_conn x !! qp_num).
End Executors.

(** ** ExecutorDB *)

Inductive ResultCode : Type := OK | EXECUTOR_EXISTS | EXECUTOR_DOESNT_EXIST | MALFORMED_DATA.

#[global] Instance ResultCode_eq_dec : EqDecision ResultCode.
Proof. solve_decision. Defined.

Record ExecutorDB := mk_db {
  _executors : Executors; _leases : gmap Z Lease; _lease_count : Z; _free_nodes : list nat }.

Definition empty_db : ExecutorDB := mk_db (mk_Executors ∅ 0 ∅ ∅) ∅ 0 [].

Definition set_executors (x : Executors) (d : ExecutorDB) : ExecutorDB :=
  mk_db x (_leases d) (_lease_count d) (_free_nodes d).
Definition set_free_nodes (f : list nat) (d : ExecutorDB) : ExecutorDB :=
  mk_db (_executors d) (_leases d) (_lease_count d) f.

(** [std::string] to the characters of a C string. *)
Definition chars_of (s : string) : chars := String.list_ascii_of_string s.

Section DB.
(** [erased]: what a read of a weak pointer yields after the list node that
    held it was erased ([None]: the program crashes).  The language leaves it
    undefined; an allocator that leaves freed memory alone gives the pointer
    back. *)
Context `{Env} (erased : nat → option nat).

Definition on_executors {A} (m : M Executors A) : M ExecutorDB A :=
  zoom _executors set_executors m.

Definition add (name ip : string) (p c m : Z) : M ExecutorDB ResultCode :=
  if Z.of_nat (String.length name) <? Z.of_nat NODE_NAME_LENGTH then mret MALFORMED_DATA else
  r ← on_executors (add_executor name ip p c m);
  match r with
  | (Some ptr, true) => modify (λ d, set_free_nodes (_free_nodes d ++ [ptr]) d) ;; mret OK
  | _ => mret EXECUTOR_EXISTS
  end.

Definition remove (name : string) : M ExecutorDB ResultCode :=
  erased ← on_executors (remove_executor_by_name name);
  mret (if (erased : bool) then OK else EXECUTOR_DOESNT_EXIST).

(** The scan of the free list: the nodes kept so far, the location found (with
    the executor after [lease]) and the nodes behind it. *)
Fixpoint scan (h : gmap nat Executor) (numcores mem : Z) (kept todo : list nat) :
    list nat * option (nat * Executor * list nat) :=
  match todo with
  | [] => (kept, None)
  | p :: todo =>
      match h !! p with
      | None => scan h numcores mem kept todo
      | Some e =>
          if negb (is_initialized e) then scan h numcores mem (kept ++ [p]) todo else
          match lease numcores mem e with
          | None => scan h numcores mem (kept ++ [p]) todo
          | Some e' => (kept, Some (p, e', todo))
          end
      end
  end.

(** [open_lease(numcores, memory, lease)]: the executor and the response. *)
Definition open_lease (numcores mem : Z) (resp : LeaseResponse) :
    M ExecutorDB (option nat * LeaseResponse) :=
  d ← read;
  if Z.of_nat (length (_free_nodes d)) =? 0 then mret (None, resp) else
  match scan (heap (_executors d)) numcores mem [] (_free_nodes d) with
  | (kept, None) => modify (set_free_nodes kept) ;; mret (None, resp)
  | (kept, Some (p, e, behind)) =>
      let id := i32 (_lease_count d) in
      let resp := mk_LeaseResponse id (port e) (strncpy ADDRESS_LENGTH (chars_of (address e))) in
      let total := is_fully_leased e in
      n ← (if total then lift (from_opt "read of an erased list element" (erased p))
           else mret p);
      modify (λ d, mk_db (set_heap (<[p := e]> (heap (_executors d))) (_executors d))
                (match _leases d !! u32 id with
                 | Some _ => _leases d
                 | None => <[u32 id := mk_Lease numcores mem total n]> (_leases d)
                 end)
                (u32 (_lease_count d + 1))
                (kept ++ (if total then behind else p :: behind))) ;;
      mret (Some p, resp)
  end.

Definition close_lease (msg : LeaseDeallocation) : M ExecutorDB unit :=
  d ← read;
  match _leases d !! u32 (ld_lease_id msg) with
  | None => mret tt
  | Some l =>
      match heap (_executors d) !! l_node l with
      | None => mret tt
      | Some e =>
          on_executors (update (l_node l) (cancel_lease l)) ;;
          when (l_total l) (modify (λ d, set_free_nodes (_free_nodes d ++ [l_node l]) d))
      end
  end.

(** [read(path)], given the servers of the file. *)
Definition read_db (servers : list server_data) : M ExecutorDB unit :=
  for_each servers (λ s,
    r ← on_executors (add_executor (s_node s) (s_address s) (s_port s) (s_cores s) (s_memory s));
    match r with
    | (Some ptr, true) => modify (λ d, set_free_nodes (_free_nodes d ++ [ptr]) d)
    | _ => mret tt
    end).

(** [write(path)]: the servers written to the file. *)
Definition write_db : M ExecutorDB (list server_data) :=
  d ← read;
  let x := _executors d in
  mret (omap (λ kl : string * nat, e ← heap x !! kl.2;
               Some (mk_server_data (node e) (address e) (port e) (cores e) (memory e)))
             (map_to_list (_executors_by_name x))).
End DB.

(** ** Lease accounting

    [o] is the set of open leases (opened and not yet closed), by identifier. *)

(** What the open leases hold at location [l]. *)
Definition held (f : Lease → Z) (l : nat) (o : gmap Z Lease) : Z :=
  map_fold (λ _ x acc, (if decide (l_node x = l) then f x else 0) + acc) 0 o.

(** How often the free list offers location [l]. *)
Definition offers (l : nat) (free : list nat) : Z := Z.of_nat (length (filter (.= l) free)).

Definition total_one (x : Lease) : Z := if l_total x then 1 else 0.

Record exec_ok (o : gmap Z Lease) (l : nat) (e : Executor) : Prop := {
  ok_bounds : node e ≠ ""%string →
    0 ≤ _free_cores e ∧ 0 ≤ _free_memory e ∧ cores e < 2 ^ 31 ∧ memory e < 2 ^ 31;
  ok_cores : node e ≠ ""%string → _free_cores e + held l_cores l o = cores e;
  ok_memory : node e ≠ ""%string → _free_memory e + held l_memory l o = memory e;
  ok_idle : is_initialized e = false → ∀ i x, o !! i = Some x → l_node x ≠ l }.

Record executors_ok (o : gmap Z Lease) (x : Executors) : Prop := {
  xi_heap : ∀ l e, heap x !! l = Some e → (l < next_loc x)%nat ∧ exec_ok o l e;
  xi_name : ∀ k l, _executors_by_name x !! k = Some l → is_Some (heap x !! l);
  xi_conn : ∀ k l, _executors_by_conn x !! k = Some l →
    ∃ e, heap x !! l = Some e ∧ _connection e ≠ None;
  xi_leases : ∀ i y, o !! i = Some y → (l_node y < next_loc x)%nat }.

(** New objects are at new locations. *)
Definition grows (x x' : Executors) : Prop :=
  (next_loc x ≤ next_loc x')%nat ∧
  ∀ l, is_Some (heap x' !! l) → is_Some (heap x !! l) ∨ (next_loc x ≤ l)%nat.

Record db_ok (d : ExecutorDB) (o : gmap Z Lease) : Prop := {
  db_executors : executors_ok o (_executors d);
  db_recorded : o ⊆ _leases d;
  db_ids : ∀ i y, _leases d !! i = Some y → 0 ≤ i < _lease_count d;
  db_count : 0 ≤ _lease_count d < 2 ^ 32;
  db_amounts : ∀ i y, o !! i = Some y → 0 ≤ l_cores y ∧ 0 ≤ l_memory y;
  db_free : Forall (λ l, (l < next_loc (_executors d))%nat) (_free_nodes d);
  db_once : ∀ l, is_Some (heap (_executors d) !! l) →
    offers l (_free_nodes d) + held total_one l o ≤ 1 }.

(** *** Sums over the open leases *)

Lemma held_empty f l : held f l ∅ = 0.
Proof. apply map_fold_empty. Qed.

Lemma held_insert f l o i x :
  o !! i = None → held f l (<[i := x]> o) = (if decide (l_node x = l) then f x else 0) + held f l o.
Proof.
  intros Hi. unfold held. rewrite map_fold_insert_L; [done| |done].
  intros. lia.
Qed.

Lemma held_delete f l o i x :
  o !! i = Some x →
  held f l o = (if decide (l_node x = l) then f x else 0) + held f l (delete i o).
Proof.
  intros Hi. rewrite <-(insert_delete_id o i x Hi) at 1. rewrite held_insert; [done|].
  apply lookup_delete_eq.
Qed.

Lemma held_none f l o : (∀ i x, o !! i = Some x → l_node x ≠ l) → held f l o = 0.
Proof.
  induction o as [|i x o Hi IH] using map_ind; intros Hn; [apply held_empty|].
  rewrite held_insert by done. rewrite decide_False by (apply (Hn i), lookup_insert_eq).
  rewrite IH; [done|]. intros j y Hj. apply (Hn j). rewrite lookup_insert_ne; [done|congruence].
Qed.

Lemma held_nonneg f l o : (∀ i x, o !! i = Some x → 0 ≤ f x) → 0 ≤ held f l o.
Proof.
  induction o as [|i x o Hi IH] using map_ind; intros Hn; [by rewrite held_empty|].
  rewrite held_insert by done.
  assert (0 ≤ f x) by apply (Hn i), lookup_insert_eq.
  assert (0 ≤ held f l o); [|case_decide; lia].
  apply IH. intros j y Hj. apply (Hn j). rewrite lookup_insert_ne; [done|congruence].
Qed.

Lemma held_other f l o i : (∀ x, o !! i = Some x → l_node x ≠ l) → held f l (delete i o) = held f l o.
Proof.
  intros Hn. destruct (o !! i) as [x|] eqn:E; [|by rewrite delete_id].
  rewrite (held_delete f l o i x E), decide_False by eauto. lia.
Qed.

Lemma offers_app l f g : offers l (f ++ g) = offers l f + offers l g.
Proof. unfold offers. rewrite filter_app, length_app. lia. Qed.

Lemma offers_cons l p f : offers l (p :: f) = (if decide (p = l) then 1 else 0) + offers l f.
Proof. unfold offers. rewrite filter_cons. case_decide; cbn; lia. Qed.

Lemma offers_fresh l f n : Forall (λ l, (l < n)%nat) f → (n ≤ l)%nat → offers l f = 0.
Proof.
  intros Hf Hl. induction Hf as [|p f Hp Hf IH]; [done|].
  rewrite offers_cons, decide_False by lia. lia.
Qed.

(** *** The pieces of the operations keep the invariant *)

Lemma grows_refl x : grows x x.
Proof. split; [done|]. by left. Qed.

Lemma grows_trans x y z : grows x y → grows y z → grows x z.
Proof.
  intros [H1 H2] [H3 H4]. split; [lia|]. intros l [Hl|?]%H4; [|right; lia]. auto.
Qed.

Lemma executors_ok_alloc o x e :
  executors_ok o x → exec_ok o (next_loc x) e →
  let x' := mk_Executors (<[next_loc x := e]> (heap x)) (S (next_loc x))
              (_executors_by_name x) (_executors_by_conn x) in
  executors_ok o x' ∧ grows x x'.
Proof.
  intros [Hh Hn Hc Hl] He. split; [split; cbn|split; cbn]; try lia.
  - intros l e' [[<- <-]|[Hne Hl']]%lookup_insert_Some; [split; [lia|done]|].
    apply Hh in Hl' as [? ?]. split; [lia|done].
  - intros k l [e' He']%Hn. destruct (decide (l = next_loc x)) as [->|].
    + rewrite lookup_insert_eq. eauto.
    + rewrite lookup_insert_ne by done. eauto.
  - intros k l (e' & He' & ?)%Hc. exists e'. rewrite lookup_insert_ne; [done|].
    intros <-. apply Hh in He' as [? _]. lia.
  - intros i y ?%Hl. lia.
  - intros l [e' [[<- <-]|[Hne Hl']]%lookup_insert_Some]; [right; lia|left; eauto].
Qed.

Lemma referenced_false x l :
  referenced x l = false →
  (∀ k l', _executors_by_name x !! k = Some l' → l' ≠ l) ∧
  (∀ k l', _executors_by_conn x !! k = Some l' → l' ≠ l).
Proof.
  unfold referenced. intros [Ha Hb]%orb_false_iff.
  apply bool_decide_eq_false in Ha, Hb.
  split; intros k l' Hk ->; [apply Ha|apply Hb]; by exists k, l.
Qed.

Lemma executors_ok_delete o x l :
  executors_ok o x → referenced x l = false →
  executors_ok o (set_heap (delete l (heap x)) x) ∧ grows x (set_heap (delete l (heap x)) x).
Proof.
  intros [Hh Hn Hc Hl] [Ha Hb]%referenced_false.
  split; [split; cbn|split; cbn]; try done.
  - intros l' e' [? ?]%lookup_delete_Some. auto.
  - intros k l' Hk. rewrite lookup_delete_ne by (intros ->; by eapply Ha). eauto.
  - intros k l' Hk. rewrite lookup_delete_ne by (intros ->; by eapply Hb). eauto.
  - intros l' [e' [? ?]%lookup_delete_Some]. left. eauto.
Qed.

Lemma executors_ok_update o x l f :
  executors_ok o x →
  (∀ e, heap x !! l = Some e → exec_ok o l e → exec_ok o l (f e)) →
  (∀ e, heap x !! l = Some e → _connection e ≠ None → _connection (f e) ≠ None) →
  let x' := set_heap (alter f l (heap x)) x in executors_ok o x' ∧ grows x x'.
Proof.
  intros [Hh Hn Hc Hl] Hf Hg. split; [split; cbn|split; cbn]; try done.
  - intros l' e' He. destruct (decide (l = l')) as [<-|].
    + rewrite lookup_alter_eq in He. apply fmap_Some in He as (e & He & ->).
      destruct (Hh _ _ He). auto.
    + rewrite lookup_alter_ne in He by done. auto.
  - intros k l' Hk. rewrite lookup_alter_is_Some. eauto.
  - intros k l' (e & He & Hne)%Hc. destruct (decide (l = l')) as [<-|].
    + exists (f e). rewrite lookup_alter_eq, He. eauto.
    + exists e. by rewrite lookup_alter_ne.
  - intros l' Hs. left. by rewrite lookup_alter_is_Some in Hs.
Qed.

Lemma executors_ok_names o x m :
  executors_ok o x → (∀ k l, m !! k = Some l → is_Some (heap x !! l)) →
  executors_ok o (set_by_name m x) ∧ grows x (set_by_name m x).
Proof. intros [Hh Hn Hc Hl] Hm. split; [by split|]. split; cbn; [done|by left]. Qed.

Lemma executors_ok_conns o x m :
  executors_ok o x →
  (∀ k l, m !! k = Some l → ∃ e, heap x !! l = Some e ∧ _connection e ≠ None) →
  executors_ok o (set_by_conn m x) ∧ grows x (set_by_conn m x).
Proof. intros [Hh Hn Hc Hl] Hm. split; [by split|]. split; cbn; [done|by left]. Qed.

(** An executor whose accounting fields change through [initialize_data] or
    whose other fields change. *)
Lemma exec_ok_init o l name ip p c m e :
  0 ≤ c < 2 ^ 15 → 0 ≤ m < 2 ^ 31 → (∀ i x, o !! i = Some x → l_node x ≠ l) →
  exec_ok o l (initialize_data name ip p c m e).
Proof.
  intros Hc Hm Hl. split; cbn; intros _.
  - lia.
  - rewrite held_none by done. lia.
  - rewrite held_none by done. lia.
  - done.
Qed.

Lemma exec_ok_fields o l e e' :
  exec_ok o l e → node e' = node e → cores e' = cores e → memory e' = memory e →
  _free_cores e' = _free_cores e → _free_memory e' = _free_memory e →
  (_connection e ≠ None → _connection e' ≠ None) →
  exec_ok o l e'.
Proof.
  intros [H1 H2 H3 H4] En Ec Em Efc Efm Hc. split; rewrite ?En, ?Ec, ?Em, ?Efc, ?Efm; try done.
  intros Hi. apply H4. unfold is_initialized in *. rewrite En in Hi.
  destruct (_connection e); [|by rewrite andb_false_r].
  destruct (_connection e'); [done|]. by destruct Hc.
Qed.

Section Preservation.
Context `{Env} (o : gmap Z Lease).

(** The operation keeps the invariant of the executors. *)
Definition keeps {A} (m : M Executors A) : Prop :=
  ∀ x t a x' t', m x t = Ok (a, x', t') → executors_ok o x → executors_ok o x' ∧ grows x x'.

Lemma make_shared_inv data x t l x' t' :
  make_shared data x t = Ok (l, x', t') →
  l = next_loc x ∧ ∃ rb sb,
    x' = mk_Executors
           (<[next_loc x := data (mk_Executor "" "" (-1) (-1) (-1) None 0 0 rb sb)]> (heap x))
           (S (next_loc x)) (_executors_by_name x) (_executors_by_conn x).
Proof.
  unfold make_shared, Buffer.allocate. intros E. run_inv. split; [done|]. by eexists _, _.
Qed.

Lemma release_inv l x t u x' t' :
  release l x t = Ok (u, x', t') →
  x' = x ∨ referenced x l = false ∧ x' = set_heap (delete l (heap x)) x.
Proof.
  unfold release. intros E. run_inv. destruct (referenced x l) eqn:Er; [run_inv; by left|].
  destruct (heap x !! l) as [e|]; [|run_inv; by left]. run_inv.
  repeat match goal with D : Buffer.destroy _ _ _ = Ok _ |- _ => apply Buffer.destroy_state in D as -> end.
  by right.
Qed.

Lemma keeps_release l : keeps (release l).
Proof.
  intros x t a x' t' [->|[Hr ->]]%release_inv Hx; [split; [done|apply grows_refl]|].
  by apply executors_ok_delete.
Qed.

(** The operation keeps the invariant, the two maps, every object and every
    connection. *)
Definition mild {A} (m : M Executors A) : Prop :=
  ∀ x t a x' t', m x t = Ok (a, x', t') → executors_ok o x →
    executors_ok o x' ∧ grows x x' ∧
    _executors_by_name x' = _executors_by_name x ∧ _executors_by_conn x' = _executors_by_conn x ∧
    ∀ l e, heap x !! l = Some e →
      ∃ e', heap x' !! l = Some e' ∧ (_connection e ≠ None → _connection e' ≠ None).

Lemma mild_bind {A B} (m : M Executors A) (k : A → M Executors B) :
  mild m → (∀ a, mild (k a)) → mild (m ≫= k).
Proof.
  intros Hm Hk x t b x' t' (a & x1 & t1 & E1 & E2)%bind_Ok Hx.
  destruct (Hm _ _ _ _ _ E1 Hx) as (Hs & Hg & Hn & Hc & Hh).
  destruct (Hk _ _ _ _ _ _ E2 Hs) as (Hs' & Hg' & Hn' & Hc' & Hh').
  split_and!; [done|by eapply grows_trans|congruence..|].
  intros l e (e1 & He1 & ?)%Hh. destruct (Hh' _ _ He1) as (e2 & ? & ?). eauto.
Qed.

Lemma deref_inv l x t e x' t' :
  deref l x t = Ok (e, x', t') → heap x !! l = Some e ∧ x' = x ∧ t' = t.
Proof. unfold deref. intros E. run_inv. by apply from_opt_Ok in E. Qed.

Lemma mild_deref l : mild (deref l).
Proof.
  intros x t a x' t' (_ & -> & ->)%deref_inv Hx.
  split_and!; [done|apply grows_refl|done..|eauto].
Qed.

Lemma mild_update l f :
  (∀ e, exec_ok o l e → exec_ok o l (f e)) →
  (∀ e, _connection e ≠ None → _connection (f e) ≠ None) → mild (update l f).
Proof.
  intros Hf Hc x t a x' t' E Hx. unfold update in E. run_inv.
  destruct (executors_ok_update o x l f Hx) as [? ?]; [auto..|].
  split_and!; [done..|]. intros l' e He. cbn. destruct (decide (l = l')) as [<-|].
  - exists (f e). rewrite lookup_alter_eq, He. auto.
  - exists e. by rewrite lookup_alter_ne.
Qed.

Lemma mild_set_buffers l b :
  mild (update l (set_receive_buffer b)) ∧ mild (update l (set_send_buffer b)).
Proof. split; apply mild_update; try done; intros e He; by eapply exec_ok_fields. Qed.

Lemma mild_set_connection l c :
  c ≠ None → mild (update l (set_connection c)).
Proof. intros. apply mild_update; try done. intros e He. by eapply exec_ok_fields. Qed.

(** [merge] connects the object it merges into. *)
Lemma merge_keeps this exec x t a x' t' :
  merge this exec x t = Ok (a, x', t') →
  (∀ e, heap x !! exec = Some e → _connection e ≠ None) → is_Some (heap x !! this) →
  executors_ok o x →
  executors_ok o x' ∧ grows x x' ∧
  _executors_by_name x' = _executors_by_name x ∧ _executors_by_conn x' = _executors_by_conn x ∧
  (∀ l e, heap x !! l = Some e →
     ∃ e', heap x' !! l = Some e' ∧ (_connection e ≠ None → _connection e' ≠ None)) ∧
  ∃ e, heap x' !! this = Some e ∧ _connection e ≠ None.
Proof.
  intros E Hconn [e0 He0] Hx. unfold merge in E.
  bind_inv E as b ? ? E1. apply deref_inv in E1 as (E1%Hconn & -> & ->).
  bind_inv E as ? x1 ? E2. rename E into E3.
  assert (x1 = set_heap (alter (set_connection (_connection b)) this (heap x)) x) as Hx1.
  { unfold update in E2. by run_inv_at E2. }
  destruct (mild_set_connection this (_connection b) E1 _ _ _ _ _ E2 Hx) as (Hs & Hg & Hn & Hc & Hh).
  match type of E3 with ?m _ _ = _ => assert (mild m) as Hm end.
  { unfold Buffer.move_assign. cbn zeta.
    repeat first [apply mild_deref | apply mild_set_buffers | apply mild_bind; [|intros]]. }
  destruct (Hm _ _ _ _ _ E3 Hs) as (Hs' & Hg' & Hn' & Hc' & Hh').
  split_and!; [done|by eapply grows_trans|congruence..| |].
  - intros l e (e1 & He1 & ?)%Hh. destruct (Hh' _ _ He1) as (e2 & ? & ?). eauto.
  - destruct (Hh' this (set_connection (_connection b) e0)) as (e2 & ? & He2).
    { subst x1. cbn. by rewrite lookup_alter_eq, He0. }
    eauto.
Qed.

Lemma keeps_register qp name : keeps (register_executor qp name).
Proof.
  intros x t a x' t' E Hx. unfold register_executor in E.
  step_inv E.
  destruct (_executors_by_conn x !! qp) as [conn|] eqn:Ec; [|run_inv; split; [done|apply grows_refl]].
  destruct (xi_conn _ _ Hx _ _ Ec) as (ec & Hec & Hne).
  destruct (_executors_by_name x !! name) as [exec|] eqn:En.
  - bind_inv E as ? x1 ? E1. step_inv E. bind_inv E as ? x3 ? E3. run_inv_at E.
    destruct (merge_keeps _ _ _ _ _ _ _ E1) as (Hs & Hg & Hn & Hc & Hh & Hthis); try done.
    { intros e He. congruence. }
    { by eapply xi_name. }
    destruct (executors_ok_conns o x1 (<[qp := exec]> (_executors_by_conn x1)) Hs) as [Hs2 Hg2].
    { intros k l [[<- <-]|[_ Hk]]%lookup_insert_Some; [done|]. by eapply xi_conn. }
    destruct (keeps_release _ _ _ _ _ _ E3 Hs2).
    split; [done|]. eapply grows_trans; [exact Hg|]. by eapply grows_trans; [exact Hg2|].
  - run_inv. apply executors_ok_names; [done|].
    intros k l [[<- <-]|[_ Hk]]%lookup_insert_Some; [by eexists|]. by eapply xi_name.
Qed.

Lemma keeps_remove qp : keeps (remove_executor qp).
Proof.
  intros x t a x' t' E Hx. unfold remove_executor in E.
  step_inv E.
  destruct (_executors_by_conn x !! qp) as [conn|] eqn:Ec; [|run_inv; split; [done|apply grows_refl]].
  bind_inv E as e ? ? E1. apply deref_inv in E1 as (_ & -> & ->).
  bind_inv E as ? x1 ? E1. step_inv E. bind_inv E as ? x3 ? E3. run_inv_at E.
  assert (executors_ok o x1 ∧ grows x x1) as [Hs1 Hg1].
  { destruct (_executors_by_name x !! node e) as [l|]; [|run_inv; split; [done|apply grows_refl]].
    step_inv E1. rename E1 into E2.
    destruct (executors_ok_names o x (delete (node e) (_executors_by_name x)) Hx) as [Hs Hg].
    { intros k l' [_ Hk]%lookup_delete_Some. by eapply xi_name. }
    destruct (keeps_release _ _ _ _ _ _ E2 Hs). split; [done|]. by eapply grows_trans; [exact Hg|]. }
  destruct (executors_ok_conns o x1 (delete qp (_executors_by_conn x1)) Hs1) as [Hs2 Hg2].
  { intros k l [_ Hk]%lookup_delete_Some. by eapply xi_conn. }
  destruct (keeps_release _ _ _ _ _ _ E3 Hs2).
  split; [done|]. eapply grows_trans; [exact Hg1|]. by eapply grows_trans; [exact Hg2|].
Qed.

Lemma keeps_connect exec qp x t a x' t' :
  connect_executor exec qp x t = Ok (a, x', t') →
  (∃ e, heap x !! exec = Some e ∧ _connection e ≠ None) →
  executors_ok o x → executors_ok o x' ∧ grows x x'.
Proof.
  intros E He Hx. unfold connect_executor in E. step_inv E. step_inv E.
  destruct (executors_ok_conns o x (<[qp := exec]> (_executors_by_conn x)) Hx) as [Hs Hg].
  { intros k l [[<- <-]|[_ Hk]]%lookup_insert_Some; [done|]. by eapply xi_conn. }
  destruct (_executors_by_conn x !! qp) as [old|]; [|by run_inv_at E].
  destruct (keeps_release _ _ _ _ _ _ E Hs). split; [done|]. by eapply grows_trans; [exact Hg|].
Qed.

Lemma no_leases_at_next x : executors_ok o x → ∀ i y, o !! i = Some y → l_node y ≠ next_loc x.
Proof. intros Hx i y Hi. pose proof (xi_leases _ _ Hx _ _ Hi). lia. Qed.

Lemma keeps_make_shared x t l x' t' :
  make_shared id x t = Ok (l, x', t') → executors_ok o x → executors_ok o x' ∧ grows x x'.
Proof.
  intros (-> & rb & sb & ->)%make_shared_inv Hx. apply executors_ok_alloc; [done|].
  split; cbn; try done. intros _. by apply no_leases_at_next.
Qed.

Lemma add_executor_keeps name ip p c m x t r x' t' :
  add_executor name ip p c m x t = Ok (r, x', t') →
  0 ≤ c < 2 ^ 15 → 0 ≤ m < 2 ^ 31 → executors_ok o x →
  executors_ok o x' ∧ grows x x' ∧ (next_loc x < next_loc x')%nat ∧
  (∀ l, r.1 = Some l → l = next_loc x).
Proof.
  intros E Hc Hm Hx. unfold add_executor in E.
  rewrite (swrap_small 16), (swrap_small 32 m) in E by lia.
  bind_inv E as ? x1 ? E1. apply make_shared_inv in E1 as (-> & rb & sb & Hx1).
  destruct (executors_ok_alloc o x (initialize_data name ip (i32 p) c m
    (mk_Executor "" "" (-1) (-1) (-1) None 0 0 rb sb)) Hx) as [Hs Hg].
  { apply exec_ok_init; [done..|]. by apply no_leases_at_next. }
  rewrite <-Hx1 in Hs, Hg.
  assert (next_loc x1 = S (next_loc x)) as Hnx by (by subst x1).
  step_inv E. destruct (_executors_by_name x1 !! name) as [it|] eqn:En.
  - bind_inv E as e ? ? E1. apply deref_inv in E1 as (He & -> & ->).
    destruct (is_initialized e) eqn:Ei.
    + bind_inv E as ? y2 ? E1. run_inv_at E.
      destruct (keeps_release _ _ _ _ _ _ E1 Hs) as [? Hg2]. split_and!; [done| | |done].
      * by eapply grows_trans; [exact Hg|].
      * destruct Hg2. lia.
    + bind_inv E as ? y2 ? E1. bind_inv E as ? y3 ? E2. run_inv_at E.
      unfold update in E1. run_inv_at E1.
      destruct (executors_ok_update o x1 it (initialize_data name ip (i32 p) c m) Hs) as [Hs2 Hg2].
      { intros e' He' Hok. apply exec_ok_init; [done..|]. apply (ok_idle _ _ _ Hok). congruence. }
      { done. }
      destruct (keeps_release _ _ _ _ _ _ E2 Hs2) as [? Hg3]. split_and!; [done| | |naive_solver].
      * eapply grows_trans; [exact Hg|]. by eapply grows_trans; [exact Hg2|].
      * destruct Hg2, Hg3. lia.
  - step_inv E. run_inv_at E.
    destruct (executors_ok_names o x1 (<[name := next_loc x]> (_executors_by_name x1)) Hs) as [? Hg2].
    { intros k l [[<- <-]|[_ Hk]]%lookup_insert_Some; [|by eapply xi_name].
      subst x1. cbn. rewrite lookup_insert_eq. eauto. }
    split_and!; [done| | |naive_solver].
    + by eapply grows_trans; [exact Hg|].
    + destruct Hg2. lia.
Qed.
End Preservation.

(** *** The database *)

Lemma db_ok_executors o d x :
  db_ok d o → executors_ok o x → grows (_executors d) x → db_ok (set_executors x d) o.
Proof.
  intros [Hx Hr Hi Hc Ha Hf Ho] Hs [Hn Hh]. split; cbn; try done.
  - eapply Forall_impl; [done|]. cbn. intros. lia.
  - intros l [?|Hl]%Hh; [auto|]. rewrite (offers_fresh _ _ (next_loc (_executors d))) by done.
    rewrite held_none; [lia|]. intros i y Hy. pose proof (xi_leases _ _ Hx _ _ Hy). lia.
Qed.

(** A node put on the free list that was neither there nor leased entirely. *)
Lemma db_ok_push o d l :
  db_ok d o → (l < next_loc (_executors d))%nat →
  (is_Some (heap (_executors d) !! l) → offers l (_free_nodes d) + held total_one l o ≤ 0) →
  db_ok (set_free_nodes (_free_nodes d ++ [l]) d) o.
Proof.
  intros [Hx Hr Hi Hc Ha Hf Ho] Hl Hnew. split; cbn; try done.
  - apply Forall_app. split; [done|]. by constructor.
  - intros l' Hs. rewrite offers_app, offers_cons. change (offers l' []) with 0.
    specialize (Ho l' Hs). case_decide as Hd; [|lia]. subst l'. specialize (Hnew Hs). lia.
Qed.

Lemma exec_ok_other o o' l e :
  exec_ok o l e → (∀ f, held f l o' = held f l o) →
  (∀ i y, o' !! i = Some y → l_node y = l → ∃ j, o !! j = Some y) → exec_ok o' l e.
Proof.
  intros [H1 H2 H3 H4] Hh Hi. split; rewrite ?Hh; try done.
  intros Hn i y Hy El. destruct (Hi i y Hy El) as [j Hj]. by eapply H4.
Qed.

(** *** The scan of the free list *)

Definition alive (h : gmap nat Executor) (p : nat) : Prop := is_Some (h !! p).
#[local] Instance alive_dec h p : Decision (alive h p).
Proof. unfold alive. apply _. Defined.

(** The executor can take the lease. *)
Definition fits (c m : Z) (e : Executor) : bool :=
  is_initialized e && (m <=? _free_memory e) && (c <=? _free_cores e).

Definition unfit (h : gmap nat Executor) (c m : Z) (p : nat) : Prop :=
  ∀ e, h !! p = Some e → fits c m e = false.

Lemma lease_fits c m e : is_initialized e = true →
  lease c m e = None ∧ fits c m e = false ∨ (∃ e', lease c m e = Some e') ∧ fits c m e = true.
Proof.
  intros Ei. unfold lease, fits. rewrite Ei. cbn [andb].
  destruct (Z.ltb_spec (_free_memory e) m), (Z.leb_spec m (_free_memory e)); try lia; cbn [andb].
  { by left. }
  destruct (Z.ltb_spec (_free_cores e) c), (Z.leb_spec c (_free_cores e)); try lia; [by left|].
  right. split; [by eexists|done].
Qed.

Lemma scan_spec h c m todo : ∀ kept,
  match scan h c m kept todo with
  | (kept', None) => kept' = kept ++ filter (alive h) todo ∧ Forall (unfit h c m) todo
  | (kept', Some (p, e', behind)) => ∃ before e,
      todo = before ++ p :: behind ∧ kept' = kept ++ filter (alive h) before ∧
      Forall (unfit h c m) before ∧ h !! p = Some e ∧ fits c m e = true ∧ lease c m e = Some e'
  end.
Proof.
  induction todo as [|p todo IH]; intros kept; cbn [scan].
  { split; [by rewrite app_nil_r|done]. }
  assert (∀ kept', (alive h p ∧ kept' = kept ++ [p] ∨ ¬ alive h p ∧ kept' = kept) → unfit h c m p →
    match scan h c m kept' todo with
    | (k, None) => k = kept ++ filter (alive h) (p :: todo) ∧ Forall (unfit h c m) (p :: todo)
    | (k, Some (q, e', behind)) => ∃ before e,
        p :: todo = before ++ q :: behind ∧ k = kept ++ filter (alive h) before ∧
        Forall (unfit h c m) before ∧ h !! q = Some e ∧ fits c m e = true ∧ lease c m e = Some e'
    end) as Hskip.
  { intros kept' Hk Hu. specialize (IH kept').
    assert (∀ l, kept' ++ filter (alive h) l = kept ++ filter (alive h) (p :: l)) as Hf.
    { intros l. rewrite filter_cons. destruct Hk as [[Ha ->]|[Ha ->]].
      - rewrite decide_True by done. by rewrite <-app_assoc.
      - by rewrite decide_False by done. }
    destruct (scan h c m kept' todo) as [k [[[q e'] behind]|]].
    - destruct IH as (before & e & -> & -> & Hb & ? & ? & ?). exists (p :: before), e.
      rewrite Hf. split_and!; try done. by constructor.
    - destruct IH as [-> Hb]. rewrite Hf. split; [done|]. by constructor. }
  destruct (h !! p) as [e|] eqn:Ep.
  2:{ apply Hskip; [right; split; [|done]|]; unfold alive, unfit; rewrite Ep; [by intros []|done]. }
  assert (alive h p) by (by eexists).
  destruct (is_initialized e) eqn:Ei; cbn [negb].
  2:{ apply Hskip; [by left|]. intros e' He. simplify_eq. unfold fits. by rewrite Ei. }
  destruct (lease_fits c m e Ei) as [[El Hf]|[[e' El] Hf]]; rewrite El.
  - apply Hskip; [by left|]. intros e' He. by simplify_eq.
  - exists [], e. split_and!; try done. by rewrite app_nil_r.
Qed.

Lemma offers_filter l (P : nat → Prop) `{∀ x, Decision (P x)} f : offers l (filter P f) ≤ offers l f.
Proof.
  induction f as [|p f IH]; [done|]. rewrite filter_cons. case_decide; rewrite !offers_cons; [lia|].
  case_decide; lia.
Qed.

(** A fitting executor after the lease. *)
Lemma lease_inv o l c m e e' :
  exec_ok o l e → fits c m e = true → lease c m e = Some e' → 0 ≤ c → 0 ≤ m →
  (∀ i y, o !! i = Some y → 0 ≤ l_cores y ∧ 0 ≤ l_memory y) →
  node e' = node e ∧ address e' = address e ∧ port e' = port e ∧ cores e' = cores e ∧
  memory e' = memory e ∧ _connection e' = _connection e ∧ node e ≠ ""%string ∧
  _connection e ≠ None ∧ _free_cores e' = _free_cores e - c ∧ _free_memory e' = _free_memory e - m ∧
  0 ≤ _free_cores e - c ∧ 0 ≤ _free_memory e - m.
Proof.
  intros Hok Hf Hl Hc Hm Ha. unfold fits in Hf.
  apply andb_true_iff in Hf as [[Hi Hfm]%andb_true_iff Hfc].
  apply Z.leb_le in Hfm, Hfc. unfold is_initialized in Hi.
  apply andb_true_iff in Hi as [Hn Hcn]. apply negb_true_iff, bool_decide_eq_false in Hn.
  destruct (ok_bounds _ _ _ Hok Hn) as (? & ? & ? & ?).
  pose proof (ok_cores _ _ _ Hok Hn). pose proof (ok_memory _ _ _ Hok Hn).
  pose proof (held_nonneg l_cores l o ltac:(naive_solver)).
  pose proof (held_nonneg l_memory l o ltac:(naive_solver)).
  unfold lease in Hl. repeat case_match; try done. simplify_eq. cbn.
  rewrite !(swrap_small 32) by lia. split_and!; try done; try lia; by destruct (_connection e).
Qed.

(** Opening a lease at a fitting node keeps the invariant. *)
Lemma db_ok_open d o c m p e e' before behind :
  db_ok d o → 0 ≤ c → 0 ≤ m → _lease_count d < 2 ^ 32 - 1 →
  _free_nodes d = before ++ p :: behind →
  heap (_executors d) !! p = Some e → fits c m e = true → lease c m e = Some e' →
  let y := mk_Lease c m (is_fully_leased e') p in
  db_ok (mk_db (set_heap (<[p := e']> (heap (_executors d))) (_executors d))
           (<[_lease_count d := y]> (_leases d)) (_lease_count d + 1)
           (filter (alive (heap (_executors d))) before ++
            (if is_fully_leased e' then behind else p :: behind)))
        (<[_lease_count d := y]> o).
Proof.
  intros [Hx Hr Hi Hc Ha Hf Ho] Hc0 Hm0 Hlt Efree Hp Hfit Hl y.
  destruct Hx as [Hh Hn Hcn Hls].
  destruct (Hh _ _ Hp) as [Hpl Hok].
  destruct (lease_inv o p c m e e' Hok Hfit Hl Hc0 Hm0 Ha)
    as (En & Ea & Ept & Ec & Em & Eco & Hne & Hcne & Efc & Efm & ? & ?).
  assert (o !! _lease_count d = None) as Hfresh.
  { apply eq_None_not_Some. intros [z Hz]. apply (lookup_weaken _ _ _ _ Hz) in Hr.
    apply Hi in Hr. lia. }
  assert (is_initialized e' = true) as Hinit.
  { unfold is_initialized. rewrite En, Eco. rewrite bool_decide_eq_false_2 by done.
    by destruct (_connection e). }
  assert (∀ l, p ≠ l → ∀ f, held f l (<[_lease_count d := y]> o) = held f l o) as Hother.
  { intros l Hl' f. rewrite held_insert by done. rewrite decide_False by done. lia. }
  split; cbn.
  - split; cbn.
    + intros l e1 [[<- <-]|[Hne' Hl1]]%lookup_insert_Some.
      * split; [done|]. destruct (ok_bounds _ _ _ Hok Hne) as (? & ? & ? & ?).
        pose proof (ok_cores _ _ _ Hok Hne). pose proof (ok_memory _ _ _ Hok Hne).
        split; intros; try congruence;
          rewrite ?held_insert, ?decide_True by done; rewrite ?Ec, ?Em, ?Efc, ?Efm; cbn; lia.
      * destruct (Hh _ _ Hl1) as [? Hok1]. split; [done|].
        eapply exec_ok_other; [done|by apply Hother|].
        intros i z [[<- <-]|[_ ?]]%lookup_insert_Some Ez; [done|eauto].
    + intros k l [e1 He1]%Hn. destruct (decide (p = l)) as [<-|];
        rewrite ?lookup_insert_eq, ?lookup_insert_ne by done; eauto.
    + intros k l (e1 & He1 & ?)%Hcn. destruct (decide (p = l)) as [<-|].
      * exists e'. rewrite lookup_insert_eq, Eco. done.
      * exists e1. by rewrite lookup_insert_ne.
    + intros i z [[<- <-]|[_ Hz]]%lookup_insert_Some; [done|eauto].
  - by apply insert_mono.
  - intros i z [[<- <-]|[_ Hz%Hi]]%lookup_insert_Some; lia.
  - lia.
  - intros i z [[<- <-]|[_ Hz]]%lookup_insert_Some; [done|eauto].
  - rewrite Efree in Hf. apply Forall_app in Hf as [Hf1 Hf2].
    apply Forall_app. split.
    { rewrite Forall_forall in Hf1 |- *. intros z [_ ?]%list_elem_of_filter. auto. }
    inversion_clear Hf2. destruct (is_fully_leased e'); [done|by constructor].
  - intros l Hs. assert (is_Some (heap (_executors d) !! l)) as Hs'.
    { destruct (decide (p = l)) as [<-|]; [by eexists|]. by rewrite lookup_insert_ne in Hs. }
    specialize (Ho l Hs'). rewrite Efree, offers_app, offers_cons in Ho. rewrite offers_app.
    pose proof (offers_filter l (alive (heap (_executors d))) before).
    rewrite held_insert by done. cbn [l_node y]. unfold total_one at 1. cbn [l_total y].
    destruct (is_fully_leased e'); rewrite ?offers_cons; case_decide; lia.
Qed.

(** A failed request only drops the nodes that are gone. *)
Lemma db_ok_prune d o :
  db_ok d o →
  db_ok (set_free_nodes (filter (alive (heap (_executors d))) (_free_nodes d)) d) o.
Proof.
  intros [Hx Hr Hi Hc Ha Hf Ho]. split; cbn; try done.
  - rewrite Forall_forall in Hf |- *. intros z [_ ?]%list_elem_of_filter. auto.
  - intros l Hs. specialize (Ho l Hs).
    pose proof (offers_filter l (alive (heap (_executors d))) (_free_nodes d)). lia.
Qed.

(** An executor after one of its open leases was cancelled. *)
Lemma exec_ok_cancel o i y e :
  exec_ok o (l_node y) e → o !! i = Some y →
  (∀ i y, o !! i = Some y → 0 ≤ l_cores y ∧ 0 ≤ l_memory y) →
  exec_ok (delete i o) (l_node y) (cancel_lease y e).
Proof.
  intros Hok Hy Ha.
  assert (is_initialized e = true) as Hin.
  { destruct (is_initialized e) eqn:Ei; [done|]. by destruct (ok_idle _ _ _ Hok Ei _ _ Hy). }
  assert (node e ≠ ""%string) as Hne.
  { unfold is_initialized in Hin. apply andb_true_iff in Hin as [Hn _].
    by apply negb_true_iff, bool_decide_eq_false in Hn. }
  destruct (ok_bounds _ _ _ Hok Hne) as (? & ? & ? & ?).
  pose proof (ok_cores _ _ _ Hok Hne) as Hcs. pose proof (ok_memory _ _ _ Hok Hne) as Hms.
  rewrite (held_delete _ _ _ _ _ Hy), decide_True in Hcs by done.
  rewrite (held_delete _ _ _ _ _ Hy), decide_True in Hms by done.
  destruct (Ha _ _ Hy).
  assert (∀ j z, delete i o !! j = Some z → 0 ≤ l_cores z ∧ 0 ≤ l_memory z) as Hd.
  { intros j z [_ Hz]%lookup_delete_Some. eauto. }
  pose proof (held_nonneg l_cores (l_node y) (delete i o) ltac:(naive_solver)).
  pose proof (held_nonneg l_memory (l_node y) (delete i o) ltac:(naive_solver)).
  split; cbn; rewrite ?(swrap_small 32) by lia; try (intros; lia).
  intros Hn. unfold is_initialized in Hin, Hn. cbn in Hn. congruence.
Qed.

Lemma db_ok_close d o i y :
  db_ok d o → o !! i = Some y →
  let d1 := set_executors (set_heap (alter (cancel_lease y) (l_node y) (heap (_executors d)))
                             (_executors d)) d in
  db_ok (if l_total y then set_free_nodes (_free_nodes d ++ [l_node y]) d1 else d1) (delete i o).
Proof.
  intros [Hx Hr Hi Hc Ha Hf Ho] Hy d1. destruct Hx as [Hh Hn Hcn Hls].
  assert (∀ l, l_node y ≠ l → ∀ f, held f l (delete i o) = held f l o) as Hother.
  { intros l Hl f. apply held_other. intros z Hz. congruence. }
  assert (executors_ok (delete i o) (_executors d1)) as Hx1.
  { unfold d1. split; cbn.
    - intros l e He. destruct (decide (l_node y = l)) as [<-|Hne].
      + rewrite lookup_alter_eq in He. apply fmap_Some in He as (e0 & He0 & ->).
        destruct (Hh _ _ He0). split; [done|]. by apply exec_ok_cancel.
      + rewrite lookup_alter_ne in He by done. destruct (Hh _ _ He). split; [done|].
        eapply exec_ok_other; [done|by apply Hother|].
        intros j z [_ ?]%lookup_delete_Some _. eauto.
    - intros k l Hk. rewrite lookup_alter_is_Some. eauto.
    - intros k l (e & He & ?)%Hcn. destruct (decide (l_node y = l)) as [<-|].
      + exists (cancel_lease y e). by rewrite lookup_alter_eq, He.
      + exists e. by rewrite lookup_alter_ne.
    - intros j z [_ Hz]%lookup_delete_Some. eauto. }
  assert (delete i o ⊆ _leases d) by (etrans; [apply delete_subseteq|done]).
  assert (∀ j z, delete i o !! j = Some z → 0 ≤ l_cores z ∧ 0 ≤ l_memory z).
  { intros j z [_ Hz]%lookup_delete_Some. eauto. }
  assert (∀ l, is_Some (heap (_executors d1) !! l) → is_Some (heap (_executors d) !! l)) as Hsome.
  { intros l. unfold d1. cbn. by rewrite lookup_alter_is_Some. }
  assert (∀ l, held total_one l o =
    (if decide (l_node y = l) then total_one y else 0) + held total_one l (delete i o)) as Ht.
  { intros l. by apply held_delete. }
  destruct (l_total y) eqn:Et; split; try done; cbn.
  - apply Forall_app. split; [done|]. constructor; [by eapply Hls|done].
  - intros l Hs%Hsome. specialize (Ho l Hs). rewrite Ht in Ho. rewrite offers_app, offers_cons.
    change (offers l []) with 0. unfold total_one at 1 in Ho. rewrite Et in Ho. case_decide; lia.
  - intros l Hs%Hsome. specialize (Ho l Hs). rewrite Ht in Ho. unfold total_one at 1 in Ho.
    rewrite Et in Ho. case_decide; lia.
Qed.

Lemma db_ok_close_gone d o i y :
  db_ok d o → o !! i = Some y → heap (_executors d) !! l_node y = None → db_ok d (delete i o).
Proof.
  intros [Hx Hr Hi Hc Ha Hf Ho] Hy Hg. destruct Hx as [Hh Hn Hcn Hls].
  assert (∀ l, is_Some (heap (_executors d) !! l) → ∀ f, held f l (delete i o) = held f l o) as Hother.
  { intros l [e He] f. apply held_other. intros z Hz. congruence. }
  split; try done.
  - split; try done.
    + intros l e He. destruct (Hh _ _ He). split; [done|].
      eapply exec_ok_other; [done|intros; apply Hother; by eexists|].
      intros j z [_ ?]%lookup_delete_Some _. eauto.
    + intros j z [_ Hz]%lookup_delete_Some. eauto.
  - etrans; [apply delete_subseteq|done].
  - intros j z [_ Hz]%lookup_delete_Some. eauto.
  - intros l Hs. rewrite Hother by done. auto.
Qed.

(** *** Runs of the database

    The operations of the two threads and of the HTTP server, in any order, one after the other, with
    the set of open leases.  The lock of the database orders [add], [read], [open_lease] and
    [close_lease]; connecting, registering and removing an executor take no lock, so that they do not
    overlap with the others is an assumption of these runs.  The amounts a lease asks for and the
    resources of a node are not negative, fewer than [2^32 - 1] leases are opened and a lease is closed
    at most once. *)

Section Steps.
Context `{Env} (erased : nat → option nat).

Definition state : Type := ExecutorDB * trace * gmap Z Lease.

Definition server_ok (s : server_data) : Prop := 0 ≤ s_cores s < 2 ^ 15 ∧ 0 ≤ s_memory s < 2 ^ 31.

Inductive step : state → state → Prop :=
  | step_add d t o name ip p c m r d' t' :
      0 ≤ c < 2 ^ 15 → 0 ≤ m < 2 ^ 31 →
      add name ip p c m d t = Ok (r, d', t') → step (d, t, o) (d', t', o)
  | step_read d t o servers d' t' :
      Forall server_ok servers → read_db servers d t = Ok (tt, d', t') → step (d, t, o) (d', t', o)
  | step_new d t o l d' t' :
      on_executors (make_shared id) d t = Ok (l, d', t') → step (d, t, o) (d', t', o)
  | step_wire d t o l conn d' t' :
      on_executors (update l (set_connection (Some conn))) d t = Ok (tt, d', t') →
      step (d, t, o) (d', t', o)
  | step_connect d t o l qp e d' t' :
      heap (_executors d) !! l = Some e → _connection e ≠ None →
      on_executors (connect_executor l qp) d t = Ok (tt, d', t') → step (d, t, o) (d', t', o)
  | step_register d t o qp name b d' t' :
      on_executors (register_executor qp name) d t = Ok (b, d', t') → step (d, t, o) (d', t', o)
  | step_remove d t o qp b d' t' :
      on_executors (remove_executor qp) d t = Ok (b, d', t') → step (d, t, o) (d', t', o)
  | step_open d t o c m resp r d' t' :
      0 ≤ c → 0 ≤ m → _lease_count d < 2 ^ 32 - 1 →
      open_lease erased c m resp d t = Ok (r, d', t') →
      step (d, t, o) (d', t', o ∪ (_leases d' ∖ _leases d))
  | step_close d t o msg d' t' :
      is_Some (o !! u32 (ld_lease_id msg)) →
      close_lease msg d t = Ok (tt, d', t') →
      step (d, t, o) (d', t', delete (u32 (ld_lease_id msg)) o).

Definition reachable : state → Prop := rtc step (empty_db, [], ∅).

Lemma open_lease_run c m resp d t :
  match scan (heap (_executors d)) c m [] (_free_nodes d) with
  | (kept, None) =>
      open_lease erased c m resp d t = Ok ((None, resp), set_free_nodes kept d, t)
  | (kept, Some (p, e, behind)) =>
      open_lease erased c m resp d t =
      match (if is_fully_leased e then erased p else Some p) with
      | None => Fault (Undefined "read of an erased list element")
      | Some n =>
          Ok ((Some p, mk_LeaseResponse (i32 (_lease_count d)) (port e)
                         (strncpy ADDRESS_LENGTH (chars_of (address e)))),
              mk_db (set_heap (<[p := e]> (heap (_executors d))) (_executors d))
                (match _leases d !! u32 (_lease_count d) with
                 | Some _ => _leases d
                 | None => <[u32 (_lease_count d) := mk_Lease c m (is_fully_leased e) n]> (_leases d)
                 end)
                (u32 (_lease_count d + 1))
                (kept ++ (if is_fully_leased e then behind else p :: behind)), t)
      end
  end.
Proof using.
  unfold open_lease. run.
  destruct (Z.eqb_spec (Z.of_nat (length (_free_nodes d))) 0) as [E|E].
  { destruct (_free_nodes d) eqn:Ef; [|done]. cbn [scan]. destruct d; cbn in *. by subst. }
  destruct (scan _ c m [] (_free_nodes d)) as [kept [[[p e] behind]|]]; [|done].
  rewrite wrap_swrap by done. destruct (is_fully_leased e); [|done]. by destruct (erased p).
Qed.

(** The read of the element of [_free_nodes] that was just erased crashes, or it still finds the
    pointer.  The language promises neither; other outcomes are not covered. *)
Hypothesis erased_pointer : ∀ p q, erased p = Some q → q = p.

Lemma open_lease_ok d t o c m resp r d' t' :
  0 ≤ c → 0 ≤ m → _lease_count d < 2 ^ 32 - 1 → db_ok d o →
  open_lease erased c m resp d t = Ok (r, d', t') → db_ok d' (o ∪ (_leases d' ∖ _leases d)).
Proof using erased_pointer.
  intros Hc Hm Hlt Hd E. pose proof (open_lease_run c m resp d t) as Hr.
  pose proof (scan_spec (heap (_executors d)) c m (_free_nodes d) []) as Hs.
  destruct (scan _ c m [] (_free_nodes d)) as [kept [[[p e'] behind]|]];
    rewrite Hr in E.
  - assert (∀ n, (if is_fully_leased e' then erased p else Some p) = Some n → n = p) as Hn.
    { intros n. destruct (is_fully_leased e'); [apply erased_pointer|congruence]. }
    destruct (if is_fully_leased e' then erased p else Some p) as [n|]; [|discriminate E].
    rewrite (Hn n eq_refl) in E. injection E as <- <- <-. destruct Hs as (before & e & Ef & -> & _ & He & Hfit & Hl).
    destruct (db_count _ _ Hd) as [Hc0 _].
    rewrite !(wrap_small 32) by lia.
    assert (_leases d !! _lease_count d = None) as Hnew.
    { apply eq_None_not_Some. intros [z Hz]. apply (db_ids _ _ Hd) in Hz. lia. }
    rewrite Hnew. cbn [_leases].
    rewrite <-insert_difference', map_difference_diag by done.
    replace (o ∪ <[_lease_count d := mk_Lease c m (is_fully_leased e') p]> ∅)
      with (<[_lease_count d := mk_Lease c m (is_fully_leased e') p]> o); [by eapply db_ok_open|].
    assert (o !! _lease_count d = None).
    { by eapply lookup_weaken_None, db_recorded. }
    apply map_eq. intros j. rewrite lookup_union.
    destruct (decide (_lease_count d = j)) as [<-|].
    + rewrite !lookup_insert_eq. by rewrite H0.
    + rewrite !lookup_insert_ne, lookup_empty by done. by destruct (o !! j).
  - injection E as <- <- <-. destruct Hs as [-> _]. cbn [_leases set_free_nodes app].
    rewrite map_difference_diag, (right_id_L ∅ (∪)). by apply db_ok_prune.
Qed.

Lemma close_lease_ok d t o msg d' t' :
  is_Some (o !! u32 (ld_lease_id msg)) → db_ok d o →
  close_lease msg d t = Ok (tt, d', t') → db_ok d' (delete (u32 (ld_lease_id msg)) o).
Proof using.
  intros [y Hy] Hd E. unfold close_lease in E. step_inv E.
  rewrite (lookup_weaken _ _ _ _ Hy (db_recorded _ _ Hd)) in E.
  destruct (heap (_executors d) !! l_node y) as [e|] eqn:He.
  - bind_inv E as ? d1 ? E1. unfold on_executors, update in E1. run_inv_at E1. run_inv_at E1.
    pose proof (db_ok_close d o _ y Hd Hy) as Hc. unfold when in E.
    destruct (l_total y); run_inv_at E; exact Hc.
  - run_inv_at E. by eapply db_ok_close_gone.
Qed.

Lemma push_result_ok d o name ip p c m r x' t t' :
  0 ≤ c < 2 ^ 15 → 0 ≤ m < 2 ^ 31 → db_ok d o →
  add_executor name ip p c m (_executors d) t = Ok (r, x', t') →
  let d1 := set_executors x' d in
  db_ok d1 o ∧ ∀ l, r.1 = Some l → db_ok (set_free_nodes (_free_nodes d1 ++ [l]) d1) o.
Proof using.
  intros Hc Hm Hd E d1. pose proof (db_executors _ _ Hd) as Hx.
  destruct (add_executor_keeps o _ _ _ _ _ _ _ _ _ _ E Hc Hm Hx) as (Hx' & Hg & Hlt & Hl).
  assert (db_ok d1 o) as Hd1 by (by apply db_ok_executors).
  split; [done|]. intros l ->%Hl. apply db_ok_push; [done..|]. intros _.
  unfold d1. cbn. rewrite (offers_fresh _ _ _ (db_free _ _ Hd)) by done.
  rewrite held_none by (by apply no_leases_at_next). lia.
Qed.

Lemma add_ok d t o name ip p c m r d' t' :
  0 ≤ c < 2 ^ 15 → 0 ≤ m < 2 ^ 31 → db_ok d o →
  add name ip p c m d t = Ok (r, d', t') → db_ok d' o.
Proof using.
  intros Hc Hm Hd E. unfold add in E. destruct (_ <? _); [by run_inv_at E|].
  bind_inv E as r' ? ? E1. unfold on_executors in E1. run_inv_at E1.
  destruct (push_result_ok _ _ _ _ _ _ _ _ _ _ _ Hc Hm Hd E1) as [Hd1 Hp].
  destruct r' as [[l|] []]; try (by run_inv_at E). step_inv E. run_inv_at E. by apply Hp.
Qed.

Lemma read_db_ok servers : ∀ d t o d' t',
  Forall server_ok servers → db_ok d o → read_db servers d t = Ok (tt, d', t') → db_ok d' o.
Proof using.
  induction servers as [|s servers IH]; intros d t o d' t' Hs Hd E; unfold read_db in E;
    cbn [for_each] in E; [by run_inv_at E|].
  apply Forall_cons_1 in Hs as [[Hc Hm] Hs].
  bind_inv E as ? d1 ? E1. eapply (IH d1); [done| |exact E].
  bind_inv E1 as r ? ? E2. unfold on_executors in E2. run_inv_at E2.
  destruct (push_result_ok _ _ _ _ _ _ _ _ _ _ _ Hc Hm Hd E2) as [Hd1 Hp].
  destruct r as [[l|] []]; run_inv_at E1; [by apply Hp|done..].
Qed.

Lemma step_ok st st' : step st st' → db_ok st.1.1 st.2 → db_ok st'.1.1 st'.2.
Proof using erased_pointer.
  assert (∀ A (m : M Executors A) o d t a d' t', keeps o m → on_executors m d t = Ok (a, d', t') →
            db_ok d o → db_ok d' o) as Hk.
  { intros A m o d t a d' t' Hm E Hd. unfold on_executors in E. run_inv_at E.
    destruct (Hm _ _ _ _ _ E (db_executors _ _ Hd)). by apply db_ok_executors. }
  destruct 1; cbn; intros Hd.
  - by eapply add_ok.
  - by eapply read_db_ok.
  - eapply Hk; [|done|done]. intros ?????. apply keeps_make_shared.
  - eapply Hk; [|done|done]. intros ????? E Hx.
    by destruct (mild_set_connection o l (Some conn) ltac:(done) _ _ _ _ _ E Hx) as (? & ? & _).
  - unfold on_executors in *. match goal with E : zoom _ _ _ _ _ = _ |- _ => run_inv_at E end.
    edestruct keeps_connect; [done|by eexists|by apply db_executors|]. by apply db_ok_executors.
  - eapply Hk; [apply keeps_register|done..].
  - eapply Hk; [apply keeps_remove|done..].
  - match goal with E : open_lease _ _ _ _ _ _ = _ |- _ => eapply open_lease_ok; [..|exact E]; done end.
  - by eapply close_lease_ok.
Qed.

Lemma empty_ok : db_ok empty_db ∅.
Proof using. split; cbn; try done; try (split; done). Qed.

Lemma reachable_ok st : reachable st → db_ok st.1.1 st.2.
Proof using erased_pointer.
  intros Hr. refine (rtc_ind_r (λ st, db_ok st.1.1 st.2) (empty_db, [], ∅) _ _ st Hr).
  - apply empty_ok.
  - intros x y _ Hs Hx. by eapply step_ok.
Qed.
End Steps.

Lemma db_ok_accounted d o l e :
  db_ok d o → heap (_executors d) !! l = Some e → node e ≠ ""%string →
  0 ≤ _free_cores e ≤ cores e ∧ 0 ≤ _free_memory e ≤ memory e ∧
  _free_cores e + held l_cores l o = cores e ∧
  _free_memory e + held l_memory l o = memory e ∧
  offers l (_free_nodes d) + held total_one l o ≤ 1.
Proof.
  intros [Hx Hrec Hi Hc Ha Hf Ho] He Hn.
  destruct (xi_heap _ _ Hx _ _ He) as [_ [Hb Hcs Hms _]].
  specialize (Hb Hn). specialize (Hcs Hn). specialize (Hms Hn).
  pose proof (held_nonneg l_cores l o ltac:(naive_solver)).
  pose proof (held_nonneg l_memory l o ltac:(naive_solver)).
  assert (is_Some (heap (_executors d) !! l)) by (by eexists).
  split_and!; try lia. auto.
Qed.

(** ** Theorems *)

(** C4. The database never oversubscribes a node and loses nothing, as long as leases ask for
    non-negative amounts, nodes have non-negative resources and no lease is closed twice. In every
    state reached by adding, connecting, registering and removing executors and by opening such leases
    and closing leases that are open, one operation after the other, each named executor has between
    zero and all of its cores and memory free, what is free plus what its open leases hold is what the
    node has, and the node is offered at most once, and not while a lease holds it entirely. Opening a
    lease that takes a node entirely reads the list element it has just erased, which the language
    leaves undefined: the executions covered are those in which that read crashes or still finds the
    pointer. *)
Theorem leases_accounted `{Env} (erased : nat → option nat) d t o :
  (∀ p q, erased p = Some q → q = p) →
  reachable erased (d, t, o) →
  ∀ l e, heap (_executors d) !! l = Some e → node e ≠ ""%string →
    0 ≤ _free_cores e ≤ cores e ∧ 0 ≤ _free_memory e ≤ memory e ∧
    _free_cores e + held l_cores l o = cores e ∧
    _free_memory e + held l_memory l o = memory e ∧
    offers l (_free_nodes d) + held total_one l o ≤ 1.
Proof.
  intros Her Hr l e He Hn. apply (reachable_ok erased Her) in Hr. by apply db_ok_accounted.
Qed.

(** A node with 4 cores and 1024 MB that is known, connects, registers and then
    serves a lease of 3 cores and 512 MB. *)
Definition demo_server : server_data := mk_server_data "node1" "10.0.0.1" 10000 4 1024.

Definition demo_register : M ExecutorDB unit :=
  l ← on_executors (@make_shared ideal_env id);
  on_executors (update l (set_connection (Some 7))) ;;
  on_executors (connect_executor l 9) ;;
  on_executors (register_executor 9 "node1") ;;
  mret tt.

Definition demo_state (m : M ExecutorDB unit) : ExecutorDB * trace :=
  match m empty_db [] with Ok (_, d, t) => (d, t) | Fault _ => (empty_db, []) end.

Definition demo_ready : ExecutorDB * trace :=
  demo_state (@read_db ideal_env [demo_server] ;; demo_register).

Definition no_response : LeaseResponse := mk_LeaseResponse 0 0 [].

Definition demo_leased : ExecutorDB * trace :=
  demo_state (@read_db ideal_env [demo_server] ;; demo_register ;;
              open_lease Some 3 512 no_response ;; mret tt).

Lemma demo_leased_reachable : ∃ o, @reachable ideal_env Some (demo_leased.1, demo_leased.2, o).
Proof.
  eexists. unfold reachable.
  eapply rtc_l.
  { apply (step_read Some _ _ _ [demo_server]); [|vm_compute; reflexivity].
    constructor; [|constructor]. split; cbn; lia. }
  eapply rtc_l. { eapply step_new. vm_compute; reflexivity. }
  eapply rtc_l. { apply (step_wire Some _ _ _ 1 7). vm_compute; reflexivity. }
  eapply rtc_l.
  { eapply (step_connect Some _ _ _ 1 9); [vm_compute; reflexivity|done|vm_compute; reflexivity]. }
  eapply rtc_l. { eapply (step_register Some _ _ _ 9 "node1"). vm_compute; reflexivity. }
  eapply rtc_l.
  { eapply (step_open Some _ _ _ 3 512 no_response); [lia..| |vm_compute; reflexivity].
    vm_compute. reflexivity. }
  replace demo_leased with
    (ltac:(let v := eval vm_compute in demo_leased in exact v)) by (vm_compute; reflexivity).
  apply rtc_refl.
Qed.

Lemma leases_accounted_witness :
  ∃ o e, @reachable ideal_env Some (demo_leased.1, demo_leased.2, o) ∧
    heap (_executors demo_leased.1) !! 0%nat = Some e ∧ node e = "node1"%string ∧
    _free_cores e = 1 ∧ _free_cores e + held l_cores 0 o = 4.
Proof.
  destruct demo_leased_reachable as [o Ho]. exists o.
  destruct (heap (_executors demo_leased.1) !! 0%nat) as [e|] eqn:He; [|vm_compute in He; discriminate He].
  exists e. pose proof He as He'. vm_compute in He'. injection He' as <-.
  pose proof (@leases_accounted ideal_env Some _ _ o ltac:(congruence) Ho 0%nat _ He ltac:(discriminate))
    as (_ & _ & Hc & _).
  split_and!; [exact Ho|reflexivity|reflexivity|reflexivity|exact Hc].
Defined.

(** C33. First fit, on every branch. [open_lease] takes the first node of the free list that is alive,
    registered and connected and has enough memory and cores. With none, it answers with no executor
    and changes no executor and no lease. Otherwise the response carries the next lease number, the
    node's port and its address (readable as a C string exactly when it leaves room for the
    terminator), the lease is recorded under that number (which was not in use), and the node stays on
    the free list unless one of its resources is exhausted. In that last case the pointer of the lease is
    read from the list element that was just erased: the lease refers to whatever this read yields, and
    if it crashes the call does; nothing else fails and nothing is called. *)
Theorem open_lease_first_fit `{Env} (erased : nat → option nat) c m resp d t :
  0 ≤ _lease_count d < 2 ^ 32 → _leases d !! _lease_count d = None →
  let h := heap (_executors d) in
  (Forall (unfit h c m) (_free_nodes d) ∧
   ∃ d', open_lease erased c m resp d t = Ok ((None, resp), d', t) ∧
     _executors d' = _executors d ∧ _leases d' = _leases d ∧ _lease_count d' = _lease_count d) ∨
  ∃ before p e e' behind,
    _free_nodes d = before ++ p :: behind ∧ Forall (unfit h c m) before ∧
    h !! p = Some e ∧ fits c m e = true ∧ lease c m e = Some e' ∧
    match (if is_fully_leased e' then erased p else Some p) with
    | None => open_lease erased c m resp d t = Fault (Undefined "read of an erased list element")
    | Some n => ∃ resp' d', open_lease erased c m resp d t = Ok ((Some p, resp'), d', t) ∧
        heap (_executors d') = <[p := e']> h ∧
        u32 (resp_lease_id resp') = _lease_count d ∧ resp_port resp' = port e ∧
        (nul ∉ chars_of (address e) →
         c_str (resp_address resp') =
           if decide (length (chars_of (address e)) < ADDRESS_LENGTH)%nat
           then Some (chars_of (address e)) else None) ∧
        _leases d' = <[_lease_count d := mk_Lease c m (is_fully_leased e') n]> (_leases d) ∧
        _lease_count d' = u32 (_lease_count d + 1) ∧
        _free_nodes d' = filter (alive h) before ++ (if is_fully_leased e' then behind else p :: behind)
    end.
Proof.
  intros Hc Hnew h. pose proof (open_lease_run erased c m resp d t) as Hr.
  pose proof (scan_spec h c m (_free_nodes d) []) as Hs. fold h in Hr.
  destruct (scan _ c m [] (_free_nodes d)) as [kept [[[p e'] behind]|]].
  - right. destruct Hs as (before & e & Ef & -> & Hb & He & Hfit & Hl).
    exists before, p, e, e', behind. split_and!; try done.
    destruct (if is_fully_leased e' then erased p else Some p) as [n|]; [|exact Hr].
    rewrite (wrap_small 32 (_lease_count d)), Hnew in Hr by done.
    eexists _, _. split; [exact Hr|].
    cbn [resp_lease_id resp_port resp_address _executors _leases _lease_count _free_nodes heap set_heap].
    assert (port e' = port e ∧ address e' = address e) as [-> ->].
    { clear Hr. unfold lease in Hl. repeat case_match; try done. by simplify_eq. }
    rewrite wrap_swrap, (wrap_small 32 (_lease_count d)) by done.
    split_and!; try done. intros Hn. case_decide.
    + by apply c_str_strncpy.
    + apply c_str_strncpy_full; [done|lia].
  - left. destruct Hs as [-> Hb]. split; [done|]. eexists. split; [exact Hr|]. done.
Qed.

Lemma singleton_split {A} (x p : A) before behind : [x] = before ++ p :: behind → before = [] ∧ p = x ∧ behind = [].
Proof. destruct before as [|a [|b before]]; cbn; [intros [= -> <-]; done|discriminate..]. Qed.

(** The node of 4 cores and 1024 MB is leased entirely; the erased element is read as it was. *)
Lemma open_lease_first_fit_witness :
  ∃ resp' d', open_lease Some 4 512 no_response demo_ready.1 [] = Ok ((Some 0%nat, resp'), d', []) ∧
    resp_port resp' = 10000 ∧ _leases d' !! 0 = Some (mk_Lease 4 512 true 0) ∧ _free_nodes d' = [].
Proof.
  destruct (@open_lease_first_fit ideal_env Some 4 512 no_response demo_ready.1 []
    ltac:(vm_compute; split; congruence) ltac:(vm_compute; reflexivity))
    as [(_ & d' & E & _)|(before & p & e & e' & behind & Hf & _ & He & _ & Hl & Hm)].
  - vm_compute in E. discriminate E.
  - assert (before = [] ∧ p = 0%nat ∧ behind = []) as (-> & -> & ->).
    { clear -Hf. vm_compute in Hf. apply singleton_split. exact Hf. }
    vm_compute in He. injection He as <-. vm_compute in Hl. injection Hl as <-.
    destruct Hm as (resp' & d' & E & _ & _ & Hp & _ & Hls & _ & Hfree).
    exists resp', d'. split; [exact E|]. split; [exact Hp|]. split; [rewrite Hls; reflexivity|exact Hfree].
Defined.

(** Closing a lease does not forget it. A second deallocation message for
    the same lease is accepted like the first and credits the node again, and a
    lease that held the node entirely puts it on the free list again. *)
Theorem close_lease_repeats msg d t y e :
  _leases d !! u32 (ld_lease_id msg) = Some y → heap (_executors d) !! l_node y = Some e →
  ∃ d1 d2 e2, close_lease msg d t = Ok (tt, d1, t) ∧ close_lease msg d1 t = Ok (tt, d2, t) ∧
    heap (_executors d2) !! l_node y = Some e2 ∧
    _free_cores e2 = i32 (_free_cores e + 2 * l_cores y) ∧
    _free_memory e2 = i32 (_free_memory e + 2 * l_memory y) ∧
    _free_nodes d2 = _free_nodes d ++ (if l_total y then [l_node y; l_node y] else []).
Proof.
  intros Hy He.
  assert (∀ d, _leases d !! u32 (ld_lease_id msg) = Some y → is_Some (heap (_executors d) !! l_node y) →
    close_lease msg d t =
    Ok (tt, mk_db (set_heap (alter (cancel_lease y) (l_node y) (heap (_executors d))) (_executors d))
                  (_leases d) (_lease_count d)
                  (_free_nodes d ++ (if l_total y then [l_node y] else [])), t)) as Hrun.
  { clear d Hy He. intros d Hy [e' He']. unfold close_lease, on_executors, update. run.
    rewrite Hy, He'. destruct (l_total y); [done|]. cbn. by rewrite app_nil_r. }
  eexists _, _, (cancel_lease y (cancel_lease y e)). split; [apply Hrun; [done|by eexists]|].
  split. { apply Hrun; cbn; [done|]. rewrite lookup_alter_is_Some. by eexists. }
  cbn [_executors heap set_heap _free_nodes]. rewrite !lookup_alter_eq, He.
  assert (∀ a b, i32 (i32 (a + b) + b) = i32 (a + 2 * b)) as Hw.
  { intros a b. unfold swrap.
    replace (_ - _ + b + _) with ((a + b + 2 ^ (32 - 1)) mod 2 ^ 32 + b) by lia.
    rewrite Zplus_mod_idemp_l. f_equal. f_equal. lia. }
  split_and!; [done|apply Hw|apply Hw|]. rewrite <-app_assoc. by destruct (l_total y).
Qed.

Definition demo_dealloc : LeaseDeallocation := mk_LeaseDeallocation 0 0 0 0.

(** The node of 4 cores ends up with 7 free ones. *)
Lemma close_lease_repeats_witness :
  ∃ d1 d2 e2, close_lease demo_dealloc demo_leased.1 [] = Ok (tt, d1, []) ∧
    close_lease demo_dealloc d1 [] = Ok (tt, d2, []) ∧
    heap (_executors d2) !! 0%nat = Some e2 ∧ _free_cores e2 = 7.
Proof.
  destruct (_leases demo_leased.1 !! 0) as [y|] eqn:Hy; [|vm_compute in Hy; discriminate Hy].
  pose proof Hy as Hy'. vm_compute in Hy'. injection Hy' as <-.
  destruct (heap (_executors demo_leased.1) !! 0%nat) as [e|] eqn:He; [|vm_compute in He; discriminate He].
  destruct (close_lease_repeats demo_dealloc demo_leased.1 [] _ e Hy He)
    as (d1 & d2 & e2 & E1 & E2 & H2 & Hc & _).
  exists d1, d2, e2. split_and!; [exact E1|exact E2|exact H2|].
  rewrite Hc. vm_compute in He. injection He as <-. reflexivity.
Defined.

(** No executor can register under a name the HTTP interface accepted.
    [add] refuses names of fewer than 32 characters, and a registration message
    carries the name as a C string in an array of 32, so whatever the array holds,
    the name read from it is not one that [add] has accepted. *)
Theorem added_name_cannot_register `{Env} name ip p c m d t r d' t' (a : chars) :
  add name ip p c m d t = Ok (r, d', t') → r ≠ MALFORMED_DATA →
  length a = NODE_NAME_LENGTH → c_str a ≠ Some (chars_of name).
Proof.
  intros E Hr Ha Hc. unfold add in E. destruct (Z.ltb_spec (Z.of_nat (String.length name)) (Z.of_nat NODE_NAME_LENGTH)).
  { run_inv_at E. done. }
  assert (∀ l s, c_str l = Some s → (length s < length l)%nat) as Hlen.
  { clear. induction l as [|x l IH]; intros s; cbn [c_str]; [done|].
    destruct (Ascii.eqb x nul); [by intros [= <-]; cbn; lia|].
    destruct (c_str l) as [s'|] eqn:E; [|done]. intros [= <-]. cbn. specialize (IH s' eq_refl). lia. }
  apply Hlen in Hc. unfold chars_of in Hc.
  assert (∀ s, length (String.list_ascii_of_string s) = String.length s) as Hl.
  { clear. induction s; cbn; congruence. }
  rewrite Hl in Hc. unfold NODE_NAME_LENGTH in *. lia.
Qed.

Definition long_name : string := "node-with-a-name-of-33-characters".

Lemma added_name_cannot_register_witness :
  ∃ d' t', @add ideal_env long_name "10.0.0.1" 10000 4 1024 empty_db [] = Ok (OK, d', t') ∧
    c_str (strncpy 32 (chars_of long_name)) ≠ Some (chars_of long_name).
Proof.
  eexists _, _. split; [vm_compute; reflexivity|].
  eapply (@added_name_cannot_register ideal_env long_name "10.0.0.1" 10000 4 1024 empty_db []);
    [vm_compute; reflexivity|done|reflexivity].
Defined.

(** An executor that registers before it is added is never offered. When
    [add_executor] finds the name registered but without data it fills in the
    existing object and returns a pointer to the temporary one, which is gone when
    the function returns: the free list gets a dead entry, and a request the node
    could serve is answered with no executor. *)
Theorem registered_first_never_offered :
  ∃ d t e, (demo_register ;; @read_db ideal_env [demo_server]) empty_db [] = Ok (tt, d, t) ∧
    _executors_by_name (_executors d) !! "node1"%string = Some 0%nat ∧
    heap (_executors d) !! 0%nat = Some e ∧ fits 3 512 e = true ∧
    Forall (λ l, heap (_executors d) !! l = None) (_free_nodes d) ∧
    ∃ d', open_lease Some 3 512 no_response d t = Ok ((None, no_response), d', t).
Proof.
  eexists _, _, _. split; [vm_compute; reflexivity|]. split_and!; try reflexivity.
  - repeat constructor.
  - eexists. vm_compute. reflexivity.
Qed.

End ResourceDB.
