(* ===== verification/Rdma.v ===== *)
(** * Active and passive endpoints, completion pollers

    [Address], [RDMAActive] and [RDMAPassive] of
    src/rdmalib/include/rdmalib/rdmalib.hpp and src/rdmalib/lib/rdmalib.cpp, and
    [Poller] and [EventPoller] of src/rdmalib/include/rdmalib/poller.hpp and
    src/rdmalib/lib/poller.cpp.  Null handles are zero. *)

From S2P Require Import Prelude Verbs PrivateData Buffer Queue Connection.

Module Rdma.

(** ** Address *)

Record Address := mk_addr { addrinfo : Z; _port : Z }.

Definition addr_default : Address := mk_addr 0 (u32 (-1)).

(** [Address(Address&&)] and [operator=(Address&&)]: the new value and what is
    left of the source. *)
Definition addr_move (obj : Address) : Address * Address :=
  (mk_addr (addrinfo obj) (_port obj), mk_addr 0 (_port obj)).

Definition set_port (p : Z) (a : Address) : Address := mk_addr (addrinfo a) (u32 p).

Section Address.
Context `{Env} {S : Type}.

(** [Address(ip, port, passive)] *)
Definition addr_construct (ip : string) (port : Z) (passive : bool) : M S Address :=
  expect_false (bool_decide (ip = ""%string)) ;;
  r ← ext (Cgetaddrinfo ip port passive) (λ tr, env_getaddrinfo tr ip port);
  expect_zero r.1 ;;
  mret (mk_addr r.2 (u32 port)).

Definition addr_destroy (a : Address) : M S unit :=
  when (nonzero (addrinfo a)) (ext (Cfreeaddrinfo (addrinfo a)) (λ _, tt)).
End Address.

(** ** RDMAActive *)

(** [conn_param.private_data]: null, or a pointer to the argument of the call of
    [connect] that set it, which is gone when that call has returned. *)
Inductive private_param : Type := NoData | PointsTo (v : Z) | Dangling.

Record active := mk_active {
  _conn : option Connection.t; _addr : Address; _pd : Z; _recv_buf : Z;
  max_inline_data : Z; conn_param : private_param; _is_connected : bool }.

Definition set_conn (c : option Connection.t) (a : active) : active :=
  mk_active c (_addr a) (_pd a) (_recv_buf a) (max_inline_data a) (conn_param a) (_is_connected a).
Definition set_pd (p : Z) (a : active) : active :=
  mk_active (_conn a) (_addr a) p (_recv_buf a) (max_inline_data a) (conn_param a) (_is_connected a).
Definition set_param (p : private_param) (a : active) : active :=
  mk_active (_conn a) (_addr a) (_pd a) (_recv_buf a) (max_inline_data a) p (_is_connected a).
Definition set_connected (b : bool) (a : active) : active :=
  mk_active (_conn a) (_addr a) (_pd a) (_recv_buf a) (max_inline_data a) (conn_param a) b.

Definition active_default : active := mk_active None addr_default 0 0 0 NoData false.

Section Active.
Context `{Env}.

(** [RDMAActive(ip, port, recv_buf, max_inline_data)] *)
Definition active_construct {S} (ip : string) (port recv_buf inline : Z) : M S active :=
  a ← addr_construct ip port false;
  mret (mk_active None a 0 recv_buf inline NoData false).

(** [_conn.reset()]: the destructor of the connection runs. *)
Definition reset_conn : M active unit :=
  a ← read;
  match _conn a with
  | None => mret tt
  | Some c => zoom (λ _, c) (λ _ a, set_conn None a) Connection.destroy
  end.

Definition active_destroy : M active unit :=
  reset_conn ;; a ← gets _addr; addr_destroy a.

(** [impl::expect_zero(rdma_create_qp(id, pd, attr))] with the first statements of
    [Connection::initialize(id)], which follows it in both callers: the queue pair becomes part of the
    identifier.  A call that fails leaves the identifier without a queue pair and without a channel of
    its own; where [assert] is compiled out, [initialize] then looks for the channel through the null
    queue pair, [this->_qp->recv_cq->channel], which is undefined. *)
Definition create_qp {S} (id : rdma_cm_id) (pd send_cq recv_cq : Z) : M S rdma_cm_id :=
  r ← ext (Ccreate_qp id pd send_cq recv_cq) (λ tr, env_create_qp tr id pd send_cq recv_cq);
  expect_zero r.1 ;;
  if nonzero r.1 then raise (Undefined "null queue pair")
  else mret (mk_cm_id (cm_handle id) r.2 (cm_recv_cq_channel id) (cm_pd id)).

Definition allocate : M active unit :=
  a ← read;
  match _conn a with
  | Some _ => mret tt
  | None =>
      r ← ext (Ccreate_ep (addrinfo (_addr a))) (λ tr, env_create_ep tr (addrinfo (_addr a)));
      expect_zero r.1 ;;
      if nonzero r.1 then raise (Undefined "uninitialised rdma_cm_id") else
      id ← create_qp r.2 (_pd a) 0 0;
      modify (set_conn (Some (Connection.initialize id (Connection.construct (_recv_buf a) false)))) ;;
      modify (set_pd (cm_pd id))
  end.

(** [_conn->id()] *)
Definition conn_id : M active rdma_cm_id :=
  a ← read;
  c ← lift (from_opt "null connection" (_conn a));
  lift (from_opt "null rdma_cm_id" (Connection._id c)).

Definition param_value (p : private_param) : result (option Z) :=
  match p with
  | NoData => Ok None
  | PointsTo v => Ok (Some v)
  | Dangling => Fault (Undefined "private_data points to a finished call")
  end.

Definition connect (secret : Z) : M active bool :=
  allocate ;;
  when (nonzero secret) (modify (set_param (PointsTo (u32 secret)))) ;;
  id ← conn_id;
  p ← gets conn_param;
  data ← lift (param_value p);
  r ← ext (Cconnect id data) (λ tr, env_connect tr id);
  when (nonzero secret) (modify (set_param Dangling)) ;;
  if nonzero r then
    reset_conn ;; modify (set_pd 0) ;; mret false
  else
    modify (set_connected true) ;; mret true.

Definition disconnect : M active unit :=
  id ← conn_id;
  r ← ext (Cdisconnect id) (λ tr, env_disconnect tr id);
  expect_zero r ;;
  reset_conn ;;
  modify (set_pd 0) ;;
  modify (set_connected false).

(** [operator=(RDMAActive&&)]: the old connection of [this] is destroyed; the
    result is what is left of [obj]. *)
Definition active_assign (obj : active) : M active active :=
  reset_conn ;;
  modify (λ this, mk_active (_conn obj) (addr_move (_addr obj)).1 (_pd obj) (_recv_buf obj)
                    (max_inline_data obj) (conn_param obj) (_is_connected obj)) ;;
  mret (mk_active None (addr_move (_addr obj)).2 (_pd obj) (_recv_buf obj)
          (max_inline_data obj) (conn_param obj) (_is_connected obj)).
End Active.

(** ** RDMAPassive

    Connections are objects on the heap that clients and executors point to: the
    record has the store of the connections its [poll_events] created, and
    [p_contexts] is the [context] member of their identifiers. *)

Record passive := mk_passive {
  p_addr : Address; p_ec : Z; p_listen_id : option rdma_cm_id; p_pd : Z; p_recv_buf : Z;
  p_max_inline : Z; p_send_cq : Z; p_recv_cq : Z;
  _active_connections : gset Z; _shared_recv_completions : gmap Z (Z * Z * Z);
  p_store : gmap Z Connection.t; p_next : Z; p_contexts : gmap Z Z }.

Definition set_listening (a : Address) (ec : Z) (id : option rdma_cm_id) (pd : Z) (p : passive) : passive :=
  mk_passive a ec id pd (p_recv_buf p) (p_max_inline p) (p_send_cq p) (p_recv_cq p)
    (_active_connections p) (_shared_recv_completions p) (p_store p) (p_next p) (p_contexts p).
Definition set_cqs (send recv : Z) (p : passive) : passive :=
  mk_passive (p_addr p) (p_ec p) (p_listen_id p) (p_pd p) (p_recv_buf p) (p_max_inline p) send recv
    (_active_connections p) (_shared_recv_completions p) (p_store p) (p_next p) (p_contexts p).
Definition set_active (s : gset Z) (p : passive) : passive :=
  mk_passive (p_addr p) (p_ec p) (p_listen_id p) (p_pd p) (p_recv_buf p) (p_max_inline p)
    (p_send_cq p) (p_recv_cq p) s (_shared_recv_completions p) (p_store p) (p_next p) (p_contexts p).
Definition set_shared (m : gmap Z (Z * Z * Z)) (p : passive) : passive :=
  mk_passive (p_addr p) (p_ec p) (p_listen_id p) (p_pd p) (p_recv_buf p) (p_max_inline p)
    (p_send_cq p) (p_recv_cq p) (_active_connections p) m (p_store p) (p_next p) (p_contexts p).
Definition set_store (m : gmap Z Connection.t) (p : passive) : passive :=
  mk_passive (p_addr p) (p_ec p) (p_listen_id p) (p_pd p) (p_recv_buf p) (p_max_inline p)
    (p_send_cq p) (p_recv_cq p) (_active_connections p) (_shared_recv_completions p) m (p_next p)
    (p_contexts p).
Definition set_contexts (n : Z) (m : gmap Z Z) (p : passive) : passive :=
  mk_passive (p_addr p) (p_ec p) (p_listen_id p) (p_pd p) (p_recv_buf p) (p_max_inline p)
    (p_send_cq p) (p_recv_cq p) (_active_connections p) (_shared_recv_completions p) (p_store p) n m.

(** [RDMAPassive(RDMAPassive&&)] and [operator=(RDMAPassive&&)]: the new value and
    what is left; the assignment does not copy the receive buffer size. *)
Definition passive_left (obj : passive) : passive :=
  mk_passive (addr_move (p_addr obj)).2 0 None 0 (p_recv_buf obj) (p_max_inline obj)
    (p_send_cq obj) (p_recv_cq obj) ∅ ∅ (p_store obj) (p_next obj) (p_contexts obj).

Definition passive_move (obj : passive) : passive * passive := (obj, passive_left obj).

Definition passive_assign (this obj : passive) : passive * passive :=
  (mk_passive (p_addr obj) (p_ec obj) (p_listen_id obj) (p_pd obj) (p_recv_buf this)
     (p_max_inline obj) (p_send_cq obj) (p_recv_cq obj) (_active_connections obj)
     (_shared_recv_completions obj) (p_store obj) (p_next obj) (p_contexts obj),
   passive_left obj).

Section Passive.
Context `{Env}.

Definition passive_allocate : M passive unit :=
  p ← read;
  ec ← ext Ccreate_event_channel env_create_event_channel;
  expect_nonzero ec ;;
  r ← ext (Ccreate_id ec) env_create_id;
  expect_zero r.1 ;;
  (if nonzero r.1 then raise (Undefined "null rdma_cm_id") else mret tt) ;;
  b ← ext (Cbind_addr r.2 (addrinfo (p_addr p))) env_bind_addr;
  expect_zero b ;;
  l ← ext (Clisten r.2 10000) env_listen;
  expect_zero l ;;
  port ← ext (Cget_src_port r.2) env_src_port;
  modify (set_listening (set_port port (p_addr p)) ec (Some r.2) (cm_pd r.2)).

(** [RDMAPassive(ip, port, recv_buf, initialize, max_inline_data)]; the result
    is the new object. *)
Definition passive_construct (ip : string) (port recv_buf : Z) (initialize : bool) (inline : Z) :
    M unit passive := λ s t,
  match addr_construct ip port true s t with
  | Fault f => Fault f
  | Ok (a, _, t1) =>
      let p := mk_passive a 0 None 0 recv_buf inline 0 0 ∅ ∅ ∅ 1 ∅ in
      if initialize then
        match passive_allocate p t1 with
        | Ok (_, p', t2) => Ok (p', s, t2)
        | Fault f => Fault f
        end
      else Ok (p, s, t1)
  end.

(** The destructor: the listener, the event channel, the shared queues (in the
    order of the map). *)
Definition passive_destroy : M passive unit :=
  p ← read;
  match p_listen_id p with
  | Some id => ext (Cdestroy_id id) (λ _, tt)
  | None => mret tt
  end ;;
  when (nonzero (p_ec p)) (ext (Cdestroy_event_channel (p_ec p)) (λ _, tt)) ;;
  for_each (map_to_list (_shared_recv_completions p)) (λ kv,
    ext (Cdestroy_cq kv.2.1.2) (λ _, tt) ;;
    ext (Cdestroy_comp_channel kv.2.1.1) (λ _, tt)) ;;
  addr_destroy (p_addr p).

Definition listen_port (p : passive) : Z := _port (p_addr p).

Definition set_nonblocking_poll : M passive unit :=
  ec ← gets p_ec; ext (Cset_nonblocking ec) (λ _, tt).

Definition nonblocking_poll_events (timeout : Z) : M passive bool :=
  ec ← gets p_ec;
  rc ← ext (Cpoll_fd ec timeout) (λ tr, env_poll_fd tr ec);
  mret (if rc <? 0 then false else 0 <? rc).

(** Run an operation of the connection a pointer refers to. *)
Definition on_conn {A} (ptr : Z) (m : M Connection.t A) : M passive A :=
  p ← read;
  c ← lift (from_opt "dangling connection" (p_store p !! ptr));
  zoom (λ _, c) (λ c p, set_store (<[ptr := c]> (p_store p)) p) m.

(** [delete conn] *)
Definition delete_conn (ptr : Z) : M passive unit :=
  on_conn ptr Connection.destroy ;;
  modify (λ p, set_store (delete ptr (p_store p)) p).

(** [PrivateData{conn->private_data()}.key()], converted to [uint8_t]. *)
Definition conn_key (c : Connection.t) : option Z :=
  u8 <$> PrivateData.key 8 8 16 (Connection.private_data c).

(** The completion queues for a key: those registered for it, else the generic
    ones of key 0, else null; with the key whose entry is used. *)
Definition select_queue (shared : gmap Z (Z * Z * Z)) (key : Z) : option Z * (Z * Z) :=
  match shared !! key with
  | Some (_, cq, send_cq) => (Some key, (send_cq, cq))
  | None =>
      match shared !! 0 with
      | Some (_, cq, send_cq) => (Some 0, (send_cq, cq))
      | None => (None, (0, 0))
      end
  end.

(** The branch of [poll_events] for a connection request. *)
Definition connect_request (event : rdma_cm_event) : M passive (option Z * Connection.ConnectionStatus) :=
  p ← read;
  let ptr := p_next p in
  let c := Connection.construct (p_recv_buf p) true in
  let c := if nonzero (ev_private_data_len event)
           then Connection.set_private_data (ev_private_data event) c else c in
  modify (set_contexts (ptr + 1) (<[cm_handle (ev_id event) := ptr]> (p_contexts p))) ;;
  key ← lift (from_opt "shift" (conn_key c));
  let '(it, (send_cq, recv_cq)) := select_queue (_shared_recv_completions p) key in
  modify (set_cqs send_cq recv_cq) ;;
  id ← create_qp (ev_id event) (p_pd p) send_cq recv_cq;
  let c := Connection.initialize id c in
  modify (λ p, set_store (<[ptr := c]> (p_store p)) p) ;;
  match it with
  | Some k =>
      modify (λ p, set_shared (alter (λ v : Z * Z * Z,
        if v.1.2 =? 0 then (v.1.1, qp_recv_cq (cm_qp id), v.2) else v) k
        (_shared_recv_completions p)) p)
  | None => mret tt
  end ;;
  modify (λ p, set_active ({[ptr]} ∪ _active_connections p) p) ;;
  mret (Some ptr, Connection.REQUESTED).

(** [poll_events()]: the connection ([None]: null) and its status. *)
Definition poll_events : M passive (option Z * Connection.ConnectionStatus) :=
  r ← ext Cget_cm_event env_get_cm_event;
  if nonzero r.1 then mret (None, Connection.UNKNOWN) else
  let event := r.2 in
  res ← match ev_event event with
        | RDMA_CM_EVENT_CONNECT_REQUEST => connect_request event
        | RDMA_CM_EVENT_ESTABLISHED =>
            p ← read; mret (p_contexts p !! cm_handle (ev_id event), Connection.ESTABLISHED)
        | RDMA_CM_EVENT_DISCONNECTED =>
            p ← read;
            let connection := p_contexts p !! cm_handle (ev_id event) in
            match connection with
            | Some ptr => modify (λ p, set_active (_active_connections p ∖ {[ptr]}) p)
            | None => mret tt
            end ;;
            mret (connection, Connection.DISCONNECTED)
        | RDMA_CM_EVENT_DEVICE_REMOVAL =>
            raise (Throw "Not implemented support for device removal")
        | _ => mret (None, Connection.UNKNOWN)
        end;
  ext Cack_cm_event (λ _, tt) ;;
  mret res.

Definition register_shared_queue (key : Z) (share_send_queue : bool) : M passive unit :=
  p ← read;
  channel ← ext Ccreate_comp_channel env_create_comp_channel;
  cq ← ext (Ccreate_cq (p_recv_buf p) channel) (λ tr, env_create_cq tr (p_recv_buf p) channel);
  send_cq ← (if share_send_queue then
               ext (Ccreate_cq (p_recv_buf p) channel) (λ tr, env_create_cq tr (p_recv_buf p) channel)
             else mret 0);
  modify (λ p, set_shared (<[u16 key := (channel, cq, send_cq)]> (_shared_recv_completions p)) p).

Definition shared_queue (key : Z) (p : passive) : option (Z * Z * Z) :=
  _shared_recv_completions p !! u16 key.

Definition the_id (ptr : Z) : M passive rdma_cm_id :=
  p ← read;
  c ← lift (from_opt "dangling connection" (p_store p !! ptr));
  lift (from_opt "null rdma_cm_id" (Connection._id c)).

Definition reject (ptr : Z) : M passive unit :=
  id ← the_id ptr; ext (Creject id) (λ _, tt).

Definition accept (ptr : Z) : M passive unit :=
  id ← the_id ptr; ext (Caccept id) (λ _, tt).
End Passive.

(** ** Poller

    [pl_channel] is the [channel] member of the completion queue. *)

Record Poller := mk_poller { pl_recv_cq : Z; pl_channel : Z }.

Definition poller_wc_size : Z := 64.

Section Poller.
Context `{Env} {S : Type}.

Definition poller_initialized (p : Poller) : bool := nonzero (pl_recv_cq p).

Definition poller_poll (p : Poller) (blocking : bool) (count : Z) : M S (option (list ibv_wc) * Z) :=
  if pl_recv_cq p =? 0 then mret (None, 0) else
  r ← Queue.poll_loop env_spin (pl_recv_cq p) (if count =? -1 then poller_wc_size else count) blocking;
  mret (Queue.poll_result r).

Definition poller_notify_events (p : Poller) (only_solicited : bool) : M S unit :=
  r ← ext (Creq_notify_cq (pl_recv_cq p) only_solicited) (λ tr, env_req_notify_cq tr (pl_recv_cq p));
  expect_zero r.

Definition poller_set_nonblocking (p : Poller) : M S unit :=
  r ← ext (Cset_nonblocking (pl_channel p)) (λ tr, env_set_nonblocking tr (pl_channel p));
  expect_nonnegative r.

Definition poller_wait_events (p : Poller) : M S Z :=
  r ← ext (Cget_cq_event (pl_channel p)) (λ tr, env_get_cq_event tr (pl_channel p));
  mret (if nonzero r.1 then 0 else r.2).

Definition poller_ack_events (cq len : Z) : M S unit := ext (Cack_cq_events cq len) (λ _, tt).

(** [EventPoller]: the state is the epoll descriptor. *)
Definition MAX_EVENTS : Z := 8.

Definition event_poller : M S Z :=
  fd ← ext Cepoll_create env_epoll_create; expect_nonnegative fd ;; mret fd.

Definition add_channel (epoll : Z) (p : Poller) (data : Z) : M S bool :=
  rc ← ext (Cset_nonblocking (pl_channel p)) (λ tr, env_set_nonblocking tr (pl_channel p));
  if rc <? 0 then mret false else
  r ← ext (Cepoll_add epoll (pl_channel p) data) (λ tr, env_epoll_add tr (pl_channel p));
  mret (negb (r =? -1)).

(** The data words of the ready channels. *)
Definition event_poll (epoll timeout_ms : Z) : M S (list Z * Z) :=
  r ← ext (Cepoll_wait epoll MAX_EVENTS timeout_ms) env_epoll_wait;
  expect_nonnegative r.1 ;;
  mret (r.2, r.1).
End Poller.

(** ** The endpoints of an active side

    The endpoints that were created and not yet destroyed. *)

Section Endpoints.
Context `{Env}.

Fixpoint endpoints (tr : trace) : gmultiset Z :=
  match tr with
  | [] => ∅
  | Ccreate_ep info :: tr' =>
      if (env_create_ep tr' info).1 =? 0
      then {[+ cm_handle (env_create_ep tr' info).2 +]} ⊎ endpoints tr' else endpoints tr'
  | Cdestroy_ep id :: tr' => endpoints tr' ∖ {[+ cm_handle id +]}
  | _ :: tr' => endpoints tr'
  end.

Definition holds (a : active) : gmultiset Z :=
  match _conn a with
  | Some c => match Connection._id c with Some id => {[+ cm_handle id +]} | None => ∅ end
  | None => ∅
  end.

Inductive active_step : active * trace → active * trace → Prop :=
  | act_allocate a tr a' tr' : allocate a tr = Ok (tt, a', tr') → active_step (a, tr) (a', tr')
  | act_connect a tr secret b a' tr' :
      connect secret a tr = Ok (b, a', tr') → active_step (a, tr) (a', tr')
  | act_disconnect a tr a' tr' : disconnect a tr = Ok (tt, a', tr') → active_step (a, tr) (a', tr').

(** The states of an object made by the constructor. *)
Definition active_reachable (st : active * trace) : Prop :=
  ∃ ip port n inline a tr,
    active_construct ip port n inline tt [] = Ok (a, tt, tr) ∧ rtc active_step (a, tr) st.

Definition active_inv (st : active * trace) : Prop :=
  endpoints st.2 = holds st.1 ∧
  ∀ c, _conn st.1 = Some c → Connection._passive c = false ∧ is_Some (Connection._id c).

Lemma create_qp_inv {S} id pd s r (x : S) tr id' x' tr' :
  create_qp id pd s r x tr = Ok (id', x', tr') →
  (env_create_qp tr id pd s r).1 = 0 ∧ x' = x ∧ tr' = Ccreate_qp id pd s r :: tr ∧
  id' = mk_cm_id (cm_handle id) (env_create_qp tr id pd s r).2 (cm_recv_cq_channel id) (cm_pd id).
Proof.
  unfold create_qp, expect_zero. intros E. step_inv E as q. step_inv E.
  unfold nonzero in E. destruct (Z.eqb_spec (env_create_qp tr id pd s r).1 0) as [Hz|]; cbn in E;
    run_inv_at E. done.
Qed.

Lemma reset_conn_inv a tr u a' tr' :
  reset_conn a tr = Ok (u, a', tr') → active_inv (a, tr) →
  a' = set_conn None a ∧ endpoints tr' = ∅ ∧ holds a' = ∅.
Proof.
  unfold reset_conn. intros E [Hl Hc]. step_inv E. cbn in Hl, Hc. unfold holds in Hl.
  destruct (_conn a) as [c|] eqn:Ec.
  - destruct (Hc c eq_refl) as [Hp [id Hid]]. rewrite Hid in Hl.
    run_inv_at E. unfold Connection.destroy in E.
    pose proof (Connection.close_run c tr) as Hr. rewrite Hid, Hp in Hr. cbn in Hr.
    rewrite Hr in E. injection E as <- <- <-. split; [done|]. split; [|done].
    cbn [endpoints]. rewrite Hl. multiset_solver.
  - run_inv_at E. split_and!; [|done|by unfold holds; rewrite Ec].
    destruct a; cbn in *; by subst.
Qed.

Lemma allocate_inv a tr u a' tr' :
  allocate a tr = Ok (u, a', tr') → active_inv (a, tr) →
  active_inv (a', tr') ∧ is_Some (_conn a') ∧ conn_param a' = conn_param a ∧
  _is_connected a' = _is_connected a.
Proof.
  unfold allocate. intros E [Hl Hc]. step_inv E. cbn in Hl, Hc.
  destruct (_conn a) as [c|] eqn:Ec; [|].
  { run_inv_at E. split_and!; [split; cbn; [done|by rewrite Ec]|by rewrite Ec|done|done]. }
  step_inv E as r. unfold expect_zero in E. step_inv E.
  unfold nonzero in E.
  destruct (Z.eqb_spec (env_create_ep tr (addrinfo (_addr a))).1 0) as [Hz|]; cbn [negb] in E;
    [|run_inv_at E].
  bind_inv E as id ? ? Eq. apply create_qp_inv in Eq as (_ & -> & -> & Eid).
  step_inv E. run_inv_at E. split_and!; try done. split.
  - cbn [endpoints snd fst]. rewrite Hz, Z.eqb_refl, Hl. unfold holds at 1. rewrite Ec.
    rewrite (right_id_L ∅ (⊎)). by rewrite Eid.
  - intros c' [= <-]. by split.
Qed.

Lemma active_inv_same a a' tr tr' :
  active_inv (a, tr) → _conn a' = _conn a → endpoints tr' = endpoints tr → active_inv (a', tr').
Proof.
  intros [Hl Hc] Ec Et. split; cbn in *; [|by rewrite Ec]. rewrite Et, Hl. unfold holds. by rewrite Ec.
Qed.

Lemma connect_inv secret a tr b a' tr' :
  connect secret a tr = Ok (b, a', tr') → active_inv (a, tr) →
  active_inv (a', tr') ∧ (b = true ↔ is_Some (_conn a')) ∧ (b = true → _is_connected a' = true).
Proof.
  unfold connect. intros E Hi. bind_inv E as ? a1 ? E1. apply allocate_inv in E1 as (Hi1 & Hs1 & _); [|done].
  bind_inv E as ? a2 t2 E2.
  assert (active_inv (a2, t2) ∧ _conn a2 = _conn a1) as [Hi2 Hs2].
  { unfold when in E2. destruct (nonzero secret); run_inv_at E2; [|done].
    split; [by eapply active_inv_same; [exact Hi1|..]|done]. }
  bind_inv E as id ? ? E3. unfold conn_id in E3. step_inv E3. step_inv E3. run_inv_at E3.
  step_inv E. step_inv E. step_inv E as r. bind_inv E as ? a3 t3 E4.
  assert (active_inv (a3, t3) ∧ _conn a3 = _conn a1) as [Hi3 Hs3].
  { unfold when in E4. destruct (nonzero secret); run_inv_at E4;
      (split; [by eapply active_inv_same; [exact Hi2|..]|done]). }
  destruct (nonzero (env_connect _ _)).
  - bind_inv E as ? a4 t4 E5. apply reset_conn_inv in E5 as (-> & He & Hh); [|done].
    step_inv E. run_inv_at E. split_and!; [split; [done|by intros ?]|split; [done|by intros []]|done].
  - step_inv E. run_inv_at E. split_and!; [by eapply active_inv_same; [exact Hi3|..]|cbn; rewrite Hs3; split; done|done].
Qed.

Lemma active_step_inv st st' : active_step st st' → active_inv st → active_inv st'.
Proof.
  destruct 1 as [a tr a' tr' E|a tr secret b a' tr' E|a tr a' tr' E]; intros Hi.
  - by apply allocate_inv in E as (? & _).
  - by apply connect_inv in E as (? & _).
  - unfold disconnect in E. bind_inv E as id ? ? E1. unfold conn_id in E1.
    step_inv E1. step_inv E1. run_inv_at E1. step_inv E as r. unfold expect_zero in E. step_inv E.
    bind_inv E as ? a4 t4 E5. apply reset_conn_inv in E5 as (-> & He & Hh); [|by eapply active_inv_same; [exact Hi|..]].
    step_inv E. run_inv_at E. by split.
Qed.

Lemma active_reachable_inv st : active_reachable st → active_inv st.
Proof.
  intros (ip & port & n & inline & a & tr & E & Hr).
  refine (rtc_ind_r active_inv (a, tr) _ _ st Hr).
  - unfold active_construct, addr_construct, expect_false, expect_zero in E.
    run_inv. split; [|done]. done.
  - intros x y _ Hs Hx. by eapply active_step_inv.
Qed.
End Endpoints.

(** ** Effects of the operations on connections *)

Section Effects.
Context `{Env}.

Lemma silent_poll_loop {S} fuel cq num b :
  emits not_send (Queue.poll_loop fuel cq num b : M S (Z * list ibv_wc)).
Proof.
  induction fuel as [|fuel IH]; cbn [Queue.poll_loop]; auto with rfaas.
  apply emits_bind; [auto with rfaas|]. intros r. destruct (_ && _); auto with rfaas.
Qed.

#[local] Hint Resolve silent_poll_loop : rfaas.

Lemma silent_poll_wc ty b n : emits not_send (Connection.poll_wc ty b n).
Proof. unfold Connection.poll_wc, Connection.the_qp. auto 10 with rfaas. Qed.

Lemma silent_post_chain : emits not_send Queue.post_chain.
Proof. unfold Queue.post_chain, Queue.the_qp. auto 10 with rfaas. Qed.

#[local] Hint Resolve silent_post_chain : rfaas.

Lemma silent_post_loops n : emits not_send (Queue.post_loops n).
Proof.
  induction n as [|n IH]; cbn [Queue.post_loops]; auto with rfaas.
  apply emits_bind; [auto with rfaas|]. intros r. destruct (nonzero r); auto with rfaas.
Qed.

#[local] Hint Resolve silent_post_loops : rfaas.

Lemma silent_refill : emits not_send Queue.refill.
Proof.
  unfold Queue.refill. apply emits_bind; [auto with rfaas|]. intros q.
  destruct (_ <? _); [|auto with rfaas]. apply emits_bind; [|auto 10 with rfaas].
  unfold Queue.post_batched_empty_recv. apply emits_bind; [auto with rfaas|]. intros ret.
  apply emits_bind; [|auto with rfaas]. destruct (_ && _); auto 10 with rfaas.
Qed.

Lemma frames_poll_loop {S X} (f : S → X) fuel cq num b :
  frames f (Queue.poll_loop fuel cq num b : M S (Z * list ibv_wc)).
Proof.
  induction fuel as [|fuel IH]; cbn [Queue.poll_loop]; auto with rfaas.
  apply frames_bind; [auto with rfaas|]. intros r. destruct (_ && _); auto with rfaas.
Qed.

Lemma post_send_inv elems id inl imm c t r c' t' qp :
  Connection.post_send elems id inl imm c t = Ok (r, c', t') → Connection._qp c = Some qp →
  Connection._qp c' = Some qp ∧
  sends t' = sends t ++ [(qp, elems, match imm with Some v => u32 v | None => 0 end)] ∧
  ∃ wr, t' = Cpost_send qp wr :: t.
Proof.
  unfold Connection.post_send, Connection.submit, Connection.the_qp. intros E Hq.
  bind_inv E as rid c1 t1 E1.
  assert (Connection._qp c1 = Connection._qp c ∧ t1 = t) as [Hq1 ->].
  { unfold Connection.request_id, Connection.next_req in E1. destruct (id =? -1); run_inv; done. }
  run_inv. match goal with F : from_opt _ _ = Ok _ |- _ => rewrite Hq1, Hq in F; injection F as <- end.
  split; [congruence|]. split; [|by eexists]. unfold sends. cbn.
  destruct imm; [by rewrite ntohl_htonl|done].
Qed.

(** The queue pair and the identifier of each connection. *)
Definition qps (p : passive) : gmap Z (option ibv_qp) := Connection._qp <$> p_store p.
Definition ids (p : passive) : gmap Z (option rdma_cm_id) := Connection._id <$> p_store p.

Lemma on_conn_inv {A} ptr (op : M Connection.t A) p t a p' t' :
  on_conn ptr op p t = Ok (a, p', t') →
  ∃ c c', p_store p !! ptr = Some c ∧ op c t = Ok (a, c', t') ∧
    p' = set_store (<[ptr := c']> (p_store p)) p.
Proof.
  unfold on_conn. intros E. step_inv E. bind_inv E as c ? ? E1. run_inv_at E1.
  apply from_opt_Ok in E1. run_inv_at E. by eauto.
Qed.

Lemma emits_on_conn {A} P ptr (op : M Connection.t A) : emits P op → emits P (on_conn ptr op).
Proof. intros Ho. unfold on_conn. auto 10 with rfaas. Qed.

Lemma silent_poll b : emits not_send (Queue.poll b).
Proof. unfold Queue.poll, Queue._poll, Queue.the_qp. auto 10 with rfaas. Qed.

(** What does not wait ends: a poll that does not block asks once. *)
Lemma halts_on_conn {A} ptr (op : M Connection.t A) : halts op → halts (on_conn ptr op).
Proof. intros Ho. unfold on_conn. auto 10 with rfaas. Qed.

Lemma halts_poll_loop {S} cq num : (0 < env_spin)%nat → halts (Queue.poll_loop env_spin cq num false : M S _).
Proof. intros Hs. destruct env_spin; [lia|]. cbn [Queue.poll_loop andb]. auto with rfaas. Qed.

Lemma halts_poll_wc ty n : (0 < env_spin)%nat → halts (Connection.poll_wc ty false n).
Proof.
  intros Hs. unfold Connection.poll_wc, Connection.the_qp. apply halts_bind; [auto with rfaas|]. intros qp.
  apply halts_bind; [by apply halts_poll_loop|]. auto with rfaas.
Qed.

Lemma halts_poll : (0 < env_spin)%nat → halts (Queue.poll false).
Proof.
  intros Hs. unfold Queue.poll, Queue._poll, Queue.the_qp. apply halts_bind; [|auto with rfaas].
  apply halts_bind; [auto with rfaas|]. intros qp. apply halts_bind; [by apply halts_poll_loop|]. auto with rfaas.
Qed.

Lemma halts_post_chain : halts Queue.post_chain.
Proof. unfold Queue.post_chain, Queue.the_qp. auto 10 with rfaas. Qed.

Lemma halts_refill : halts Queue.refill.
Proof.
  assert (∀ n, halts (Queue.post_loops n)) as Hl.
  { induction n as [|n IH]; cbn [Queue.post_loops]; auto using halts_post_chain with rfaas. }
  unfold Queue.refill, Queue.post_batched_empty_recv. auto 20 using halts_post_chain with rfaas.
Qed.

Lemma halts_post_write_imm sges r imm inl sol : halts (Connection.post_write_imm sges r imm inl sol).
Proof.
  unfold Connection.post_write_imm, Connection._post_write, Connection.submit, Connection.the_qp,
    Connection.next_req. auto 20 with rfaas.
Qed.

Lemma frames_store {A X} (f : Connection.t → X) ptr (op : M Connection.t A) :
  frames f op → frames (λ p, f <$> p_store p) (on_conn ptr op).
Proof.
  intros Ho p t a p' t' (c & c' & Hc & E & ->)%on_conn_inv. apply Ho in E. cbn.
  by rewrite fmap_insert, E, <-fmap_insert, insert_id.
Qed.
End Effects.

(** ** Theorems *)

(** C36. An active endpoint is created and destroyed once. Whatever sequence of
    [allocate], [connect] (successful or refused) and [disconnect] an object goes
    through, the endpoints that exist are exactly the one its connection holds,
    if it has one; when the object is destroyed none is left. *)
Theorem active_endpoints_balanced `{Env} a tr :
  active_reachable (a, tr) →
  endpoints tr = holds a ∧ (is_Some (_conn a) ↔ holds a ≠ ∅) ∧
  ∀ u a' tr', active_destroy a tr = Ok (u, a', tr') → endpoints tr' = ∅.
Proof.
  intros Hi%active_reachable_inv. pose proof Hi as [Hl Hc]. cbn in Hl, Hc. split_and!; [done| |].
  - unfold holds. destruct (_conn a) as [c|]; [|by split; [intros []|]].
    destruct (Hc c eq_refl) as [_ [id ->]]. split; [|by eexists]. intros _. multiset_solver.
  - intros u a' tr' E. unfold active_destroy in E. bind_inv E as ? a1 t1 E1.
    apply reset_conn_inv in E1 as (-> & He & _); [|done]. step_inv E.
    unfold addr_destroy, when in E. destruct (nonzero _); run_inv_at E; done.
Qed.

Lemma active_endpoints_balanced_witness :
  ∃ a tr, @active_reachable ideal_env (a, tr) ∧ @endpoints ideal_env tr = {[+ 5 +]} ∧
    ∀ u a' tr', @active_destroy ideal_env a tr = Ok (u, a', tr') → @endpoints ideal_env tr' = ∅.
Proof.
  assert (∃ a tr, @active_reachable ideal_env (a, tr) ∧ holds a = {[+ 5 +]}) as (a & tr & Hr & Hh).
  { eexists _, _. split.
    - exists "10.0.0.1"%string, 10000, 32, 0. eexists _, _. split; [reflexivity|].
      eapply rtc_once, (act_connect _ _ 77). reflexivity.
    - reflexivity. }
  exists a, tr.
  destruct (@active_endpoints_balanced ideal_env a tr Hr) as (He & _ & Hd).
  split_and!; [exact Hr|rewrite He; exact Hh|exact Hd].
Defined.

(** A refused reconnection is reported as connected. [connect] on an object
    that has a connection returns false when [rdma_connect] fails, after
    destroying the connection, but leaves the flag of [is_connected] as it was; an
    object that was connected still claims to be, and disconnecting it
    dereferences a null pointer. *)
Theorem refused_reconnect_keeps_flag `{Env} a c id secret tr :
  _conn a = Some c → Connection._id c = Some id → Connection._passive c = false →
  nonzero secret = true → env_connect tr id ≠ 0 →
  ∃ a' tr', connect secret a tr = Ok (false, a', tr') ∧
    _conn a' = None ∧ _is_connected a' = _is_connected a ∧
    disconnect a' tr' = Fault (Undefined "null connection").
Proof.
  intros Ec Hid Hp Hs Hr. unfold connect, allocate, conn_id. run. rewrite Ec, Hs. run.
  cbn [_conn set_param]. rewrite Ec, Hid. cbn [conn_param set_param param_value].
  unfold nonzero. destruct (Z.eqb_spec (env_connect tr id) 0); [done|]. cbn [negb].
  unfold reset_conn. run. cbn [_conn set_param]. rewrite Ec.
  pose proof (Connection.close_run c (Cconnect id (Some (u32 secret)) :: tr)) as Hcl.
  rewrite Hid, Hp in Hcl. cbn in Hcl. unfold Connection.destroy. rewrite Hcl.
  by eexists _, _.
Qed.

Lemma refused_reconnect_keeps_flag_witness :
  ∃ (env : Env) a tr a' tr', _is_connected a = true ∧
    connect 77 a tr = Ok (false, a', tr') ∧ _is_connected a' = true ∧
    disconnect a' tr' = Fault (Undefined "null connection").
Proof.
  set (env := with_connect (λ _ _, -1) ideal_env).
  set (a := mk_active (Some (Connection.initialize some_id (Connection.construct 32 false)))
              (mk_addr 1 10000) 3 32 0 NoData true).
  destruct (@refused_reconnect_keeps_flag env a (Connection.initialize some_id (Connection.construct 32 false))
    some_id 77 [] eq_refl eq_refl eq_refl eq_refl ltac:(discriminate)) as (a' & tr' & E1 & _ & E2 & E3).
  exists env, a, [], a', tr'. split; [reflexivity|]. split; [exact E1|]. split; [rewrite E2; reflexivity|exact E3].
Defined.

(** The connection a request is given. *)
Definition requested (p : passive) (event : rdma_cm_event) (qp : ibv_qp) : Connection.t :=
  let c := Connection.construct (p_recv_buf p) true in
  Connection.initialize
    (mk_cm_id (cm_handle (ev_id event)) qp (cm_recv_cq_channel (ev_id event)) (cm_pd (ev_id event)))
    (if nonzero (ev_private_data_len event)
     then Connection.set_private_data (ev_private_data event) c else c).

(** What a connection request becomes. [poll_events] makes a new passive
    connection that carries the private data of the request (zero without any),
    stores the pointer with the identifier, creates the queue pair on the queue
    registered for the key of the private data, else on the generic queue of key
    0, else on queues of its own, adds the connection to the active ones and
    acknowledges the event.  Receives of connections with the same key complete
    on the one queue registered for that key. *)
Theorem connect_request_served `{Env} p tr event key :
  env_get_cm_event tr = (0, event) → ev_event event = RDMA_CM_EVENT_CONNECT_REQUEST →
  let data := if nonzero (ev_private_data_len event) then u32 (ev_private_data event) else 0 in
  PrivateData.key 8 8 16 data = Some key →
  let '(_, (s, r)) := select_queue (_shared_recv_completions p) (u8 key) in
  let '(ret, qp) := env_create_qp (Cget_cm_event :: tr) (ev_id event) (p_pd p) s r in
  ret = 0 → (∀ k e, _shared_recv_completions p !! k = Some e → e.1.2 ≠ 0) →
  ∃ p', poll_events p tr =
      Ok ((Some (p_next p), Connection.REQUESTED), p',
          Cack_cm_event :: Ccreate_qp (ev_id event) (p_pd p) s r :: Cget_cm_event :: tr) ∧
    p_store p' = <[p_next p := requested p event qp]> (p_store p) ∧
    Connection.private_data (requested p event qp) = data ∧
    p_contexts p' !! cm_handle (ev_id event) = Some (p_next p) ∧ p_next p' = p_next p + 1 ∧
    _active_connections p' = {[p_next p]} ∪ _active_connections p ∧
    _shared_recv_completions p' = _shared_recv_completions p.
Proof.
  intros Ee Et data Hk. destruct (select_queue _ _) as [it [s r]] eqn:Es.
  destruct (env_create_qp _ _ _ _ _) as [ret qp] eqn:Eq. intros -> Hcq.
  set (c := if nonzero (ev_private_data_len event)
            then Connection.set_private_data (ev_private_data event) (Connection.construct (p_recv_buf p) true)
            else Connection.construct (p_recv_buf p) true).
  assert (Connection.private_data c = data) as Hd.
  { unfold c, data. destruct (nonzero _); [|done]. cbn. by apply wrap_swrap. }
  unfold poll_events, connect_request. run. rewrite Ee. cbn [fst snd]. rewrite Et.
  change (nonzero 0) with false. run.
  unfold conn_key. fold c. rewrite Hd, Hk. cbn [fmap option_fmap option_map]. rewrite Es.
  unfold create_qp, expect_zero, assert_. run. rewrite Eq. cbn [fst snd Z.eqb orb negb nonzero].
  assert (∀ k v, it = Some k → _shared_recv_completions p !! k = Some v → v.1.2 =? 0 = false) as Hne.
  { intros k v _ Hv. apply Z.eqb_neq. by eapply Hcq. }
  destruct it as [k|]; eexists; (split; [reflexivity|]); cbn [p_store p_contexts p_next
    _active_connections _shared_recv_completions set_store set_active set_shared set_contexts set_cqs];
    rewrite ?lookup_insert_eq; split_and!; try done.
  apply map_eq. intros j. destruct (decide (k = j)) as [<-|]; [|by rewrite lookup_alter_ne].
  rewrite lookup_alter_eq. destruct (_shared_recv_completions p !! k) as [v|] eqn:Ev; [|done].
  cbn. by rewrite (Hne k v eq_refl Ev).
Qed.

(** A listener with one queue registered for key 1, and a request with key 1. *)
Definition listener : passive :=
  mk_passive (mk_addr 1 8080) 2 (Some some_id) 3 32 0 0 0 ∅ {[ 1 := (20, 21, 0) ]} ∅ 1 ∅.

Definition event_env (e : rdma_cm_event) : Env :=
  scripted_env 8 (λ _ _ _, (0, [])) (λ _, (0, e)) (λ _, 0) (λ _, 0).

Definition request_key_1 : rdma_cm_event :=
  mk_cm_event RDMA_CM_EVENT_CONNECT_REQUEST some_id 4 (2 ^ 24 + 77).

Lemma connect_request_served_witness :
  ∃ p' tr', @poll_events (event_env request_key_1) listener [] =
      Ok ((Some 1, Connection.REQUESTED), p', tr') ∧
    (∃ c, p_store p' !! 1 = Some c ∧ qp_recv_cq <$> Connection._qp c = Some 21) ∧
    p_contexts p' !! 5 = Some 1.
Proof.
  pose proof (@connect_request_served (event_env request_key_1) listener [] request_key_1 1
    eq_refl eq_refl eq_refl eq_refl) as Hs.
  destruct Hs as (p' & E & Hst & _ & Hc & _).
  { cbn. intros k e He. apply lookup_singleton_Some in He as [_ <-]. discriminate. }
  eexists p', _. split; [exact E|]. split; [|exact Hc].
  eexists. split; [rewrite Hst; apply lookup_insert_eq|]. reflexivity.
Defined.

(** Events name the connection they belong to. [ESTABLISHED] and
    [DISCONNECTED] events return the connection stored with their identifier;
    only a disconnection changes the object, by taking the connection off the
    active ones, and it neither closes nor frees it.  Unexpected events return no
    connection and change nothing.  All of these are acknowledged; a device
    removal ends in an exception before it is. *)
Theorem connection_events_identify `{Env} p tr event :
  env_get_cm_event tr = (0, event) →
  let ptr := p_contexts p !! cm_handle (ev_id event) in
  let acked := Cack_cm_event :: Cget_cm_event :: tr in
  match ev_event event with
  | RDMA_CM_EVENT_CONNECT_REQUEST => True
  | RDMA_CM_EVENT_ESTABLISHED => poll_events p tr = Ok ((ptr, Connection.ESTABLISHED), p, acked)
  | RDMA_CM_EVENT_DISCONNECTED =>
      ∃ p', poll_events p tr = Ok ((ptr, Connection.DISCONNECTED), p', acked) ∧
        p_store p' = p_store p ∧ p_contexts p' = p_contexts p ∧
        (∀ q, q ∈ _active_connections p' ↔ q ∈ _active_connections p ∧ ptr ≠ Some q)
  | RDMA_CM_EVENT_DEVICE_REMOVAL =>
      poll_events p tr = Fault (Throw "Not implemented support for device removal")
  | _ => poll_events p tr = Ok ((None, Connection.UNKNOWN), p, acked)
  end.
Proof.
  intros Ee. cbn zeta. unfold poll_events. run. rewrite Ee. cbn [fst snd].
  change (nonzero 0) with false. cbv beta iota.
  destruct (ev_event event) eqn:Et; run; try done.
  destruct (p_contexts p !! cm_handle (ev_id event)) as [q|] eqn:Eq; eexists; (split; [reflexivity|]);
    (split; [done|]); (split; [done|]); intros q'; cbn; set_solver.
Qed.

Lemma connection_events_identify_witness :
  let p := set_active {[1; 2]} (set_contexts 3 {[ 5 := 1 ]} listener) in
  ∃ p', @poll_events (event_env (mk_cm_event RDMA_CM_EVENT_DISCONNECTED some_id 0 0)) p [] =
      Ok ((Some 1, Connection.DISCONNECTED), p', [Cack_cm_event; Cget_cm_event]) ∧
    1 ∉ _active_connections p'.
Proof.
  intros p.
  destruct (@connection_events_identify
    (event_env (mk_cm_event RDMA_CM_EVENT_DISCONNECTED some_id 0 0)) p [] _ eq_refl)
    as (p' & E & _ & _ & Ha).
  exists p'. split; [exact E|]. intros [_ Hn]%Ha. apply Hn. reflexivity.
Defined.

End Rdma.
