(* ===== verification/ResourceManager.v ===== *)
(** * The resource manager

    [Client] (src/server/resource_manager/client.{hpp,cpp}), [Manager]
    (manager.{hpp,cpp}) and the HTTP handler (http.{hpp,cpp}).  The manager has a
    listener thread, one thread per kind of peer and an HTTP thread; each handler
    and each iteration of a thread's loop is one operation on the state below.
    The two queues between the threads are first-in first-out lists.

    What peers write into the receive buffers is not under the program's control:
    [requests] and [messages] give the contents of a slot, by the queue pair and
    the index the completion names. *)

From S2P Require Import Prelude Verbs PrivateData Buffer Queue Connection Messages ResourceDB Rdma.

Module ResourceManager.

(** ** Client *)

Definition CLIENT_RECV_BUF_SIZE : Z := 32.

(** [response_data] is the contents of [_response\[0\]]. *)
Record Client := mk_Client {
  connection : option Z; _response : Buffer.t; response_data : LeaseResponse;
  allocation_requests : Buffer.t; allocation_time : Z; client_id : Z; _cur_allocation_start : Z }.

Definition set_response_data (r : LeaseResponse) (c : Client) : Client :=
  mk_Client (connection c) (_response c) r (allocation_requests c) (allocation_time c) (client_id c)
    (_cur_allocation_start c).

(** [Client::_move]: the object moved to and what is left of [obj]. *)
Definition client_move (this obj : Client) : Client * Client :=
  let '(r, r') := Buffer.move_assign (_response this) (_response obj) in
  let '(q, q') := Buffer.move_assign (allocation_requests this) (allocation_requests obj) in
  (mk_Client (connection obj) r (response_data obj) q (allocation_time obj) (client_id obj)
     (_cur_allocation_start obj),
   mk_Client None r' (response_data obj) q' 0 0 (_cur_allocation_start obj)).

(** The members before the move constructor's body runs. *)
Definition client_blank : Client :=
  mk_Client None Buffer.default (mk_LeaseResponse 0 0 []) Buffer.default 0 0 0.

(** ** Manager *)

Inductive exec_op : Type := ExecConnect (exec : nat) | ExecDisconnect (conn : Z).
Inductive client_op : Type := ClientConnect (client : Client) | ClientDisconnect (conn : Z).

(** [m_send_data] is the contents of [_send_buffer\[0\]] of each executor. *)
Record manager := mk_manager {
  m_state : Rdma.passive; m_db : ResourceDB.ExecutorDB; m_send_data : gmap nat LeaseAllocation;
  _clients : gmap Z Client; _client_id : Z;
  _executor_queue : list exec_op; _client_queue : list client_op;
  _secret : Z; m_max_inline_data : Z }.

Definition set_state (x : Rdma.passive) (m : manager) : manager :=
  mk_manager x (m_db m) (m_send_data m) (_clients m) (_client_id m) (_executor_queue m)
    (_client_queue m) (_secret m) (m_max_inline_data m).
Definition set_db (x : ResourceDB.ExecutorDB) (m : manager) : manager :=
  mk_manager (m_state m) x (m_send_data m) (_clients m) (_client_id m) (_executor_queue m)
    (_client_queue m) (_secret m) (m_max_inline_data m).
Definition set_send_data (x : gmap nat LeaseAllocation) (m : manager) : manager :=
  mk_manager (m_state m) (m_db m) x (_clients m) (_client_id m) (_executor_queue m)
    (_client_queue m) (_secret m) (m_max_inline_data m).
Definition set_clients (x : gmap Z Client) (m : manager) : manager :=
  mk_manager (m_state m) (m_db m) (m_send_data m) x (_client_id m) (_executor_queue m)
    (_client_queue m) (_secret m) (m_max_inline_data m).
Definition set_client_id (x : Z) (m : manager) : manager :=
  mk_manager (m_state m) (m_db m) (m_send_data m) (_clients m) x (_executor_queue m)
    (_client_queue m) (_secret m) (m_max_inline_data m).
Definition set_executor_queue (x : list exec_op) (m : manager) : manager :=
  mk_manager (m_state m) (m_db m) (m_send_data m) (_clients m) (_client_id m) x
    (_client_queue m) (_secret m) (m_max_inline_data m).
Definition set_client_queue (x : list client_op) (m : manager) : manager :=
  mk_manager (m_state m) (m_db m) (m_send_data m) (_clients m) (_client_id m) (_executor_queue m)
    x (_secret m) (m_max_inline_data m).

Definition on_state {A} (op : M Rdma.passive A) : M manager A := zoom m_state set_state op.
Definition on_db {A} (op : M ResourceDB.ExecutorDB A) : M manager A := zoom m_db set_db op.
Definition on_executors {A} (op : M ResourceDB.Executors A) : M manager A :=
  on_db (ResourceDB.on_executors op).

Definition enqueue_executor (op : exec_op) : M manager unit :=
  modify (λ m, set_executor_queue (_executor_queue m ++ [op]) m).
Definition enqueue_client (op : client_op) : M manager unit :=
  modify (λ m, set_client_queue (_client_queue m ++ [op]) m).

Section Manager.
Context `{Env} (erased : nat → option nat)
  (requests : trace → Z → Z → LeaseRequest) (messages : trace → Z → Z → exec_message).

Definition pd : M manager Z := gets (λ m, Rdma.p_pd (m_state m)).

(** [conn->...] on a connection of the manager. *)
Definition on_conn {A} (conn : Z) (op : M Connection.t A) : M manager A :=
  on_state (Rdma.on_conn conn op).

Definition conn_qp_num (conn : Z) : M manager Z :=
  qp ← on_conn conn Connection.the_qp; mret (qp_num qp).

(** [Client(client_id, conn, pd)] *)
Definition client_construct (id conn : Z) : M manager Client :=
  p ← pd;
  r ← Buffer.allocate 1 sizeof_LeaseResponse 0;
  q ← Buffer.allocate CLIENT_RECV_BUF_SIZE sizeof_LeaseRequest 0;
  q ← Buffer.on_buffer q (Buffer.register_memory p (Z.lor IBV_ACCESS_LOCAL_WRITE IBV_ACCESS_REMOTE_WRITE));
  r ← Buffer.on_buffer r (Buffer.register_memory p IBV_ACCESS_LOCAL_WRITE);
  on_conn conn (Connection.receive_wcs (Queue.initialize q (-1))) ;;
  mret (mk_Client (Some conn) r (mk_LeaseResponse 0 0 []) q 0 id 0).

(** The destructor: the body, then the two buffers. *)
Definition client_destroy (c : Client) : M manager unit :=
  match connection c with
  | Some conn => on_conn conn Connection.close ;; on_state (Rdma.delete_conn conn)
  | None => mret tt
  end ;;
  Buffer.destroy (allocation_requests c) ;;
  Buffer.destroy (_response c).

Definition begin_allocation (c : Client) : M manager Client :=
  now ← ext Cclock env_clock;
  mret (mk_Client (connection c) (_response c) (response_data c) (allocation_requests c)
          (allocation_time c) (client_id c) now).

Definition end_allocation (c : Client) : M manager Client :=
  now ← ext Cclock env_clock;
  mret (mk_Client (connection c) (_response c) (response_data c) (allocation_requests c)
          (u32 (allocation_time c + Z.quot (now - _cur_allocation_start c) 1000)) (client_id c)
          (_cur_allocation_start c)).

(** [client.disable()]: the client that is left has no connection. *)
Definition disable (c : Client) : M manager Client :=
  conn ← lift (from_opt "null connection" (connection c));
  id ← on_state (Rdma.the_id conn);
  ext (Cdisconnect id) (λ _, tt) ;;
  on_conn conn Connection.close ;;
  on_state (Rdma.delete_conn conn) ;;
  mret (mk_Client None (_response c) (response_data c) (allocation_requests c) (allocation_time c)
          (client_id c) (_cur_allocation_start c)).

Definition reload_queue (c : Client) : M manager unit :=
  conn ← lift (from_opt "null connection" (connection c));
  on_conn conn (Connection.receive_wcs Queue.refill) ;; mret tt.

(** [Executor::initialize_connection(pd, conn)] *)
Definition initialize_connection (exec : nat) (conn : Z) : M manager unit :=
  p ← pd;
  on_executors (ResourceDB.update exec (ResourceDB.set_connection (Some conn))) ;;
  e ← on_executors (ResourceDB.deref exec);
  rb ← Buffer.on_buffer (ResourceDB._receive_buffer e)
         (Buffer.register_memory p (Z.lor IBV_ACCESS_LOCAL_WRITE IBV_ACCESS_REMOTE_WRITE));
  on_executors (ResourceDB.update exec (ResourceDB.set_receive_buffer rb)) ;;
  sb ← Buffer.on_buffer (ResourceDB._send_buffer e) (Buffer.register_memory p IBV_ACCESS_LOCAL_WRITE);
  on_executors (ResourceDB.update exec (ResourceDB.set_send_buffer sb)) ;;
  on_conn conn (Connection.receive_wcs (Queue.initialize rb ResourceDB.MSG_SIZE)).

(** *** The listener thread *)

(** The private data of a connection: its key and its secret. *)
Definition conn_private (conn : Z) : M manager (Z * Z) :=
  m ← read;
  c ← lift (from_opt "dangling connection" (Rdma.p_store (m_state m) !! conn));
  lift (from_opt "shift"
    (k ← PrivateData.key 8 8 16 (Connection.private_data c);
     s ← PrivateData.secret 16 (Connection.private_data c);
     Some (k, s))).

(** The three branches of the loop body. *)
Definition handle_event (conn : Z) (status : Connection.ConnectionStatus) : M manager unit :=
  ks ← conn_private conn;
  let '(key, secret) := ks in
  match status with
  | Connection.DISCONNECTED =>
      if key =? 1 then enqueue_executor (ExecDisconnect conn)
      else enqueue_client (ClientDisconnect conn)
  | Connection.REQUESTED =>
      expected ← gets _secret;
      if (key =? 1) && negb (secret =? expected) then
        on_state (Rdma.reject conn)
      else if key =? 1 then
        exec ← on_executors (ResourceDB.make_shared id);
        initialize_connection exec conn ;;
        enqueue_executor (ExecConnect exec) ;;
        on_state (Rdma.accept conn)
      else
        cid ← gets _client_id;
        modify (set_client_id (i32 (cid + 1))) ;;
        c ← client_construct cid conn;
        enqueue_client (ClientConnect (client_move client_blank c).1) ;;
        on_state (Rdma.accept conn)
  | Connection.ESTABLISHED =>
      if key =? 1 then mret tt
      else if key =? 2 then mret tt
      else on_conn conn Connection.close
  | Connection.UNKNOWN => mret tt
  end.

Definition POLLING_TIMEOUT_MS : Z := 100.

(** One iteration of [listen_rdma]. *)
Definition listen_rdma : M manager unit :=
  ready ← on_state (Rdma.nonblocking_poll_events POLLING_TIMEOUT_MS);
  if negb ready then mret tt else
  r ← on_state Rdma.poll_events;
  match r with
  | (None, _) => mret tt
  | (Some conn, status) => handle_event conn status
  end.

(** *** The executors' thread *)

Definition _handle_message (wc : ibv_wc) : M manager unit :=
  if nonzero (wc_status wc) then mret tt else
  let id := wc_wr_id wc in
  let qp := wc_qp_num wc in
  exec ← on_executors (ResourceDB.get_executor qp);
  match exec with
  | None => mret tt
  | Some l =>
      e ← on_executors (ResourceDB.deref l);
      (if bool_decide (0 ≤ id < ResourceDB.RECV_BUF_SIZE) then mret tt
       else raise (Undefined "receive slot out of bounds")) ;;
      msg ← (λ m t, Ok (messages t qp id, m, t));
      match msg with
      | NodeRegistration name =>
          s ← lift (from_opt "unterminated node name" (c_str name));
          on_executors (ResourceDB.register_executor qp (String.string_of_list_ascii s)) ;; mret tt
      | LeaseDeallocationMsg d => on_db (ResourceDB.close_lease d)
      | UnknownMessage _ => mret tt
      end ;;
      conn ← lift (from_opt "null connection" (ResourceDB._connection e));
      on_conn conn (Connection.receive_wcs (Queue.update_requests (-1))) ;;
      on_conn conn (Connection.receive_wcs Queue.refill) ;;
      mret tt
  end.

Definition _handle_executor_connection (exec : nat) : M manager unit :=
  e ← on_executors (ResourceDB.deref exec);
  conn ← lift (from_opt "null connection" (ResourceDB._connection e));
  qp ← conn_qp_num conn;
  on_executors (ResourceDB.connect_executor exec qp).

Definition _handle_executor_disconnection (conn : Z) : M manager unit :=
  qp ← conn_qp_num conn;
  on_executors (ResourceDB.remove_executor qp) ;; mret tt.

Definition handle_executor_op (op : exec_op) : M manager unit :=
  match op with
  | ExecConnect exec => _handle_executor_connection exec
  | ExecDisconnect conn => _handle_executor_disconnection conn
  end.

(** The inner loop: everything that is in the queue, in order. *)
Definition drain_executors : M manager unit :=
  q ← gets _executor_queue;
  for_each q (λ op, modify (λ m, set_executor_queue (drop 1 (_executor_queue m)) m) ;;
                    handle_executor_op op).

(** One iteration of [process_executors]. *)
Definition process_executors (poller : Rdma.Poller) : M manager unit :=
  drain_executors ;;
  wcs ← Rdma.poller_poll poller false (-1);
  for_each (Queue.polled wcs) _handle_message.

(** *** The clients' thread *)

Definition update_client (qp : Z) (c : Client) : M manager unit :=
  modify (λ m, set_clients (<[qp := c]> (_clients m)) m).

(** [insert_or_assign(qp_num, std::move(client))] *)
Definition _handle_client_connection (c : Client) : M manager unit :=
  conn ← lift (from_opt "null connection" (connection c));
  qp ← conn_qp_num conn;
  m ← read;
  update_client qp
    (client_move (match _clients m !! qp with Some old => old | None => client_blank end) c).1.

(** The log message after [erase] reads the erased element; its text has no
    effect. *)
Definition _handle_client_disconnection (conn : Z) : M manager unit :=
  qp ← conn_qp_num conn;
  on_executors (ResourceDB.remove_executor qp) ;;
  m ← read;
  match _clients m !! qp with
  | Some c =>
      modify (λ m, set_clients (delete qp (_clients m)) m) ;;
      client_destroy c
  | None => mret tt
  end.

Definition handle_client_op (op : client_op) : M manager unit :=
  match op with
  | ClientConnect c => _handle_client_connection c
  | ClientDisconnect conn => _handle_client_disconnection conn
  end.

Definition drain_clients : M manager unit :=
  q ← gets _client_queue;
  for_each q (λ op, modify (λ m, set_client_queue (drop 1 (_client_queue m)) m) ;;
                    handle_client_op op).

(** [post_send(buffer, 0, buffer.size() <= max_inline_data, immediate)] *)
Definition send_buffer (conn : Z) (b : Buffer.t) (immediate : Z) : M manager unit :=
  m ← read;
  sges ← Buffer.add [] b;
  on_conn conn (Connection.post_send sges 0 (Buffer.size b <=? m_max_inline_data m) (Some immediate)) ;;
  mret tt.

(** [_handle_client_message(wc, poll_send)]; the result is [poll_send], the
    clients (by queue pair) whose send completion is to be awaited. *)
Definition _handle_client_message (wc : ibv_wc) (poll_send : list Z) : M manager (list Z) :=
  if nonzero (wc_status wc) then mret poll_send else
  let id := wc_wr_id wc in
  let qp := wc_qp_num wc in
  m ← read;
  match _clients m !! qp with
  | None => mret poll_send
  | Some client =>
      (if bool_decide (0 ≤ id < CLIENT_RECV_BUF_SIZE) then mret tt
       else raise (Undefined "receive slot out of bounds")) ;;
      req ← (λ m t, Ok (requests t qp id, m, t));
      let cores := i16 (lr_cores req) in
      let memory := i32 (lr_memory req) in
      if 0 <? cores then
        conn ← lift (from_opt "null connection" (connection client));
        r ← on_db (ResourceDB.open_lease erased cores memory (response_data client));
        let '(allocated, resp) := r in
        update_client qp (set_response_data resp client) ;;
        match allocated with
        | None => send_buffer conn (_response client) 0
        | Some l =>
            modify (λ m, set_send_data
              (<[l := mk_LeaseAllocation memory cores (u32 (resp_lease_id resp))]> (m_send_data m)) m) ;;
            e ← on_executors (ResourceDB.deref l);
            econn ← lift (from_opt "null connection" (ResourceDB._connection e));
            send_buffer econn (ResourceDB._send_buffer e) 1 ;;
            on_conn econn (Connection.poll_wc Connection.SEND true 1) ;;
            send_buffer conn (_response client) 1
        end ;;
        on_conn conn (Connection.receive_wcs (Queue.update_requests (-1))) ;;
        on_conn conn (Connection.receive_wcs Queue.refill) ;;
        mret (poll_send ++ [qp])
      else
        c ← disable client;
        modify (λ m, set_clients (delete qp (_clients m)) m) ;;
        client_destroy c ;;
        mret poll_send
  end.

Fixpoint handle_client_messages (wcs : list ibv_wc) (poll_send : list Z) : M manager (list Z) :=
  match wcs with
  | [] => mret poll_send
  | wc :: wcs => poll_send ← _handle_client_message wc poll_send; handle_client_messages wcs poll_send
  end.

(** [for(auto client : poll_send) client->connection->poll_wc(SEND, true, 1)]: the
    pointers refer to elements of [_clients]. *)
Definition await_sends (poll_send : list Z) : M manager unit :=
  for_each poll_send (λ qp,
    m ← read;
    c ← lift (from_opt "dangling client" (_clients m !! qp));
    conn ← lift (from_opt "null connection" (connection c));
    on_conn conn (Connection.poll_wc Connection.SEND true 1) ;; mret tt).

(** One iteration of [process_clients]. *)
Definition process_clients (poller : Rdma.Poller) : M manager unit :=
  drain_clients ;;
  wcs ← Rdma.poller_poll poller false (-1);
  poll_send ← handle_client_messages (Queue.polled wcs) [];
  await_sends poll_send.

(** *** Both kinds of peers on one sleeping thread *)

Definition wait_and_poll (poller : Rdma.Poller) : M manager (list ibv_wc) :=
  cq ← Rdma.poller_wait_events poller;
  Rdma.poller_ack_events cq 1 ;;
  Rdma.poller_notify_events poller false ;;
  wcs ← Rdma.poller_poll poller false (-1);
  mret (Queue.polled wcs).

Fixpoint sleep_events (client_poller executor_poller : Rdma.Poller) (events : list Z)
    (poll_send : list Z) : M manager (list Z) :=
  match events with
  | [] => mret poll_send
  | data :: events =>
      poll_send ←
        (if data =? 2 then
           drain_clients ;; wcs ← wait_and_poll client_poller; handle_client_messages wcs poll_send
         else
           drain_executors ;; wcs ← wait_and_poll executor_poller;
           for_each wcs _handle_message ;; mret poll_send);
      sleep_events client_poller executor_poller events poll_send
  end.

(** One iteration of [process_events_sleep]. *)
Definition process_events_sleep (epoll : Z) (client_poller executor_poller : Rdma.Poller) :
    M manager unit :=
  ev ← Rdma.event_poll epoll (POLLING_TIMEOUT_MS * 10);
  poll_send ← sleep_events client_poller executor_poller (take (Z.to_nat ev.2) ev.1) [];
  drain_clients ;;
  drain_executors ;;
  await_sends poll_send.
End Manager.

(** ** HTTP *)

(** A value of the JSON library: null, a string, an integer that fits an [int], an object with its
    members in order, anything else. *)
Inductive json : Type :=
  JNull | JString (s : string) | JInt (n : Z) | JObject (members : list (string * json)) | JOther.
Inductive http_code : Type := Http_Ok | Bad_Request | Internal_Server_Error | Not_Found.

#[global] Instance http_code_eq_dec : EqDecision http_code.
Proof. solve_decision. Defined.

Definition is_string (o : option json) : bool := match o with Some (JString _) => true | _ => false end.
Definition is_int (o : option json) : bool := match o with Some (JInt _) => true | _ => false end.
Definition is_member (o : option json) : bool := match o with Some _ => true | None => false end.

(** [body.c_str()] ends at the first null character. *)
Fixpoint c_string (s : string) : string :=
  match s with
  | EmptyString => EmptyString
  | String a s => if Ascii.eqb a nul then EmptyString else String a (c_string s)
  end.

(** The first member with a name. *)
Definition find_member (name : string) (members : list (string * json)) : option json :=
  (list_to_map members : gmap string json) !! name.

(** [Parse] is the library's parser; [None]: the text is not JSON, and the document is left null.  The
    code does not look at the result. *)
Section Http.
Context `{Env} (Parse : string → option json).

Definition parse_document (body : string) : json := default JNull (Parse (c_string body)).

(** [document.HasMember(name)] and [document\[name\]]: the library asserts that the document is an
    object. *)
Definition member {S} (document : json) (name : string) : M S (option json) :=
  match document with
  | JObject members => mret (find_member name members)
  | _ => assert_ false "IsObject" ;; raise (Undefined "members of a value that is not an object")
  end.

Definition get_string {S} (o : option json) : M S string :=
  match o with
  | Some (JString s) => mret s
  | _ => assert_ false "IsString" ;; raise (Undefined "not a string")
  end.
Definition get_int {S} (o : option json) : M S Z :=
  match o with
  | Some (JInt n) => mret n
  | _ => assert_ false "IsInt" ;; raise (Undefined "not an integer")
  end.

(** [onRequest]: the query parameter [node], the resource and the body. *)
Definition onRequest (node : option string) (resource body : string) : M ResourceDB.ExecutorDB http_code :=
  let document := parse_document body in
  match node with
  | None => mret Bad_Request
  | Some node_name =>
      if bool_decide (resource = "/add"%string) then
        ip ← member document "ip_address"; port ← member document "port";
        cores ← member document "cores"; memory ← member document "memory";
        if negb (is_string ip) || negb (is_int port) || negb (is_int cores) ||
           negb (is_member memory && is_int cores)
        then mret Bad_Request else
        ip ← get_string ip; port ← get_int port; cores ← get_int cores; memory ← get_int memory;
        r ← ResourceDB.add node_name ip port cores memory;
        mret (if bool_decide (r = ResourceDB.OK) then Http_Ok else Internal_Server_Error)
      else if bool_decide (resource = "/remove"%string) then
        ip ← member document "ip_address"; port ← member document "port"; cores ← member document "cores";
        if negb (is_string ip) || negb (is_int port) || negb (is_int cores)
        then mret Bad_Request else
        r ← ResourceDB.remove node_name;
        mret (if bool_decide (r = ResourceDB.OK) then Http_Ok else Bad_Request)
      else mret Not_Found
  end.
End Http.

(** ** What an operation leaves alone *)

Section FrameManager.
Context `{Env} {X : Type} (f : manager → X).

(** A part of the state that the connections are not in. *)
Hypothesis not_state : ∀ x m, f (set_state x m) = f m.

Lemma frames_on_state {A} (op : M Rdma.passive A) : frames f (on_state op).
Proof using not_state. by apply frames_zoom. Qed.

Lemma frames_on_conn {A} conn (op : M Connection.t A) : frames f (on_conn conn op).
Proof using not_state. apply frames_on_state. Qed.

#[local] Hint Resolve frames_on_state frames_on_conn : rfaas.

Lemma frames_client_construct id conn : frames f (client_construct id conn).
Proof using not_state. unfold client_construct, pd. frame. Qed.

Lemma frames_client_destroy c : frames f (client_destroy c).
Proof using not_state. unfold client_destroy. frame. Qed.

Lemma frames_disable c : frames f (disable c).
Proof using not_state. unfold disable. frame. Qed.

Lemma frames_conn_qp_num conn : frames f (conn_qp_num conn).
Proof using not_state. unfold conn_qp_num. frame. Qed.

Lemma frames_send_buffer conn b imm : frames f (send_buffer conn b imm).
Proof using not_state.
  unfold send_buffer, Buffer.add, Buffer.address, Buffer.lkey, Buffer.with_mr. frame.
Qed.
End FrameManager.

#[export] Hint Extern 1 (frames _ (on_state _)) =>
  apply frames_on_state; intros; reflexivity : rfaas.
#[export] Hint Extern 1 (frames _ (on_conn _ _)) =>
  apply frames_on_conn; intros; reflexivity : rfaas.
#[export] Hint Extern 1 (frames _ (client_construct _ _)) =>
  apply frames_client_construct; intros; reflexivity : rfaas.
#[export] Hint Extern 1 (frames _ (client_destroy _)) =>
  apply frames_client_destroy; intros; reflexivity : rfaas.
#[export] Hint Extern 1 (frames _ (disable _)) => apply frames_disable; intros; reflexivity : rfaas.
#[export] Hint Extern 1 (frames _ (conn_qp_num _)) =>
  apply frames_conn_qp_num; intros; reflexivity : rfaas.
#[export] Hint Extern 1 (frames _ (send_buffer _ _ _)) =>
  apply frames_send_buffer; intros; reflexivity : rfaas.

(** ** The lease accounting of the whole manager *)

Section Accounting.
Context `{Env} (erased : nat → option nat)
  (requests : trace → Z → Z → LeaseRequest) (messages : trace → Z → Z → exec_message).

(** The operation keeps the invariant of the database with open leases [o]. *)
Definition preserves (o : gmap Z ResourceDB.Lease) {A} (op : M manager A) : Prop :=
  ∀ m t a m' t', op m t = Ok (a, m', t') → ResourceDB.db_ok (m_db m) o → ResourceDB.db_ok (m_db m') o.

Lemma preserves_frames o {A} (op : M manager A) : frames m_db op → preserves o op.
Proof using. intros Hf m t a m' t' E. by rewrite (Hf _ _ _ _ _ E). Qed.

Lemma preserves_bind o {A B} (op : M manager A) (k : A → M manager B) :
  preserves o op → (∀ a, preserves o (k a)) → preserves o (op ≫= k).
Proof using. intros Ho Hk m t b m' t' E Hd. bind_inv E as a m1 t1 E1. by apply (Hk _ _ _ _ _ _ E), (Ho _ _ _ _ _ E1). Qed.

Lemma preserves_executors o {A} (op : M ResourceDB.Executors A) :
  ResourceDB.keeps o op → preserves o (on_executors op).
Proof using.
  intros Hk m t a m' t' E Hd. unfold on_executors, on_db, ResourceDB.on_executors in E.
  run_inv_at E. run_inv_at E.
  destruct (Hk _ _ _ _ _ E (ResourceDB.db_executors _ _ Hd)).
  by apply ResourceDB.db_ok_executors.
Qed.

Lemma mild_keeps o {A} (op : M ResourceDB.Executors A) :
  ResourceDB.mild o op → ResourceDB.keeps o op.
Proof using. intros Hm x t a x' t' E Hx. destruct (Hm _ _ _ _ _ E Hx) as (? & ? & _). done. Qed.

Lemma keeps_get o qp : ResourceDB.keeps o (ResourceDB.get_executor qp).
Proof using.
  intros x t a x' t' E Hx. unfold ResourceDB.get_executor in E. run_inv_at E.
  split; [done|apply ResourceDB.grows_refl].
Qed.

Lemma keeps_new o : ResourceDB.keeps o (ResourceDB.make_shared id).
Proof using. intros ?????. apply ResourceDB.keeps_make_shared. Qed.

#[local] Hint Resolve preserves_executors mild_keeps ResourceDB.keeps_register
  ResourceDB.keeps_remove keeps_get keeps_new ResourceDB.mild_deref : rfaas.
#[local] Hint Extern 4 (preserves _ (_ ≫= _)) => apply preserves_bind; [|intros ?] : rfaas.
#[local] Hint Extern 5 (preserves _ _) => apply preserves_frames : rfaas.

Lemma preserves_initialize o exec conn : preserves o (initialize_connection exec conn).
Proof using.
  unfold initialize_connection, pd.
  repeat (apply preserves_bind; [|intros]); auto with rfaas;
    apply preserves_executors, mild_keeps;
    first [by apply ResourceDB.mild_set_connection | apply ResourceDB.mild_set_buffers].
Qed.

#[local] Hint Resolve preserves_initialize : rfaas.

Lemma preserves_handle_event o conn status : preserves o (handle_event conn status).
Proof using.
  unfold handle_event, conn_private, enqueue_executor, enqueue_client.
  apply preserves_bind; [auto 10 with rfaas|]. intros [key secret].
  destruct status.
  - auto with rfaas.
  - apply preserves_bind; [auto with rfaas|intros expected].
    destruct (_ && _); [auto with rfaas|]. destruct (key =? 1); auto 20 with rfaas.
  - repeat case_match; auto with rfaas.
  - case_match; auto with rfaas.
Qed.

Lemma preserves_listen o : preserves o listen_rdma.
Proof using.
  unfold listen_rdma. apply preserves_bind; [auto with rfaas|intros ready].
  destruct (negb ready); [auto with rfaas|]. apply preserves_bind; [auto with rfaas|].
  intros [[conn|] status]; [apply preserves_handle_event|auto with rfaas].
Qed.

Lemma preserves_executor_op o op : preserves o (handle_executor_op op).
Proof using.
  destruct op as [exec|conn]; cbn [handle_executor_op].
  - intros m t a m' t' E Hd. unfold _handle_executor_connection in E.
    bind_inv E as e m1 t1 E1. unfold on_executors, on_db, ResourceDB.on_executors in E1.
    run_inv_at E1. run_inv_at E1. apply ResourceDB.deref_inv in E1 as (He & -> & ->).
    bind_inv E as conn m2 t2 E2. run_inv_at E2. apply from_opt_Ok in E2.
    bind_inv E as qp m3 t3 E3.
    apply (frames_conn_qp_num m_db ltac:(reflexivity)) in E3.
    unfold on_executors, on_db, ResourceDB.on_executors in E. run_inv_at E. run_inv_at E.
    rewrite E3 in E. cbn in E.
    edestruct (ResourceDB.keeps_connect o) as [Hx Hg]; [exact E|..].
    { exists e. split; [exact He|congruence]. }
    { cbn. apply ResourceDB.db_executors. by destruct (m_db m). }
    cbn. rewrite E3. apply ResourceDB.db_ok_executors; [by destruct (m_db m)|done|done].
  - unfold _handle_executor_disconnection. auto 10 with rfaas.
Qed.

Lemma preserves_client_op o op : preserves o (handle_client_op op).
Proof using.
  destruct op as [c|conn]; cbn [handle_client_op].
  - unfold _handle_client_connection, update_client. auto 10 with rfaas.
  - unfold _handle_client_disconnection. repeat (apply preserves_bind; [auto 10 with rfaas|intros]).
    case_match; auto 10 with rfaas.
Qed.

(** The open leases after a message of an executor. *)
Definition closed_by (m : manager) (t : trace) (wc : ibv_wc) (o : gmap Z ResourceDB.Lease) :
    gmap Z ResourceDB.Lease :=
  if nonzero (wc_status wc) then o else
  match ResourceDB._executors_by_conn (ResourceDB._executors (m_db m)) !! wc_qp_num wc with
  | None => o
  | Some _ =>
      match messages t (wc_qp_num wc) (wc_wr_id wc) with
      | LeaseDeallocationMsg d => delete (u32 (ld_lease_id d)) o
      | _ => o
      end
  end.

(** The message, if it closes a lease, closes an open one. *)
Definition closes_open (t : trace) (wc : ibv_wc) (o : gmap Z ResourceDB.Lease) : Prop :=
  ∀ d, messages t (wc_qp_num wc) (wc_wr_id wc) = LeaseDeallocationMsg d →
    is_Some (o !! u32 (ld_lease_id d)).

Lemma handle_message_ok o wc m t m' t' :
  _handle_message messages wc m t = Ok (tt, m', t') → closes_open t wc o →
  ResourceDB.db_ok (m_db m) o → ResourceDB.db_ok (m_db m') (closed_by m t wc o).
Proof using.
  intros E Hc Hd. unfold _handle_message in E. unfold closed_by.
  destruct (nonzero (wc_status wc)); [by run_inv_at E|].
  bind_inv E as exec m1 t1 E1.
  unfold on_executors, on_db, ResourceDB.on_executors, ResourceDB.get_executor in E1.
  run_inv_at E1. run_inv_at E1. run_inv_at E1.
  destruct (_ !! wc_qp_num wc) as [l|]; [|run_inv_at E; cbn; by destruct (m_db m)].
  bind_inv E as e m2 t2 E2. unfold on_executors, on_db, ResourceDB.on_executors in E2.
  run_inv_at E2. run_inv_at E2. apply ResourceDB.deref_inv in E2 as (_ & -> & ->).
  bind_inv E as ? m3 t3 E3. case_bool_decide; run_inv_at E3.
  bind_inv E as msg m4 t4 E4. injection E4 as <- <- <-.
  bind_inv E as ? m5 t5 E5.
  match type of E with ?k _ _ = _ => assert (frames m_db k) as Hf by auto 10 with rfaas end.
  rewrite (Hf _ _ _ _ _ E). clear E Hf.
  assert (ResourceDB.db_ok (m_db (set_db (ResourceDB.set_executors (ResourceDB._executors (m_db m)) (m_db m)) m)) o)
    as Hd' by (cbn; by destruct (m_db m)).
  cbn in E5. destruct (messages _ (wc_qp_num wc) (wc_wr_id wc)) as [name|d|ty] eqn:Em.
  - match type of E5 with ?op _ _ = _ => assert (preserves o op) as Hp by auto 10 with rfaas end.
    eapply Hp; [exact E5|]. by destruct (m_db m).
  - unfold on_db in E5. run_inv_at E5. destruct x. eapply ResourceDB.close_lease_ok; [..|exact E5];
      [by eapply Hc|cbn; by destruct (m_db m)].
  - run_inv_at E5. cbn. by destruct (m_db m).
Qed.

Hypothesis erased_pointer : ∀ p q, erased p = Some q → q = p.

Lemma handle_client_message_ok o wc ps m t ps' m' t' :
  _handle_client_message erased requests wc ps m t = Ok (ps', m', t') →
  0 ≤ i32 (lr_memory (requests t (wc_qp_num wc) (wc_wr_id wc))) →
  ResourceDB._lease_count (m_db m) < 2 ^ 32 - 1 → ResourceDB.db_ok (m_db m) o →
  ResourceDB.db_ok (m_db m')
    (o ∪ (ResourceDB._leases (m_db m') ∖ ResourceDB._leases (m_db m))).
Proof using erased_pointer.
  intros E Hmem Hlt Hd. unfold _handle_client_message in E.
  assert (∀ m1, m_db m1 = m_db m → ResourceDB.db_ok (m_db m1)
    (o ∪ (ResourceDB._leases (m_db m1) ∖ ResourceDB._leases (m_db m)))) as Hsame.
  { intros m1 ->. by rewrite map_difference_diag, (right_id_L ∅ (∪)). }
  destruct (nonzero (wc_status wc)); [run_inv_at E; by apply Hsame|]. step_inv E.
  destruct (_clients m !! wc_qp_num wc) as [client|]; [|run_inv_at E; by apply Hsame].
  bind_inv E as ? m3 t3 E3. case_bool_decide; run_inv_at E3.
  bind_inv E as req m4 t4 E4. injection E4 as <- <- <-. cbn zeta in E.
  match type of E with context [0 <? ?c] => destruct (Z.ltb_spec 0 c) as [Hcores|] end.
  - bind_inv E as conn m5 t5 E5. run_inv_at E5. clear E5.
    bind_inv E as r m6 t6 E6. unfold on_db in E6. run_inv_at E6.
    destruct r as [allocated resp]. bind_inv E as ? m7 t7 E7.
    assert (m_db m7 = x) as Ex by (unfold update_client in E7; by run_inv_at E7).
    match type of E with ?k _ _ = _ => assert (frames m_db k) as Hf end.
    { apply frames_bind; [destruct allocated; [|auto with rfaas]|auto 10 with rfaas].
      apply frames_bind; [auto with rfaas|intros ?]. apply frames_bind; [|auto 10 with rfaas].
      intros s0 t0 a0 s0' t0' E0. unfold on_executors, on_db, ResourceDB.on_executors in E0.
      run_inv_at E0. run_inv_at E0. apply ResourceDB.deref_inv in E0 as (_ & -> & ->). cbn.
      by destruct (m_db s0). }
    rewrite (Hf _ _ _ _ _ E), Ex.
    eapply ResourceDB.open_lease_ok; [done| | | |done|exact E6]; [lia|done|done].
  - apply Hsame. match type of E with ?k _ _ = _ => assert (frames m_db k) as Hf by auto 10 with rfaas end.
    by apply Hf in E.
Qed.

(** The numbers of a body that adds a node are those of a node. *)
Definition body_ok (Parse : string → option json) (body : string) : Prop := ∀ members n,
  parse_document Parse body = JObject members →
  (find_member "cores" members = Some (JInt n) → 0 ≤ n < 2 ^ 15) ∧
  (find_member "memory" members = Some (JInt n) → 0 ≤ n < 2 ^ 31).

Lemma onRequest_ok o Parse node resource body d t r d' t' :
  onRequest Parse node resource body d t = Ok (r, d', t') → body_ok Parse body →
  ResourceDB.db_ok d o → ResourceDB.db_ok d' o.
Proof using.
  intros E Hb Hd. unfold onRequest in E. destruct node as [name|]; [|by run_inv_at E].
  unfold body_ok in Hb. destruct (parse_document Parse body) as [| | |members|]; unfold member in E;
    try (case_bool_decide; [by run_inv|]; case_bool_decide; [by run_inv|]; by run_inv_at E).
  specialize (Hb members). case_bool_decide.
  - do 4 step_inv E. destruct (_ || _); [by run_inv_at E|].
    destruct (find_member "ip_address" members) as [[|ip| | |]|]; cbn [get_string] in E; try (run_inv; done).
    destruct (find_member "port" members) as [[| |port| |]|]; cbn [get_int] in E; try (run_inv; done).
    destruct (find_member "cores" members) as [[| |cores| |]|]; cbn [get_int] in E; try (run_inv; done).
    destruct (find_member "memory" members) as [[| |memory| |]|]; cbn [get_int] in E; try (run_inv; done).
    do 4 step_inv E. bind_inv E as ? d1 ? E1. run_inv_at E.
    eapply ResourceDB.add_ok; [..|exact E1]; [by apply Hb|by apply Hb|done].
  - case_bool_decide; [|by run_inv_at E]. do 3 step_inv E. destruct (_ || _); [by run_inv_at E|].
    unfold ResourceDB.remove, ResourceDB.remove_executor_by_name, ResourceDB.on_executors in E.
    run_inv; done.
Qed.

(** What the threads of the manager do, in any order, with the open leases. *)
Inductive manager_step : manager * trace * gmap Z ResourceDB.Lease →
                         manager * trace * gmap Z ResourceDB.Lease → Prop :=
  | ms_listen m t o m' t' :
      listen_rdma m t = Ok (tt, m', t') → manager_step (m, t, o) (m', t', o)
  | ms_executor_op m t o op m' t' :
      handle_executor_op op m t = Ok (tt, m', t') → manager_step (m, t, o) (m', t', o)
  | ms_client_op m t o op m' t' :
      handle_client_op op m t = Ok (tt, m', t') → manager_step (m, t, o) (m', t', o)
  | ms_message m t o wc m' t' :
      closes_open t wc o →
      _handle_message messages wc m t = Ok (tt, m', t') →
      manager_step (m, t, o) (m', t', closed_by m t wc o)
  | ms_client_message m t o wc ps ps' m' t' :
      0 ≤ i32 (lr_memory (requests t (wc_qp_num wc) (wc_wr_id wc))) →
      ResourceDB._lease_count (m_db m) < 2 ^ 32 - 1 →
      _handle_client_message erased requests wc ps m t = Ok (ps', m', t') →
      manager_step (m, t, o)
        (m', t', o ∪ (ResourceDB._leases (m_db m') ∖ ResourceDB._leases (m_db m)))
  | ms_http m t o Parse node resource body r m' t' :
      body_ok Parse body →
      on_db (onRequest Parse node resource body) m t = Ok (r, m', t') →
      manager_step (m, t, o) (m', t', o)
  | ms_read_database m t o servers m' t' :
      Forall ResourceDB.server_ok servers →
      on_db (ResourceDB.read_db servers) m t = Ok (tt, m', t') →
      manager_step (m, t, o) (m', t', o).

Lemma manager_step_ok st st' :
  manager_step st st' → ResourceDB.db_ok (m_db st.1.1) st.2 → ResourceDB.db_ok (m_db st'.1.1) st'.2.
Proof using erased_pointer.
  destruct 1; cbn; intros Hd.
  - by eapply preserves_listen.
  - by eapply preserves_executor_op.
  - by eapply preserves_client_op.
  - by eapply handle_message_ok.
  - by eapply handle_client_message_ok.
  - unfold on_db in *. match goal with E : zoom _ _ _ _ _ = _ |- _ => run_inv_at E end.
    by eapply onRequest_ok.
  - unfold on_db in *. match goal with E : zoom _ _ _ _ _ = _ |- _ => run_inv_at E end.
    by eapply ResourceDB.read_db_ok.
Qed.

Definition manager_reachable (st : manager * trace * gmap Z ResourceDB.Lease) : Prop :=
  ∃ m0 t0, m_db m0 = ResourceDB.empty_db ∧ rtc manager_step (m0, t0, ∅) st.

Lemma manager_reachable_ok st : manager_reachable st → ResourceDB.db_ok (m_db st.1.1) st.2.
Proof using erased_pointer.
  intros (m0 & t0 & Hm & Hr).
  refine (rtc_ind_r (λ st, ResourceDB.db_ok (m_db st.1.1) st.2) (m0, t0, ∅) _ _ st Hr).
  - cbn. rewrite Hm. apply ResourceDB.empty_ok.
  - intros x y _ Hs Hx. by eapply manager_step_ok.
Qed.
End Accounting.

(** ** Admission *)

Section Admission.
Context `{Env}.

Lemma frames_on_executors {X A} (f : manager → X) (op : M ResourceDB.Executors A) :
  (∀ x m, f (set_db x m) = f m) → frames f (on_executors op).
Proof. intros Hf. unfold on_executors, on_db. by apply frames_zoom. Qed.

#[local] Hint Extern 1 (frames _ (on_executors _)) =>
  apply frames_on_executors; intros; reflexivity : rfaas.

Lemma frames_initialize_queues exec conn :
  frames (λ m, (_executor_queue m, _client_queue m)) (initialize_connection exec conn).
Proof. unfold initialize_connection, pd. auto 20 with rfaas. Qed.

Lemma frames_client_construct_queues id conn :
  frames (λ m, (_executor_queue m, m_db m)) (client_construct id conn).
Proof. auto with rfaas. Qed.

(** The executor under construction keeps its name and gets its connection. *)
Lemma on_executors_update_heap l g m t u m' t' :
  on_executors (ResourceDB.update l g) m t = Ok (u, m', t') →
  ResourceDB.heap (ResourceDB._executors (m_db m')) =
    alter g l (ResourceDB.heap (ResourceDB._executors (m_db m))).
Proof.
  unfold on_executors, on_db, ResourceDB.on_executors, ResourceDB.update. intros E.
  do 3 run_inv_at E. done.
Qed.

Lemma initialize_connection_inv exec conn m t u m' t' e :
  initialize_connection exec conn m t = Ok (u, m', t') →
  ResourceDB.heap (ResourceDB._executors (m_db m)) !! exec = Some e →
  ∃ e', ResourceDB.heap (ResourceDB._executors (m_db m')) !! exec = Some e' ∧
    ResourceDB._connection e' = Some conn ∧ ResourceDB.node e' = ResourceDB.node e.
Proof.
  intros E He. unfold initialize_connection, pd in E. step_inv E.
  bind_inv E as ? m1 t1 E1. apply on_executors_update_heap in E1.
  bind_inv E as e1 m2 t2 E2. unfold on_executors, on_db, ResourceDB.on_executors in E2.
  do 2 run_inv_at E2. apply ResourceDB.deref_inv in E2 as (He1 & -> & ->).
  bind_inv E as rb m3 t3 E3. apply (Buffer.frames_on_buffer m_db _ _) in E3.
  bind_inv E as ? m4 t4 E4. apply on_executors_update_heap in E4.
  bind_inv E as sb m5 t5 E5. apply (Buffer.frames_on_buffer m_db _ _) in E5.
  bind_inv E as ? m6 t6 E6. apply on_executors_update_heap in E6.
  apply (frames_on_conn m_db ltac:(reflexivity)) in E.
  rewrite E, E6, E5, E4, E3. cbn. rewrite E1, !lookup_alter_eq, He. cbn.
  eexists. by split_and!.
Qed.

(** Work on the receive queue keeps the identifier of a connection. *)
Definition the_ids (m : manager) : gmap Z (option rdma_cm_id) :=
  Rdma.ids (m_state m).

Lemma frames_receive_wcs {A} conn (op : M Queue.recv_wcs A) :
  frames the_ids (on_conn conn (Connection.receive_wcs op)).
Proof.
  intros m t a m' t' E. unfold on_conn, on_state in E. run_inv_at E.
  refine (Rdma.frames_store Connection._id _ _ _ _ _ _ _ _ E).
  unfold Connection.receive_wcs. auto with rfaas.
Qed.

#[local] Hint Resolve frames_receive_wcs : rfaas.

Lemma frames_initialize_ids exec conn : frames the_ids (initialize_connection exec conn).
Proof. unfold initialize_connection, pd. auto 20 with rfaas. Qed.

Lemma accept_run conn id m t :
  the_ids m !! conn = Some (Some id) → on_state (Rdma.accept conn) m t = Ok (tt, m, Caccept id :: t).
Proof.
  unfold the_ids, Rdma.ids. rewrite lookup_fmap. intros Hi.
  destruct (Rdma.p_store (m_state m) !! conn) as [c|] eqn:Hc; [|done]. injection Hi as Hi.
  unfold on_state, Rdma.accept, Rdma.the_id. run. rewrite Hc. run. rewrite Hi. by destruct m.
Qed.

Lemma conn_private_run conn c key secret m t :
  Rdma.p_store (m_state m) !! conn = Some c →
  PrivateData.key 8 8 16 (Connection.private_data c) = Some key →
  PrivateData.secret 16 (Connection.private_data c) = Some secret →
  conn_private conn m t = Ok ((key, secret), m, t).
Proof. intros Hc Hk Hs. unfold conn_private. run. rewrite Hc. run. rewrite Hk. run. by rewrite Hs. Qed.
End Admission.

(** ** Which calls an operation makes *)

Section Silent.
Context `{Env}.

Lemma silent_on_conn {A} conn (op : M Connection.t A) :
  emits not_send op → emits not_send (on_conn conn op).
Proof. intros Ho. by apply emits_zoom, Rdma.emits_on_conn. Qed.

(** The queue pair of each connection, which no operation here changes. *)
Definition the_qps (m : manager) : gmap Z (option ibv_qp) :=
  Rdma.qps (m_state m).

Lemma frames_qps {A} conn (op : M Connection.t A) :
  frames Connection._qp op → frames the_qps (on_conn conn op).
Proof.
  intros Ho m t a m' t' E. unfold on_conn, on_state in E. run_inv_at E.
  exact (Rdma.frames_store _ _ _ Ho _ _ _ _ _ E).
Qed.

Lemma open_lease_silent erased c n resp :
  emits (λ _, False) (ResourceDB.open_lease erased c n resp).
Proof.
  unfold ResourceDB.open_lease. apply emits_bind; [auto with rfaas|]. intros d.
  destruct (_ =? 0); [auto with rfaas|].
  destruct (ResourceDB.scan _ _ _ _ _) as [kept [[[p e'] behind]|]]; [|auto with rfaas].
  apply emits_bind; [destruct (ResourceDB.is_fully_leased e'); auto with rfaas|auto 10 with rfaas].
Qed.

Lemma send_buffer_inv conn b imm m t u m' t' qp :
  send_buffer conn b imm m t = Ok (u, m', t') → the_qps m !! conn = Some (Some qp) →
  sends t' = sends t ++ [(qp, Buffer.whole b, u32 imm)] ∧ the_qps m' = the_qps m ∧
  ∃ wr, t' = Cpost_send qp wr :: t.
Proof.
  unfold send_buffer. intros E Hq. step_inv E. bind_inv E as sg m1 t1 E1.
  apply Buffer.add_inv in E1 as (-> & -> & ->). bind_inv E as r m2 t2 E2. run_inv_at E.
  unfold on_conn, on_state in E2. run_inv_at E2. pose proof E2 as E4.
  apply Rdma.on_conn_inv in E2 as (c & c' & Hc & E2 & ->).
  unfold the_qps, Rdma.qps in Hq |- *. rewrite lookup_fmap, Hc in Hq. injection Hq as Hq.
  apply (Rdma.post_send_inv _ _ _ _ _ _ _ _ _ qp) in E2 as (Hq' & Hs & Hw); [|done].
  split_and!; [done| |done]. cbn. by rewrite fmap_insert, Hq', <-Hq, <-fmap_insert, insert_id.
Qed.
End Silent.

(** ** Theorems *)


(** A manager whose secret is 77 and that knows the node [node1] of 4 cores and
    1024 MB; connection 7 is the executor of that node, connection 1 a client. *)
Definition peer_at (num data : Z) : Connection.t :=
  Connection.initialize (mk_cm_id num (mk_qp num 70 71 72) 0 3)
    (Connection.set_private_data data (Connection.construct 32 true)).

Definition peer (data : Z) : Connection.t :=
  Connection.initialize some_id (Connection.set_private_data data (Connection.construct 32 true)).

Definition demo_manager (conns : gmap Z Connection.t) (d : ResourceDB.ExecutorDB) : manager :=
  mk_manager (Rdma.set_store conns Rdma.listener) d ∅ ∅ 0 [] [] 77 64.

Definition demo_start : manager :=
  demo_manager (<[1 := peer_at 5 (2 ^ 25)]> {[ 7 := peer_at 9 (2 ^ 24 + 77) ]}) ResourceDB.empty_db.

Definition one_request : trace → Z → Z → LeaseRequest := λ _ _ _, mk_LeaseRequest 3 512.
Definition register_node1 : trace → Z → Z → exec_message :=
  λ _ _ _, NodeRegistration (strncpy 32 (ResourceDB.chars_of "node1")).

(** Every poll finds one completion. *)
Definition busy_env : Env :=
  scripted_env 8 (λ _ _ _, (1, [mk_wc 0 0 5 0 8])) (λ _, (0, quiet_event)) (λ _, 0) (λ _, 0).

(** The node connects and registers, then the client connects. *)
Definition demo_setup : M manager unit :=
  on_db (@ResourceDB.read_db busy_env [ResourceDB.demo_server]) ;;
  @handle_event busy_env 7 Connection.REQUESTED ;;
  handle_executor_op (ExecConnect 1) ;;
  @_handle_message busy_env register_node1 (mk_wc 0 0 9 0 36) ;;
  @handle_event busy_env 1 Connection.REQUESTED ;;
  @drain_clients busy_env.

Definition demo_run : manager * trace :=
  match demo_setup demo_start [] with Ok (_, m, t) => (m, t) | Fault _ => (demo_start, []) end.

(** The same from the start: the node connects and registers, then a client connects and takes the
    whole node. *)
Definition arrivals_env : Env :=
  scripted_env 8 (λ _ _ _, (1, [mk_wc 0 0 5 0 8]))
    (λ t, let first := negb (existsb (λ c, match c with Cget_cm_event => true | _ => false end) t) in
          (0, mk_cm_event RDMA_CM_EVENT_CONNECT_REQUEST (mk_cm_id (if first then 9 else 5) some_qp 0 3) 4
                (if first then 2 ^ 24 + 77 else 2 ^ 25)))
    (λ _, 0) (λ _, 0).

Definition whole_node : trace → Z → Z → LeaseRequest := λ _ _ _, mk_LeaseRequest 4 512.

Definition after {A} (op : M manager A) (st : manager * trace) : manager * trace :=
  match op st.1 st.2 with Ok (_, m, t) => (m, t) | Fault _ => st end.

(** The numbers of the queue pairs of the two connections. *)
Definition pair_of (st : manager * trace) (conn : Z) : Z :=
  match Rdma.p_store (m_state st.1) !! conn with
  | Some c => match Connection._qp c with Some qp => qp_num qp | None => 0 end
  | None => 0
  end.

Definition run1 : manager * trace := after (on_db (@ResourceDB.read_db arrivals_env [ResourceDB.demo_server]))
  (demo_manager ∅ ResourceDB.empty_db, []).
Definition run2 : manager * trace := after (@listen_rdma arrivals_env) run1.
Definition run3 : manager * trace := after (handle_executor_op (ExecConnect 1)) run2.
Definition wc3 : ibv_wc := mk_wc 0 0 (pair_of run3 1) 0 36.
Definition run4 : manager * trace := after (@_handle_message arrivals_env register_node1 wc3) run3.
Definition run5 : manager * trace := after (@listen_rdma arrivals_env) run4.
Definition op5 : client_op := match _client_queue run5.1 with op :: _ => op | [] => ClientDisconnect 0 end.
Definition run6 : manager * trace := after (@handle_client_op arrivals_env op5) run5.
Definition wc6 : ibv_wc := mk_wc 0 0 (pair_of run6 2) 0 8.
Definition run7 : manager * trace := after (@_handle_client_message arrivals_env Some whole_node wc6 []) run6.
Lemma after_step {A} (op : M manager A) st : after op st ≠ st →
  ∃ a, op st.1 st.2 = Ok (a, (after op st).1, (after op st).2).
Proof. unfold after. destruct (op st.1 st.2) as [[[a m] t]|]; [by eexists|done]. Qed.

Lemma run7_reachable : ∃ o, @manager_reachable arrivals_env Some whole_node register_node1 (run7.1, run7.2, o) ∧
  o !! 0 = Some (ResourceDB.mk_Lease 4 512 true 0).
Proof.
  assert (run7 ≠ run6) as H7 by (intros E%(f_equal (λ st, length st.2)); vm_compute in E; discriminate E).
  destruct (after_step _ _ H7) as [ps E7].
  eexists. split.
  - exists (demo_manager ∅ ResourceDB.empty_db), []. split; [reflexivity|].
    apply (rtc_l _ _ (run1.1, run1.2, ∅)).
    { apply (ms_read_database Some _ _ _ _ _ [ResourceDB.demo_server]);
        [constructor; [split; cbn; lia|constructor]|vm_compute; reflexivity]. }
    apply (rtc_l _ _ (run2.1, run2.2, ∅)). { apply ms_listen. vm_compute; reflexivity. }
    apply (rtc_l _ _ (run3.1, run3.2, ∅)). { apply (ms_executor_op Some _ _ _ _ _ (ExecConnect 1)). vm_compute; reflexivity. }
    apply (rtc_l _ _ (run4.1, run4.2, ∅)).
    { apply (ms_message Some whole_node register_node1 run3.1 run3.2 ∅ wc3 run4.1 run4.2); [intros d Hd; discriminate Hd|].
      vm_compute; reflexivity. }
    apply (rtc_l _ _ (run5.1, run5.2, ∅)). { apply ms_listen. vm_compute; reflexivity. }
    apply (rtc_l _ _ (run6.1, run6.2, ∅)). { apply (ms_client_op Some _ _ _ _ _ op5). vm_compute; reflexivity. }
    apply rtc_once.
    apply (ms_client_message Some whole_node register_node1 run6.1 run6.2 ∅ wc6 [] ps run7.1 run7.2);
      [vm_compute; discriminate|vm_compute; reflexivity|exact E7].
  - vm_compute. reflexivity.
Qed.


(** What the listener does with a request, by the private data. *)
Lemma admission_inv `{Env} m t conn c id key secret :
  Rdma.p_store (m_state m) !! conn = Some c → Connection._id c = Some id →
  PrivateData.key 8 8 16 (Connection.private_data c) = Some key →
  PrivateData.secret 16 (Connection.private_data c) = Some secret →
  (key = 1 → secret ≠ _secret m →
   handle_event conn Connection.REQUESTED m t = Ok (tt, m, Creject id :: t)) ∧
  (key = 1 → secret = _secret m → ∀ m' t',
   handle_event conn Connection.REQUESTED m t = Ok (tt, m', t') →
   ∃ exec e t1, t' = Caccept id :: t1 ∧
     _executor_queue m' = _executor_queue m ++ [ExecConnect exec] ∧ _client_queue m' = _client_queue m ∧
     ResourceDB.heap (ResourceDB._executors (m_db m')) !! exec = Some e ∧
     ResourceDB._connection e = Some conn ∧ ResourceDB.node e = ""%string) ∧
  (key ≠ 1 → ∀ status m' t', handle_event conn status m t = Ok (tt, m', t') →
   _executor_queue m' = _executor_queue m ∧ m_db m' = m_db m).
Proof.
  intros Hc Hid Hk Hs. pose proof (conn_private_run conn c key secret m t Hc Hk Hs) as Hp.
  split_and!.
  - intros -> Hne. unfold handle_event. rewrite (bind_run _ _ _ _ _ _ _ Hp). run.
    destruct (Z.eqb_spec secret (_secret m)); [done|]. cbn [Z.eqb Pos.eqb andb negb].
    unfold on_state, Rdma.reject, Rdma.the_id. run. rewrite Hc. run. rewrite Hid.
    by destruct m.
  - intros -> -> m' t' E. unfold handle_event in E. rewrite (bind_run _ _ _ _ _ _ _ Hp) in E.
    step_inv E. rewrite !Z.eqb_refl in E. cbn [Z.eqb Pos.eqb andb negb] in E.
    bind_inv E as exec m1 t1 E1. bind_inv E as ? m2 t2 E2. unfold enqueue_executor in E. step_inv E.
    pose proof (frames_initialize_queues _ _ _ _ _ _ _ E2) as Hq.
    apply pair_equal_spec in Hq as [Hq1 Hq2].
    pose proof (frames_initialize_ids _ _ _ _ _ _ _ E2) as Hi.
    unfold on_executors, on_db, ResourceDB.on_executors in E1. do 2 run_inv_at E1.
    apply ResourceDB.make_shared_inv in E1 as (-> & rb & sb & ->).
    destruct (initialize_connection_inv _ _ _ _ _ _ _ _ E2 (lookup_insert_eq _ _ _)) as (e & He & Hce & Hn).
    rewrite (accept_run conn id) in E.
    2:{ change (the_ids (set_executor_queue _ m2)) with (the_ids m2). rewrite Hi.
        unfold the_ids, Rdma.ids. cbn. by rewrite lookup_fmap, Hc, <-Hid. }
    injection E as <- <-. eexists _, e, _. split; [done|]. cbn. rewrite Hq1, Hq2. by split_and!.
  - intros Hne status m' t' E. unfold handle_event in E. rewrite (bind_run _ _ _ _ _ _ _ Hp) in E.
    apply Z.eqb_neq in Hne. rewrite Hne in E.
    match type of E with ?op _ _ = _ => assert (frames (λ m, (_executor_queue m, m_db m)) op) as Hf end.
    { unfold enqueue_client. destruct status; cbn [andb]; repeat case_match; auto 10 with rfaas. }
    by apply Hf, pair_equal_spec in E.
Qed.

(** C3. Executors are admitted by their secret. A connection request with the key
    of executors and a secret other than the configured one is rejected, and that
    is all that happens; with the right secret an executor object for that
    connection (without a name yet) is created and queued for the executors'
    thread, and the connection is accepted.  A peer with any other key changes
    neither the queue of executors nor the database, whatever its event. *)
Theorem executor_admission `{Env} m t conn c id key secret :
  Rdma.p_store (m_state m) !! conn = Some c → Connection._id c = Some id →
  PrivateData.key 8 8 16 (Connection.private_data c) = Some key →
  PrivateData.secret 16 (Connection.private_data c) = Some secret →
  (key = 1 → secret ≠ _secret m →
   handle_event conn Connection.REQUESTED m t = Ok (tt, m, Creject id :: t)) ∧
  (key = 1 → secret = _secret m → ∀ m' t',
   handle_event conn Connection.REQUESTED m t = Ok (tt, m', t') →
   ∃ exec e t1, t' = Caccept id :: t1 ∧
     _executor_queue m' = _executor_queue m ++ [ExecConnect exec] ∧ _client_queue m' = _client_queue m ∧
     ResourceDB.heap (ResourceDB._executors (m_db m')) !! exec = Some e ∧
     ResourceDB._connection e = Some conn ∧ ResourceDB.node e = ""%string) ∧
  (key ≠ 1 → ∀ status m' t', handle_event conn status m t = Ok (tt, m', t') →
   _executor_queue m' = _executor_queue m ∧ m_db m' = m_db m).
Proof. apply admission_inv. Qed.

Lemma executor_admission_witness :
  @handle_event ideal_env 1 Connection.REQUESTED
    (demo_manager {[ 1 := peer (2 ^ 24 + 78) ]} ResourceDB.empty_db) [] =
  Ok (tt, demo_manager {[ 1 := peer (2 ^ 24 + 78) ]} ResourceDB.empty_db, [Creject some_id]).
Proof.
  apply (@executor_admission ideal_env
    (demo_manager {[ 1 := peer (2 ^ 24 + 78) ]} ResourceDB.empty_db) [] 1 (peer (2 ^ 24 + 78))
    some_id 1 78); [reflexivity..|discriminate].
Defined.

(** A secret of more than 16 bits locks every executor out. The secret a peer
    sends is the low 16 bits of its private data, while the configured one is a
    full 32-bit number: when that does not fit in 16 bits, the manager rejects
    every connection request of an executor. *)
Theorem wide_secret_rejects_all `{Env} m t conn c id :
  2 ^ 16 ≤ _secret m →
  Rdma.p_store (m_state m) !! conn = Some c → Connection._id c = Some id →
  PrivateData.key 8 8 16 (Connection.private_data c) = Some 1 →
  handle_event conn Connection.REQUESTED m t = Ok (tt, m, Creject id :: t).
Proof.
  intros Hw Hc Hid Hk.
  set (secret := u16 (Connection.private_data c)).
  assert (PrivateData.secret 16 (Connection.private_data c) = Some secret) as Hs.
  { apply (PrivateData.secret_closed 8 8 16). unfold PrivateData.template_ok. lia. }
  assert (0 ≤ secret < 2 ^ 16) by (by apply wrap_range).
  unfold handle_event. rewrite (bind_run _ _ _ _ _ _ _ (conn_private_run conn c 1 secret m t Hc Hk Hs)).
  run. destruct (Z.eqb_spec secret (_secret m)); [lia|]. cbn [Z.eqb Pos.eqb andb negb].
  unfold on_state, Rdma.reject, Rdma.the_id. run. rewrite Hc. run. rewrite Hid. by destruct m.
Qed.

Lemma wide_secret_rejects_all_witness :
  let m := mk_manager (Rdma.set_store {[ 1 := peer (2 ^ 24 + 78) ]} Rdma.listener) ResourceDB.empty_db
             ∅ ∅ 0 [] [] 70000 64 in
  @handle_event ideal_env 1 Connection.REQUESTED m [] = Ok (tt, m, [Creject some_id]).
Proof.
  intros m. apply (@wide_secret_rejects_all ideal_env m [] 1 (peer (2 ^ 24 + 78)) some_id);
    [vm_compute; discriminate|reflexivity..].
Defined.

(** What serving a request does not change after the lease is opened. *)
Definition booked (m : manager) : ResourceDB.ExecutorDB * gmap Z Client * gmap nat LeaseAllocation :=
  (m_db m, _clients m, m_send_data m).

(** The executor is told, then the client is answered. *)
Lemma tell_then_answer `{Env} econn b conn b' m t u m' t' :
  (send_buffer econn b 1 ;; on_conn econn (Connection.poll_wc Connection.SEND true 1) ;; send_buffer conn b' 1) m t =
    Ok (u, m', t') →
  booked m' = booked m ∧
  ∀ qpe qpc, the_qps m !! econn = Some (Some qpe) → the_qps m !! conn = Some (Some qpc) →
    sends t' = sends t ++ [(qpe, Buffer.whole b, 1); (qpc, Buffer.whole b', 1)].
Proof.
  intros E. bind_inv E as ? m1 t1 E1. bind_inv E as ? m2 t2 E2. split.
  - rewrite (frames_send_buffer booked ltac:(reflexivity) _ _ _ _ _ _ _ _ E).
    rewrite (frames_on_conn booked ltac:(reflexivity) _ _ _ _ _ _ _ E2).
    exact (frames_send_buffer booked ltac:(reflexivity) _ _ _ _ _ _ _ _ E1).
  - intros qpe qpc Hqpe Hqpc.
    apply (send_buffer_inv _ _ _ _ _ _ _ _ qpe) in E1 as (Hs1 & Hq1 & _); [|done].
    assert (frames Connection._qp (Connection.poll_wc Connection.SEND true 1)) as Hfq.
    { unfold Connection.poll_wc, Connection.the_qp. auto 10 using Rdma.frames_poll_loop with rfaas. }
    pose proof (frames_qps _ _ Hfq _ _ _ _ _ E2) as Hq2.
    apply (silent_on_conn _ _ (Rdma.silent_poll_wc _ _ _)) in E2 as (v & -> & Hv).
    destruct (send_buffer_inv _ _ _ _ _ _ _ _ qpc E) as (-> & _ & _); [by rewrite Hq2, Hq1|].
    rewrite sends_app, (sends_silent v), app_nil_r, Hs1 by done. by rewrite <-app_assoc.
Qed.

(** The end of serving a request: the receive is posted again. *)
Lemma repost_inv `{Env} {A} conn (a : A) m t r m' t' :
  (on_conn conn (Connection.receive_wcs (Queue.update_requests (-1))) ;;
   on_conn conn (Connection.receive_wcs Queue.refill) ;; mret a) m t = Ok (r, m', t') →
  r = a ∧ sends t' = sends t ∧ booked m' = booked m.
Proof.
  intros E. bind_inv E as ? m1 t1 E1. bind_inv E as ? m2 t2 E2. run_inv_at E.
  apply (frames_on_conn booked ltac:(reflexivity)) in E1 as F1, E2 as F2.
  apply (silent_on_conn _ _ (emits_zoom _ _ _ _ Rdma.silent_refill)) in E2 as (u & -> & Hu).
  apply (silent_on_conn _ _ (emits_zoom _ _ _ _ (emits_modify _ _))) in E1 as (v & -> & Hv).
  rewrite !sends_app, (sends_silent u), (sends_silent v), !app_nil_r by done. by rewrite F2, F1.
Qed.

(** What a request for cores leads to. *)
Lemma lease_request_inv `{Env} erased requests wc ps m t ps' m' t' client conn qpc :
  wc_status wc = 0 → _clients m !! wc_qp_num wc = Some client → connection client = Some conn →
  the_qps m !! conn = Some (Some qpc) →
  let req := requests t (wc_qp_num wc) (wc_wr_id wc) in
  0 < i16 (lr_cores req) →
  _handle_client_message erased requests wc ps m t = Ok (ps', m', t') →
  ∃ r resp,
    ResourceDB.open_lease erased (i16 (lr_cores req)) (i32 (lr_memory req)) (response_data client)
      (m_db m) t = Ok ((r, resp), m_db m', t) ∧
    ps' = ps ++ [wc_qp_num wc] ∧
    _clients m' !! wc_qp_num wc = Some (set_response_data resp client) ∧
    match r with
    | None => sends t' = sends t ++ [(qpc, Buffer.whole (_response client), 0)]
    | Some l =>
        m_send_data m' !! l =
          Some (mk_LeaseAllocation (i32 (lr_memory req)) (i16 (lr_cores req)) (u32 (resp_lease_id resp))) ∧
        ∃ e econn, ResourceDB.heap (ResourceDB._executors (m_db m')) !! l = Some e ∧
          ResourceDB._connection e = Some econn ∧
          ∀ qpe, the_qps m !! econn = Some (Some qpe) →
            sends t' = sends t ++ [(qpe, Buffer.whole (ResourceDB._send_buffer e), 1);
                                   (qpc, Buffer.whole (_response client), 1)]
    end.
Proof.
  intros Hst Hcl Hconn Hqpc req Hcores E. unfold _handle_client_message in E.
  rewrite Hst in E. change (nonzero 0) with false in E. cbv beta iota in E. step_inv E.
  rewrite Hcl in E. bind_inv E as ? m3 t3 E3. case_bool_decide; run_inv_at E3.
  bind_inv E as req' m4 t4 E4. injection E4 as <- <- <-. cbn zeta in E. fold req in E.
  destruct (Z.ltb_spec 0 (i16 (lr_cores req))); [|lia]. rewrite Hconn in E.
  bind_inv E as conn' m5 t5 E5. injection E5 as <- <- <-.
  bind_inv E as r m6 t6 E6. unfold on_db in E6. run_inv_at E6. destruct r as [r resp].
  assert (t6 = t) as ->.
  { apply open_lease_silent in E6 as ([|? u] & -> & Hu); [done|]. by inversion Hu. }
  bind_inv E as ? m7 t7 E7. unfold update_client in E7. run_inv_at E7.
  bind_inv E as ? m8 t8 E8. apply repost_inv in E as (-> & Hs & [= Hdb Hcs Hsd]).
  exists r, resp. rewrite Hdb, Hcs, Hsd, Hs. destruct r as [l|].
  - step_inv E8. bind_inv E8 as e m9 t9 E9.
    unfold on_executors, on_db, ResourceDB.on_executors in E9. do 2 run_inv_at E9.
    apply ResourceDB.deref_inv in E9 as (He & -> & ->).
    bind_inv E8 as econn m10 t10 E10. run_inv_at E10. apply from_opt_Ok in E10.
    apply tell_then_answer in E8 as [[= F1 F2 F3] Hsends]. cbn in He.
    rewrite F1, F2, F3, !lookup_insert_eq. cbn. destruct x as [ex ls lc fn] eqn:Ex; cbn in *.
    split_and!; try done. exists e, econn. split_and!; try done. intros qpe Hqpe. by apply Hsends.
  - pose proof (frames_send_buffer booked ltac:(reflexivity) _ _ _ _ _ _ _ _ E8) as F8.
    unfold booked in F8. injection F8 as F1 F2 F3. rewrite F1, F2. cbn. rewrite lookup_insert_eq. split_and!; [done..|].
    by apply (send_buffer_inv _ _ _ _ _ _ _ _ qpc) in E8 as (-> & _ & _).
Qed.

(** C2. How a lease request is served. For a known client that asks for a positive
    number of cores, the manager opens a lease for exactly what was asked; the
    client's response buffer holds the answer of [open_lease] and the client is
    registered for the completion of its send.  Without a node, the only message
    sent is the response, with immediate value 0.  With one, the executor's buffer
    holds the lease's number, cores and memory, and the executor is told (with
    immediate value 1) before the client gets its response, also with value 1. *)
Theorem lease_request_served `{Env} erased requests wc ps m t ps' m' t' client conn qpc :
  wc_status wc = 0 → _clients m !! wc_qp_num wc = Some client → connection client = Some conn →
  the_qps m !! conn = Some (Some qpc) →
  let req := requests t (wc_qp_num wc) (wc_wr_id wc) in
  0 < i16 (lr_cores req) →
  _handle_client_message erased requests wc ps m t = Ok (ps', m', t') →
  ∃ r resp,
    ResourceDB.open_lease erased (i16 (lr_cores req)) (i32 (lr_memory req)) (response_data client)
      (m_db m) t = Ok ((r, resp), m_db m', t) ∧
    ps' = ps ++ [wc_qp_num wc] ∧
    _clients m' !! wc_qp_num wc = Some (set_response_data resp client) ∧
    match r with
    | None => sends t' = sends t ++ [(qpc, Buffer.whole (_response client), 0)]
    | Some l =>
        m_send_data m' !! l =
          Some (mk_LeaseAllocation (i32 (lr_memory req)) (i16 (lr_cores req)) (u32 (resp_lease_id resp))) ∧
        ∃ e econn, ResourceDB.heap (ResourceDB._executors (m_db m')) !! l = Some e ∧
          ResourceDB._connection e = Some econn ∧
          ∀ qpe, the_qps m !! econn = Some (Some qpe) →
            sends t' = sends t ++ [(qpe, Buffer.whole (ResourceDB._send_buffer e), 1);
                                   (qpc, Buffer.whole (_response client), 1)]
    end.
Proof. apply lease_request_inv. Qed.

(** The client is told about the lease after the executor. *)
Lemma lease_request_served_witness :
  ∃ ps' m' t' e,
    @_handle_client_message busy_env Some one_request (mk_wc 0 0 5 0 8) [] demo_run.1 demo_run.2 =
      Ok (ps', m', t') ∧
    ResourceDB.heap (ResourceDB._executors (m_db m')) !! 0%nat = Some e ∧
    map fst (map fst (drop (length (sends demo_run.2)) (sends t'))) = [mk_qp 9 70 71 72; mk_qp 5 70 71 72].
Proof.
  destruct (@_handle_client_message busy_env Some one_request (mk_wc 0 0 5 0 8) [] demo_run.1 demo_run.2)
    as [[[ps' m'] t']|] eqn:E; [|vm_compute in E; discriminate E].
  destruct (_clients demo_run.1 !! 5) as [client|] eqn:Hcl; [|vm_compute in Hcl; discriminate Hcl].
  assert (connection client = Some 1) as Hconn by (vm_compute in Hcl; injection Hcl as <-; reflexivity).
  destruct (@lease_request_served busy_env Some one_request (mk_wc 0 0 5 0 8) [] demo_run.1 demo_run.2
    ps' m' t' client 1 (mk_qp 5 70 71 72) eq_refl Hcl Hconn ltac:(vm_compute; reflexivity)
    ltac:(reflexivity) E) as (r & resp & Ho & _ & _ & Hr).
  assert (r = Some 0%nat) as ->.
  { vm_compute in Hcl. injection Hcl as <-. vm_compute in Ho. injection Ho. congruence. }
  destruct Hr as (_ & e & econn & He & Hec & Hs).
  exists ps', m', t', e. split; [reflexivity|]. split; [exact He|].
  rewrite (Hs (mk_qp 9 70 71 72)); [by rewrite drop_app_length|].
  assert (econn = 7) as ->; [|vm_compute; reflexivity].
  vm_compute in E. injection E as <- <- <-. vm_compute in He. injection He as <-.
  injection Hec as <-. reflexivity.
Defined.

(** A request followed by a goodbye makes the manager follow a dangling
    pointer. When one poll returns a client's lease request and then its message
    with no cores, the first registers a pointer to the client for the completion
    of its send and the second erases the client; the loop that waits for the
    completions then dereferences the erased element. *)
Theorem request_then_goodbye_dangles :
  let goodbye t (qp id : Z) := if id =? 0 then mk_LeaseRequest 3 512 else mk_LeaseRequest 0 0 in
  let env := scripted_env 8 (λ _ cq num, if num =? 1 then (1, [mk_wc 0 0 5 0 8])
                                        else (2, [mk_wc 0 0 5 0 8; mk_wc 0 1 5 0 8]))
               (λ _, (0, quiet_event)) (λ _, 0) (λ _, 0) in
  @process_clients env Some goodbye (Rdma.mk_poller 21 20) demo_run.1 demo_run.2 =
    Fault (Undefined "dangling client").
Proof. vm_compute. reflexivity. Qed.



(** The memory as a string, behind a null character that the parser does not see. *)
Example memory_as_string :
  let members := [("ip_address", JString "10.0.0.1"); ("port", JInt 10000); ("cores", JInt 4);
                  ("memory", JString "1024")]%string in
  @onRequest ideal_env (λ s, if String.eqb s "text" then Some (JObject members) else None) (Some "n"%string) "/add"
    (String.append "text" (String nul "more")) ResourceDB.empty_db [] = Fault (Undefined "not an integer").
Proof. vm_compute. reflexivity. Qed.

End ResourceManager.
