(* ===== verification/ExecutorManager.v ===== *)
(** * The executor manager

    src/server/executor_manager: the leases, the connection to the resource
    manager and [Manager] (manager.{hpp,cpp}), [Client] (client.{hpp,cpp}) and the
    executor processes (executor_process.{hpp,cpp}).  As for the resource manager,
    a handler or one iteration of a thread's loop is one operation on the state.

    Some values the program uses are not determined by the program, and the
    operations take them as arguments: [wide_shift], the value of a 32-bit one
    shifted by 32 places ([None]: the program crashes); [indeterminate], the value
    of an [int] that was never written; [alloc_requests] and [accounting_data],
    what clients and executors write into the registered buffers. *)

From stdpp Require Import pretty.
From S2P Require Import Prelude CommandLine Verbs PrivateData Buffer Queue Connection Messages Rdma.

Module ExecutorManager.

Definition SIGTERM : Z := 15.
Definition WNOHANG : Z := 1.
Definition WUNTRACED : Z := 2.
Definition ECHILD : Z := 10.

(** ** Leases *)

Record Lease := mk_Lease { l_id : Z; l_cores : Z; l_memory : Z }.

Abbreviation Leases := (gmap Z Lease).

(** [insert] and [insert_threadsafe]: [try_emplace] keeps an existing lease. *)
Definition insert_threadsafe (l : Lease) (ls : Leases) : Leases :=
  match ls !! l_id l with Some _ => ls | None => <[l_id l := l]> ls end.

(** [get] removes the lease, [get_threadsafe] does not. *)
Definition get (id : Z) (ls : Leases) : option Lease * Leases :=
  match ls !! id with Some l => (Some l, delete id ls) | None => (None, ls) end.
Definition get_threadsafe (id : Z) (ls : Leases) : option Lease := ls !! id.

(** ** Executor processes *)

Inductive Status : Type := RUNNING | FINISHED | FINISHED_FAIL.

#[global] Instance Status_eq_dec : EqDecision Status.
Proof. solve_decision. Defined.

(** [connections] is the array of [cores] pointers; an element that was not
    written yet is [None]. *)
Record ProcessExecutor := mk_ProcessExecutor {
  _allocation_begin : Z; _allocation_finished : Z; connections : list (option Z);
  connections_len : Z; pe_cores : Z; _pid : Z }.

(** [ProcessExecutor(cores, alloc_begin, pid)]: a negative array size throws. *)
Definition process_executor (cores alloc_begin pid : Z) : result ProcessExecutor :=
  if cores <? 0 then Fault (Throw "bad_array_new_length")
  else Ok (mk_ProcessExecutor alloc_begin alloc_begin (replicate (Z.to_nat cores) None) 0 cores pid).

Definition add_executor (conn : Z) (e : ProcessExecutor) : result ProcessExecutor :=
  let pos := connections_len e in
  c ← from_opt "connections out of bounds" (zset (connections e) pos (Some conn));
  Ok (mk_ProcessExecutor (_allocation_begin e) (_allocation_finished e) c (pos + 1) (pe_cores e) (_pid e)).

(** The macros of [sys/wait.h]. *)
Definition WTERMSIG (status : Z) : Z := Z.land status 0x7f.
Definition WIFEXITED (status : Z) : bool := WTERMSIG status =? 0.
Definition WEXITSTATUS (status : Z) : Z := Z.shiftr (Z.land status 0xff00) 8.
Definition WIFSIGNALED (status : Z) : bool := negb (WIFEXITED status) && negb (WTERMSIG status =? 0x7f).

Record ExecutorSettings := mk_ExecutorSettings {
  use_docker : bool; repetitions : Z; warmup_iters : Z; recv_buffer_size : Z;
  xs_max_inline_data : Z; pin_threads : bool }.

Record ManagerConnection := mk_ManagerConnection {
  mc_addr : string; mc_port : Z; mc_secret : Z; mc_r_addr : Z; mc_r_key : Z }.

(** [std::to_string] *)
Abbreviation to_string := CommandLine.to_string.

(** The options both command lines share. *)
Definition executor_options (output_size : string) (client_addr : string) (request : AllocationRequest)
    (exec : ExecutorSettings) (conn : ManagerConnection) (lease : Lease) : list string :=
  ["-a"; client_addr;
   "-p"; to_string (ar_listen_port request);
   "--polling-mgr"; "thread";
   "-r"; to_string (repetitions exec);
   "-x"; to_string (recv_buffer_size exec);
   "-s"; to_string (ar_input_buf_size request);
   output_size; to_string (ar_output_buf_size request);
   "--pin-threads"; to_string (if pin_threads exec then 1 else 0);
   "--fast"; to_string (l_cores lease);
   "--warmup-iters"; to_string (warmup_iters exec);
   "--max-inline-data"; to_string (xs_max_inline_data exec);
   "--func-size"; to_string (ar_func_buf_size request);
   "--timeout"; to_string (ar_hot_timeout request);
   "--mgr-address"; mc_addr conn;
   "--mgr-port"; to_string (mc_port conn);
   "--mgr-secret"; to_string (mc_secret conn);
   "--mgr-buf-addr"; to_string (mc_r_addr conn);
   "--mgr-buf-rkey"; to_string (mc_r_key conn);
   "--core-start-idx"; to_string (ar_core_start_index request)]%string.

Definition executor_argv (client_addr : string) (request : AllocationRequest)
    (exec : ExecutorSettings) (conn : ManagerConnection) (lease : Lease) : list string :=
  if negb (use_docker exec) then
    "executor"%string :: executor_options "--output-size" client_addr request exec conn lease
  else
    ["docker_rdma_sriov"; "run"; "--rm"; "--net=mynet"; "-i"; "--ip=148.187.105.250";
     "--volume"; "/users/mcopik/projects/rdma/repo/build_repo2:/opt"; "rdma-test"; "/opt/bin/executor"]%string
    ++ executor_options "output-size" client_addr request exec conn lease.

Section Process.
Context `{Env} {S : Type}.

Definition check (e : ProcessExecutor) : M S (Status * Z) :=
  let options := Z.lor WNOHANG WUNTRACED in
  r ← ext (Cwaitpid (_pid e) options) (λ tr, env_waitpid tr (_pid e) options);
  let '(return_pid, status, errno) := r in
  mret (if return_pid =? 0 then (RUNNING, 0)
        else if (return_pid =? -1) && (errno =? ECHILD) then (FINISHED, -1)
        else if return_pid =? -1 then (FINISHED_FAIL, -1)
        else if WIFEXITED status then (FINISHED, WEXITSTATUS status)
        else if WIFSIGNALED status then (FINISHED_FAIL, WTERMSIG status)
        else (FINISHED_FAIL, -1)).

(** [ProcessExecutor::spawn]: in the parent. What the child executes is logged
    with the fork that made it. *)
Definition spawn (request : AllocationRequest) (exec : ExecutorSettings) (conn : ManagerConnection)
    (lease : Lease) : M S ProcessExecutor :=
  begin ← ext Cclock env_clock;
  addr ← lift (from_opt "unterminated listen address" (c_str (ar_listen_address request)));
  pid ← ext Cfork env_fork;
  when (0 <? pid)
    (ext (Cexecvp (executor_argv (String.string_of_list_ascii addr) request exec conn lease))
         (λ _, tt)) ;;
  lift (process_executor (l_cores lease) begin pid).
End Process.

(** ** Client *)

Definition RECV_BUF_SIZE : Z := 8.
Record Accounting := mk_Accounting { hot_polling_time : Z; execution_time : Z }.
Definition sizeof_Accounting : Z := sizeof [int64; int64].

(** [_id] is [None] when it was never written. *)
Record Client := mk_Client {
  connection : option Z; allocation_requests : Buffer.t; executor : option ProcessExecutor;
  accounting : Buffer.t; allocation_time : Z; _active : bool; _id : option Z }.

(** [Client(Client&&)]: the new client and what is left. *)
Definition client_move (obj : Client) : Client * Client :=
  let '(q, q') := Buffer.move_construct (allocation_requests obj) in
  let '(a, a') := Buffer.move_construct (accounting obj) in
  (mk_Client (connection obj) q (executor obj) a (allocation_time obj) (_active obj) None,
   mk_Client None q' None a' (allocation_time obj) (_active obj) (_id obj)).

Definition set_executor (e : option ProcessExecutor) (c : Client) : Client :=
  mk_Client (connection c) (allocation_requests c) e (accounting c)
    (allocation_time c) (_active c) (_id c).
Definition set_allocation_time (t : Z) (c : Client) : Client :=
  mk_Client (connection c) (allocation_requests c) (executor c) (accounting c)
    (u32 t) (_active c) (_id c).
Definition set_disabled (c : Client) : Client :=
  mk_Client None (allocation_requests c) (executor c) (accounting c)
    (allocation_time c) false (_id c).

(** ** The connection to the resource manager

    [rm_sent] is the message in the send buffer. *)

Record ResourceManagerConnection := mk_rm {
  rm_connection : Rdma.active; rm_receive_buffer : Buffer.t; rm_send_buffer : Buffer.t;
  rm_sent : option exec_message }.

Definition set_rm_connection (a : Rdma.active) (r : ResourceManagerConnection) :=
  mk_rm a (rm_receive_buffer r) (rm_send_buffer r) (rm_sent r).
Definition set_rm_sent (x : exec_message) (r : ResourceManagerConnection) :=
  mk_rm (rm_connection r) (rm_receive_buffer r) (rm_send_buffer r) (Some x).

Section ResourceManagerConnection.
Context `{Env}.

(** The constructor. *)
Definition rm_construct {S} (name : string) (port receive_buf_size : Z) : M S ResourceManagerConnection :=
  a ← Rdma.active_construct name port receive_buf_size 0;
  rb ← Buffer.allocate receive_buf_size sizeof_LeaseAllocation 0;
  sb ← Buffer.allocate (Z.max sizeof_LeaseDeallocation sizeof_NodeRegistration) 1 0;
  a ← (λ s t, match Rdma.allocate a t with Ok (_, a', t') => Ok (a', s, t') | Fault f => Fault f end);
  sb ← Buffer.on_buffer sb (Buffer.register_memory (Rdma._pd a) IBV_ACCESS_LOCAL_WRITE);
  rb ← Buffer.on_buffer rb (Buffer.register_memory (Rdma._pd a)
         (Z.lor IBV_ACCESS_LOCAL_WRITE IBV_ACCESS_REMOTE_WRITE));
  mret (mk_rm a rb sb None).

(** [_connection.connection().op(...)] *)
Definition on_rm_conn {A} (op : M Connection.t A) : M ResourceManagerConnection A :=
  r ← read;
  c ← lift (from_opt "null connection" (Rdma._conn (rm_connection r)));
  zoom (λ _, c) (λ c r, set_rm_connection (Rdma.set_conn (Some c) (rm_connection r)) r) op.

(** [post_send(_send_buffer, 0)], then [poll_wc(SEND, true, 1)]. *)
Definition rm_send : M ResourceManagerConnection (option (list ibv_wc) * Z) :=
  b ← gets rm_send_buffer;
  sges ← Buffer.add [] b;
  on_rm_conn (Connection.post_send sges 0 false None) ;;
  on_rm_conn (Connection.poll_wc Connection.SEND true 1).

Definition rm_connect (node_name : string) (secret : Z) : M ResourceManagerConnection bool :=
  ok ← zoom rm_connection set_rm_connection (Rdma.connect secret);
  if negb ok then mret false else
  b ← gets rm_receive_buffer;
  on_rm_conn (Connection.receive_wcs (Queue.initialize b (-1))) ;;
  modify (set_rm_sent (NodeRegistration
    (strncpy NODE_NAME_LENGTH (String.list_ascii_of_string node_name)))) ;;
  rm_send ;;
  mret true.

(** [close_lease]; the error message reads [wcs\[0\]] of a failed poll. *)
Definition rm_close_lease (lease_id allocation_time execution_time hot_polling_time : Z) :
    M ResourceManagerConnection unit :=
  modify (set_rm_sent (LeaseDeallocationMsg
    (mk_LeaseDeallocation (i32 lease_id) allocation_time hot_polling_time execution_time))) ;;
  r ← rm_send;
  if r.2 =? 0 then mret tt else
  match r.1 with
  | None => raise (Undefined "null work completion")
  | Some _ => mret tt
  end.
End ResourceManagerConnection.

(** ** Manager *)

Record Settings := mk_Settings {
  s_ip_address : string; s_rdma_device_port : Z; s_node_name : string;
  s_resource_manager_secret : Z; s_exec : ExecutorSettings }.

Inductive client_op : Type :=
  | ConnectExecutor (conn : Z) | ConnectClient (client : Client) | Disconnect (conn : Z).

(** [m_clients_to_connect] is the local set of the listener; [m_status] is the
    contents of [_client_responses\[0\]]. *)
Record manager := mk_manager {
  m_state : Rdma.passive; m_queue : list client_op; _clients : gmap Z Client;
  m_rm : option ResourceManagerConnection; _client_responses : Buffer.t; m_status : option Z;
  _settings : Settings; _skip_rm : bool; _leases : Leases; m_clients_to_connect : gset Z }.

Definition set_state (x : Rdma.passive) (m : manager) : manager :=
  mk_manager x (m_queue m) (_clients m) (m_rm m) (_client_responses m) (m_status m) (_settings m)
    (_skip_rm m) (_leases m) (m_clients_to_connect m).
Definition set_queue (x : list client_op) (m : manager) : manager :=
  mk_manager (m_state m) x (_clients m) (m_rm m) (_client_responses m) (m_status m) (_settings m)
    (_skip_rm m) (_leases m) (m_clients_to_connect m).
Definition set_clients (x : gmap Z Client) (m : manager) : manager :=
  mk_manager (m_state m) (m_queue m) x (m_rm m) (_client_responses m) (m_status m) (_settings m)
    (_skip_rm m) (_leases m) (m_clients_to_connect m).
Definition set_rm (x : option ResourceManagerConnection) (m : manager) : manager :=
  mk_manager (m_state m) (m_queue m) (_clients m) x (_client_responses m) (m_status m) (_settings m)
    (_skip_rm m) (_leases m) (m_clients_to_connect m).
Definition set_responses (b : Buffer.t) (x : option Z) (m : manager) : manager :=
  mk_manager (m_state m) (m_queue m) (_clients m) (m_rm m) b x (_settings m)
    (_skip_rm m) (_leases m) (m_clients_to_connect m).
Definition set_leases (x : Leases) (m : manager) : manager :=
  mk_manager (m_state m) (m_queue m) (_clients m) (m_rm m) (_client_responses m) (m_status m) (_settings m)
    (_skip_rm m) x (m_clients_to_connect m).
Definition set_to_connect (x : gset Z) (m : manager) : manager :=
  mk_manager (m_state m) (m_queue m) (_clients m) (m_rm m) (_client_responses m) (m_status m) (_settings m)
    (_skip_rm m) (_leases m) x.

Definition on_state {A} (op : M Rdma.passive A) : M manager A := zoom m_state set_state op.

Definition on_rm {A} (op : M ResourceManagerConnection A) : M manager A :=
  m ← read;
  r ← lift (from_opt "null resource manager connection" (m_rm m));
  zoom (λ _, r) (λ r m, set_rm (Some r) m) op.

(** [PrivateData<0, 0, 32>]: the pattern is a shift by the whole width, less one. *)
Definition wide_secret (wide_shift : option Z) (data : Z) : option Z :=
  s ← wide_shift; Some (Z.land data (u32 (s - 1))).

Section Manager.
Context `{Env} (wide_shift : option Z) (indeterminate : Z)
  (alloc_requests : trace → Z → Z → AllocationRequest) (accounting_data : trace → Z → Accounting).

Definition on_conn {A} (conn : Z) (op : M Connection.t A) : M manager A :=
  on_state (Rdma.on_conn conn op).

Definition pd : M manager Z := gets (λ m, Rdma.p_pd (m_state m)).

Definition conn_qp_num (conn : Z) : M manager Z :=
  qp ← on_conn conn Connection.the_qp; mret (qp_num qp).

(** [Client(id, conn, pd, active)] *)
Definition client_construct (id conn : Z) (active : bool) : M manager Client :=
  p ← pd;
  q ← Buffer.allocate RECV_BUF_SIZE sizeof_AllocationRequest 0;
  a ← Buffer.allocate 1 sizeof_Accounting 0;
  a ← Buffer.on_buffer a (Buffer.register_memory p
        (Z.lor (Z.lor IBV_ACCESS_LOCAL_WRITE IBV_ACCESS_REMOTE_WRITE) IBV_ACCESS_REMOTE_ATOMIC));
  q ← Buffer.on_buffer q (Buffer.register_memory p (Z.lor IBV_ACCESS_LOCAL_WRITE IBV_ACCESS_REMOTE_WRITE));
  on_conn conn (Connection.receive_wcs (Queue.initialize q (-1))) ;;
  mret (mk_Client (Some conn) q None a 0 active (Some (i32 id))).

(** [~ActiveExecutor] *)
Definition executor_destroy (e : ProcessExecutor) : M manager unit :=
  for_each (range (connections_len e)) (λ i,
    c ← lift (from_opt "connections out of bounds" (znth (connections e) i));
    conn ← lift (from_opt "uninitialised connection" c);
    on_state (Rdma.delete_conn conn)).

Definition reset_executor (c : Client) : M manager Client :=
  match executor c with
  | Some e => executor_destroy e
  | None => mret tt
  end ;;
  mret (set_executor None c).

(** [~Client]: the body, then the members in reverse order. *)
Definition client_destroy (c : Client) : M manager unit :=
  match connection c with
  | Some conn => on_conn conn Connection.close ;; on_state (Rdma.delete_conn conn)
  | None => mret tt
  end ;;
  Buffer.destroy (accounting c) ;;
  c ← reset_executor c;
  Buffer.destroy (allocation_requests c).

Definition reload_queue (c : Client) : M manager unit :=
  conn ← lift (from_opt "null connection" (connection c));
  on_conn conn (Connection.receive_wcs Queue.refill) ;; mret tt.

(** [allocation_time += duration_cast<microseconds>(now - finished).count()] *)
Definition charge_allocation (e : ProcessExecutor) (c : Client) : M manager Client :=
  now ← ext Cclock env_clock;
  mret (set_allocation_time (allocation_time c + Z.quot (now - _allocation_finished e) 1000) c).

(** [disable(res_mgr_connection)]: the client that is left. *)
Definition disable (c : Client) : M manager Client :=
  c ← match executor c with Some e => charge_allocation e c | None => mret c end;
  conn ← lift (from_opt "null connection" (connection c));
  id ← on_state (Rdma.the_id conn);
  ext (Cdisconnect id) (λ _, tt) ;;
  c ← match executor c with
      | Some e =>
          ext Cclock (λ _, tt) ;;
          ext (Ckill (_pid e) SIGTERM) (λ _, tt) ;;
          ext (Cwaitpid (_pid e) WUNTRACED) (λ _, tt) ;;
          ext Cclock (λ _, tt) ;;
          reset_executor c
      | None => mret c
      end;
  m ← read;
  match m_rm m with
  | Some _ =>
      acc ← peek (λ t, accounting_data t (Buffer.ptr (accounting c)));
      on_rm (rm_close_lease (default indeterminate (_id c)) (allocation_time c)
               (execution_time acc) (hot_polling_time acc))
  | None => mret tt
  end ;;
  on_conn conn Connection.close ;;
  on_state (Rdma.delete_conn conn) ;;
  mret (set_disabled c).

(** *** Start *)

(** The private data sent to the resource manager. *)
Definition start_data (secret : Z) : option Z :=
  d ← PrivateData.set_secret 16 (u32 secret) 0; PrivateData.set_key 8 8 16 1 d.

Definition start : M manager unit :=
  m ← read;
  when (negb (_skip_rm m))
    (data ← lift (from_opt "shift" (start_data (s_resource_manager_secret (_settings m))));
     ok ← on_rm (rm_connect (s_node_name (_settings m)) data);
     expect_true ok) ;;
  on_state (Rdma.register_shared_queue 0 false) ;;
  p ← pd;
  b ← Buffer.on_buffer (_client_responses m) (Buffer.register_memory p IBV_ACCESS_LOCAL_WRITE);
  modify (λ m, set_responses b (m_status m) m).

(** *** The listener *)

Definition enqueue (op : client_op) : M manager unit :=
  modify (λ m, set_queue (m_queue m ++ [op]) m).

(** The second statement of the branch for a disconnection. *)
Definition forget (conn : Z) : M manager unit :=
  qp ← conn_qp_num conn;
  modify (λ m, set_to_connect (m_clients_to_connect m ∖ {[qp]}) m).

Definition handle_event (conn : Z) (status : Connection.ConnectionStatus) : M manager unit :=
  match status with
  | Connection.DISCONNECTED => enqueue (Disconnect conn) ;; forget conn
  | Connection.REQUESTED =>
      m ← read;
      c ← lift (from_opt "dangling connection" (Rdma.p_store (m_state m) !! conn));
      secret ← lift (from_opt "shift" (wide_secret wide_shift (Connection.private_data c)));
      if 0 <? secret then
        if bool_decide (Connection.private_data c ∈ m_clients_to_connect m) then
          on_state (Rdma.accept conn) ;; enqueue (ConnectExecutor conn)
        else
          on_state (Rdma.reject conn) ;; on_state (Rdma.delete_conn conn)
      else
        qp ← conn_qp_num conn;
        client ← client_construct qp conn true;
        modify (λ m, set_to_connect ({[qp]} ∪ m_clients_to_connect m) m) ;;
        on_state (Rdma.accept conn) ;;
        enqueue (ConnectClient (client_move client).1)
  | Connection.ESTABLISHED | Connection.UNKNOWN => mret tt
  end.

Definition POLLING_TIMEOUT_MS : Z := 100.

(** One iteration of [listen]. *)
Definition listen : M manager unit :=
  ready ← on_state (Rdma.nonblocking_poll_events POLLING_TIMEOUT_MS);
  if negb ready then mret tt else
  r ← on_state Rdma.poll_events;
  match r with
  | (None, _) => mret tt
  | (Some conn, status) => handle_event conn status
  end.

(** *** Messages of the resource manager *)

(** The contents of slot [id] of the receive buffer are an argument. *)
Definition _handle_res_mgr_message (received : Z → LeaseAllocation) (wc : ibv_wc) : M manager unit :=
  if nonzero (wc_status wc) then mret tt else
  let a := received (wc_wr_id wc) in
  modify (λ m, set_leases
    (insert_threadsafe (mk_Lease (i32 (la_lease_id a)) (la_cores a) (la_memory a)) (_leases m)) m) ;;
  on_rm (on_rm_conn (Connection.receive_wcs Queue.refill)) ;; mret tt.

(** *** Requests of clients *)

Definition update_client (qp : Z) (c : Client) : M manager unit :=
  modify (λ m, set_clients (<[qp := c]> (_clients m)) m).

(** The status is written to the response buffer and sent. *)
Definition respond (conn status : Z) : M manager unit :=
  modify (λ m, set_responses (_client_responses m) (Some status) m) ;;
  m ← read;
  sges ← Buffer.add [] (_client_responses m);
  on_conn conn (Connection.post_send sges (-1) false None) ;;
  on_conn conn (Connection.receive_wcs (Queue.update_requests (-1))) ;;
  on_conn conn (Connection.receive_wcs Queue.refill) ;;
  on_conn conn (Connection.poll_wc Connection.SEND true 1) ;;
  mret tt.

(** [_process_client(client, wr_id)] of the client at queue pair [qp]. *)
Definition _process_client (qp : Z) (client : Client) (wr_id : Z) : M manager bool :=
  (if bool_decide (0 ≤ wr_id < RECV_BUF_SIZE) then mret tt
   else raise (Undefined "receive slot out of bounds")) ;;
  request ← peek (λ t, alloc_requests t qp wr_id);
  let lease_id := i32 (ar_lease_id request) in
  if 0 <=? lease_id then
    modify (λ m, set_leases
      (insert_threadsafe (mk_Lease lease_id (i16 (ar_cores request)) 512) (_leases m)) m) ;;
    m ← read;
    conn ← lift (from_opt "null connection" (connection client));
    match get_threadsafe lease_id (_leases m) with
    | None => respond conn LeaseStatus.UNKNOWN ;; mret true
    | Some lease =>
        qpn ← conn_qp_num conn;
        data ← lift (from_opt "shift" (wide_secret wide_shift qpn));
        addr ← Buffer.address (accounting client);
        key ← Buffer.rkey (accounting client);
        ext Cclock (λ _, tt) ;;
        let s := _settings m in
        e ← spawn request (s_exec s)
              (mk_ManagerConnection (s_ip_address s) (s_rdma_device_port s) (i32 data) addr key) lease;
        c ← reset_executor client;
        update_client qp (set_executor (Some e) c) ;;
        ext Cclock (λ _, tt) ;;
        respond conn LeaseStatus.ALLOCATED ;;
        mret true
    end
  else
    c ← disable client;
    update_client qp c ;;
    mret false.

(** [_clients.erase(it)] *)
Definition erase_client (qp : Z) : M manager unit :=
  m ← read;
  match _clients m !! qp with
  | Some c => modify (λ m, set_clients (delete qp (_clients m)) m) ;; client_destroy c
  | None => mret tt
  end.

Definition _handle_client_message (wc : ibv_wc) : M manager unit :=
  m ← read;
  match _clients m !! wc_qp_num wc with
  | None => mret tt
  | Some client =>
      if nonzero (wc_status wc) then mret tt else
      keep ← _process_client (wc_qp_num wc) client (wc_wr_id wc);
      when (negb keep) (erase_client (wc_qp_num wc))
  end.

(** *** The queue *)

Definition _handle_connections (op : client_op) : M manager unit :=
  match op with
  | ConnectExecutor conn =>
      m ← read;
      c ← lift (from_opt "dangling connection" (Rdma.p_store (m_state m) !! conn));
      let qp := Connection.private_data c in
      match _clients m !! qp with
      | None => on_state (Rdma.delete_conn conn)
      | Some client =>
          e ← lift (from_opt "null executor" (executor client));
          e ← lift (add_executor conn e);
          update_client qp (set_executor (Some e) client)
      end
  | ConnectClient client =>
      conn ← lift (from_opt "null connection" (connection client));
      qp ← conn_qp_num conn;
      m ← read;
      match _clients m !! qp with
      | None => update_client qp (client_move client).1
      | Some _ => client_destroy (client_move client).1
      end
  | Disconnect _ => mret tt
  end.

Definition _handle_disconnections (conn : Z) : M manager unit :=
  qp ← conn_qp_num conn; erase_client qp.

Definition handle_op (op : client_op) : M manager unit :=
  match op with
  | Disconnect conn => _handle_disconnections conn
  | _ => _handle_connections op
  end.

Definition drain : M manager unit :=
  q ← gets m_queue;
  for_each q (λ op, modify (λ m, set_queue (drop 1 (m_queue m)) m) ;; handle_op op).

(** *** Finished executors *)

(** The body of the loop for one client; the result tells whether the client is
    to be removed.  The log message reads element [qp] of the accounting buffer,
    which has one element. *)
Definition check_executor (qp : Z) : M manager bool :=
  m ← read;
  match _clients m !! qp with
  | None => mret false
  | Some client =>
      if negb (_active client) then mret false else
      match executor client with
      | None => mret false
      | Some e =>
          status ← check e;
          if bool_decide (status.1 = RUNNING) then mret false else
          c ← charge_allocation e client;
          (if bool_decide (i32 qp = 0) then mret tt
           else raise (Undefined "accounting out of bounds")) ;;
          c ← reset_executor c;
          update_client qp c ;;
          c ← disable c;
          update_client qp c ;;
          mret true
      end
  end.

Fixpoint check_all (qps : list Z) (removals : list Z) : M manager (list Z) :=
  match qps with
  | [] => mret removals
  | qp :: qps =>
      r ← check_executor qp;
      check_all qps (if (r : bool) then removals ++ [qp] else removals)
  end.

Definition _check_executors : M manager (list Z) :=
  m ← read; check_all (map fst (map_to_list (_clients m))) [].

(** *** The processing threads *)

(** One iteration of [poll_rdma]. *)
Definition poll_rdma (poller : Rdma.Poller) : M manager unit :=
  drain ;;
  wcs ← Rdma.poller_poll poller false (-1);
  for_each (Queue.polled wcs) _handle_client_message ;;
  removals ← _check_executors;
  for_each removals erase_client.

(** New connections at once, disconnections collected for later. *)
Definition drain_connections (disconnections : list Z) : M manager (list Z) :=
  q ← gets m_queue;
  for_each q (λ op, modify (λ m, set_queue (drop 1 (m_queue m)) m) ;; _handle_connections op) ;;
  mret (disconnections ++ omap (λ op, match op with Disconnect conn => Some conn | _ => None end) q).

Definition wait_and_poll (poller : Rdma.Poller) : M manager (list ibv_wc) :=
  cq ← Rdma.poller_wait_events poller;
  Rdma.poller_ack_events cq 1 ;;
  Rdma.poller_notify_events poller false ;;
  wcs ← Rdma.poller_poll poller false (-1);
  mret (Queue.polled wcs).

Fixpoint sleep_events (received : Z → LeaseAllocation) (client_poller res_mgr : Rdma.Poller)
    (events : list Z) (disconnections : list Z) : M manager (list Z) :=
  match events with
  | [] => mret disconnections
  | data :: events =>
      disconnections ←
        (if data =? 0 then
           ds ← drain_connections disconnections;
           wcs ← wait_and_poll client_poller;
           for_each wcs _handle_client_message ;; mret ds
         else
           wcs ← wait_and_poll res_mgr;
           for_each wcs (_handle_res_mgr_message received) ;; mret disconnections);
      sleep_events received client_poller res_mgr events disconnections
  end.

(** One iteration of [_process_events_sleep]. *)
Definition _process_events_sleep (received : Z → LeaseAllocation) (epoll : Z)
    (client_poller res_mgr : Rdma.Poller) : M manager unit :=
  ev ← Rdma.event_poll epoll POLLING_TIMEOUT_MS;
  ds ← sleep_events received client_poller res_mgr (take (Z.to_nat ev.2) ev.1) [];
  ds ← (if ev.2 =? 0 then drain_connections ds else mret ds);
  for_each ds _handle_disconnections.

(** One iteration of [poll_res_mgr]. *)
Definition poll_res_mgr (received : Z → LeaseAllocation) : M manager unit :=
  r ← on_rm (on_rm_conn (Connection.receive_wcs (Queue.poll false)));
  for_each (Queue.polled r) (_handle_res_mgr_message received).
End Manager.

(** ** What an operation leaves alone *)

Section FrameManager.
Context `{Env} {X : Type} (f : manager → X).

Hypothesis not_state : ∀ x m, f (set_state x m) = f m.

Lemma em_frames_on_state {A} (op : M Rdma.passive A) : frames f (on_state op).
Proof using not_state. by apply frames_zoom. Qed.

Lemma em_frames_on_conn {A} conn (op : M Connection.t A) : frames f (on_conn conn op).
Proof using not_state. apply em_frames_on_state. Qed.

#[local] Hint Resolve em_frames_on_state em_frames_on_conn : rfaas.

Lemma em_frames_conn_qp_num conn : frames f (conn_qp_num conn).
Proof using not_state. unfold conn_qp_num. frame. Qed.

Lemma em_frames_client_construct id conn active : frames f (client_construct id conn active).
Proof using not_state. unfold client_construct, pd. frame. Qed.

Lemma frames_reset_executor c : frames f (reset_executor c).
Proof using not_state.
  unfold reset_executor, executor_destroy. apply frames_bind; [|intros; auto with rfaas].
  destruct (executor c); [|auto with rfaas]. apply frames_for_each. auto with rfaas.
Qed.

#[local] Hint Resolve frames_reset_executor : rfaas.

Lemma em_frames_client_destroy c : frames f (client_destroy c).
Proof using not_state. unfold client_destroy. frame. Qed.
End FrameManager.

#[export] Hint Extern 1 (frames _ (on_state _)) => apply em_frames_on_state; intros; reflexivity : rfaas.
#[export] Hint Extern 1 (frames _ (on_conn _ _)) => apply em_frames_on_conn; intros; reflexivity : rfaas.
#[export] Hint Extern 1 (frames _ (conn_qp_num _)) =>
  apply em_frames_conn_qp_num; intros; reflexivity : rfaas.
#[export] Hint Extern 1 (frames _ (client_construct _ _ _)) =>
  apply em_frames_client_construct; intros; reflexivity : rfaas.
#[export] Hint Extern 1 (frames _ (client_destroy _)) =>
  apply em_frames_client_destroy; intros; reflexivity : rfaas.
#[export] Hint Extern 1 (frames _ (reset_executor _)) =>
  apply frames_reset_executor; intros; reflexivity : rfaas.

(** ** Connection requests *)

Section Requests.
Context `{Env} (wide_shift : option Z).

Lemma conn_qp_num_inv conn m t n m' t' :
  conn_qp_num conn m t = Ok (n, m', t') →
  m' = m ∧ t' = t ∧ ∃ qp, Rdma.qps (m_state m) !! conn = Some (Some qp) ∧ n = qp_num qp.
Proof.
  unfold conn_qp_num, on_conn, on_state. intros E. bind_inv E as qp ? ? E1. run_inv_at E.
  run_inv_at E1. apply Rdma.on_conn_inv in E1 as (c & c' & Hc & E1 & ->).
  unfold Connection.the_qp in E1. step_inv E1. run_inv_at E1. apply from_opt_Ok in E1.
  split_and!; [|done|].
  - destruct m as [[]]; cbn in *. unfold set_state, Rdma.set_store. cbn. by rewrite insert_id.
  - exists qp. split; [|done]. unfold Rdma.qps. rewrite lookup_fmap, Hc. cbn. by rewrite E1.
Qed.

Lemma frames_ids {A} conn (op : M Queue.recv_wcs A) :
  frames (λ m, Rdma.ids (m_state m)) (on_conn conn (Connection.receive_wcs op)).
Proof.
  intros m t a m' t' E. unfold on_conn, on_state in E. run_inv_at E.
  refine (Rdma.frames_store Connection._id _ _ _ _ _ _ _ _ E).
  unfold Connection.receive_wcs. auto with rfaas.
Qed.

Lemma accept_inv conn m t u m' t' :
  on_state (Rdma.accept conn) m t = Ok (u, m', t') →
  ∃ id, Rdma.ids (m_state m) !! conn = Some (Some id) ∧ m' = m ∧ t' = Caccept id :: t.
Proof.
  unfold on_state, Rdma.accept, Rdma.the_id. intros E. run_inv_at E.
  bind_inv E as id ? ? E1. step_inv E1. bind_inv E1 as c ? ? E2. run_inv_at E2.
  apply from_opt_Ok in E2. run_inv_at E1. apply from_opt_Ok in E1. run_inv_at E.
  exists id. split_and!; [|by destruct m|done]. unfold Rdma.ids. rewrite lookup_fmap, E2. cbn. by rewrite E1.
Qed.

Lemma em_accept_run conn c id m t :
  Rdma.p_store (m_state m) !! conn = Some c → Connection._id c = Some id →
  on_state (Rdma.accept conn) m t = Ok (tt, m, Caccept id :: t).
Proof.
  intros Hc Hi. unfold on_state, Rdma.accept, Rdma.the_id. run. rewrite Hc. run. rewrite Hi. by destruct m.
Qed.

Lemma client_construct_inv id conn act m t client m' t' :
  client_construct id conn act m t = Ok (client, m', t') →
  connection client = Some conn ∧ executor client = None ∧ _active client = act ∧
  _id client = Some (i32 id) ∧ Rdma.ids (m_state m') = Rdma.ids (m_state m).
Proof.
  intros E. pose proof E as E'. unfold client_construct in E'.
  bind_inv E' as p ? ? E1. unfold pd in E1. run_inv_at E1.
  do 4 (bind_inv E' as ? ? ? ?). bind_inv E' as ? m3 t3 E3. run_inv_at E'. split_and!; try done.
  assert (frames (λ m, Rdma.ids (m_state m)) (client_construct id conn act)) as Hf.
  { unfold client_construct, pd. apply frames_bind; [auto with rfaas|]. intros p.
    do 4 (apply frames_bind; [auto with rfaas|]; intros ?).
    apply frames_bind; [apply frames_ids|auto with rfaas]. }
  exact (Hf _ _ _ _ _ E).
Qed.

(** A request that is taken for a client. *)
Lemma new_client_inv conn c m t u m' t' :
  wide_secret wide_shift (Connection.private_data c) = Some 0 →
  Rdma.p_store (m_state m) !! conn = Some c →
  handle_event wide_shift conn Connection.REQUESTED m t = Ok (u, m', t') →
  ∃ client qp id t0,
    Rdma.qps (m_state m) !! conn = Some (Some qp) ∧ Rdma.ids (m_state m) !! conn = Some (Some id) ∧
    connection client = Some conn ∧ executor client = None ∧ _active client = true ∧
    m_queue m' = m_queue m ++ [ConnectClient client] ∧
    m_clients_to_connect m' = {[qp_num qp]} ∪ m_clients_to_connect m ∧ t' = Caccept id :: t0.
Proof.
  intros Hs Hc E. unfold handle_event in E. step_inv E.
  rewrite (bind_run _ _ _ _ c m t) in E by (unfold lift; by rewrite Hc).
  rewrite (bind_run _ _ _ _ 0 m t) in E by (unfold lift; by rewrite Hs).
  change (0 <? 0) with false in E. cbv iota in E.
  bind_inv E as n m1 t1 E1. apply conn_qp_num_inv in E1 as (-> & -> & qp & Hq & ->).
  bind_inv E as client m2 t2 E2.
  pose proof (em_frames_client_construct (λ m, (m_queue m, m_clients_to_connect m))
    ltac:(reflexivity) _ _ _ _ _ _ _ _ E2) as F.
  apply pair_equal_spec in F as [F1 F2].
  apply client_construct_inv in E2 as (Hcc & Hce & Hca & _ & Hids).
  step_inv E. bind_inv E as ? m3 t3 E3. apply accept_inv in E3 as (id & Hid & -> & ->).
  unfold enqueue in E. run_inv_at E. cbn in *. rewrite Hids in Hid.
  exists (client_move client).1, qp, id, t2. split_and!; try done; cbn; congruence.
Qed.
(** What the shift yields decides what the secret is: the whole word when it
    yields 0, nothing when it yields 1. *)
Lemma wide_secret_whole d : 0 ≤ d < 2 ^ 32 → wide_secret (Some 0) d = Some d.
Proof using. intros Hd. cbn. f_equal. change (u32 (0 - 1)) with (Z.ones 32). rewrite land_wrap by lia. by apply wrap_small. Qed.

Lemma wide_secret_nothing d : wide_secret (Some 1) d = Some 0.
Proof using. cbn. f_equal. apply Z.land_0_r. Qed.

(** A request with private data that is read as a secret. *)
Lemma executor_request conn c d m t :
  wide_secret wide_shift (Connection.private_data c) = Some d → 0 < d →
  Rdma.p_store (m_state m) !! conn = Some c →
  handle_event wide_shift conn Connection.REQUESTED m t =
    (if bool_decide (Connection.private_data c ∈ m_clients_to_connect m) then
       on_state (Rdma.accept conn) ;; enqueue (ConnectExecutor conn)
     else on_state (Rdma.reject conn) ;; on_state (Rdma.delete_conn conn)) m t.
Proof using.
  intros Hs Hd Hc. unfold handle_event. rewrite (bind_run read _ m t m m t eq_refl).
  rewrite (bind_run _ _ _ _ c m t) by (unfold lift; by rewrite Hc).
  rewrite (bind_run _ _ _ _ d m t) by (unfold lift; by rewrite Hs).
  by destruct (Z.ltb_spec 0 d); [|lia].
Qed.

Lemma reject_run conn c id m t :
  Rdma.p_store (m_state m) !! conn = Some c → Connection._id c = Some id →
  on_state (Rdma.reject conn) m t = Ok (tt, m, Creject id :: t).
Proof using.
  intros Hc Hi. unfold on_state, Rdma.reject, Rdma.the_id. run. rewrite Hc. run. rewrite Hi. by destruct m.
Qed.
End Requests.

(** ** The numbers of closed leases *)

Section Numbers.
Context `{Env} (wide_shift : option Z) (indeterminate : Z)
  (alloc_requests : trace → Z → Z → AllocationRequest) (accounting_data : trace → Z → Accounting).

(** No client knows its number, and no message to the resource manager has one. *)
Definition unnumbered (c : Client) : Prop := _id c = None.
Definition op_unnumbered (op : client_op) : Prop :=
  match op with ConnectClient c => unnumbered c | _ => True end.
Definition message_unnumbered (x : option exec_message) : Prop :=
  match x with Some (LeaseDeallocationMsg d) => ld_lease_id d = i32 indeterminate | _ => True end.

Definition numbers_lost (m : manager) : Prop :=
  map_Forall (λ _, unnumbered) (_clients m) ∧ Forall op_unnumbered (m_queue m) ∧
  ∀ r, m_rm m = Some r → message_unnumbered (rm_sent r).

(** The part of the state the invariant reads. *)
Definition numbers (m : manager) : gmap Z Client * list client_op * option (option exec_message) :=
  (_clients m, m_queue m, rm_sent <$> m_rm m).

Lemma numbers_same m m' : numbers m' = numbers m → numbers_lost m → numbers_lost m'.
Proof using.
  unfold numbers. intros [= Hc Hq Hr] (H1 & H2 & H3). split_and!; [by rewrite Hc|by rewrite Hq|].
  intros r Er. rewrite Er in Hr. destruct (m_rm m) as [r0|] eqn:E0; [|done]. injection Hr as ->.
  by apply H3.
Qed.

Lemma stable_numbers {A} (op : M manager A) : frames numbers op → stable numbers_lost op.
Proof using. apply stable_frames. exact numbers_same. Qed.

Lemma stable_update qp c : unnumbered c → stable numbers_lost (update_client qp c).
Proof using.
  intros Hc. apply stable_modify. intros m (H1 & H2 & H3). split_and!; [|done..].
  by apply map_Forall_insert_2.
Qed.

Lemma frames_on_rm_numbers {A} (op : M ResourceManagerConnection A) :
  frames rm_sent op → frames numbers (on_rm op).
Proof using.
  intros Ho m t a m' t' E. unfold on_rm in E. step_inv E. bind_inv E as r ? ? E1. run_inv_at E1.
  apply from_opt_Ok in E1. run_inv_at E. apply Ho in E. unfold numbers. cbn. by rewrite E1, E.
Qed.

Lemma frames_sent_conn {A} (op : M Connection.t A) : frames rm_sent (on_rm_conn op).
Proof using. unfold on_rm_conn. auto with rfaas. Qed.

#[local] Hint Resolve frames_sent_conn : rfaas.

Lemma frames_sent_rm_send : frames rm_sent rm_send.
Proof using.
  unfold rm_send, Buffer.add, Buffer.address, Buffer.lkey, Buffer.with_mr. auto 20 with rfaas.
Qed.

Lemma stable_close_lease a x h :
  stable numbers_lost (on_rm (rm_close_lease indeterminate a x h)).
Proof using.
  intros m t u m' t' (H1 & H2 & H3) E. unfold on_rm in E. step_inv E.
  bind_inv E as r ? ? E1. run_inv_at E1. run_inv_at E. split_and!; [done..|]. cbn. intros ? [= <-].
  unfold rm_close_lease in E. step_inv E. bind_inv E as p r1 t1 E2. apply frames_sent_rm_send in E2.
  assert (rm_sent x0 = rm_sent r1) as ->.
  { destruct (p.2 =? 0); [by run_inv_at E|]. destruct p.1; by run_inv_at E. }
  by rewrite E2.
Qed.

Lemma charge_inv e c (m : manager) t c' m' t' :
  charge_allocation e c m t = Ok (c', m', t') → m' = m ∧ ∃ n, c' = set_allocation_time n c.
Proof using. unfold charge_allocation. intros E. step_inv E. run_inv_at E. by eauto. Qed.

Lemma reset_inv c (m : manager) t c' m' t' :
  reset_executor c m t = Ok (c', m', t') → c' = set_executor None c ∧ numbers m' = numbers m.
Proof using.
  intros E. split.
  - unfold reset_executor in E. bind_inv E as ? ? ? E1. by run_inv_at E.
  - by eapply (frames_reset_executor numbers).
Qed.

(** Disabling a client that does not know its number. *)
Lemma disable_lost c m t c' m' t' :
  unnumbered c → numbers_lost m →
  disable indeterminate accounting_data c m t = Ok (c', m', t') → unnumbered c' ∧ numbers_lost m'.
Proof using.
  intros Hc Hm E. unfold disable in E. bind_inv E as c1 m1 t1 E1.
  assert (m1 = m ∧ unnumbered c1) as [-> Hc1].
  { destruct (executor c); [apply charge_inv in E1 as (-> & n & ->)|run_inv_at E1]; done. }
  clear E1. bind_inv E as conn ? ? E1. run_inv_at E1.
  bind_inv E as id m2 t2 E2. step_inv E. bind_inv E as c2 m3 t3 E3.
  assert (numbers m3 = numbers m ∧ unnumbered c2) as [Hm3 Hc2].
  { apply (em_frames_on_state numbers) in E2; [|done].
    destruct (executor c1); [|by run_inv_at E3].
    do 4 step_inv E3. apply reset_inv in E3 as [-> E3]. split; [congruence|done]. }
  step_inv E. bind_inv E as ? m4 t4 E4.
  assert (numbers_lost m4) as Hm4.
  { apply (numbers_same _ m3) in Hm; [|done]. destruct (m_rm m3); [|by run_inv_at E4].
    bind_inv E4 as acc ? ? E5. injection E5 as <- <- <-. rewrite Hc2 in E4. cbn in E4.
    by eapply stable_close_lease. }
  bind_inv E as ? m5 t5 E5. bind_inv E as ? m6 t6 E6. run_inv_at E. split; [done|].
  apply (em_frames_on_conn numbers) in E5; [|done]. apply (em_frames_on_state numbers) in E6; [|done].
  eapply numbers_same, Hm4. congruence.
Qed.

Lemma stable_erase qp : stable numbers_lost (erase_client qp).
Proof using.
  intros m t u m' t' Hm E. unfold erase_client in E. step_inv E.
  destruct (_clients m !! qp) as [c|]; [|by run_inv_at E]. step_inv E.
  apply (em_frames_client_destroy numbers) in E; [|done]. eapply numbers_same; [exact E|].
  destruct Hm as (H1 & H2 & H3). split_and!; [|done..]. by apply map_Forall_delete.
Qed.

Lemma frames_respond conn st : frames numbers (respond conn st).
Proof using.
  unfold respond, Buffer.add, Buffer.address, Buffer.lkey, Buffer.with_mr. auto 20 with rfaas.
Qed.

Lemma frames_spawn {X} (f : manager → X) r x k l : frames f (spawn r x k l).
Proof using. unfold spawn. apply frames_bind; [auto with rfaas|]. intros b.
  do 2 (apply frames_bind; [auto with rfaas|]; intros ?).
  apply frames_bind; [|auto with rfaas]. unfold when. case_match; auto with rfaas.
Qed.

Lemma stable_handle_client_message wc :
  stable numbers_lost (_handle_client_message wide_shift indeterminate alloc_requests accounting_data wc).
Proof using.
  intros m t u m' t' Hm E. unfold _handle_client_message in E. step_inv E.
  destruct (_clients m !! wc_qp_num wc) as [client|] eqn:Hcl; [|by run_inv_at E].
  assert (unnumbered client) as Hun by (by eapply Hm).
  destruct (nonzero _); [by run_inv_at E|]. bind_inv E as keep m1 t1 E1.
  enough (numbers_lost m1) as Hm1.
  { unfold when in E. destruct (negb keep); [by eapply stable_erase|by run_inv_at E]. }
  clear E. unfold _process_client in E1. bind_inv E1 as ? m2 t2 E2.
  assert (m2 = m) as -> by (by case_bool_decide; run_inv_at E2). clear E2.
  bind_inv E1 as req ? ? E2. injection E2 as <- <- <-. cbv zeta in E1.
  destruct (_ <=? _).
  - step_inv E1. step_inv E1. bind_inv E1 as conn ? ? E2. run_inv_at E2. clear E2.
    set (m3 := set_leases _ m) in *.
    assert (numbers_lost m3) as Hm3 by done.
    destruct (get_threadsafe _ _) as [lease|].
    + bind_inv E1 as qpn ? ? E2. apply conn_qp_num_inv in E2 as (-> & -> & _).
      bind_inv E1 as data ? ? E2. run_inv_at E2. bind_inv E1 as addr ? ? E3.
      assert (stable numbers_lost (Buffer.address (accounting client) : M manager Z)) as Ha
        by (apply stable_numbers; unfold Buffer.address; auto with rfaas).
      assert (stable numbers_lost (Buffer.rkey (accounting client) : M manager Z)) as Hk
        by (apply stable_numbers; unfold Buffer.rkey, Buffer.with_mr; auto with rfaas).
      apply Ha in E3; [|done]. bind_inv E1 as key ? ? E4. apply Hk in E4; [|done]. step_inv E1.
      bind_inv E1 as e ? ? E5. apply stable_numbers in E5; [|apply frames_spawn|done].
      bind_inv E1 as c ? ? E6. apply reset_inv in E6 as [-> E6]. eapply numbers_same in E5; [|exact E6].
      bind_inv E1 as ? ? ? E7. apply stable_update in E7; [|done..]. step_inv E1.
      bind_inv E1 as ? ? ? E8. apply stable_numbers in E8; [|apply frames_respond|done]. by run_inv_at E1.
    + bind_inv E1 as ? ? ? E8. apply stable_numbers in E8; [|apply frames_respond|done]. by run_inv_at E1.
  - bind_inv E1 as c ? ? E2. apply disable_lost in E2 as [Hc Hl]; [|done..].
    bind_inv E1 as ? ? ? E7. apply stable_update in E7; [|done..]. by run_inv_at E1.
Qed.

Lemma stable_enqueue op : op_unnumbered op → stable numbers_lost (enqueue op).
Proof using.
  intros Ho. apply stable_modify. intros m (H1 & H2 & H3). split_and!; [done| |done].
  apply Forall_app. by split; [|constructor].
Qed.

Lemma stable_handle_event conn status : stable numbers_lost (handle_event wide_shift conn status).
Proof using.
  destruct status; cbn [handle_event]; try (apply stable_numbers; by auto with rfaas).
  - apply stable_bind; [apply stable_numbers; auto with rfaas|]. intros m.
    do 2 (apply stable_bind; [apply stable_numbers; auto with rfaas|]; intros ?).
    destruct (0 <? _).
    + case_bool_decide.
      * apply stable_bind; [apply stable_numbers; auto with rfaas|]. intros _. by apply stable_enqueue.
      * apply stable_numbers. auto with rfaas.
    + do 4 (apply stable_bind; [apply stable_numbers; auto with rfaas|]; intros ?). by apply stable_enqueue.
  - apply stable_bind; [by apply stable_enqueue|]. intros _. apply stable_numbers. unfold forget. auto with rfaas.
Qed.

Lemma stable_listen : stable numbers_lost (listen wide_shift).
Proof using.
  unfold listen. apply stable_bind; [apply stable_numbers; auto with rfaas|]. intros ready.
  destruct (negb ready); [apply stable_numbers; auto with rfaas|].
  apply stable_bind; [apply stable_numbers; auto with rfaas|]. intros [[conn|] status];
    [apply stable_handle_event|apply stable_numbers; auto with rfaas].
Qed.

Lemma stable_handle_op op : op_unnumbered op → stable numbers_lost (handle_op op).
Proof using.
  intros Ho m t u m' t' Hm E. destruct op as [conn|client|conn]; cbn [handle_op _handle_connections] in E.
  - step_inv E. bind_inv E as c ? ? E1. run_inv_at E1.
    destruct (_clients m !! _) as [client|] eqn:Hcl.
    + bind_inv E as e ? ? E2. run_inv_at E2. bind_inv E as e' ? ? E3. run_inv_at E3.
      eapply stable_update; [|exact Hm|exact E]. by eapply Hm in Hcl.
    + eapply stable_numbers; [|exact Hm|exact E]. auto with rfaas.
  - bind_inv E as conn ? ? E1. run_inv_at E1. bind_inv E as qp ? ? E2.
    apply conn_qp_num_inv in E2 as (-> & -> & _). step_inv E. destruct (_clients m !! qp).
    + eapply stable_numbers; [|exact Hm|exact E]. auto with rfaas.
    + by eapply stable_update; [|exact Hm|exact E].
  - unfold _handle_disconnections in E. bind_inv E as qp ? ? E2.
    apply conn_qp_num_inv in E2 as (-> & -> & _). by eapply stable_erase.
Qed.

Lemma stable_check_executor qp :
  stable numbers_lost (check_executor indeterminate accounting_data qp).
Proof using.
  intros m t r m' t' Hm E. unfold check_executor in E. step_inv E.
  destruct (_clients m !! qp) as [client|] eqn:Hcl; [|by run_inv_at E].
  assert (unnumbered client) as Hun by (by eapply Hm).
  destruct (negb _); [by run_inv_at E|]. destruct (executor client) as [e|]; [|by run_inv_at E].
  bind_inv E as st m1 t1 E1.
  assert (m1 = m) as -> by (unfold check in E1; step_inv E1; by repeat case_match; run_inv_at E1).
  clear E1. case_bool_decide; [by run_inv_at E|]. bind_inv E as c ? ? E2. apply charge_inv in E2 as (-> & n & ->).
  bind_inv E as ? ? ? E3. case_bool_decide; run_inv_at E3. bind_inv E as c ? ? E4.
  apply reset_inv in E4 as [-> E4]. eapply numbers_same in Hm; [|exact E4].
  bind_inv E as ? ? ? E5. apply stable_update in E5; [|done..]. bind_inv E as c ? ? E6.
  apply disable_lost in E6 as [Hc Hl]; [|done..]. bind_inv E as ? ? ? E7.
  apply stable_update in E7; [|done..]. by run_inv_at E.
Qed.

Lemma stable_handle_res_mgr_message received wc :
  stable numbers_lost (_handle_res_mgr_message received wc).
Proof using.
  apply stable_numbers. unfold _handle_res_mgr_message. destruct (nonzero _); [auto with rfaas|].
  apply frames_bind; [auto with rfaas|]. intros _. apply frames_bind; [|auto with rfaas].
  apply frames_on_rm_numbers. auto with rfaas.
Qed.

(** The steps of the manager's threads: an iteration of the listener, the next
    operation of the queue, a completion of a client, a look at an executor, the
    removal of a client, a completion of the resource manager.  Every iteration
    of [poll_rdma] and [_process_events_sleep] is a sequence of these. *)
Inductive manager_step (received : Z → LeaseAllocation) : manager * trace → manager * trace → Prop :=
  | ms_listen m t m' t' :
      listen wide_shift m t = Ok (tt, m', t') → manager_step received (m, t) (m', t')
  | ms_dequeue m t op q m' t' :
      m_queue m = op :: q → handle_op op (set_queue q m) t = Ok (tt, m', t') →
      manager_step received (m, t) (m', t')
  | ms_client m t wc m' t' :
      _handle_client_message wide_shift indeterminate alloc_requests accounting_data wc m t = Ok (tt, m', t') →
      manager_step received (m, t) (m', t')
  | ms_check m t qp r m' t' :
      check_executor indeterminate accounting_data qp m t = Ok (r, m', t') →
      manager_step received (m, t) (m', t')
  | ms_remove m t qp m' t' :
      erase_client qp m t = Ok (tt, m', t') → manager_step received (m, t) (m', t')
  | ms_res_mgr m t wc m' t' :
      _handle_res_mgr_message received wc m t = Ok (tt, m', t') →
      manager_step received (m, t) (m', t').

(** A manager with no clients whose connection has sent no deallocation. *)
Definition fresh (m : manager) : Prop :=
  _clients m = ∅ ∧ m_queue m = [] ∧
  ∀ r, m_rm m = Some r → match rm_sent r with Some (LeaseDeallocationMsg _) => False | _ => True end.

Definition manager_reachable (received : Z → LeaseAllocation) (st : manager * trace) : Prop :=
  ∃ m t, fresh m ∧ rtc (manager_step received) (m, t) st.

Lemma reachable_lost received st : manager_reachable received st → numbers_lost st.1.
Proof using.
  intros (m & t & (Hc & Hq & Hr) & Hs).
  refine (rtc_ind_r (λ st, numbers_lost st.1) (m, t) _ _ st Hs).
  - cbn. split_and!; [by rewrite Hc|by rewrite Hq|]. intros r Er. specialize (Hr r Er).
    unfold message_unnumbered. by destruct (rm_sent r) as [[]|].
  - clear. intros x y _ Hst Hx. destruct Hst; cbn in *.
    + by eapply stable_listen.
    + eapply stable_handle_op; [| |eassumption].
      * destruct Hx as (_ & Hq & _). rewrite H0 in Hq. by inversion Hq.
      * destruct Hx as (? & Hq & ?). rewrite H0 in Hq. split_and!; [done| |done]. by inversion Hq.
    + by eapply stable_handle_client_message.
    + by eapply stable_check_executor.
    + by eapply stable_erase.
    + by eapply stable_handle_res_mgr_message.
Qed.
End Numbers.

(** ** Serving an allocation *)

Section Serving.
Context `{Env}.

Lemma spawn_inv {S} req x k l (s : S) t e s' t' :
  spawn req x k l s t = Ok (e, s', t') →
  ∃ addr, c_str (ar_listen_address req) = Some addr ∧ s' = s ∧
    pe_cores e = l_cores l ∧ connections_len e = 0 ∧ _pid e = env_fork (Cclock :: t) ∧
    t' = (if 0 <? _pid e then [Cexecvp (executor_argv (String.string_of_list_ascii addr) req x k l)] else [])
         ++ Cfork :: Cclock :: t.
Proof using.
  unfold spawn. intros E. step_inv E. bind_inv E as addr ? ? E1. run_inv_at E1.
  apply from_opt_Ok in E1. step_inv E. bind_inv E as ? ? ? E2. run_inv_at E.
  unfold process_executor in E. destruct (_ <? 0) eqn:Hneg in E; [done|]. injection E as <-.
  exists addr. unfold when in E2. cbn [_pid pe_cores connections_len].
  destruct (0 <? _); run_inv_at E2; done.
Qed.

Lemma em_silent_on_conn {A} conn (op : M Connection.t A) :
  emits not_send op → emits not_send (on_conn conn op).
Proof using. intros Ho. by apply emits_zoom, Rdma.emits_on_conn. Qed.

Lemma em_frames_qps {A} conn (op : M Connection.t A) :
  frames Connection._qp op → frames (λ m, Rdma.qps (m_state m)) (on_conn conn op).
Proof using.
  intros Ho m t a m' t' E. unfold on_conn, on_state in E. run_inv_at E.
  exact (Rdma.frames_store _ _ _ Ho _ _ _ _ _ E).
Qed.

Lemma respond_inv conn status qp m t u m' t' :
  respond conn status m t = Ok (u, m', t') → Rdma.qps (m_state m) !! conn = Some (Some qp) →
  m_status m' = Some status ∧ _clients m' = _clients m ∧ _leases m' = _leases m ∧
  ∃ v, t' = v ++ t ∧ sends t' = sends t ++ [(qp, Buffer.whole (_client_responses m), 0)].
Proof using.
  unfold respond. intros E Hq. step_inv E. step_inv E. bind_inv E as sg m1 t1 E1.
  apply Buffer.add_inv in E1 as (-> & -> & ->). cbn [app set_responses _client_responses] in E.
  bind_inv E as ? m2 t2 E2. bind_inv E as ? m3 t3 E3. bind_inv E as ? m4 t4 E4. bind_inv E as ? m5 t5 E5.
  run_inv_at E. set (f := λ m, (m_status m, _clients m, _leases m)).
  pose proof (em_frames_on_conn f ltac:(reflexivity) _ _ _ _ _ _ _ E2) as F2.
  apply (em_frames_on_conn f ltac:(reflexivity)) in E3 as F3, E4 as F4, E5 as F5.
  rewrite F4, F3, F2 in F5. unfold f in F5. cbn in F5. injection F5 as -> -> ->. split_and!; [done..|].
  unfold on_conn, on_state in E2. run_inv_at E2. apply Rdma.on_conn_inv in E2 as (c & c' & Hc & E2 & ->).
  cbn in Hc. unfold Rdma.qps in Hq. rewrite lookup_fmap, Hc in Hq. injection Hq as Hq.
  apply (Rdma.post_send_inv _ _ _ _ _ _ _ _ _ qp) in E2 as (_ & Hs & wr & ->); [|done].
  apply (em_silent_on_conn _ _ (Rdma.silent_poll_wc _ _ _)) in E5 as (u5 & -> & H5).
  apply (em_silent_on_conn _ _ (emits_zoom _ _ _ _ Rdma.silent_refill)) in E4 as (u4 & -> & H4).
  apply (em_silent_on_conn _ _ (emits_zoom _ _ _ _ (emits_modify _ _))) in E3 as (u3 & -> & H3).
  exists (u5 ++ u4 ++ u3 ++ [Cpost_send qp wr]). split; [by rewrite <-!app_assoc|].
  by rewrite !sends_app, (sends_silent u5), (sends_silent u4), (sends_silent u3), !app_nil_r, Hs.
Qed.

Lemma silent_delete_conn conn : emits not_send (on_state (Rdma.delete_conn conn)).
Proof using.
  unfold on_state, Rdma.delete_conn, Rdma.on_conn. apply emits_zoom, emits_bind; [|auto with rfaas].
  apply emits_bind; [auto with rfaas|]. intros p. apply emits_bind; [auto with rfaas|]. intros c.
  apply emits_zoom. unfold Connection.destroy, Connection.close, expect_zero.
  apply emits_bind; [auto with rfaas|]. intros d. destruct (Connection._id d); [|auto with rfaas].
  apply emits_bind; [destruct (negb _)|]; auto 10 with rfaas.
Qed.

Lemma emits_for_each {S A} P (l : list A) (body : A → M S unit) :
  (∀ a, emits P (body a)) → emits P (for_each l body).
Proof using. intros Hb. induction l as [|a l IH]; cbn [for_each]; auto with rfaas. Qed.

Lemma silent_reset_executor c : emits not_send (reset_executor c).
Proof using.
  unfold reset_executor, executor_destroy. apply emits_bind; [|auto with rfaas].
  destruct (executor c); [|auto with rfaas]. apply emits_for_each. intros i.
  apply emits_bind; [auto with rfaas|]. intros o. apply emits_bind; [auto with rfaas|].
  intros conn. apply silent_delete_conn.
Qed.
Lemma delete_conn_other conn conn' m t u m' t' :
  conn' ≠ conn → on_state (Rdma.delete_conn conn') m t = Ok (u, m', t') →
  Rdma.qps (m_state m') !! conn = Rdma.qps (m_state m) !! conn.
Proof using.
  intros Hne E. unfold on_state, Rdma.delete_conn in E. run_inv_at E. bind_inv E as ? p1 t1 E1.
  apply Rdma.on_conn_inv in E1 as (c & c' & Hc & _ & ->). run_inv_at E. unfold Rdma.qps. cbn.
  by rewrite !lookup_fmap, lookup_delete_ne, lookup_insert_ne.
Qed.

(** Dropping an executor keeps the connections that are not its own. *)
Lemma reset_executor_keeps conn c m t c' m' t' :
  (∀ e, executor c = Some e → Some conn ∉ connections e) →
  reset_executor c m t = Ok (c', m', t') →
  Rdma.qps (m_state m') !! conn = Rdma.qps (m_state m) !! conn.
Proof using.
  intros Hc E. unfold reset_executor in E. bind_inv E as ? m1 t1 E1. run_inv_at E.
  destruct (executor c) as [e|]; [|by run_inv_at E1]. specialize (Hc e eq_refl).
  unfold executor_destroy in E1. revert m t E1. induction (range (connections_len e)) as [|i l IH];
    intros m t E1; cbn [for_each] in E1; [by run_inv_at E1|].
  bind_inv E1 as ? m2 t2 E2. rewrite (IH _ _ E1). clear E1.
  bind_inv E2 as o ? ? E3. run_inv_at E3. apply from_opt_Ok in E3. bind_inv E2 as conn' ? ? E4.
  run_inv_at E4. apply from_opt_Ok in E4 as ->. eapply delete_conn_other; [|exact E2].
  intros ->. apply Hc. unfold znth in E3. case_bool_decide; [|done]. by eapply list_elem_of_lookup_2.
Qed.

Lemma address_inv {S} b (s : S) t a s' t' :
  Buffer.address b s t = Ok (a, s', t') → a = Buffer._ptr b ∧ s' = s ∧ t' = t.
Proof using. unfold Buffer.address. intros E. step_inv E. by run_inv_at E. Qed.

Lemma rkey_inv {S} b (s : S) t k s' t' :
  Buffer.rkey b s t = Ok (k, s', t') → mr_rkey <$> Buffer._mr b = Some k ∧ s' = s ∧ t' = t.
Proof using.
  unfold Buffer.rkey, Buffer.with_mr. intros E. step_inv E. run_inv_at E. by apply from_opt_Ok in E.
Qed.
(** Traces only grow. *)
Lemma delete_conn_inv conn m t u m' t' :
  on_state (Rdma.delete_conn conn) m t = Ok (u, m', t') →
  Rdma.p_store (m_state m') = delete conn (Rdma.p_store (m_state m)).
Proof using.
  intros E. unfold on_state, Rdma.delete_conn in E. run_inv_at E. bind_inv E as ? p1 t1 E1.
  apply Rdma.on_conn_inv in E1 as (c0 & c' & _ & _ & ->). run_inv_at E. cbn. by rewrite delete_insert_eq.
Qed.

(** The queue pair to the resource manager. *)
Definition rm_qp (r : ResourceManagerConnection) : option ibv_qp := c ← Rdma._conn (rm_connection r); Connection._qp c.

(** One message: the contents of the send buffer. *)
Lemma rm_send_inv r t p r' t' : rm_send r t = Ok (p, r', t') →
  rm_sent r' = rm_sent r ∧ rm_send_buffer r' = rm_send_buffer r ∧
  ∃ qp v, rm_qp r = Some qp ∧ t' = v ++ t ∧ sends v = [(qp, Buffer.whole (rm_send_buffer r), 0)].
Proof using.
  intros E. unfold rm_send in E. step_inv E. bind_inv E as sg r1 t1 E1. apply Buffer.add_inv in E1 as (-> & -> & ->).
  bind_inv E as n r2 t2 E2. unfold on_rm_conn in E2. step_inv E2. bind_inv E2 as c ? ? E3. run_inv_at E3.
  apply from_opt_Ok in E3. run_inv_at E2.
  assert (∃ qp, Connection._qp c = Some qp) as [qp Hqp].
  { pose proof E2 as E4. unfold Connection.post_send, Connection.submit, Connection.the_qp in E4.
    bind_inv E4 as rid c1 t1 E5. unfold Connection.request_id in E5. change (0 =? -1) with false in E5. cbv iota in E5. run_inv_at E5.
    step_inv E4. bind_inv E4 as ret c2 t3 E6. bind_inv E6 as qp c3 t4 E7. step_inv E7. run_inv_at E7.
    apply from_opt_Ok in E7. by exists qp. }
  apply (Rdma.post_send_inv _ _ _ _ _ _ _ _ _ qp) in E2 as (_ & Hs & wr & ->); [|done].
  unfold on_rm_conn in E. step_inv E. bind_inv E as c' ? ? E4. run_inv_at E4. run_inv_at E.
  apply Rdma.silent_poll_wc in E as (v & -> & Hv). split; [done|]. split; [done|].
  exists qp, (v ++ [Cpost_send qp wr]). split; [unfold rm_qp; by rewrite E3|]. split; [by rewrite <-app_assoc|].
  rewrite sends_app, (sends_silent v), app_nil_r by done.
  change (Cpost_send qp wr :: t) with ([Cpost_send qp wr] ++ t) in Hs. rewrite sends_app in Hs. by apply app_inv_head in Hs.
Qed.

Lemma close_lease_inv id a x h m t u m' t' r : m_rm m = Some r →
  on_rm (rm_close_lease id a x h) m t = Ok (u, m', t') →
  (∃ r' qp v, m_rm m' = Some r' ∧
     rm_sent r' = Some (LeaseDeallocationMsg (mk_LeaseDeallocation (i32 id) a h x)) ∧
     rm_qp r = Some qp ∧ t' = v ++ t ∧ sends v = [(qp, Buffer.whole (rm_send_buffer r), 0)]) ∧
  _clients m' = _clients m.
Proof using.
  intros Hr E. unfold on_rm in E. step_inv E. rewrite Hr in E. bind_inv E as r0 ? ? E1. injection E1 as <- <- <-. run_inv_at E.
  split; [|done]. unfold rm_close_lease in E. step_inv E. bind_inv E as p r1 t1 E2.
  apply rm_send_inv in E2 as (Hs & _ & qp & v & Hq & -> & Hv).
  exists r1, qp, v. assert (∀ r', (mret tt : M ResourceManagerConnection unit) r1 (v ++ t) = Ok (u, r', t') → r1 = r' ∧ v ++ t = t') as Hret by (by intros r' [= _ -> ->]).
  destruct (p.2 =? 0); [|destruct p.1; [|done]]; apply Hret in E as [-> <-]; done.
Qed.
Lemma emits_all {S A} P (op : M S A) : emits P op → emits (λ _, True) op.
Proof using. by apply emits_weaken. Qed.

Lemma grows_on_rm_conn {A} (op : M Connection.t A) : emits (λ _, True) op → emits (λ _, True) (on_rm_conn op).
Proof using. intros Ho. unfold on_rm_conn. auto 10 with rfaas. Qed.

Lemma grows_rm_send : emits (λ _, True) rm_send.
Proof using.
  unfold rm_send, Buffer.add, Buffer.address, Buffer.lkey, Buffer.with_mr.
  apply emits_bind; [auto with rfaas|]. intros b. apply emits_bind; [auto 10 with rfaas|]. intros sg.
  apply emits_bind; [apply grows_on_rm_conn|intros _; apply grows_on_rm_conn, (emits_all _ _ (Rdma.silent_poll_wc _ _ _))].
  unfold Connection.post_send, Connection.submit, Connection.the_qp, Connection.request_id.
  change (0 =? -1) with false. auto 20 with rfaas.
Qed.

Lemma silent_close : emits not_send Connection.close.
Proof using.
  unfold Connection.close, expect_zero. apply emits_bind; [auto with rfaas|]. intros c.
  destruct (Connection._id c); [|auto with rfaas]. apply emits_bind; [destruct (negb _)|]; auto 10 with rfaas.
Qed.

Lemma the_id_inv conn m t id m' t' :
  on_state (Rdma.the_id conn) m t = Ok (id, m', t') →
  m' = m ∧ t' = t ∧ Rdma.ids (m_state m) !! conn = Some (Some id).
Proof using.
  unfold on_state, Rdma.the_id. intros E. run_inv_at E. step_inv E. bind_inv E as c ? ? E2. run_inv_at E2.
  apply from_opt_Ok in E2. run_inv_at E. apply from_opt_Ok in E. split_and!; [by destruct m|done|].
  unfold Rdma.ids. rewrite lookup_fmap, E2. cbn. by rewrite E.
Qed.

(** The allocation time that is charged. *)
Definition charged_time (c : Client) (t : trace) : Z :=
  match executor c with
  | Some e => u32 (allocation_time c + Z.quot (env_clock t - _allocation_finished e) 1000)
  | None => allocation_time c
  end.

(** What is called for a goodbye, in order: the client is disconnected; its process, if it has one, is
    sent a signal and waited for; the accounting is read; the resource manager, if there is one, is sent a
    deallocation. *)
Definition said_goodbye (indeterminate : Z) (accounting_data : trace → Z → Accounting) (c : Client) (id : rdma_cm_id)
    (m m' : manager) (t t' : trace) : Prop :=
  ∃ stopped ended told,
    ended = stopped ++ Cdisconnect id :: match executor c with Some _ => Cclock :: t | None => t end ∧
    t' = told ++ ended ∧ sends stopped = [] ∧
    match executor c with
    | Some e => ∃ after before, stopped = after ++ Cwaitpid (_pid e) WUNTRACED :: Ckill (_pid e) SIGTERM :: before
    | None => stopped = []
    end ∧
    match m_rm m with
    | Some r => ∃ r' qp, let acc := accounting_data ended (Buffer.ptr (accounting c)) in
        m_rm m' = Some r' ∧ rm_qp r = Some qp ∧
        rm_sent r' = Some (LeaseDeallocationMsg (mk_LeaseDeallocation (i32 (default indeterminate (_id c)))
          (charged_time c t) (hot_polling_time acc) (execution_time acc))) ∧
        sends told = [(qp, Buffer.whole (rm_send_buffer r), 0)]
    | None => sends told = []
    end.

(** The process is stopped. *)
Lemma stop_inv c c1 id m t c2 m3 t3 :
  executor c1 = executor c →
  match executor c1 with
  | Some e =>
      ext Cclock (λ _, tt) ;; ext (Ckill (_pid e) SIGTERM) (λ _, tt) ;;
      ext (Cwaitpid (_pid e) WUNTRACED) (λ _, tt) ;; ext Cclock (λ _, tt) ;; reset_executor c1
  | None => mret c1
  end m (Cdisconnect id :: t) = Ok (c2, m3, t3) →
  executor c2 = None ∧ accounting c2 = accounting c1 ∧ _id c2 = _id c1 ∧ allocation_time c2 = allocation_time c1 ∧
  _clients m3 = _clients m ∧ m_rm m3 = m_rm m ∧ ∃ stopped, t3 = stopped ++ Cdisconnect id :: t ∧ sends stopped = [] ∧
  match executor c with
  | Some e => ∃ after before, stopped = after ++ Cwaitpid (_pid e) WUNTRACED :: Ckill (_pid e) SIGTERM :: before
  | None => stopped = []
  end.
Proof using.
  intros Hx1 E3. rewrite Hx1 in E3. destruct (executor c) as [e|] eqn:Hx.
  - do 4 step_inv E3.
    pose proof (frames_reset_executor (λ m, (_clients m, m_rm m)) ltac:(reflexivity) _ _ _ _ _ _ E3) as F.
    apply pair_equal_spec in F as [F1 F2]. pose proof E3 as E4. apply reset_inv in E4 as [-> _].
    apply silent_reset_executor in E3 as (u & -> & Hu). split_and!; try done.
    exists (u ++ [Cclock; Cwaitpid (_pid e) WUNTRACED; Ckill (_pid e) SIGTERM; Cclock]).
    split; [by rewrite <-app_assoc|]. split; [by rewrite sends_app, (sends_silent u)|].
    exists (u ++ [Cclock]), [Cclock]. by rewrite <-app_assoc.
  - run_inv_at E3. split_and!; try done. by exists [].
Qed.

(** What disabling a client does. *)
Lemma disable_inv indeterminate accounting_data c conn m t c' m' t' :
  disable indeterminate accounting_data c m t = Ok (c', m', t') → connection c = Some conn →
  connection c' = None ∧ executor c' = None ∧ _clients m' = _clients m ∧
  Rdma.p_store (m_state m') !! conn = None ∧
  ∃ id, Rdma.ids (m_state m) !! conn = Some (Some id) ∧ said_goodbye indeterminate accounting_data c id m m' t t'.
Proof using.
  intros E Hconn. unfold disable in E. bind_inv E as c1 m1 t1 E1.
  assert (m1 = m ∧ connection c1 = Some conn ∧ executor c1 = executor c ∧ accounting c1 = accounting c ∧
          _id c1 = _id c ∧ allocation_time c1 = charged_time c t ∧
          t1 = match executor c with Some _ => Cclock :: t | None => t end) as (-> & Hc1 & Hx1 & Ha1 & Hi1 & Ht1 & ->).
  { unfold charged_time. destruct (executor c) as [e|] eqn:Hx; [unfold charge_allocation in E1; step_inv E1|]; injection E1 as <- <- <-; clear E; split_and!; done. }
  clear E1. rewrite Hc1 in E. bind_inv E as conn' ? ? E1. injection E1 as <- <- <-.
  bind_inv E as id ? ? E1. apply the_id_inv in E1 as (-> & -> & Hid). step_inv E. bind_inv E as c2 m3 t3 E3.
  apply (stop_inv c c1) in E3 as (Hx2 & Ha2 & Hi2 & Hl2 & Hcl3 & Hrm3 & stopped & -> & Hs & Hstop); [|done].
  step_inv E. bind_inv E as ? m4 t4 E4.
  set (ended := stopped ++ _) in *.
  assert (∃ told, t4 = told ++ ended ∧ _clients m4 = _clients m ∧
    match m_rm m with
    | Some r => ∃ r' qp, let acc := accounting_data ended (Buffer.ptr (accounting c)) in
        m_rm m4 = Some r' ∧ rm_qp r = Some qp ∧
        rm_sent r' = Some (LeaseDeallocationMsg (mk_LeaseDeallocation (i32 (default indeterminate (_id c)))
          (charged_time c t) (hot_polling_time acc) (execution_time acc))) ∧
        sends told = [(qp, Buffer.whole (rm_send_buffer r), 0)]
    | None => sends told = []
    end) as (told & -> & Hcl4 & Hrm4).
  { rewrite Hrm3 in E4. destruct (m_rm m) as [r|].
    - bind_inv E4 as acc ? ? E5. injection E5 as <- <- <-.
      apply (close_lease_inv _ _ _ _ _ _ _ _ _ r Hrm3) in E4 as [(r' & qp & v & Hr' & Hs' & Hq & -> & Hv) Hcl].
      exists v. split; [done|]. split; [congruence|]. exists r', qp. cbn. rewrite <-Ha1, <-Ha2, <-Hi1, <-Hi2, <-Ht1, <-Hl2.
      by split_and!.
    - run_inv_at E4. by exists []. }
  clear E4. bind_inv E as ? m5 t5 E5. bind_inv E as ? m6 t6 E6. run_inv_at E.
  pose proof (em_frames_on_conn (λ m, (_clients m, m_rm m)) ltac:(reflexivity) _ _ _ _ _ _ _ E5) as F5.
  pose proof (em_frames_on_state (λ m, (_clients m, m_rm m)) ltac:(reflexivity) _ _ _ _ _ _ E6) as F6.
  apply pair_equal_spec in F5 as [F51 F52], F6 as [F61 F62].
  apply (em_silent_on_conn _ _ silent_close) in E5 as (u5 & -> & Hu5). pose proof E6 as E7.
  apply silent_delete_conn in E6 as (u6 & -> & Hu6). apply delete_conn_inv in E7.
  split_and!; [done|done|congruence|by rewrite E7, lookup_delete_eq|]. exists id. split; [done|].
  exists stopped, ended, (u6 ++ u5 ++ told). rewrite !sends_app, (sends_silent u5), (sends_silent u6), !app_nil_r by done.
  split_and!; [done|by rewrite <-!app_assoc|done|done|]. by rewrite F62, F52.
Qed.

(** Destroying a client that was disabled releases its buffers only. *)
Lemma destroy_disabled c m t u m' t' :
  client_destroy c m t = Ok (u, m', t') → connection c = None → executor c = None →
  m' = m ∧ ∃ v, t' = v ++ t ∧ sends v = [].
Proof using.
  intros E Hc Hx. unfold client_destroy in E. rewrite Hc in E. step_inv E. bind_inv E as ? m1 t1 E1.
  bind_inv E as c2 m2 t2 E2. unfold reset_executor in E2. rewrite Hx in E2. step_inv E2. run_inv_at E2.
  assert (∀ b, emits not_send (Buffer.destroy b : M manager unit)) as Hg.
  { intros b. unfold Buffer.destroy, when. apply emits_bind; [|intros _]; case_match; auto with rfaas. }
  apply Hg in E1 as Ht1. apply Hg in E as Ht. destruct Ht1 as (v1 & -> & H1), Ht as (v & -> & H2).
  apply Buffer.destroy_state in E as ->. apply Buffer.destroy_state in E1 as ->.
  split; [done|]. exists (v ++ v1). split; [by rewrite <-app_assoc|]. by rewrite sends_app, !sends_silent.
Qed.
(** The first call of a refill of at least 32 receives posts the whole batch. *)
Lemma refill_posts_batch q qp t r q' t' :
  Queue._queue_pair q = Some qp → Queue.batch_ok (Queue._batch_wrs q) →
  Queue._requests q < Queue._refill_threshold q → 32 ≤ Queue._rcv_buf_size q - Queue._requests q →
  Queue.refill q t = Ok (r, q', t') →
  Cpost_recv qp (Queue.to_recv <$> Queue._batch_wrs q) ∈ t'.
Proof using.
  intros Hq Hok Hth Hn E. unfold Queue.refill in E. step_inv E.
  destruct (Z.ltb_spec (Queue._requests q) (Queue._refill_threshold q)); [|lia].
  bind_inv E as ? q1 t1 E1. step_inv E. run_inv_at E. unfold Queue.post_batched_empty_recv in E1.
  bind_inv E1 as ret q2 t2 E2.
  assert (Cpost_recv qp (Queue.to_recv <$> Queue._batch_wrs q) ∈ t2) as Hin.
  { set (loops := Z.to_nat _) in E2. assert (∃ k, loops = S k) as [k ->].
    { assert (1 ≤ Z.quot (Queue._rcv_buf_size q - Queue._requests q) Queue.rbatch).
      { unfold Queue.rbatch. apply Z.quot_le_lower_bound; lia. }
      exists (Nat.pred loops). unfold loops. lia. }
    cbn [Queue.post_loops] in E2.
    rewrite (bind_run _ _ _ _ _ _ _ (Queue.post_chain_run q qp _ t Hq (Queue.chain_full _ Hok))) in E2.
    destruct (nonzero _) in E2; [run_inv_at E2; set_solver|].
    apply Rdma.silent_post_loops in E2 as (u & -> & _). set_solver. }
  clear E2. bind_inv E1 as ? q3 t3 E3. run_inv_at E1.
  destruct (_ && _) in E3; [|by run_inv_at E3].
  step_inv E3. bind_inv E3 as r4 q4 t4 E4. apply Rdma.silent_post_chain in E4 as (u & -> & _).
  step_inv E3. run_inv_at E3. set_solver.
Qed.
Lemma register_inv {S} b pd acc (s : S) t b' s' t' :
  Buffer.on_buffer b (Buffer.register_memory pd acc) s t = Ok (b', s', t') →
  s' = s ∧ ∃ mr, b' = Buffer.mk (Buffer._size b) (Buffer._header b) (Buffer._bytes b) (Buffer._byte_size b)
                        (Buffer._ptr b) mr (Buffer._own_memory b).
Proof using.
  unfold Buffer.on_buffer. destruct (Buffer.register_memory pd acc b t) as [[[u b1] t1]|] eqn:E; [|done].
  intros [= <- <- <-]. split; [done|]. unfold Buffer.register_memory, expect_nonnull in E. run_inv. by eauto.
Qed.

Lemma initialize_unregistered q qp b stride t r :
  Queue._queue_pair q = Some qp → Buffer._mr b = None → Queue.initialize b stride q t ≠ Ok r.
Proof using.
  intros Hq Hb E. destruct r as [[u q'] t']. unfold Queue.initialize in E. step_inv E. rewrite Hq in E.
  bind_inv E as v q1 t1 E1. clear E.
  assert (∀ off, Queue.initialize_batched_recv b off q t ≠ Ok (v, q1, t1)) as Hn; [|by destruct (stride =? -1); eapply Hn].
  intros off E. unfold Queue.initialize_batched_recv in E. change (range Queue.rbatch) with (0 :: seqZ 1 31) in E.
  cbn [for_each] in E. bind_inv E as ? ? ? E2. bind_inv E2 as sg ? ? E3.
  unfold Buffer.sge, Buffer.address, Buffer.lkey, Buffer.with_mr in E3. rewrite Hb in E3. run_inv. done.
Qed.

(** Slot 8 of a buffer of 8 elements starts where the buffer ends. *)
Lemma initialize_overrun q qp b t u q' t' :
  Queue._queue_pair q = Some qp → Queue.batch_ok (Queue._batch_wrs q) →
  0 < Queue._refill_threshold q → 32 ≤ Queue._rcv_buf_size q →
  0 < Buffer._byte_size b → Buffer._bytes b = 8 * Buffer._byte_size b → Buffer._bytes b < 2 ^ 32 →
  0 ≤ Buffer._ptr b → Buffer._ptr b + Buffer._bytes b < 2 ^ 64 →
  Queue.initialize b (-1) q t = Ok (u, q', t') →
  ∃ wrs w e, Cpost_recv qp wrs ∈ t' ∧ w ∈ wrs ∧ rwr_id w = 8 ∧ rwr_sg_list w = [e] ∧
    sge_addr e = Buffer._ptr b + Buffer._bytes b ∧ sge_length e = Buffer._byte_size b.
Proof using.
  intros Hq Hok Hth Hn Hs Hb H32 Hp0 Hp1 E.
  destruct (Buffer._mr b) as [mr|] eqn:Hmr; [|by apply (initialize_unregistered _ qp) in E].
  unfold Queue.initialize in E. step_inv E. rewrite Hq in E. change (-1 =? -1) with true in E. cbv iota in E.
  destruct (Queue.initialize_batched_recv_run b mr (Buffer._byte_size b) q t Hmr Hok) as (wrs & Er & Hok' & Hw).
  rewrite (bind_run _ _ _ _ _ _ _ Er) in E. step_inv E. bind_inv E as r q5 t6 E6. run_inv_at E.
  apply (refill_posts_batch _ qp) in E6; [|done|done|cbn; lia|cbn; lia].
  cbn [Queue._batch_wrs Queue.set_requests Queue.set_batch] in E6.
  destruct (lookup_lt_is_Some_2 wrs 8) as [w Hw8]; [rewrite (Queue.batch_ok_length _ Hok'); lia|].
  destruct (Hw _ _ Hw8) as [Hsg _]. unfold Queue.slot_sge in Hsg.
  rewrite (wrap_small 32 (Z.of_nat 8 * _)), (wrap_small 32 (Buffer._byte_size b)), wrap_small in Hsg by lia.
  eexists _, (Queue.to_recv w), _. split; [exact E6|].
  split; [apply list_elem_of_fmap; exists w; split; [done|by eapply list_elem_of_lookup_2]|].
  split; [exact (Queue.batch_ok_id _ _ _ Hok' Hw8)|]. split; [exact Hsg|]. cbn [sge_addr sge_length].
  split; [lia|done].
Qed.

(** Adding connections one by one. *)
Lemma add_all conns e :
  0 ≤ connections_len e ≤ Z.of_nat (length (connections e)) →
  let added := foldl (λ r conn, e ← r; add_executor conn e) (Ok e) conns in
  if bool_decide (connections_len e + Z.of_nat (length conns) ≤ Z.of_nat (length (connections e)))
  then ∃ e', added = Ok e' ∧ connections_len e' = connections_len e + Z.of_nat (length conns) ∧
         length (connections e') = length (connections e) ∧
         take (Z.to_nat (connections_len e')) (connections e') =
           take (Z.to_nat (connections_len e)) (connections e) ++ (Some <$> conns)
  else added = Fault (Undefined "connections out of bounds").
Proof using.
  revert e. induction conns as [|conn conns IH]; intros e He; cbn [foldl length].
  - rewrite bool_decide_eq_true_2 by lia. exists e. cbn. rewrite app_nil_r. split_and!; [done|lia|done|done].
  - assert (∀ f, foldl (λ r conn, e ← r; add_executor conn e) (Fault f) conns = Fault f) as Hf
      by (intros f; clear; induction conns; done).
    cbn [mbind result_bind].
    destruct (decide (connections_len e < Z.of_nat (length (connections e)))) as [Hlt|Hge].
    + assert (add_executor conn e = Ok (mk_ProcessExecutor (_allocation_begin e) (_allocation_finished e)
              (<[Z.to_nat (connections_len e) := Some conn]> (connections e)) (connections_len e + 1)
              (pe_cores e) (_pid e))) as ->
        by (unfold add_executor, zset; by rewrite bool_decide_eq_true_2 by lia).
      set (e1 := mk_ProcessExecutor _ _ _ _ _ _).
      assert (length (connections e1) = length (connections e)) as Hl by (cbn; by rewrite length_insert).
      specialize (IH e1 ltac:(rewrite Hl; cbn; lia)). cbn zeta in IH. rewrite Hl in IH.
      change (connections_len e1) with (connections_len e + 1) in IH.
      replace (connections_len e + Z.of_nat (S (length conns)))
        with (connections_len e + 1 + Z.of_nat (length conns)) by lia.
      case_bool_decide; [|done]. destruct IH as (e' & -> & Hn & Hl' & Ht). exists e'. split_and!; try done.
      rewrite Ht. cbn. replace (Z.to_nat (connections_len e + 1)) with (S (Z.to_nat (connections_len e))) by lia.
      rewrite (take_S_r _ _ (Some conn)) by (apply list_lookup_insert_eq; lia).
      rewrite take_insert_ge by lia. by rewrite <-app_assoc.
    + assert (add_executor conn e = Fault (Undefined "connections out of bounds")) as ->
        by (unfold add_executor, zset; by rewrite bool_decide_eq_false_2 by lia).
      rewrite bool_decide_eq_false_2 by lia. apply Hf.
Qed.
End Serving.

(** ** Theorems *)

(** What a request with a lease number leads to. *)
Lemma allocation_inv `{Env} wide_shift indeterminate requests accounting_data wc m t u m' t' client conn qp :
  wc_status wc = 0 → _clients m !! wc_qp_num wc = Some client → connection client = Some conn →
  Rdma.qps (m_state m) !! conn = Some (Some qp) →
  (∀ e, executor client = Some e → Some conn ∉ connections e) →
  let req := requests t (wc_qp_num wc) (wc_wr_id wc) in
  let id := i32 (ar_lease_id req) in
  0 ≤ id →
  _handle_client_message wide_shift indeterminate requests accounting_data wc m t = Ok (u, m', t') →
  let lease := default (mk_Lease id (i16 (ar_cores req)) 512) (_leases m !! id) in
  _leases m' = <[id := lease]> (_leases m) ∧
  m_status m' = Some LeaseStatus.ALLOCATED ∧
  sends t' = sends t ++ [(qp, Buffer.whole (_client_responses m), 0)] ∧
  ∃ e addr data key,
    _clients m' = <[wc_qp_num wc := set_executor (Some e) client]> (_clients m) ∧
    pe_cores e = l_cores lease ∧ connections_len e = 0 ∧
    c_str (ar_listen_address req) = Some addr ∧ wide_secret wide_shift (qp_num qp) = Some data ∧
    mr_rkey <$> Buffer._mr (accounting client) = Some key ∧
    (0 < _pid e →
     Cexecvp (executor_argv (String.string_of_list_ascii addr) req (s_exec (_settings m))
       (mk_ManagerConnection (s_ip_address (_settings m)) (s_rdma_device_port (_settings m)) (i32 data)
          (Buffer._ptr (accounting client)) key) lease) ∈ t').
Proof.
  intros Hst Hcl Hconn Hqp Hown req id Hid E lease. unfold _handle_client_message in E. step_inv E.
  rewrite Hcl, Hst in E. change (nonzero 0) with false in E. cbv iota in E.
  bind_inv E as keep m1 t1 E1. unfold _process_client in E1. bind_inv E1 as ? m2 t2 E2.
  case_bool_decide; run_inv_at E2. bind_inv E1 as req' ? ? E2. injection E2 as <- <- <-.
  fold req in E1. cbv zeta in E1. fold id in E1. destruct (Z.leb_spec 0 id); [|lia].
  step_inv E1. step_inv E1. rewrite Hconn in E1. bind_inv E1 as conn' ? ? E2. injection E2 as <- <- <-.
  set (m3 := set_leases _ m) in *.
  assert (_leases m3 = <[id := lease]> (_leases m)) as Hl3.
  { unfold m3, lease, insert_threadsafe. cbn. destruct (_leases m !! id) eqn:El; cbn; [|done].
    by rewrite insert_id. }
  unfold get_threadsafe in E1. rewrite Hl3, lookup_insert_eq in E1.
  bind_inv E1 as qpn ? ? E2. apply conn_qp_num_inv in E2 as (-> & -> & qp' & Hqp' & ->).
  change (m_state m3) with (m_state m) in Hqp'. rewrite Hqp in Hqp'. injection Hqp' as <-.
  bind_inv E1 as data ? ? E2. run_inv_at E2. apply from_opt_Ok in E2.
  bind_inv E1 as addr ? ? E3. apply address_inv in E3 as (-> & -> & ->).
  bind_inv E1 as key ? ? E3. apply rkey_inv in E3 as (Hkey & -> & ->). step_inv E1.
  bind_inv E1 as e m4 t4 E4. apply spawn_inv in E4 as (addr & Haddr & -> & Hco & Hlen & Hpid & ->).
  bind_inv E1 as c m5 t5 E5.
  pose proof (frames_reset_executor (λ m, (_leases m, _clients m, _client_responses m)) ltac:(reflexivity)
    _ _ _ _ _ _ E5) as F5. apply pair_equal_spec in F5 as [F5 F53].
  apply pair_equal_spec in F5 as [F51 F52].
  pose proof (reset_executor_keeps conn _ _ _ _ _ _ Hown E5) as Hq5.
  assert (c = set_executor None client) as -> by (by apply reset_inv in E5 as [-> _]).
  apply silent_reset_executor in E5 as (u5 & -> & Hu5). bind_inv E1 as ? m6 t6 E6. unfold update_client in E6.
  run_inv_at E6. step_inv E1. bind_inv E1 as ? m7 t7 E7. run_inv_at E1.
  apply (respond_inv _ _ qp) in E7 as (Hs & Hcs & Hls & v & -> & Hsends); [|exact (eq_trans Hq5 Hqp)].
  unfold when in E. cbn [negb] in E. run_inv_at E. cbn in Hcs, Hls.
  split_and!; [congruence|done| |].
  - rewrite Hsends. change (_client_responses (set_clients _ m5)) with (_client_responses m5).
    rewrite F53. change (_client_responses m3) with (_client_responses m). f_equal.
    set (w := if 0 <? _pid e then _ else _).
    assert (sends (w ++ Cfork :: Cclock :: Cclock :: t) = sends t) as Hw
      by (rewrite (sends_app w); unfold w; destruct (0 <? _pid e); apply app_nil_r).
    change (sends (Cclock :: ?x)) with (sends x). rewrite (sends_app u5), (sends_silent u5), app_nil_r by done.
    exact Hw.
  - exists e, addr, data, key. split_and!; try done; [by rewrite Hcs, F52|].
    intros Hp. apply Z.ltb_lt in Hp. rewrite Hp. set_solver.
Qed.

(** C5. How an allocation request is served. When a known client sends a request
    with a non-negative lease number, the manager never refuses it: if the resource
    manager announced that lease, its number of cores is used, otherwise a lease
    with the number of cores the client asks for is made up.  The client's executor
    becomes a new process; in the child, the command line carries the request's
    buffers and address, the lease's cores, and the queue pair number and the
    accounting buffer of the client.  Exactly one message goes out, the status
    ALLOCATED to the client, also when the fork failed. *)
Theorem allocation_served `{Env} wide_shift indeterminate requests accounting_data wc m t u m' t' client conn qp :
  wc_status wc = 0 → _clients m !! wc_qp_num wc = Some client → connection client = Some conn →
  Rdma.qps (m_state m) !! conn = Some (Some qp) →
  (∀ e, executor client = Some e → Some conn ∉ connections e) →
  let req := requests t (wc_qp_num wc) (wc_wr_id wc) in
  let id := i32 (ar_lease_id req) in
  0 ≤ id →
  _handle_client_message wide_shift indeterminate requests accounting_data wc m t = Ok (u, m', t') →
  let lease := default (mk_Lease id (i16 (ar_cores req)) 512) (_leases m !! id) in
  _leases m' = <[id := lease]> (_leases m) ∧
  m_status m' = Some LeaseStatus.ALLOCATED ∧
  sends t' = sends t ++ [(qp, Buffer.whole (_client_responses m), 0)] ∧
  ∃ e addr data key,
    _clients m' = <[wc_qp_num wc := set_executor (Some e) client]> (_clients m) ∧
    pe_cores e = l_cores lease ∧ connections_len e = 0 ∧
    c_str (ar_listen_address req) = Some addr ∧ wide_secret wide_shift (qp_num qp) = Some data ∧
    mr_rkey <$> Buffer._mr (accounting client) = Some key ∧
    (0 < _pid e →
     Cexecvp (executor_argv (String.string_of_list_ascii addr) req (s_exec (_settings m))
       (mk_ManagerConnection (s_ip_address (_settings m)) (s_rdma_device_port (_settings m)) (i32 data)
          (Buffer._ptr (accounting client)) key) lease) ∈ t').
Proof. apply allocation_inv. Qed.

(** A manager connected to a resource manager.  Polls find one completion, events
    ask for a connection with the private data [d]. *)
Definition manager_env (d : Z) : Env :=
  scripted_env 8 (λ _ _ _, (1, [mk_wc 0 0 5 0 8]))
    (λ _, (0, mk_cm_event RDMA_CM_EVENT_CONNECT_REQUEST some_id (if d =? 0 then 0 else 4) d)) (λ _, 0) (λ _, 0).

Definition demo_settings : Settings :=
  mk_Settings "10.0.0.2" 10006 "node1" 77 (mk_ExecutorSettings false 1 0 32 0 false).

Definition blank_manager : manager :=
  mk_manager Rdma.listener [] ∅ None (Buffer.mk 1 0 4 4 8192 (Some (mk_mr 2 8192 11 12)) true) None
    demo_settings false ∅ ∅.

Definition demo_connect : M manager unit :=
  r ← @rm_construct (manager_env 0) _ "10.0.0.1" 10000 32;
  modify (set_rm (Some r)) ;;
  @on_rm _ (@rm_connect (manager_env 0) "node1" (2 ^ 24 + 77)) ;;
  mret tt.

(** The state and the calls after an operation that ends well. *)
Definition after {A} (op : M manager A) (st : manager * trace) : manager * trace :=
  match op st.1 st.2 with Ok (_, m, t) => (m, t) | Fault _ => (blank_manager, []) end.

Definition demo_start : manager * trace := after demo_connect (blank_manager, []).

(** The client connects; its queue pair has the number of calls made so far. *)
Definition demo_listen : manager * trace := after (@listen (manager_env 0) (Some 0)) demo_start.
Definition demo_client : manager * trace := after (@drain (manager_env 0)) demo_listen.

(** The client's first message asks for two cores, its second one says goodbye. *)
Definition demo_requests : trace → Z → Z → AllocationRequest := λ _ _ id,
  mk_AllocationRequest (if id =? 0 then 4 else -1) 2 0 100 0 1 64 64 1024 10005
    (strncpy 16 (String.list_ascii_of_string "10.0.0.9")).
Definition demo_accounting : trace → Z → Accounting := λ _ _, mk_Accounting 30 40.

Definition demo_message (id : Z) : M manager unit :=
  @_handle_client_message (manager_env 0) (Some 0) 99 demo_requests demo_accounting (mk_wc 0 id 13 0 48).
Definition demo_allocated : manager * trace := after (demo_message 0) demo_client.
Definition demo_closed : manager * trace := after (demo_message 1) demo_allocated.

Lemma allocation_served_witness :
  ∃ m' t' e,
    @_handle_client_message (manager_env 0) (Some 0) 99 demo_requests demo_accounting (mk_wc 0 0 13 0 48)
      demo_client.1 demo_client.2 = Ok (tt, m', t') ∧
    m_status m' = Some LeaseStatus.ALLOCATED ∧ executor <$> _clients m' !! 13 = Some (Some e) ∧ pe_cores e = 2.
Proof.
  destruct (@_handle_client_message (manager_env 0) (Some 0) 99 demo_requests demo_accounting (mk_wc 0 0 13 0 48)
      demo_client.1 demo_client.2) as [[[[] m'] t']|] eqn:E;
    [|vm_compute in E; discriminate E].
  destruct (_clients demo_client.1 !! 13) as [client|] eqn:Hcl; [|vm_compute in Hcl; discriminate Hcl].
  assert (connection client = Some 1 ∧ executor client = None) as [Hconn Hex]
    by (vm_compute in Hcl; injection Hcl as <-; split; reflexivity).
  assert (∀ e, executor client = Some e → Some 1 ∉ connections e) as Hown
    by (intros e He; rewrite Hex in He; discriminate He).
  destruct (@allocation_served (manager_env 0) (Some 0) 99 demo_requests demo_accounting (mk_wc 0 0 13 0 48)
    demo_client.1 demo_client.2 tt m' t' client 1 (mk_qp 13 70 71 72) eq_refl Hcl Hconn
    ltac:(vm_compute; reflexivity) Hown ltac:(vm_compute; discriminate) E)
    as (_ & Hs & _ & e & _ & _ & _ & Hc & He & _).
  exists m', t', e. split; [reflexivity|]. split; [exact Hs|].
  split; [rewrite Hc; exact (f_equal (fmap executor) (lookup_insert_eq _ _ _))|].
  rewrite He. vm_compute. reflexivity.
Defined.

(** C7. How the listener tells clients and executors apart. Where the shift by the
    whole width yields 0, a connection without private data is a new client: it is
    accepted, its queue pair is expected by executors from now on, and it is handed to
    the processing thread.  A connection with private data is an executor: it is
    accepted and handed over exactly when the data is the queue pair number of a
    client that is connected, and otherwise rejected and deleted.  Where the shift
    yields 1, every executor is taken for a client. *)
Theorem executor_matching `{Env} m t conn c id :
  Rdma.p_store (m_state m) !! conn = Some c → Connection._id c = Some id →
  let d := Connection.private_data c in
  0 ≤ d < 2 ^ 32 →
  let request shift := handle_event shift conn Connection.REQUESTED m t in
  let new_client m' t' :=
    ∃ client qp t0, Rdma.qps (m_state m) !! conn = Some (Some qp) ∧ connection client = Some conn ∧
      m_queue m' = m_queue m ++ [ConnectClient client] ∧
      m_clients_to_connect m' = {[qp_num qp]} ∪ m_clients_to_connect m ∧ t' = Caccept id :: t0 in
  (d = 0 → ∀ u m' t', request (Some 0) = Ok (u, m', t') → new_client m' t') ∧
  (d ≠ 0 → d ∈ m_clients_to_connect m →
   request (Some 0) = Ok (tt, set_queue (m_queue m ++ [ConnectExecutor conn]) m, Caccept id :: t)) ∧
  (d ≠ 0 → d ∉ m_clients_to_connect m → ∀ u m' t', request (Some 0) = Ok (u, m', t') →
   m_queue m' = m_queue m ∧ Rdma.p_store (m_state m') = delete conn (Rdma.p_store (m_state m)) ∧
   ∃ t0, t' = t0 ++ Creject id :: t) ∧
  (∀ u m' t', request (Some 1) = Ok (u, m', t') → new_client m' t').
Proof.
  intros Hc Hi d Hd request new_client.
  assert (∀ shift u m' t', wide_secret shift d = Some 0 → request shift = Ok (u, m', t') → new_client m' t') as Hn.
  { intros shift u m' t' Hs E. apply (new_client_inv shift conn c) in E; [|done..].
    destruct E as (client & qp & id' & t0 & Hq & Hid & Hcc & _ & _ & Hmq & Hmc & ->).
    exists client, qp, t0. unfold Rdma.ids in Hid. rewrite lookup_fmap, Hc in Hid. cbn in Hid.
    split_and!; try done. congruence. }
  split_and!.
  - intros Hz u m' t'. apply Hn. by rewrite wide_secret_whole by lia; rewrite Hz.
  - intros Hz Hin. unfold request. rewrite (executor_request (Some 0) conn c d); [|by apply wide_secret_whole|lia|done].
    rewrite bool_decide_eq_true_2 by done. by rewrite (bind_run _ _ _ _ _ _ _ (em_accept_run _ _ _ _ _ Hc Hi)).
  - intros Hz Hin u m' t' E. unfold request in E.
    rewrite (executor_request (Some 0) conn c d) in E; [|by apply wide_secret_whole|lia|done].
    rewrite bool_decide_eq_false_2 in E by done.
    rewrite (bind_run _ _ _ _ _ _ _ (reject_run _ _ _ _ _ Hc Hi)) in E.
    apply silent_delete_conn in E as Et. destruct Et as (t0 & Et & _).
    pose proof (em_frames_on_state m_queue ltac:(reflexivity) _ _ _ _ _ _ E) as Hq.
    apply delete_conn_inv in E. by eauto.
  - intros u m' t'. apply Hn, wide_secret_nothing.
Qed.

(** An executor whose private data is the queue pair number 13 of the client. *)
Definition demo_executor : Connection.t :=
  Connection.initialize some_id (Connection.set_private_data 13 (Connection.construct 32 true)).
Definition demo_matching : manager :=
  set_state (Rdma.set_store (<[7 := demo_executor]> (Rdma.p_store (m_state demo_client.1)))
    (m_state demo_client.1)) demo_client.1.

Lemma executor_matching_witness :
  @handle_event (manager_env 0) (Some 0) 7 Connection.REQUESTED demo_matching [] =
    Ok (tt, set_queue (m_queue demo_matching ++ [ConnectExecutor 7]) demo_matching, [Caccept some_id]).
Proof.
  assert (13 ∈ m_clients_to_connect demo_matching) as Hin.
  { apply (bool_decide_unpack (13 ∈ m_clients_to_connect demo_matching)). vm_compute. exact I. }
  apply (@executor_matching (manager_env 0) demo_matching [] 7 demo_executor some_id);
    [vm_compute; reflexivity|reflexivity|split; [discriminate|reflexivity]|discriminate|exact Hin].
Defined.

(** What a request with a negative lease number leads to. *)
Lemma goodbye_inv `{Env} wide_shift indeterminate requests accounting_data wc m t u m' t' client conn :
  wc_status wc = 0 → _clients m !! wc_qp_num wc = Some client → connection client = Some conn →
  i32 (ar_lease_id (requests t (wc_qp_num wc) (wc_wr_id wc))) < 0 →
  _handle_client_message wide_shift indeterminate requests accounting_data wc m t = Ok (u, m', t') →
  _clients m' = delete (wc_qp_num wc) (_clients m) ∧
  Rdma.p_store (m_state m') !! conn = None ∧
  ∃ id, Rdma.ids (m_state m) !! conn = Some (Some id) ∧
    said_goodbye indeterminate accounting_data client id m m' t t'.
Proof.
  intros Hst Hcl Hconn Hneg E. unfold _handle_client_message in E. step_inv E.
  rewrite Hcl, Hst in E. change (nonzero 0) with false in E. cbv iota in E.
  bind_inv E as keep m1 t1 E1. unfold _process_client in E1. bind_inv E1 as ? m2 t2 E2.
  case_bool_decide; run_inv_at E2. bind_inv E1 as req' ? ? E2. injection E2 as <- <- <-. cbv zeta in E1.
  destruct (Z.leb_spec 0 (i32 (ar_lease_id (requests t (wc_qp_num wc) (wc_wr_id wc))))); [lia|].
  bind_inv E1 as c m3 t3 E3. apply (disable_inv _ _ _ conn) in E3; [|done].
  destruct E3 as (Hc & Hx & Hcs & Hst3 & id & Hid & stopped & ended & told & He & -> & Hs & Hk & Hrm).
  bind_inv E1 as ? m4 t4 E4. unfold update_client in E4. run_inv_at E4. run_inv_at E1.
  unfold when, erase_client in E. cbn [negb] in E. step_inv E. cbn [set_clients _clients] in E.
  rewrite lookup_insert_eq in E. step_inv E. apply destroy_disabled in E as (-> & v & -> & Hv); [|done..].
  cbn. rewrite Hcs. split_and!; [by rewrite delete_insert_eq|done|]. exists id. split; [done|].
  exists stopped, ended, (v ++ told). split_and!; [done|by rewrite <-app_assoc|done|done|].
  by rewrite sends_app, Hv, app_nil_r.
Qed.


(** The client of the lease above says goodbye; the manager is connected to a resource manager. *)
Definition demo_rm : ResourceManagerConnection :=
  mk_rm (Rdma.mk_active (Some (Connection.initialize some_id (Connection.construct 32 false))) (Rdma.mk_addr 1 10000) 3 32 0
           Rdma.NoData true)
    (Buffer.mk 32 0 512 16 20480 (Some (mk_mr 7 20480 11 12)) true)
    (Buffer.mk 40 0 40 1 24576 (Some (mk_mr 8 24576 11 12)) true) None.
Definition demo_leaving : manager := set_rm (Some demo_rm) demo_allocated.1.


(** The receives of a client reach beyond its buffer. The buffer of a client has
    room for 8 requests, while a receive queue cycles through 32 slots: with a queue
    of at least 32 receives, as soon as a client is set up a receive is posted whose
    slot starts where the buffer ends. *)
Theorem client_receives_overrun `{Env} id conn act m t client m' t' c qp :
  Rdma.p_store (m_state m) !! conn = Some c →
  Queue._queue_pair (Connection._rcv_wcs c) = Some qp → Queue.batch_ok (Queue._batch_wrs (Connection._rcv_wcs c)) →
  0 < Queue._refill_threshold (Connection._rcv_wcs c) → 32 ≤ Queue._rcv_buf_size (Connection._rcv_wcs c) →
  client_construct id conn act m t = Ok (client, m', t') →
  let b := allocation_requests client in
  0 ≤ Buffer._ptr b → Buffer._ptr b + Buffer._bytes b < 2 ^ 64 →
  ∃ wrs w e, Cpost_recv qp wrs ∈ t' ∧ w ∈ wrs ∧ rwr_id w = 8 ∧ rwr_sg_list w = [e] ∧
    sge_addr e = Buffer._ptr b + Buffer._bytes b ∧ sge_length e = sizeof_AllocationRequest.
Proof.
  intros Hc Hq Hok Hth Hn E b Hp0 Hp1. unfold client_construct in E.
  bind_inv E as p ? ? E1. unfold pd in E1. run_inv_at E1.
  bind_inv E as q1 m1 t1 E1. unfold Buffer.allocate in E1. step_inv E1. run_inv_at E1.
  bind_inv E as a1 m2 t2 E2. unfold Buffer.allocate in E2. step_inv E2. run_inv_at E2.
  bind_inv E as a2 m3 t3 E3. apply register_inv in E3 as [-> _].
  bind_inv E as q2 m4 t4 E4. apply register_inv in E4 as (-> & mr & ->).
  cbn [Buffer._size Buffer._header Buffer._bytes Buffer._byte_size Buffer._ptr Buffer._own_memory] in E.
  bind_inv E as ? m5 t5 E5. run_inv_at E. cbn [allocation_requests] in b.
  unfold on_conn, on_state in E5. run_inv_at E5.
  apply Rdma.on_conn_inv in E5 as (c0 & c' & Hc0 & E5 & _). rewrite Hc in Hc0. injection Hc0 as <-.
  unfold Connection.receive_wcs in E5. run_inv_at E5.
  by apply (initialize_overrun _ qp) in E5.
Qed.

Lemma client_receives_overrun_witness :
  ∃ client m' t' wrs w, @client_construct (manager_env 0) 7 7 true demo_matching [] = Ok (client, m', t') ∧
    Cpost_recv some_qp wrs ∈ t' ∧ w ∈ wrs ∧ rwr_id w = 8.
Proof.
  destruct (@client_construct (manager_env 0) 7 7 true demo_matching []) as [[[client m'] t']|] eqn:E;
    [|vm_compute in E; discriminate E].
  assert (Buffer._ptr (allocation_requests client) = 4096 ∧ Buffer._bytes (allocation_requests client) = 384)
    as [Hp Hb] by (vm_compute in E; injection E as <- <- <-; split; reflexivity).
  destruct (@client_receives_overrun (manager_env 0) 7 7 true demo_matching [] client m' t' demo_executor some_qp)
    as (wrs & w & e & Hin & Hw & Hid & _).
  - vm_compute. reflexivity.
  - reflexivity.
  - split; reflexivity.
  - reflexivity.
  - discriminate.
  - exact E.
  - rewrite Hp. discriminate.
  - rewrite Hp, Hb. reflexivity.
  - exists client, m', t', wrs, w. split; [reflexivity|]. split; [exact Hin|]. split; [exact Hw|exact Hid].
Defined.

(** An executor that ends crashes its manager. The message that reports the end of
    a process reads element number [qp] of the client's accounting buffer, which has
    one element: for every client whose queue pair number is not 0, finding that the
    executor is no longer running ends in an access out of bounds, before the lease
    is closed. *)
Theorem exited_executor_undefined `{Env} indeterminate accounting_data qp m t client e :
  _clients m !! qp = Some client → _active client = true → executor client = Some e → i32 qp ≠ 0 →
  (env_waitpid t (_pid e) (Z.lor WNOHANG WUNTRACED)).1.1 ≠ 0 →
  check_executor indeterminate accounting_data qp m t = Fault (Undefined "accounting out of bounds").
Proof.
  intros Hcl Ha Hx Hqp Hw. unfold check_executor. rewrite (bind_run read _ m t m m t eq_refl), Hcl, Ha, Hx.
  cbv iota. cbn [negb].
  destruct (env_waitpid t (_pid e) (Z.lor WNOHANG WUNTRACED)) as [[pid st] err] eqn:Ew. cbn in Hw.
  assert (∃ s, s.1 ≠ RUNNING ∧
    check e m t = Ok (s, m, Cwaitpid (_pid e) (Z.lor WNOHANG WUNTRACED) :: t)) as (s & Hs & Hr).
  { unfold check. run. rewrite Ew. eexists. split; [|reflexivity].
    destruct (Z.eqb_spec pid 0); [done|]. repeat case_match; done. }
  rewrite (bind_run _ _ _ _ _ _ _ Hr), bool_decide_eq_false_2 by done.
  rewrite (bind_run _ _ _ _ _ _ _ (eq_refl (Ok (_, m, Cclock :: _)))).
  by rewrite bool_decide_eq_false_2.
Qed.

(** The executor of the demo client is reported as exited. *)
Lemma exited_executor_undefined_witness :
  ∃ e, executor <$> _clients demo_allocated.1 !! 13 = Some (Some e) ∧
    @check_executor (with_waitpid (λ _ _ _, (100, 0, 0)) (manager_env 0)) 99 demo_accounting 13
      demo_allocated.1 demo_allocated.2 = Fault (Undefined "accounting out of bounds").
Proof.
  destruct (_clients demo_allocated.1 !! 13) as [client|] eqn:Hcl; [|vm_compute in Hcl; discriminate Hcl].
  destruct (executor client) as [e|] eqn:Hx; [|vm_compute in Hcl; injection Hcl as <-; discriminate Hx].
  assert (_active client = true) as Ha by (vm_compute in Hcl; injection Hcl as <-; reflexivity).
  exists e. split; [exact (f_equal Some Hx)|].
  apply (@exited_executor_undefined (with_waitpid (λ _ _ _, (100, 0, 0)) (manager_env 0)) 99 demo_accounting 13
    demo_allocated.1 demo_allocated.2 client e Hcl Ha Hx); discriminate.
Defined.

(** An executor process has room for one connection per core. Exactly as many
    executor threads as the lease has cores can be added; the next one is written
    outside the array. *)
Theorem executor_capacity cores begin pid conns :
  0 ≤ cores →
  ∃ e, process_executor cores begin pid = Ok e ∧
    let added := foldl (λ r conn, e ← r; add_executor conn e) (Ok e) conns in
    if bool_decide (Z.of_nat (length conns) ≤ cores)
    then ∃ e', added = Ok e' ∧ take (length conns) (connections e') = Some <$> conns ∧
           connections_len e' = Z.of_nat (length conns)
    else added = Fault (Undefined "connections out of bounds").
Proof.
  intros Hc. unfold process_executor. destruct (Z.ltb_spec cores 0); [lia|]. eexists. split; [done|].
  cbn zeta. set (e := mk_ProcessExecutor _ _ _ _ _ _).
  assert (Z.of_nat (length (connections e)) = cores) as Hl by (cbn; rewrite length_replicate; lia).
  pose proof (add_all conns e ltac:(rewrite Hl; cbn; lia)) as Ha. cbn zeta in Ha. rewrite Hl in Ha.
  change (connections_len e) with 0 in Ha. rewrite Z.add_0_l in Ha.
  case_bool_decide; [|done]. destruct Ha as (e' & E & Hn & _ & Ht). exists e'. split_and!; [done| |done].
  rewrite Hn, Nat2Z.id in Ht. exact Ht.
Qed.

Lemma executor_capacity_witness :
  ∃ e, process_executor 2 0 100 = Ok e ∧
    foldl (λ r conn, e ← r; add_executor conn e) (Ok e) [7; 8; 9] = Fault (Undefined "connections out of bounds").
Proof. destruct (executor_capacity 2 0 100 [7; 8; 9] ltac:(discriminate)) as (e & He & Ha). by exists e. Defined.

(** The number of a lease is lost before the lease is closed. A client is
    moved into the queue and again into the table of clients, and the move does not
    copy its number.  So in every state the threads can reach, a deallocation sent to
    the resource manager carries whatever the never-written integer held. *)
Theorem closed_lease_number_lost `{Env} wide_shift indeterminate requests accounting_data received m t r d :
  manager_reachable wide_shift indeterminate requests accounting_data received (m, t) →
  m_rm m = Some r → rm_sent r = Some (LeaseDeallocationMsg d) →
  ld_lease_id d = i32 indeterminate.
Proof.
  intros Hr Em Er. apply reachable_lost in Hr as (_ & _ & Hr). specialize (Hr r Em). by rewrite Er in Hr.
Qed.

(** The client asked for lease 4; the number sent is the indeterminate 99. *)
Lemma closed_lease_number_lost_witness :
  ∃ r d, m_rm demo_closed.1 = Some r ∧ rm_sent r = Some (LeaseDeallocationMsg d) ∧
    ld_execution_time d = 40 ∧ ld_lease_id d = 99.
Proof.
  assert (@manager_reachable (manager_env 0) (Some 0) 99 demo_requests demo_accounting
    (λ _, mk_LeaseAllocation 0 0 0) (demo_closed.1, demo_closed.2)) as Hr.
  { exists demo_start.1, demo_start.2. split.
    { split; [vm_compute; reflexivity|]. split; [vm_compute; reflexivity|].
      intros r Er. vm_compute in Er. injection Er as <-. exact I. }
    eapply rtc_l; [apply (ms_listen _ _ _ _ _ _ _ demo_listen.1 demo_listen.2); vm_compute; reflexivity|].
    eapply rtc_l; [apply (ms_dequeue _ _ _ _ _ _ _ (default (Disconnect 0) (head (m_queue demo_listen.1))) []
      demo_client.1 demo_client.2); vm_compute; reflexivity|].
    eapply rtc_l; [apply (ms_client _ _ _ _ _ _ _ (mk_wc 0 0 13 0 48) demo_allocated.1 demo_allocated.2);
      vm_compute; reflexivity|].
    apply rtc_once. apply (ms_client _ _ _ _ _ _ _ (mk_wc 0 1 13 0 48) demo_closed.1 demo_closed.2).
    vm_compute. reflexivity. }
  destruct (m_rm demo_closed.1) as [r|] eqn:Em; [|vm_compute in Em; discriminate Em].
  destruct (rm_sent r) as [[|d|]|] eqn:Er; try (vm_compute in Em; injection Em as <-; discriminate Er).
  exists r, d. split; [reflexivity|]. split; [exact Er|].
  split; [vm_compute in Em; injection Em as <-; injection Er as <-; reflexivity|].
  apply (@closed_lease_number_lost (manager_env 0) (Some 0) 99 demo_requests demo_accounting
    (λ _, mk_LeaseAllocation 0 0 0) demo_closed.1 demo_closed.2 r d); [exact Hr|exact Em|exact Er].
Defined.

End ExecutorManager.
