(* ===== verification/Invocation.v ===== *)
(** * Invocations on the wire

    What the client library (src/rfaas/include/rfaas/executor.hpp) and the executor
    (src/server/executor/fast_executor.{hpp,cpp}, functions.cpp) must agree on: the
    index of a function in the library, the 32-bit word that comes with the input of
    an invocation and the one that comes with its result. *)

From stdpp Require Import sorting.
From S2P Require Import Prelude.

Module Invocation.

(** ** Function names

    Both sides read the names of the functions in the library's symbol table and
    sort them ([std::sort]); the client sends the position of the name
    ([std::find], [std::distance]). *)

Definition sort_names (symbols : list string) : list string := merge_sort String.le symbols.

Definition func_index (fname : string) (names : list string) : option Z :=
  Z.of_nat ∘ fst <$> list_find (fname =.) names.

(** ** The word of an invocation

    16 bits of invocation number, the bit that asks for a solicited reply, 15 bits of
    function index. *)

Definition async_code (invoc_id func_idx : Z) : Z :=
  u32 (Z.lor (Z.lor (Z.shiftl invoc_id 16) (Z.shiftl 1 15)) func_idx).
Definition execute_code (invoc_id func_idx : Z) : Z :=
  u32 (Z.lor (Z.shiftl invoc_id 16) func_idx).

Definition submission (solicited : bool) (invoc_id func_idx : Z) : Z :=
  if solicited then async_code invoc_id func_idx else execute_code invoc_id func_idx.

(** [if (++_invoc_id == 65536) _invoc_id = 1] *)
Definition next_invoc (invoc_id : Z) : Z :=
  if invoc_id + 1 =? 65536 then 1 else invoc_id + 1.

(** What the executor reads: [int info = ntohl(imm_data)]. *)
Definition invocation_mask : Z := 0x7FFF.
Definition solicited_mask : Z := 0x8000.

Definition info (imm_data : Z) : Z := i32 (ntohl imm_data).
Definition func_id (info : Z) : Z := Z.land info invocation_mask.
Definition invoc_id (info : Z) : Z := Z.shiftr info 16.
Definition solicited (info : Z) : bool := nonzero (Z.land info solicited_mask).

(** ** The word of a result *)

Definition result_code (invoc_id : Z) : Z := u32 (Z.lor (Z.shiftl invoc_id 16) 0).

(** What the client reads: [uint32_t val = ntohl(imm_data)]. *)
Definition return_val (val : Z) : Z := Z.land val 0xFFFF.
Definition finished_invoc_id (val : Z) : Z := Z.shiftr val 16.

(** ** Lemmas *)

Lemma u32_lor_shift (a b : Z) : 0 ≤ b < 2 ^ 16 → u32 (Z.lor (Z.shiftl a 16) b) = u16 a * 2 ^ 16 + b.
Proof.
  intros Hb. rewrite lor_shiftl_add by lia. rewrite Z.shiftl_mul_pow2 by lia.
  unfold wrap. change (2 ^ 32) with (2 ^ 16 * 2 ^ 16).
  rewrite Z.rem_mul_r by lia.
  assert ((a * 2 ^ 16 + b) mod 2 ^ 16 = b) as -> by (rewrite Z.add_comm, Z.mod_add, Z.mod_small; lia).
  assert ((a * 2 ^ 16 + b) / 2 ^ 16 = a) as -> by (rewrite Z.div_add_l, Z.div_small; lia). lia.
Qed.

Lemma submission_value sol i f : 0 ≤ f < 2 ^ 15 →
  submission sol i f = u16 i * 2 ^ 16 + (if sol then 2 ^ 15 else 0) + f.
Proof.
  intros Hf. destruct sol; unfold submission, async_code, execute_code.
  - rewrite <-Z.lor_assoc. rewrite (lor_shiftl_add 1 f 15) by lia.
    change (Z.shiftl 1 15) with (2 ^ 15). rewrite u32_lor_shift by lia. lia.
  - rewrite u32_lor_shift by lia. lia.
Qed.

(** Reading a 32-bit word as a signed integer. *)
Lemma i32_cases x : 0 ≤ x < 2 ^ 32 → i32 x = if x <? 2 ^ 31 then x else x - 2 ^ 32.
Proof.
  intros Hx. unfold i32, swrap. destruct (Z.ltb_spec x (2 ^ 31)).
  - rewrite Z.mod_small by lia. lia.
  - replace (x + 2 ^ (32 - 1)) with (x - 2 ^ 31 + 1 * 2 ^ 32) by lia.
    rewrite Z.mod_add, Z.mod_small by lia. lia.
Qed.

(** The three fields of a word with number [i], flag [sol] and index [f]. *)
Lemma info_fields i sol f : 0 ≤ f < 2 ^ 15 →
  let x := info (htonl (submission sol i f)) in
  func_id x = f ∧ solicited x = sol ∧ invoc_id x = i16 i.
Proof.
  intros Hf x. subst x. unfold info. rewrite ntohl_htonl, submission_value by done.
  assert (0 ≤ u16 i < 2 ^ 16) as Hi by (by apply wrap_range).
  set (c := u16 i * 2 ^ 16 + (if sol then 2 ^ 15 else 0) + f).
  assert (0 ≤ c < 2 ^ 32) as Hc by (unfold c; destruct sol; lia).
  rewrite (wrap_small 32 c), i32_cases by done.
  set (y := if c <? 2 ^ 31 then c else c - 2 ^ 32).
  assert (∃ k, y = c + k * 2 ^ 32 ∧ k = if c <? 2 ^ 31 then 0 else -1) as (k & Hy & Hk).
  { exists (if c <? 2 ^ 31 then 0 else -1). split; [|done]. unfold y. destruct (c <? 2 ^ 31); lia. }
  rewrite Hy. split_and!.
  - unfold func_id, invocation_mask. change 0x7FFF with (Z.ones 15). rewrite land_wrap by lia.
    change (wrap 15 ?x) with (x mod 2 ^ 15). unfold c.
    replace (_ + _ + f + k * 2 ^ 32) with (f + (u16 i * 2 + (if sol then 1 else 0) + k * 2 ^ 17) * 2 ^ 15)
      by (destruct sol; lia).
    rewrite Z.mod_add, Z.mod_small by lia. done.
  - unfold solicited, nonzero, solicited_mask.
    assert (Z.land (c + k * 2 ^ 32) 0x8000 = if sol then 2 ^ 15 else 0) as ->; [|by destruct sol].
    change 0x8000 with (Z.shiftl (Z.ones 1) 15).
    replace (c + k * 2 ^ 32) with (Z.shiftl (u16 i * 2 + (if sol then 1 else 0) + k * 2 ^ 17) 15 + f)
      by (rewrite Z.shiftl_mul_pow2 by lia; unfold c; destruct sol; lia).
    rewrite <-lor_shiftl_add by lia. rewrite Z.land_lor_distr_l.
    assert (Z.land f (Z.shiftl (Z.ones 1) 15) = 0) as ->.
    { rewrite <-(Z.mod_small f (2 ^ 15)) by done. rewrite <-Z.land_ones by lia. zbits. }
    rewrite Z.lor_0_r, <-Z.shiftl_land, Z.land_ones by lia. rewrite Z.shiftl_mul_pow2 by lia.
    replace (u16 i * 2 + (if sol then 1 else 0) + k * 2 ^ 17)
      with ((if sol then 1 else 0) + (u16 i + k * 2 ^ 16) * 2 ^ 1) by lia.
    rewrite Z.mod_add by lia. by destruct sol.
  - unfold invoc_id. rewrite Z.shiftr_div_pow2 by lia.
    replace (c + k * 2 ^ 32) with ((u16 i + k * 2 ^ 16) * 2 ^ 16 + ((if sol then 2 ^ 15 else 0) + f))
      by (unfold c; lia).
    rewrite Z.div_add_l, (Z.div_small ((if sol then _ else _) + f)) by (destruct sol; lia).
    rewrite <-(swrap_wrap 16 i) by lia. unfold swrap. change (16 - 1) with 15.
    subst k. unfold c. destruct (Z.ltb_spec (u16 i * 2 ^ 16 + (if sol then 2 ^ 15 else 0) + f) (2 ^ 31)).
    + rewrite Z.mod_small by (destruct sol; lia). lia.
    + replace (u16 i + 2 ^ 15) with (u16 i - 2 ^ 15 + 1 * 2 ^ 16) by lia.
      rewrite Z.mod_add, Z.mod_small by (destruct sol; lia). lia.
Qed.

(** The number of an invocation survives the executor, which treats it as signed. *)
Lemma result_fields i :
  let val := ntohl (htonl (result_code (i16 i))) in
  finished_invoc_id val = u16 i ∧ return_val val = 0.
Proof.
  intros val. subst val. rewrite ntohl_htonl. unfold result_code.
  rewrite u32_lor_shift by lia. rewrite wrap_swrap by lia.
  assert (0 ≤ u16 i < 2 ^ 16) as Hi by (by apply wrap_range).
  rewrite (wrap_small 32) by lia. rewrite Z.add_0_r. split.
  - unfold finished_invoc_id. rewrite Z.shiftr_div_pow2, Z.div_mul by lia. done.
  - unfold return_val. change 0xFFFF with (Z.ones 16). rewrite land_wrap by lia. apply Z.mod_mul. lia.
Qed.

Lemma sort_names_perm s s' : s ≡ₚ s' → sort_names s = sort_names s'.
Proof.
  intros Hp. apply (StronglySorted_unique String.le);
    [apply (StronglySorted_merge_sort String.le)..|].
  unfold sort_names. by rewrite !(merge_sort_Permutation String.le).
Qed.

Lemma func_index_lookup fname names :
  fname ∈ names → ∃ i, func_index fname names = Some (Z.of_nat i) ∧ names !! i = Some fname.
Proof.
  intros Hin. unfold func_index.
  destruct (list_find_elem_of (fname =.) names fname Hin eq_refl) as [[i f] Hf].
  pose proof Hf as Hf'. apply list_find_Some in Hf' as (Hl & <- & _). exists i. by rewrite Hf.
Qed.

(** What an executor and then the client make of the word of an [async], whatever the
    size of the number. *)
Lemma async_func_id i f : 0 ≤ f < 2 ^ 15 → func_id (info (htonl (async_code i f))) = f.
Proof. apply (info_fields i true f). Qed.

Lemma async_invoc_id i f : 0 ≤ f < 2 ^ 15 → invoc_id (info (htonl (async_code i f))) = i16 i.
Proof. apply (info_fields i true f). Qed.

Lemma answer_number i f : 0 ≤ f < 2 ^ 15 →
  finished_invoc_id (ntohl (htonl (result_code (invoc_id (info (htonl (async_code i f))))))) = u16 i.
Proof. intros Hf. rewrite async_invoc_id by done. apply result_fields. Qed.

Lemma answer_value i f : 0 ≤ f < 2 ^ 15 →
  return_val (ntohl (htonl (result_code (invoc_id (info (htonl (async_code i f))))))) = 0.
Proof. intros Hf. rewrite async_invoc_id by done. apply result_fields. Qed.

Lemma func_index_Some fname names idx :
  func_index fname names = Some idx → 0 ≤ idx < Z.of_nat (length names) ∧ znth names idx = Some fname.
Proof.
  unfold func_index. intros ([i g] & (Hl & <- & _)%list_find_Some & ->)%fmap_Some. cbn.
  pose proof (lookup_lt_Some _ _ _ Hl). split; [lia|]. unfold znth.
  rewrite bool_decide_eq_true_2 by lia. by rewrite Nat2Z.id.
Qed.

(** ** Theorems *)

(** C29. The function that runs is the one that was called, and its result comes back
    to the call. For a library of at most 32768 functions and an invocation number of
    16 bits: the client finds an index for the name; the executor, which has read the
    same symbols in any order, finds at the index it decodes the same name and knows
    whether a solicited reply is wanted; and the word it answers with gives the client
    the number of the invocation and the value 0. *)
Theorem invocation_roundtrip symbols symbols' fname number sol :
  symbols ≡ₚ symbols' → fname ∈ symbols → Z.of_nat (length symbols) ≤ 2 ^ 15 → 0 ≤ number < 2 ^ 16 →
  ∃ idx, func_index fname (sort_names symbols) = Some idx ∧
    let x := info (htonl (submission sol number idx)) in
    znth (sort_names symbols') (func_id x) = Some fname ∧ solicited x = sol ∧
    let val := ntohl (htonl (result_code (invoc_id x))) in
    finished_invoc_id val = number ∧ return_val val = 0.
Proof.
  intros Hp Hin Hlen Hn.
  destruct (func_index_lookup fname (sort_names symbols)) as (i & Hi & Hl).
  { unfold sort_names. by rewrite (merge_sort_Permutation String.le). }
  exists (Z.of_nat i). split; [done|].
  assert ((i < length symbols)%nat) as Hlt.
  { apply lookup_lt_Some in Hl. unfold sort_names in Hl. by rewrite (merge_sort_Permutation String.le) in Hl. }
  destruct (info_fields number sol (Z.of_nat i) ltac:(lia)) as (Hf & Hs & Hv). cbn zeta.
  rewrite Hf, Hs, Hv. destruct (result_fields number) as [Hr Hz]. cbn zeta in Hr, Hz. rewrite Hr, Hz.
  split_and!; [|done|by apply wrap_small|done].
  rewrite <-(sort_names_perm symbols symbols') by done. unfold znth.
  rewrite bool_decide_eq_true_2 by lia. by rewrite Nat2Z.id.
Qed.

Lemma invocation_roundtrip_witness :
  ∃ idx, func_index "resize" (sort_names ["resize"; "empty"; "_init"]) = Some idx ∧
    znth (sort_names ["_init"; "resize"; "empty"]) (func_id (info (htonl (submission true 40000 idx)))) =
      Some "resize"%string ∧
    finished_invoc_id (ntohl (htonl (result_code (invoc_id (info (htonl (submission true 40000 idx))))))) = 40000.
Proof.
  destruct (invocation_roundtrip ["resize"; "empty"; "_init"] ["_init"; "resize"; "empty"] "resize" 40000 true)
    as (idx & Hi & Hz & _ & Hf & _).
  - apply (bool_decide_unpack (["resize"; "empty"; "_init"]%string ≡ₚ ["_init"; "resize"; "empty"]%string)).
    vm_compute. exact I.
  - apply list_elem_of_here.
  - vm_compute. discriminate.
  - split; [discriminate|reflexivity].
  - exists idx. split; [exact Hi|]. split; [exact Hz|exact Hf].
Defined.

End Invocation.
