(* ===== verification/ExecutorThread.v ===== *)
(** * The executor's threads

    src/server/executor: the functions of the received library (functions.{hpp,cpp}),
    the accounting of a thread and the thread itself (fast_executor.{hpp,cpp}), which
    polls for invocations, runs them, writes the results back to the client and adds
    the time spent to the counters of the executor manager.

    What is outside the process is an argument: [symbols], the function names of the
    library the client sent; [header], the remote buffer the client wrote at the start
    of the receive buffer; [term], whether the signal handler has set [term_process].
    A loop that waits follows at most the number of iterations it is given. *)

From S2P Require Import Prelude Verbs Buffer Queue Connection Messages Rdma Invocation ExecutorManager.

Module ExecutorThread.
Import ExecutorManager.

(** ** Functions *)

(** [_functions] holds the addresses found so far, zero for a null pointer. *)
Record Functions := mk_Functions {
  _memory_handle : Z; _size : Z; _names : list string; _functions : list Z }.

Section Functions.
Context `{Env}.

(** [Functions(size)]: the memory file is mapped; a failed mapping is not null. *)
Definition functions_construct {S} (size : Z) : M S Functions :=
  p ← ext (Cmmap size) (λ tr, env_mmap tr size);
  expect_nonzero p ;;
  mret (mk_Functions p size [] []).

Definition functions_destroy {S} (f : Functions) : M S unit :=
  ext (Cmunmap (_memory_handle f) (_size f)) (λ _, tt).

(** [process_library], after the library was opened. *)
Definition process_library (symbols : list string) (f : Functions) : Functions :=
  let names := Invocation.sort_names (_names f ++ symbols) in
  mk_Functions (_memory_handle f) (_size f) names
    (take (length names) (_functions f ++ replicate (length names) 0)).

(** [function(idx)] *)
Definition function (idx : Z) : M Functions Z :=
  f ← read;
  p ← lift (from_opt "function index out of bounds" (znth (_functions f) idx));
  if nonzero p then mret p else
  name ← lift (from_opt "name index out of bounds" (znth (_names f) idx));
  p ← ext (Cdlsym name) (λ tr, env_dlsym tr name);
  l ← lift (from_opt "function index out of bounds" (zset (_functions f) idx p));
  modify (λ f, mk_Functions (_memory_handle f) (_size f) (_names f) l) ;;
  mret p.
End Functions.

(** ** Accounting *)

Record Accounting := mk_Accounting {
  total_hot_polling_time : Z; total_execution_time : Z; total_request : Z;
  hot_polling_time : Z; execution_time : Z }.

Definition BILLING_GRANULARITY : Z := 1000000000.

Definition update_execution_time (start finish : Z) (a : Accounting) : Accounting :=
  let diff := finish - start in
  mk_Accounting (total_hot_polling_time a) (u64 (total_execution_time a + diff)) (u64 (total_request a + 1))
    (hot_polling_time a) (u64 (execution_time a + diff)).

(** The time that passed is kept in 32 bits, and returned. *)
Definition update_polling_time (start finish : Z) (a : Accounting) : Z * Accounting :=
  let time_passed := u32 (finish - start) in
  (time_passed,
   mk_Accounting (u64 (total_hot_polling_time a + time_passed)) (total_execution_time a) (total_request a)
     (u64 (hot_polling_time a + time_passed)) (execution_time a)).

Definition reset_execution (a : Accounting) : Accounting :=
  mk_Accounting (total_hot_polling_time a) (total_execution_time a) (total_request a) (hot_polling_time a) 0.
Definition reset_polling (a : Accounting) : Accounting :=
  mk_Accounting (total_hot_polling_time a) (total_execution_time a) (total_request a) 0 (execution_time a).

(** ** Threads *)

Inductive PollingState : Type := HOT | HOT_ALWAYS | WARM | WARM_ALWAYS.

#[global] Instance PollingState_eq_dec : EqDecision PollingState.
Proof. solve_decision. Defined.

(** [t_active] and [t_mgr] are the two active endpoints [thread_work] creates; [conn]
    and [_mgr_connection] point to their connections. *)
Record Thread := mk_Thread {
  t_functions : Functions; t_addr : string; t_port : Z; max_inline_data : Z; t_id : Z;
  repetitions : Z; max_repetitions : Z; _recv_buffer_size : Z; send : Buffer.t; rcv : Buffer.t;
  t_active : Rdma.active; t_mgr : Rdma.active; _mgr_conn : ManagerConnection;
  _accounting : Accounting; _accounting_buf : Buffer.t; _polling_state : PollingState }.

Definition set_functions (x : Functions) (s : Thread) : Thread :=
  mk_Thread x (t_addr s) (t_port s) (max_inline_data s) (t_id s) (repetitions s) (max_repetitions s)
    (_recv_buffer_size s) (send s) (rcv s) (t_active s) (t_mgr s) (_mgr_conn s) (_accounting s)
    (_accounting_buf s) (_polling_state s).
Definition set_repetitions (x : Z) (s : Thread) : Thread :=
  mk_Thread (t_functions s) (t_addr s) (t_port s) (max_inline_data s) (t_id s) x (max_repetitions s)
    (_recv_buffer_size s) (send s) (rcv s) (t_active s) (t_mgr s) (_mgr_conn s) (_accounting s)
    (_accounting_buf s) (_polling_state s).
Definition set_buffers (x y : Buffer.t) (s : Thread) : Thread :=
  mk_Thread (t_functions s) (t_addr s) (t_port s) (max_inline_data s) (t_id s) (repetitions s) (max_repetitions s)
    (_recv_buffer_size s) x y (t_active s) (t_mgr s) (_mgr_conn s) (_accounting s)
    (_accounting_buf s) (_polling_state s).
Definition set_active (x : Rdma.active) (s : Thread) : Thread :=
  mk_Thread (t_functions s) (t_addr s) (t_port s) (max_inline_data s) (t_id s) (repetitions s) (max_repetitions s)
    (_recv_buffer_size s) (send s) (rcv s) x (t_mgr s) (_mgr_conn s) (_accounting s)
    (_accounting_buf s) (_polling_state s).
Definition set_mgr (x : Rdma.active) (s : Thread) : Thread :=
  mk_Thread (t_functions s) (t_addr s) (t_port s) (max_inline_data s) (t_id s) (repetitions s) (max_repetitions s)
    (_recv_buffer_size s) (send s) (rcv s) (t_active s) x (_mgr_conn s) (_accounting s)
    (_accounting_buf s) (_polling_state s).
Definition set_accounting (x : Accounting) (s : Thread) : Thread :=
  mk_Thread (t_functions s) (t_addr s) (t_port s) (max_inline_data s) (t_id s) (repetitions s) (max_repetitions s)
    (_recv_buffer_size s) (send s) (rcv s) (t_active s) (t_mgr s) (_mgr_conn s) x
    (_accounting_buf s) (_polling_state s).
Definition set_accounting_buf (x : Buffer.t) (s : Thread) : Thread :=
  mk_Thread (t_functions s) (t_addr s) (t_port s) (max_inline_data s) (t_id s) (repetitions s) (max_repetitions s)
    (_recv_buffer_size s) (send s) (rcv s) (t_active s) (t_mgr s) (_mgr_conn s) (_accounting s)
    x (_polling_state s).
Definition set_polling_state (x : PollingState) (s : Thread) : Thread :=
  mk_Thread (t_functions s) (t_addr s) (t_port s) (max_inline_data s) (t_id s) (repetitions s) (max_repetitions s)
    (_recv_buffer_size s) (send s) (rcv s) (t_active s) (t_mgr s) (_mgr_conn s) (_accounting s)
    (_accounting_buf s) x.

Definition HOT_POLLING_VERIFICATION_PERIOD : Z := 10000.

Section Thread.
Context `{Env} (symbols : list string) (header : trace → Buffer.RemoteBuffer) (term : trace → bool).

(** The constructor. *)
Definition thread_construct {S} (addr : string) (port id functions_size in_size out_size recv_buffer_size inline : Z)
    (mgr_conn : ManagerConnection) : M S Thread :=
  f ← functions_construct functions_size;
  snd ← Buffer.allocate out_size 1 0;
  rcv ← Buffer.allocate in_size 1 DATA_HEADER_SIZE;
  acc ← Buffer.allocate 1 8 0;
  mret (mk_Thread f addr port (u32 inline) id 0 0 recv_buffer_size snd rcv Rdma.active_default
          Rdma.active_default mgr_conn (mk_Accounting 0 0 0 0 0) acc HOT).

(** [conn->op(...)] and [_mgr_connection->op(...)] *)
Definition on_active {A} (op : M Connection.t A) : M Thread A :=
  s ← read;
  c ← lift (from_opt "null connection" (Rdma._conn (t_active s)));
  zoom (λ _, c) (λ c s, set_active (Rdma.set_conn (Some c) (t_active s)) s) op.

Definition on_mgr {A} (op : M Connection.t A) : M Thread A :=
  s ← read;
  c ← lift (from_opt "null connection" (Rdma._conn (t_mgr s)));
  zoom (λ _, c) (λ c s, set_mgr (Rdma.set_conn (Some c) (t_mgr s)) s) op.

(** A fetch-and-add on a counter of the manager, at an offset of its buffer. *)
Definition add_remote (offset value : Z) (wait : bool) : M Thread unit :=
  s ← read;
  sges ← Buffer.add [] (_accounting_buf s);
  on_mgr (Connection.post_atomic_fadd sges
    (Buffer.mk_remote (u64 (mc_r_addr (_mgr_conn s) + offset)) (mc_r_key (_mgr_conn s)) 0) value) ;;
  (if wait then on_mgr (Connection.poll_wc Connection.SEND true (-1)) ;; mret tt else mret tt).

Definition send_updated_execution (force wait : bool) : M Thread unit :=
  s ← read;
  let t := execution_time (_accounting s) in
  if force || (BILLING_GRANULARITY <? t) then
    add_remote 8 t wait ;;
    modify (λ s, set_accounting (reset_execution (_accounting s)) s)
  else mret tt.

Definition send_updated_polling (force wait : bool) : M Thread unit :=
  s ← read;
  let t := hot_polling_time (_accounting s) in
  if force || (BILLING_GRANULARITY <? t) then
    if t =? 0 then mret tt else
    add_remote 0 t wait ;;
    modify (λ s, set_accounting (reset_polling (_accounting s)) s)
  else mret tt.

(** [work]; calling a null pointer is undefined. *)
Definition work (invoc_id func_id : Z) (solicited : bool) (in_size : Z) : M Thread Z :=
  ptr ← zoom t_functions set_functions (function func_id);
  start ← ext Cclock env_clock;
  (if ptr =? 0 then raise (Undefined "null function") else mret tt) ;;
  out ← ext (Cinvoke ptr in_size) (λ tr, env_invoke tr ptr in_size);
  let out_size := u32 out in
  finish ← ext Cclock env_clock;
  s ← read;
  sges ← Buffer.sge (send s) out_size 0;
  remote ← peek header;
  on_active (Connection.post_write_imm sges remote (Invocation.result_code invoc_id)
    (out_size <=? max_inline_data s) solicited) ;;
  modify (λ s, set_accounting (update_execution_time start finish (_accounting s)) s) ;;
  send_updated_execution false true ;;
  mret finish.

(** The common part of the two loops over completions. *)
Definition run_completion (wc : ibv_wc) : M Thread Z :=
  let x := Invocation.info (wc_imm_data wc) in
  work (Invocation.invoc_id x) (Invocation.func_id x) (Invocation.solicited x)
    (u32 (wc_byte_len wc - DATA_HEADER_SIZE)).

(** [for(int i = 0; i < count; ++i)] of [hot]: the body assigns zero to this [i]. The
    result is the new [start]. *)
Fixpoint hot_completions (fuel : nat) (wcs : list ibv_wc) (count i start : Z) : M Thread Z :=
  match fuel with
  | O => raise StillRunning
  | S fuel =>
      if i <? count then
        wc ← lift (from_opt "completion out of bounds" (znth wcs i));
        if nonzero (wc_status wc) then hot_completions fuel wcs count (i + 1) start else
        now ← ext Cclock env_clock;
        func_end ← run_completion wc;
        modify (λ s, set_accounting (update_polling_time start now (_accounting s)).2 s) ;;
        let i := 0 in
        on_active (Connection.poll_wc Connection.SEND true (-1)) ;;
        modify (λ s, set_repetitions (repetitions s + 1) s) ;;
        hot_completions fuel wcs count (i + 1) func_end
      else mret start
  end.

Fixpoint hot_loop (fuel : nat) (timeout start i : Z) : M Thread unit :=
  match fuel with
  | O => raise StillRunning
  | S fuel =>
      stop ← peek term;
      if (stop : bool) then mret tt else
      wcs ← on_active (Connection.receive_wcs (Queue.poll false));
      start ← (if nonzero wcs.2 then
                 start ← hot_completions env_spin (default [] wcs.1) wcs.2 0 start;
                 on_active (Connection.receive_wcs Queue.refill) ;;
                 mret start
               else mret start);
      let i := i + 1 in
      if i =? HOT_POLLING_VERIFICATION_PERIOD then
        now ← ext Cclock env_clock;
        time_passed ← gets (λ s, (update_polling_time start now (_accounting s)).1);
        modify (λ s, set_accounting (update_polling_time start now (_accounting s)).2 s) ;;
        send_updated_polling false true ;;
        st ← gets _polling_state;
        if bool_decide (st ≠ HOT_ALWAYS) && (timeout <=? time_passed) then
          modify (set_polling_state WARM) ;;
          on_active (Connection.notify_events false)
        else hot_loop fuel timeout now 0
      else hot_loop fuel timeout start i
  end.

(** [hot(uint32_t timeout)] *)
Definition hot (fuel : nat) (timeout : Z) : M Thread unit :=
  start ← ext Cclock env_clock;
  hot_loop fuel timeout start 0.

(** The loop over the completions of [warm]. *)
Fixpoint warm_completions (wcs : list ibv_wc) : M Thread unit :=
  match wcs with
  | [] => mret tt
  | wc :: wcs =>
      if nonzero (wc_status wc) then warm_completions wcs else
      run_completion wc ;;
      on_active (Connection.poll_wc Connection.SEND true (-1)) ;;
      modify (λ s, set_repetitions (repetitions s + 1) s) ;;
      warm_completions wcs
  end.

Fixpoint warm (fuel : nat) : M Thread unit :=
  match fuel with
  | O => raise StillRunning
  | S fuel =>
      stop ← peek term;
      if (stop : bool) then mret tt else
      wcs ← on_active (Connection.receive_wcs (Queue.poll false));
      ended ← (if nonzero wcs.2 then
                 warm_completions (Queue.polled wcs) ;;
                 on_active (Connection.receive_wcs Queue.refill) ;;
                 st ← gets _polling_state;
                 if bool_decide (st ≠ WARM_ALWAYS) then modify (set_polling_state HOT) ;; mret true
                 else mret false
               else mret false);
      if (ended : bool) then mret tt else
      stop ← peek term;
      (if (stop : bool) then mret tt else
       cq ← on_active Connection.wait_events;
       on_active (Connection.ack_events cq 1) ;;
       on_active (Connection.notify_events false)) ;;
      warm fuel
  end.

(** *** [thread_work] *)

Definition initial_state (timeout : Z) : PollingState :=
  if timeout =? -1 then HOT_ALWAYS else if timeout =? 0 then WARM_ALWAYS else HOT.

(** The main loop. *)
Fixpoint serve (fuel : nat) (timeout : Z) : M Thread unit :=
  match fuel with
  | O => raise StillRunning
  | S fuel' =>
      stop ← peek term;
      if (stop : bool) then mret tt else
      st ← gets _polling_state;
      (if bool_decide (st = HOT ∨ st = HOT_ALWAYS) then hot fuel (u32 timeout) else warm fuel) ;;
      serve fuel' timeout
  end.

(** The end: what was not sent yet is, whatever it is. *)
Definition submit_final : M Thread unit :=
  send_updated_execution true false ;;
  send_updated_polling true false ;;
  on_mgr (Connection.poll_wc Connection.SEND true 2) ;;
  mret tt.

(** The connection to the manager; the result tells whether it was accepted. *)
Definition connect_manager : M Thread bool :=
  s ← read;
  a ← Rdma.active_construct (mc_addr (_mgr_conn s)) (mc_port (_mgr_conn s)) (_recv_buffer_size s)
        (max_inline_data s);
  modify (set_mgr a) ;;
  zoom t_mgr set_mgr Rdma.allocate ;;
  s ← read;
  b ← Buffer.on_buffer (_accounting_buf s) (Buffer.register_memory (Rdma._pd (t_mgr s))
        (Z.lor IBV_ACCESS_LOCAL_WRITE IBV_ACCESS_REMOTE_ATOMIC));
  modify (set_accounting_buf b) ;;
  zoom t_mgr set_mgr (Rdma.connect (mc_secret (_mgr_conn s))).

(** The connection to the client, up to the point where functions can be called. The
    result is the buffer for the functions and whether the client accepted. *)
Definition connect_client (timeout : Z) : M Thread (Buffer.t * bool) :=
  s ← read;
  a ← Rdma.active_construct (t_addr s) (t_port s) (_recv_buffer_size s) (max_inline_data s);
  modify (set_active a) ;;
  let func_buffer := Buffer.of_memory (_memory_handle (t_functions s)) (u32 (_size (t_functions s))) 1 in
  zoom t_active set_active Rdma.allocate ;;
  s ← read;
  func_buffer ← Buffer.on_buffer func_buffer (Buffer.register_memory (Rdma._pd (t_active s))
                  (Z.lor IBV_ACCESS_LOCAL_WRITE IBV_ACCESS_REMOTE_WRITE));
  sges ← Buffer.add [] func_buffer;
  on_active (Connection.post_recv sges (-1) 1) ;;
  modify (set_polling_state (initial_state timeout)) ;;
  s ← read;
  when (bool_decide (_polling_state s = WARM_ALWAYS ∨ _polling_state s = WARM))
    (on_active (Connection.notify_events false)) ;;
  ok ← zoom t_active set_active (Rdma.connect 0);
  mret (func_buffer, ok).

(** The buffers are registered, the client is told where the receive buffer is, the
    library it sent is opened. The result is the buffer of the message. *)
Definition exchange : M Thread Buffer.t :=
  s ← read;
  let pd := Rdma._pd (t_active s) in
  snd ← Buffer.on_buffer (send s) (Buffer.register_memory pd IBV_ACCESS_LOCAL_WRITE);
  rcv ← Buffer.on_buffer (rcv s) (Buffer.register_memory pd
          (Z.lor IBV_ACCESS_LOCAL_WRITE IBV_ACCESS_REMOTE_WRITE));
  modify (set_buffers snd rcv) ;;
  buf ← Buffer.allocate 1 sizeof_BufferInformation 0;
  buf ← Buffer.on_buffer buf (Buffer.register_memory pd IBV_ACCESS_LOCAL_WRITE);
  Buffer.address rcv ;;
  Buffer.rkey rcv ;;
  sges ← Buffer.add [] buf;
  on_active (Connection.post_send sges 0 (Buffer.size buf <=? max_inline_data s) None) ;;
  on_active (Connection.poll_wc Connection.SEND true 1) ;;
  on_active (Connection.poll_wc Connection.RECV true 1) ;;
  modify (λ s, set_functions (process_library symbols (t_functions s)) s) ;;
  on_active (Connection.receive_wcs Queue.refill) ;;
  mret buf.

(** The destructors of the two endpoints. *)
Definition leave : M Thread unit :=
  zoom t_active set_active Rdma.active_destroy ;; zoom t_mgr set_mgr Rdma.active_destroy.

Definition thread_work (fuel : nat) (timeout : Z) : M Thread unit :=
  ok ← connect_manager;
  if negb ok then zoom t_mgr set_mgr Rdma.active_destroy else
  r ← connect_client timeout;
  if negb r.2 then Buffer.destroy r.1 ;; leave else
  buf ← exchange;
  serve fuel timeout ;;
  submit_final ;;
  Buffer.destroy buf ;;
  Buffer.destroy r.1 ;;
  leave.
End Thread.

(** ** FastExecutors *)

Definition PIN_THREADS_START_INDEX : Z := 4.

(** The constructor: the data of [numcores] threads. *)
Definition fast_executors `{Env} {S} (client_addr : string) (port func_size numcores msg_size out_size
    recv_buf_size inline : Z) (mgr_conn : ManagerConnection) : M S (list Thread) :=
  foldr (λ i (rest : M S (list Thread)),
    th ← thread_construct client_addr port i func_size msg_size out_size recv_buf_size inline mgr_conn;
    l ← rest; mret (th :: l)) (mret []) (range numcores).

(** A thread that was started: [&_threads_data[th_data]] and the timeout are the arguments of its
    [thread_work]; the core it is bound to and whether it can be joined. *)
Record std_thread := mk_std_thread { th_data : Z; th_timeout : Z; th_core : Z; th_joinable : bool }.

Record FastExecutors := mk_FastExecutors {
  _threads_data : list Thread; _threads : list std_thread; _closing : bool; _numcores : Z; _pin_threads : bool }.

Definition executors_construct `{Env} {S} (client_addr : string) (port func_size numcores msg_size out_size
    recv_buf_size inline : Z) (pin_threads : bool) (mgr_conn : ManagerConnection) : M S FastExecutors :=
  l ← fast_executors client_addr port func_size numcores msg_size out_size recv_buf_size inline mgr_conn;
  mret (mk_FastExecutors l [] false numcores pin_threads).

Definition set_max_repetitions (x : Z) (s : Thread) : Thread :=
  mk_Thread (t_functions s) (t_addr s) (t_port s) (max_inline_data s) (t_id s) (repetitions s) x
    (_recv_buffer_size s) (send s) (rcv s) (t_active s) (t_mgr s) (_mgr_conn s) (_accounting s)
    (_accounting_buf s) (_polling_state s).

(** The core of a thread: the next one, or the same for all. *)
Definition core_of (pin_threads : bool) (core_start_index i : Z) : Z :=
  PIN_THREADS_START_INDEX + core_start_index + (if pin_threads then i else 0).

(** [allocate_threads(timeout, iterations, core_start_index)]; [affinity] is what
    [pthread_setaffinity_np] answers for a core. *)
Definition allocate_threads `{Env} (affinity : Z → Z) (timeout iterations core_start_index : Z) : M FastExecutors unit :=
  f ← read;
  for_each (range (_numcores f)) (λ i,
    f ← read;
    th ← lift (from_opt "thread index out of bounds" (znth (_threads_data f) i));
    l ← lift (from_opt "thread index out of bounds" (zset (_threads_data f) i (set_max_repetitions iterations th)));
    let core := core_of (_pin_threads f) core_start_index i in
    modify (λ f, mk_FastExecutors l (_threads f ++ [mk_std_thread i timeout core true]) (_closing f) (_numcores f)
                   (_pin_threads f)) ;;
    expect_zero (affinity core)).

(** What a started thread does: [thread_work] on its own data. *)
Definition thread_entry `{Env} (symbols : list string) (header : trace → Buffer.RemoteBuffer) (term : trace → bool)
    (fuel : nat) (f : FastExecutors) (th : std_thread) (t : trace) : result (unit * Thread * trace) :=
  match znth (_threads_data f) (th_data th) with
  | Some data => thread_work symbols header term fuel (th_timeout th) data t
  | None => Fault (Undefined "thread index out of bounds")
  end.

(** [close()]: every thread that can be joined is waited for. *)
Definition close : M FastExecutors unit :=
  f ← read;
  if _closing f then mret tt else
  modify (λ f, mk_FastExecutors (_threads_data f)
                 ((λ th, mk_std_thread (th_data th) (th_timeout th) (th_core th) false) <$> _threads f) true (_numcores f)
                 (_pin_threads f)).

(** ** The counters of the manager *)

(** The sum of the values added to a remote address. *)
Fixpoint added (addr : Z) (tr : trace) : Z :=
  match tr with
  | [] => 0
  | Cpost_send _ wr :: tr =>
      (if bool_decide (wr_opcode wr = IBV_WR_ATOMIC_FETCH_AND_ADD ∧ wr_remote_addr wr = addr)
       then wr_compare_add wr else 0) + added addr tr
  | _ :: tr => added addr tr
  end.

Definition not_fadd (c : call) : Prop :=
  match c with
  | Cpost_send _ wr => match wr_opcode wr with IBV_WR_ATOMIC_FETCH_AND_ADD => False | _ => True end
  | _ => True
  end.

Lemma added_quiet addr u t : Forall not_fadd u → added addr (u ++ t) = added addr t.
Proof.
  intros Hu. induction Hu as [|c u Hc Hu IH]; [done|]. cbn [app added].
  destruct c; try done. cbn in Hc. rewrite bool_decide_eq_false_2, IH; [lia|].
  intros [E _]. by rewrite E in Hc.
Qed.

Definition exec_addr (s : Thread) : Z := u64 (mc_r_addr (_mgr_conn s) + 8).
Definition poll_addr (s : Thread) : Z := u64 (mc_r_addr (_mgr_conn s) + 0).

(** What the manager's counters and the thread's own hold, less the totals. *)
Definition owed (s : Thread) (t : trace) : Z * Z :=
  (u64 (added (exec_addr s) t + execution_time (_accounting s) - total_execution_time (_accounting s)),
   u64 (added (poll_addr s) t + hot_polling_time (_accounting s) - total_hot_polling_time (_accounting s))).

(** The operation changes neither the addresses nor what is owed. *)
Definition conserves {A} (op : M Thread A) : Prop :=
  ∀ s t a s' t', op s t = Ok (a, s', t') → _mgr_conn s' = _mgr_conn s ∧ owed s' t' = owed s t.

Definition books (s : Thread) : ManagerConnection * Accounting := (_mgr_conn s, _accounting s).

Section Conservation.
Context `{Env}.

Lemma conserves_quiet {A} (op : M Thread A) : frames books op → emits not_fadd op → conserves op.
Proof using.
  intros Hf He s t a s' t' E. apply Hf in E as F. apply He in E as (u & -> & Hu).
  apply pair_equal_spec in F as [F1 F2]. split; [done|]. unfold owed, exec_addr, poll_addr.
  by rewrite F1, F2, !added_quiet.
Qed.

Lemma conserves_bind {A B} (op : M Thread A) (k : A → M Thread B) :
  conserves op → (∀ a, conserves (k a)) → conserves (op ≫= k).
Proof using.
  intros Ho Hk s t b s' t' E. bind_inv E as a s1 t1 E1. apply Ho in E1 as [H1 H2].
  apply Hk in E as [H3 H4]. split; congruence.
Qed.

Lemma conserves_read : conserves read.
Proof using. intros s t a s' t' E. by run_inv_at E. Qed.

Lemma conserves_ret {A} (a : A) : conserves (mret a).
Proof using. intros s t b s' t' E. by run_inv_at E. Qed.

(** Adding the same amount to a counter and to its total. *)
Definition raises (x y x' y' : Z) : Prop := ∃ d, u64 x' = u64 (x + d) ∧ u64 y' = u64 (y + d).

Lemma raises_diff a x y x' y' : raises x y x' y' → u64 (a + x' - y') = u64 (a + x - y).
Proof using.
  intros (d & Hx & Hy). unfold wrap in *. rewrite Zminus_mod, Zplus_mod, Hx, Hy, <-Zplus_mod, <-Zminus_mod.
  f_equal. lia.
Qed.

Lemma raises_same x y : raises x y x y.
Proof using. exists 0. by rewrite !Z.add_0_r. Qed.

Lemma raises_both x y d : raises x y (u64 (x + d)) (u64 (y + d)).
Proof using. exists d. by rewrite !wrap_wrap by lia. Qed.

Lemma conserves_account (f : Accounting → Accounting) :
  (∀ a, raises (execution_time a) (total_execution_time a) (execution_time (f a)) (total_execution_time (f a))) →
  (∀ a, raises (hot_polling_time a) (total_hot_polling_time a) (hot_polling_time (f a))
                (total_hot_polling_time (f a))) →
  conserves (modify (λ s, set_accounting (f (_accounting s)) s)).
Proof using.
  intros He Hp s t u s' t' E. run_inv_at E. split; [done|]. unfold owed. cbn.
  by rewrite (raises_diff _ _ _ _ _ (He _)), (raises_diff _ _ _ _ _ (Hp _)).
Qed.

Lemma conserves_update_execution start finish :
  conserves (modify (λ s, set_accounting (update_execution_time start finish (_accounting s)) s)).
Proof using. apply conserves_account; intros a; [apply raises_both|apply raises_same]. Qed.

Lemma conserves_update_polling start finish :
  conserves (modify (λ s, set_accounting (update_polling_time start finish (_accounting s)).2 s)).
Proof using.
  apply (conserves_account (λ a, (update_polling_time start finish a).2)); intros a;
    [apply raises_same|apply raises_both].
Qed.

(** Operations on the connections. *)
Lemma frames_on_active {A} (op : M Connection.t A) : frames books (on_active op).
Proof using. unfold on_active. auto with rfaas. Qed.
Lemma frames_on_mgr {A} (op : M Connection.t A) : frames books (on_mgr op).
Proof using. unfold on_mgr. auto with rfaas. Qed.
Lemma emits_on_active {A} P (op : M Connection.t A) : emits P op → emits P (on_active op).
Proof using. intros Ho. unfold on_active. auto 10 with rfaas. Qed.
Lemma emits_on_mgr {A} P (op : M Connection.t A) : emits P op → emits P (on_mgr op).
Proof using. intros Ho. unfold on_mgr. auto 10 with rfaas. Qed.

Lemma quiet_not_send {S A} (op : M S A) : emits not_send op → emits not_fadd op.
Proof using. apply emits_weaken. by intros []. Qed.

Lemma quiet_poll_wc ty b n : emits not_fadd (Connection.poll_wc ty b n).
Proof using. apply quiet_not_send, Rdma.silent_poll_wc. Qed.

Lemma quiet_refill : emits not_fadd (Connection.receive_wcs Queue.refill).
Proof using. apply quiet_not_send, emits_zoom, Rdma.silent_refill. Qed.

Lemma quiet_poll b : emits not_fadd (Connection.receive_wcs (Queue.poll b)).
Proof using.
  apply quiet_not_send, emits_zoom. unfold Queue.poll, Queue._poll, Queue.the_qp.
  pose proof @Rdma.silent_poll_loop. auto 20 with rfaas.
Qed.

Lemma quiet_next_req : emits not_fadd Connection.next_req.
Proof using. unfold Connection.next_req. auto with rfaas. Qed.

Lemma quiet_write sges r imm fi fs : emits not_fadd (Connection.post_write_imm sges r imm fi fs).
Proof using.
  unfold Connection.post_write_imm, Connection._post_write, Connection.submit, Connection.the_qp.
  apply emits_bind; [apply quiet_next_req|]. intros rid. apply emits_bind; [auto with rfaas|]. intros fl.
  apply emits_bind; [auto 10 with rfaas|]. intros ret. repeat case_match; auto with rfaas.
Qed.

Lemma quiet_notify b : emits not_fadd (Connection.notify_events b).
Proof using. unfold Connection.notify_events, Connection.the_qp, expect_zero. auto 10 with rfaas. Qed.

Lemma quiet_wait : emits not_fadd Connection.wait_events.
Proof using. unfold Connection.wait_events, expect_zero. auto 10 with rfaas. Qed.

Lemma quiet_ack cq n : emits not_fadd (Connection.ack_events cq n).
Proof using. unfold Connection.ack_events. auto with rfaas. Qed.

#[local] Hint Resolve frames_on_active frames_on_mgr emits_on_active emits_on_mgr quiet_poll_wc quiet_refill
  quiet_poll quiet_write quiet_notify quiet_wait quiet_ack conserves_read conserves_ret : rfaas.
#[local] Hint Resolve conserves_quiet conserves_update_execution conserves_update_polling : rfaas.
#[local] Hint Extern 3 (conserves (_ ≫= _)) => apply conserves_bind; [|intros ?] : rfaas.

Lemma conserves_on_active {A} (op : M Connection.t A) : emits not_fadd op → conserves (on_active op).
Proof using. auto with rfaas. Qed.

Lemma conserves_ext {A} c (g : trace → A) : not_fadd c → conserves (ext c g).
Proof using. intros Hc. apply conserves_quiet; [auto with rfaas|by apply emits_ext]. Qed.

Lemma fadd_inv sges r v c t n c' t' :
  Connection.post_atomic_fadd sges r v c t = Ok (n, c', t') →
  ∀ addr, added addr t' = (if bool_decide (Buffer.rb_addr r = addr) then v else 0) + added addr t.
Proof using.
  unfold Connection.post_atomic_fadd, Connection.submit, Connection.the_qp, Connection.next_req.
  intros E addr. run_inv. cbn. f_equal. repeat case_bool_decide; naive_solver.
Qed.

Lemma add_remote_inv off v w s t u s' t' :
  add_remote off v w s t = Ok (u, s', t') →
  books s' = books s ∧
  ∀ addr, added addr t' =
    (if bool_decide (u64 (mc_r_addr (_mgr_conn s) + off) = addr) then v else 0) + added addr t.
Proof using.
  unfold add_remote. intros E. step_inv E. bind_inv E as sges s1 t1 E1.
  apply Buffer.add_inv in E1 as (_ & -> & ->). bind_inv E as n s2 t2 E2.
  apply frames_on_mgr in E2 as F2. unfold on_mgr in E2. step_inv E2. bind_inv E2 as c ? ? E3. run_inv_at E3.
  run_inv_at E2. pose proof (fadd_inv _ _ _ _ _ _ _ _ E2) as Ha.
  assert (books s' = books (set_mgr (Rdma.set_conn (Some x) (t_mgr s)) s) ∧ ∀ addr, added addr t' = added addr t2)
    as [Hb Ht].
  { destruct w; [|by run_inv_at E]. bind_inv E as r s3 t3 E4. run_inv_at E.
    apply frames_on_mgr in E4 as F4. apply (emits_on_mgr _ _ (quiet_poll_wc _ _ _)) in E4 as (v' & -> & Hv).
    split; [done|]. intros addr. by apply added_quiet. }
  split; [done|]. intros addr. by rewrite Ht, Ha.
Qed.

Lemma addresses_differ r : u64 (r + 8) ≠ u64 (r + 0).
Proof using.
  unfold wrap. intros E. assert ((r + 8 - (r + 0)) mod 2 ^ 64 = 0) as E'.
  { rewrite Zminus_mod, E, Z.sub_diag. done. }
  by replace (r + 8 - (r + 0)) with 8 in E' by lia.
Qed.

Lemma conserves_send_execution force wait : conserves (send_updated_execution force wait).
Proof using.
  intros s t u s' t' E. unfold send_updated_execution in E. step_inv E. cbv zeta in E.
  destruct (_ || _); [|by run_inv_at E]. bind_inv E as ? s1 t1 E1. run_inv_at E.
  apply add_remote_inv in E1 as [Hb Ha]. apply pair_equal_spec in Hb as [Hm Hacc].
  split; [done|]. unfold owed, exec_addr, poll_addr. cbn. rewrite Hm, Hacc, !Ha.
  rewrite bool_decide_eq_true_2, bool_decide_eq_false_2 by (done || apply addresses_differ).
  f_equal; f_equal; lia.
Qed.

Lemma conserves_send_polling force wait : conserves (send_updated_polling force wait).
Proof using.
  intros s t u s' t' E. unfold send_updated_polling in E. step_inv E. cbv zeta in E.
  destruct (_ || _); [|by run_inv_at E]. destruct (_ =? 0); [by run_inv_at E|].
  bind_inv E as ? s1 t1 E1. run_inv_at E.
  apply add_remote_inv in E1 as [Hb Ha]. apply pair_equal_spec in Hb as [Hm Hacc].
  split; [done|]. unfold owed, exec_addr, poll_addr. cbn. rewrite Hm, Hacc, !Ha.
  rewrite bool_decide_eq_false_2, bool_decide_eq_true_2
    by (done || (intros Heq; by apply (addresses_differ (mc_r_addr (_mgr_conn s))))).
  f_equal; f_equal; lia.
Qed.

Lemma quiet_function idx : emits not_fadd (function idx).
Proof using.
  unfold function. apply emits_bind; [auto with rfaas|]. intros f. apply emits_bind; [auto with rfaas|].
  intros p. destruct (nonzero p); auto 10 with rfaas.
Qed.

Lemma conserves_frame_ext {A B} c (g : trace → A) (k : A → M Thread B) :
  not_fadd c → (∀ a, conserves (k a)) → conserves (ext c g ≫= k).
Proof using. intros Hc Hk. apply conserves_bind; [by apply conserves_ext|done]. Qed.

Lemma conserves_work header i f sol n : conserves (work header i f sol n).
Proof using.
  unfold work. apply conserves_bind.
  { apply conserves_quiet; [auto with rfaas|]. apply emits_zoom, quiet_function. }
  intros ptr. apply conserves_frame_ext; [done|]. intros start.
  apply conserves_bind; [apply conserves_quiet; destruct (ptr =? 0); auto with rfaas|]. intros _.
  apply conserves_frame_ext; [done|]. intros out. cbv zeta.
  apply conserves_frame_ext; [done|]. intros finish.
  apply conserves_bind; [auto with rfaas|]. intros s.
  apply conserves_bind.
  { apply conserves_quiet; unfold Buffer.sge, Buffer.address, Buffer.lkey, Buffer.with_mr; auto 10 with rfaas. }
  intros sges. apply conserves_bind.
  { apply conserves_quiet; auto with rfaas. }
  intros remote. apply conserves_bind; [auto with rfaas|]. intros _.
  apply conserves_bind; [apply conserves_update_execution|]. intros _.
  apply conserves_bind; [apply conserves_send_execution|]. auto with rfaas.
Qed.

Lemma conserves_repetitions : conserves (modify (λ s, set_repetitions (repetitions s + 1) s)).
Proof using. apply conserves_quiet; auto with rfaas. Qed.

Lemma conserves_polling_state st : conserves (modify (set_polling_state st)).
Proof using. apply conserves_quiet; auto with rfaas. Qed.

Lemma conserves_peek {A} (f : trace → A) : conserves (peek f).
Proof using. intros s t a s' t' E. by run_inv_at E. Qed.

Lemma conserves_gets {A} (f : Thread → A) : conserves (gets f).
Proof using. intros s t a s' t' E. by run_inv_at E. Qed.

#[local] Hint Resolve conserves_work conserves_repetitions conserves_polling_state conserves_peek
  conserves_gets conserves_send_polling conserves_on_active : rfaas.

Lemma conserves_warm_completions header wcs : conserves (warm_completions header wcs).
Proof using.
  induction wcs as [|wc wcs IH]; cbn [warm_completions]; [auto with rfaas|].
  destruct (nonzero _); [done|]. unfold run_completion. auto 20 with rfaas.
Qed.

Lemma conserves_hot_completions header fuel wcs count i start :
  conserves (hot_completions header fuel wcs count i start).
Proof using.
  revert i start. induction fuel as [|fuel IH]; intros i start; cbn [hot_completions].
  { intros s t a s' t' E. run_inv_at E. }
  destruct (i <? count); [|auto with rfaas]. apply conserves_bind; [apply conserves_quiet; auto with rfaas|].
  intros wc. destruct (nonzero _); [apply IH|]. apply conserves_frame_ext; [done|]. intros now.
  unfold run_completion. auto 20 with rfaas.
Qed.

Lemma conserves_hot_loop header term fuel timeout start i :
  conserves (hot_loop header term fuel timeout start i).
Proof using.
  revert start i. induction fuel as [|fuel IH]; intros start i; cbn [hot_loop].
  { intros s t a s' t' E. run_inv_at E. }
  apply conserves_bind; [auto with rfaas|]. intros stop. destruct stop; [auto with rfaas|].
  apply conserves_bind; [auto with rfaas|]. intros wcs. apply conserves_bind.
  { destruct (nonzero wcs.2); [|auto with rfaas].
    apply conserves_bind; [apply conserves_hot_completions|]. auto with rfaas. }
  intros start'. cbv zeta. destruct (_ =? _); [|apply IH].
  apply conserves_frame_ext; [done|]. intros now.
  do 4 (apply conserves_bind; [auto with rfaas|]; intros ?). destruct (_ && _); auto with rfaas.
Qed.

Lemma conserves_warm header term fuel : conserves (warm header term fuel).
Proof using.
  induction fuel as [|fuel IH]; cbn [warm]. { intros s t a s' t' E. run_inv_at E. }
  apply conserves_bind; [auto with rfaas|]. intros stop. destruct stop; [auto with rfaas|].
  apply conserves_bind; [auto with rfaas|]. intros wcs. apply conserves_bind.
  { destruct (nonzero wcs.2); [|auto with rfaas].
    apply conserves_bind; [apply conserves_warm_completions|]. intros _.
    do 2 (apply conserves_bind; [auto with rfaas|]; intros ?). destruct (bool_decide _); auto with rfaas. }
  intros ended. destruct ended; [auto with rfaas|]. apply conserves_bind; [auto with rfaas|]. intros stop.
  apply conserves_bind; [|auto with rfaas]. destruct stop; auto 10 with rfaas.
Qed.

Lemma conserves_serve header term fuel timeout : conserves (serve header term fuel timeout).
Proof using.
  induction fuel as [|fuel IH]; cbn [serve]. { intros s t a s' t' E. run_inv_at E. }
  apply conserves_bind; [auto with rfaas|]. intros stop. destruct stop; [auto with rfaas|].
  apply conserves_bind; [auto with rfaas|]. intros st. apply conserves_bind; [|auto with rfaas].
  destruct (bool_decide _); [|apply conserves_warm]. unfold hot.
  apply conserves_frame_ext; [done|]. intros start. apply conserves_hot_loop.
Qed.

(** After the last submission nothing is kept back. *)
Lemma submit_final_inv s t u s' t' :
  submit_final s t = Ok (u, s', t') →
  _mgr_conn s' = _mgr_conn s ∧ owed s' t' = owed s t ∧
  execution_time (_accounting s') = 0 ∧ hot_polling_time (_accounting s') = 0.
Proof using.
  intros E. unfold submit_final in E. bind_inv E as ? s1 t1 E1. bind_inv E as ? s2 t2 E2.
  bind_inv E as ? s3 t3 E3. run_inv_at E.
  pose proof (conserves_send_execution _ _ _ _ _ _ _ E1) as [H1 H1'].
  pose proof (conserves_send_polling _ _ _ _ _ _ _ E2) as [H2 H2'].
  assert (conserves (on_mgr (Connection.poll_wc Connection.SEND true 2))) as H3 by auto with rfaas.
  pose proof (H3 _ _ _ _ _ E3) as [H4 H4']. apply frames_on_mgr in E3.
  apply pair_equal_spec in E3 as [_ Ea]. split_and!; [congruence..| |].
  - rewrite Ea. unfold send_updated_execution in E1. step_inv E1. cbn [orb] in E1.
    bind_inv E1 as ? ? ? Ex. run_inv_at E1. clear Ex.
    unfold send_updated_polling in E2. step_inv E2. cbn [orb] in E2. destruct (_ =? 0); [by run_inv_at E2|].
    bind_inv E2 as ? ? ? Ex. run_inv_at E2. apply add_remote_inv in Ex as [Hb _].
    apply pair_equal_spec in Hb as [_ Hb]. cbn in *. by rewrite Hb.
  - rewrite Ea. unfold send_updated_polling in E2. step_inv E2. cbn [orb] in E2.
    destruct (Z.eqb_spec (hot_polling_time (_accounting s1)) 0); [by run_inv_at E2|].
    bind_inv E2 as ? ? ? Ex. by run_inv_at E2.
Qed.

(** The endpoints. *)
Lemma quiet_active_construct {S} ip p n i : emits not_fadd (Rdma.active_construct ip p n i : M S Rdma.active).
Proof using.
  unfold Rdma.active_construct, Rdma.addr_construct, expect_zero, expect_false, expect_zero. auto 20 with rfaas.
Qed.

Lemma quiet_reset_conn : emits not_fadd Rdma.reset_conn.
Proof using.
  unfold Rdma.reset_conn, Connection.destroy. apply emits_bind; [auto with rfaas|]. intros a.
  destruct (Rdma._conn a); [|auto with rfaas]. apply emits_zoom.
  unfold Connection.close, expect_zero. apply emits_bind; [auto with rfaas|]. intros c.
  destruct (Connection._id c); [|auto with rfaas]. apply emits_bind; [destruct (negb _)|]; auto 10 with rfaas.
Qed.

Lemma quiet_active_destroy : emits not_fadd Rdma.active_destroy.
Proof using.
  unfold Rdma.active_destroy, Rdma.addr_destroy, when. apply emits_bind; [apply quiet_reset_conn|]. intros _.
  apply emits_bind; [auto with rfaas|]. intros a. destruct (nonzero _); auto with rfaas.
Qed.

Lemma quiet_allocate : emits not_fadd Rdma.allocate.
Proof using.
  unfold Rdma.allocate, Rdma.create_qp, expect_zero. apply emits_bind; [auto with rfaas|]. intros a.
  destruct (Rdma._conn a); [auto with rfaas|]. do 2 (apply emits_bind; [auto with rfaas|]; intros ?).
  destruct (nonzero _); [auto with rfaas|]. apply emits_bind; [|auto with rfaas].
  do 2 (apply emits_bind; [auto with rfaas|]; intros ?). destruct (nonzero _); auto with rfaas.
Qed.

Lemma quiet_connect secret : emits not_fadd (Rdma.connect secret).
Proof using.
  unfold Rdma.connect, Rdma.conn_id, when. apply emits_bind; [apply quiet_allocate|]. intros _.
  apply emits_bind; [destruct (nonzero secret); auto with rfaas|]. intros _.
  do 4 (apply emits_bind; [auto 10 with rfaas|]; intros ?).
  apply emits_bind; [destruct (nonzero secret); auto with rfaas|]. intros _.
  destruct (nonzero _); [|auto 10 with rfaas]. apply emits_bind; [apply quiet_reset_conn|auto 10 with rfaas].
Qed.

(** Buffers. *)
Lemma quiet_on_buffer {S} b (op : M Buffer.t unit) : emits not_fadd op → emits not_fadd (Buffer.on_buffer b op : M S Buffer.t).
Proof using.
  intros Ho s t a s' t' E. unfold Buffer.on_buffer in E.
  destruct (op b t) as [[[u b1] t1]|] eqn:E1; [|done]. injection E as <- <- <-. by eapply Ho.
Qed.

Lemma quiet_register pd acc : emits not_fadd (Buffer.register_memory pd acc).
Proof using. unfold Buffer.register_memory, expect_nonnull. auto 10 with rfaas. Qed.

Lemma quiet_destroy {S} b : emits not_fadd (Buffer.destroy b : M S unit).
Proof using. unfold Buffer.destroy, when. apply emits_bind; [|intros _]; case_match; auto with rfaas. Qed.

Lemma quiet_post_send sges id fi : emits not_fadd (Connection.post_send sges id fi None).
Proof using.
  unfold Connection.post_send, Connection.submit, Connection.the_qp, Connection.request_id.
  apply emits_bind; [destruct (id =? -1); [pose proof quiet_next_req|]; auto with rfaas|]. intros rid.
  auto 10 with rfaas.
Qed.

Lemma quiet_post_recv sges id n : emits not_fadd (Connection.post_recv sges id n).
Proof using.
  unfold Connection.post_recv, Connection.the_qp, Connection.request_id.
  apply emits_bind; [destruct (id =? -1); [pose proof quiet_next_req|]; auto with rfaas|]. intros rid.
  apply emits_bind; [auto with rfaas|]. intros qp. destruct (n <=? 0); [auto with rfaas|].
  apply emits_bind; [|auto with rfaas]. generalize 0 at 1. induction (Z.to_nat n) as [|k IH]; intros ret;
    cbn [Connection.recv_loop]; [auto with rfaas|].
  apply emits_bind; [auto with rfaas|]. intros r. destruct (nonzero r); auto with rfaas.
Qed.

#[local] Hint Resolve quiet_active_construct quiet_active_destroy quiet_allocate quiet_connect quiet_on_buffer
  quiet_register quiet_destroy quiet_post_send quiet_post_recv : rfaas.

Lemma frames_active_construct {S X} (f : S → X) ip p n i : frames f (Rdma.active_construct ip p n i).
Proof using.
  unfold Rdma.active_construct, Rdma.addr_construct, expect_zero, expect_false, expect_zero. auto 20 with rfaas.
Qed.

Lemma quiet_buffer_allocate {S} a b c : emits not_fadd (Buffer.allocate a b c : M S Buffer.t).
Proof using. unfold Buffer.allocate. auto with rfaas. Qed.

Lemma quiet_buffer_add {S} l b : emits not_fadd (Buffer.add l b : M S (list ibv_sge)).
Proof using. unfold Buffer.add, Buffer.address, Buffer.lkey, Buffer.with_mr. auto 10 with rfaas. Qed.

#[local] Hint Resolve frames_active_construct quiet_buffer_allocate quiet_buffer_add : rfaas.

Lemma conserves_connect_manager : conserves connect_manager.
Proof using. apply conserves_quiet; unfold connect_manager; auto 20 with rfaas. Qed.

Lemma conserves_connect_client timeout : conserves (connect_client timeout).
Proof using.
  unfold connect_client. apply conserves_bind; [auto with rfaas|]. intros s. cbv zeta.
  do 9 (apply conserves_bind; [apply conserves_quiet; auto with rfaas|]; intros ?).
  apply conserves_bind; [unfold when; destruct (bool_decide _); auto with rfaas|]. intros _.
  apply conserves_quiet; auto with rfaas.
Qed.

Lemma conserves_exchange symbols : conserves (exchange symbols).
Proof using.
  unfold exchange. apply conserves_bind; [auto with rfaas|]. intros s. cbv zeta.
  do 5 (apply conserves_bind; [apply conserves_quiet; auto with rfaas|]; intros ?).
  do 2 (apply conserves_bind;
    [apply conserves_quiet; unfold Buffer.address, Buffer.rkey, Buffer.with_mr; auto with rfaas|]; intros ?).
  do 6 (apply conserves_bind; [apply conserves_quiet; auto with rfaas|]; intros ?). auto with rfaas.
Qed.

(** Connecting leaves the books alone. *)
Lemma frames_connect_manager : frames books connect_manager.
Proof using. unfold connect_manager. auto 20 with rfaas. Qed.

Lemma frames_connect_client timeout : frames books (connect_client timeout).
Proof using.
  unfold connect_client. apply frames_bind; [auto with rfaas|]. intros s. cbv zeta.
  do 9 (apply frames_bind; [auto with rfaas|]; intros ?).
  apply frames_bind; [unfold when; destruct (bool_decide _); auto with rfaas|]. auto with rfaas.
Qed.

Lemma frames_leave : frames books leave.
Proof using. unfold leave. auto with rfaas. Qed.

Lemma quiet_leave : emits not_fadd leave.
Proof using. unfold leave. auto 10 with rfaas. Qed.

(** What a thread that returned has settled. *)
Definition settled (s : Thread) (t : trace) (s' : Thread) (t' : trace) : Prop :=
  _mgr_conn s' = _mgr_conn s ∧ owed s' t' = owed s t ∧
  execution_time (_accounting s') = 0 ∧ hot_polling_time (_accounting s') = 0.

Lemma settled_quiet {A} (op : M Thread A) s t s1 t1 a s' t' :
  frames books op → emits not_fadd op → settled s t s1 t1 → op s1 t1 = Ok (a, s', t') → settled s t s' t'.
Proof using.
  intros Hf He (Hm & Ho & Hx & Hp) E. pose proof (conserves_quiet op Hf He _ _ _ _ _ E) as [H1 H2].
  apply Hf in E. apply pair_equal_spec in E as [_ E]. unfold settled. rewrite E. split_and!; congruence.
Qed.

Lemma settled_step {A} (op : M Thread A) s t s1 t1 a s' t' :
  conserves op → frames books op → settled s t s1 t1 → op s1 t1 = Ok (a, s', t') → settled s t s' t'.
Proof using.
  intros Hc Hf (Hm & Ho & Hx & Hp) E. pose proof (Hc _ _ _ _ _ E) as [H1 H2].
  apply Hf in E. apply pair_equal_spec in E as [_ E]. unfold settled. rewrite E. split_and!; congruence.
Qed.

Lemma thread_work_settles symbols header term fuel timeout s t u s' t' :
  execution_time (_accounting s) = 0 → hot_polling_time (_accounting s) = 0 →
  thread_work symbols header term fuel timeout s t = Ok (u, s', t') → settled s t s' t'.
Proof using.
  intros Hx Hp E. assert (settled s t s t) as Hs by done. unfold thread_work in E.
  bind_inv E as ok s1 t1 E1.
  apply (settled_step _ _ _ _ _ _ _ _ conserves_connect_manager frames_connect_manager Hs) in E1.
  destruct (negb ok). { eapply settled_quiet; [..|exact E1|exact E]; auto with rfaas. }
  bind_inv E as r s2 t2 E2.
  apply (settled_step _ _ _ _ _ _ _ _ (conserves_connect_client _) (frames_connect_client _) E1) in E2.
  destruct (negb r.2).
  { bind_inv E as ? s3 t3 E3. eapply settled_quiet in E3; [..|exact E2]; [|auto with rfaas..].
    eapply settled_quiet; [apply frames_leave|apply quiet_leave|exact E3|exact E]. }
  bind_inv E as buf s3 t3 E3. apply conserves_exchange in E3 as [Hm3 Ho3].
  bind_inv E as ? s4 t4 E4. apply conserves_serve in E4 as [Hm4 Ho4].
  bind_inv E as ? s5 t5 E5. apply submit_final_inv in E5 as (Hm5 & Ho5 & Hx5 & Hp5).
  assert (settled s t s5 t5) as H5.
  { destruct E2 as (Hm2 & Ho2 & _). unfold settled. split_and!; congruence. }
  bind_inv E as ? s6 t6 E6. eapply settled_quiet in E6; [..|exact H5]; [|auto with rfaas..].
  bind_inv E as ? s7 t7 E7. eapply settled_quiet in E7; [..|exact E6]; [|auto with rfaas..].
  eapply settled_quiet; [apply frames_leave|apply quiet_leave|exact E7|exact E].
Qed.
End Conservation.

(** ** The answers of a thread *)

(** The words that went out with written results, oldest first, and the number of
    function calls. *)
Definition results (tr : trace) : list Z :=
  rev (omap (λ c, match c with
                  | Cpost_send _ wr =>
                      match wr_opcode wr with
                      | IBV_WR_RDMA_WRITE_WITH_IMM => Some (ntohl (wr_imm_data wr))
                      | _ => None
                      end
                  | _ => None
                  end) tr).
Definition calls (tr : trace) : nat :=
  length (omap (λ c, match c with Cinvoke _ _ => Some tt | _ => None end) tr).

(** The addresses that were called, oldest first. *)
Definition invoked (tr : trace) : list Z :=
  rev (omap (λ c, match c with Cinvoke p _ => Some p | _ => None end) tr).

Definition no_result (c : call) : Prop :=
  match c with
  | Cpost_send _ wr => match wr_opcode wr with IBV_WR_RDMA_WRITE_WITH_IMM => False | _ => True end
  | Cinvoke _ _ => False
  | _ => True
  end.

Lemma results_app u v : results (u ++ v) = results v ++ results u.
Proof. unfold results. by rewrite omap_app, rev_app_distr. Qed.

Lemma calls_app u v : calls (u ++ v) = (calls u + calls v)%nat.
Proof. unfold calls. by rewrite omap_app, length_app. Qed.

Lemma invoked_app u v : invoked (u ++ v) = invoked v ++ invoked u.
Proof. unfold invoked. by rewrite omap_app, rev_app_distr. Qed.

Lemma no_result_silent u : Forall no_result u → results u = [] ∧ calls u = 0%nat ∧ invoked u = [].
Proof.
  intros Hu. induction Hu as [|c u Hc Hu (IH1 & IH2 & IH3)]; [done|]. change (c :: u) with ([c] ++ u).
  rewrite results_app, calls_app, invoked_app, IH1, IH2, IH3. destruct c; try done. unfold results. cbn in *.
  by destruct (wr_opcode wr).
Qed.

(** The operation answers nothing. *)
Definition mute {A} (op : M Thread A) : Prop :=
  ∀ s t a s' t', op s t = Ok (a, s', t') → results t' = results t ∧ calls t' = calls t ∧ invoked t' = invoked t.

Section Answers.
Context `{Env}.

Lemma mute_emits {A} (op : M Thread A) : emits no_result op → mute op.
Proof using.
  intros He s t a s' t' (u & -> & Hu)%He. apply no_result_silent in Hu as (Hr & Hc & Hi).
  rewrite results_app, calls_app, invoked_app, Hr, Hc, Hi. by rewrite !app_nil_r.
Qed.

Lemma no_result_not_send {S A} (op : M S A) : emits not_send op → emits no_result op.
Proof using. apply emits_weaken. by intros []. Qed.

Lemma mute_bind {A B} (op : M Thread A) (k : A → M Thread B) :
  mute op → (∀ a, mute (k a)) → mute (op ≫= k).
Proof using.
  intros Ho Hk s t b s' t' E. bind_inv E as a s1 t1 E1. apply Ho in E1 as (H1 & H2 & H3).
  apply Hk in E as (H4 & H5 & H6). split_and!; congruence.
Qed.

Lemma mute_on_active {A} (op : M Connection.t A) : emits not_send op → mute (on_active op).
Proof using. intros Ho. by apply mute_emits, emits_on_active, no_result_not_send. Qed.

Lemma mute_add_remote off v w : mute (add_remote off v w).
Proof using.
  apply mute_emits. unfold add_remote, Buffer.add, Buffer.address, Buffer.lkey, Buffer.with_mr.
  apply emits_bind; [auto with rfaas|]. intros s. apply emits_bind; [auto 10 with rfaas|]. intros l.
  apply emits_bind.
  - apply emits_on_mgr. unfold Connection.post_atomic_fadd, Connection.submit, Connection.the_qp, Connection.next_req.
    auto 10 with rfaas.
  - intros _. destruct w; [|auto with rfaas]. apply emits_bind; [|auto with rfaas].
    apply emits_on_mgr, no_result_not_send, Rdma.silent_poll_wc.
Qed.

Lemma mute_send_execution force wait : mute (send_updated_execution force wait).
Proof using.
  unfold send_updated_execution. apply mute_bind; [apply mute_emits; auto with rfaas|]. intros s. cbv zeta.
  destruct (_ || _); [|apply mute_emits; auto with rfaas].
  apply mute_bind; [apply mute_add_remote|]. intros _. apply mute_emits. auto with rfaas.
Qed.

Lemma write_answers sges r imm fi fs c t n c' t' :
  Connection.post_write_imm sges r imm fi fs c t = Ok (n, c', t') →
  results t' = results t ++ [u32 imm] ∧ calls t' = calls t ∧ invoked t' = invoked t.
Proof using.
  unfold Connection.post_write_imm, Connection._post_write, Connection.submit, Connection.the_qp,
    Connection.next_req. intros E.
  bind_inv E as rid c1 t1 E1. step_inv E as fl. bind_inv E as ret c2 t2 E2.
  assert (t' = t2) as -> by (repeat case_match; run_inv; done).
  clear E. run_inv. unfold results. cbn. by rewrite ntohl_htonl.
Qed.

(** *** Which function is called

    [addr] gives the address of a function of the library. The table of a thread is filled on demand. *)
Definition table_ok (addr : string → Z) (f : Functions) : Prop :=
  ∀ i p, znth (_functions f) i = Some p → p ≠ 0 → addr <$> znth (_names f) i = Some p.

(** A new table is. *)
Lemma process_library_table addr symbols p size : table_ok addr (process_library symbols (mk_Functions p size [] [])).
Proof using.
  intros i q Hq Hn. cbn [process_library _functions app] in Hq. apply znth_In in Hq.
  apply (subseteq_take _ (replicate _ 0)) in Hq. by apply elem_of_replicate in Hq as [-> _].
Qed.

Lemma function_table addr idx name f t p f' t' :
  (∀ tr n, env_dlsym tr n = addr n) → table_ok addr f → znth (_names f) idx = Some name →
  function idx f t = Ok (p, f', t') → p = addr name ∧ table_ok addr f' ∧ _names f' = _names f.
Proof using.
  intros Hd Hok Hname E. unfold function in E. step_inv E. bind_inv E as q ? ? E1. run_inv_at E1. apply from_opt_Ok in E1.
  unfold nonzero in E. destruct (Z.eqb_spec q 0) as [->|Hq]; cbn [negb] in E.
  - rewrite Hname in E. bind_inv E as n ? ? E2. injection E2 as <- <- <-. step_inv E. rewrite Hd in E.
    bind_inv E as l ? ? E2. run_inv_at E2. apply from_opt_Ok in E2. step_inv E. run_inv_at E.
    split_and!; [done| |done]. intros i x Hx Hn. cbn [_functions _names] in *.
    apply (znth_zset _ _ _ _ _ _ E2) in Hx as [[-> ->]|[_ Hx]]; [by rewrite Hname|by apply Hok].
  - run_inv_at E. split_and!; [|done|done]. specialize (Hok _ _ E1 Hq). rewrite Hname in Hok. by injection Hok as <-.
Qed.

(** One invocation: one call, one result. *)
Lemma work_answers header i f sol n s t fin s' t' :
  work header i f sol n s t = Ok (fin, s', t') →
  results t' = results t ++ [Invocation.result_code i] ∧ calls t' = S (calls t) ∧
  repetitions s' = repetitions s ∧
  ∀ addr name, (∀ tr n, env_dlsym tr n = addr n) → table_ok addr (t_functions s) →
    znth (_names (t_functions s)) f = Some name →
    invoked t' = invoked t ++ [addr name] ∧ table_ok addr (t_functions s') ∧
    _names (t_functions s') = _names (t_functions s).
Proof using.
  intros E. unfold work in E. bind_inv E as ptr s1 t1 E1.
  assert (results t1 = results t ∧ calls t1 = calls t ∧ invoked t1 = invoked t ∧ repetitions s1 = repetitions s ∧
    ∀ addr name, (∀ tr n, env_dlsym tr n = addr n) → table_ok addr (t_functions s) →
      znth (_names (t_functions s)) f = Some name →
      ptr = addr name ∧ table_ok addr (t_functions s1) ∧ _names (t_functions s1) = _names (t_functions s))
    as (Hr1 & Hc1 & Hi1 & Hp1 & Ht1).
  { run_inv_at E1. assert (emits no_result (function f)) as Hf.
    { unfold function. apply emits_bind; [auto with rfaas|]. intros g. apply emits_bind; [auto with rfaas|].
      intros p. destruct (nonzero p); auto 10 with rfaas. }
    pose proof E1 as E1'. apply Hf in E1 as (u & -> & (Hr & Hc & Hi)%no_result_silent).
    rewrite results_app, calls_app, invoked_app, Hr, Hc, Hi, !app_nil_r. split_and!; [done..|].
    intros addr name Hd Hok Hn. by apply (function_table addr f name) in E1'. }
  clear E1. step_inv E. bind_inv E as ? s2 t2 E2. destruct (ptr =? 0); run_inv_at E2.
  step_inv E as out. cbv zeta in E. step_inv E as finish. step_inv E as s3.
  bind_inv E as sges s4 t4 E4.
  assert (s4 = s1 ∧ t4 = Cclock :: Cinvoke ptr n :: Cclock :: t1) as [-> ->].
  { unfold Buffer.sge, Buffer.address, Buffer.lkey, Buffer.with_mr in E4. run_inv. done. }
  clear E4. step_inv E as remote. bind_inv E as ? s6 t6 E6.
  assert (results t6 = results t1 ++ [Invocation.result_code i] ∧ calls t6 = S (calls t1) ∧
          invoked t6 = invoked t1 ++ [ptr] ∧ repetitions s6 = repetitions s1 ∧ t_functions s6 = t_functions s1)
    as (Hr6 & Hc6 & Hi6 & Hp6 & Hf6).
  { unfold on_active in E6. step_inv E6. bind_inv E6 as c ? ? E7. run_inv_at E7. run_inv_at E6.
    apply write_answers in E6 as (Hr & Hc & Hi). rewrite Hr, Hc, Hi.
    unfold Invocation.result_code at 1. by rewrite wrap_wrap by lia. }
  step_inv E. bind_inv E as ? s7 t7 E7. run_inv_at E.
  apply mute_send_execution in E7 as F7. destruct F7 as (Hr7 & Hc7 & Hi7).
  assert (frames (λ s, (repetitions s, t_functions s)) (send_updated_execution false true)) as Hf7.
  { unfold send_updated_execution, add_remote, on_mgr, Buffer.add, Buffer.address, Buffer.lkey, Buffer.with_mr.
    apply frames_bind; [auto with rfaas|]. intros y. cbv zeta. destruct (_ || _); [|auto with rfaas].
    auto 20 with rfaas. }
  apply Hf7 in E7. cbn in E7. apply pair_equal_spec in E7 as [Hp7 Hf]. split_and!; [congruence..|].
  intros addr name Hd Hok Hn. destruct (Ht1 addr name Hd Hok Hn) as (-> & Hok1 & Hn1).
  rewrite Hf, Hf6, Hi7, Hi6, Hi1. done.
Qed.

(** The completions [warm] runs: those that did not fail. *)
Definition succeeded (wcs : list ibv_wc) : list ibv_wc := filter (λ wc, wc_status wc = 0) wcs.

Definition answer (wc : ibv_wc) : Z := Invocation.result_code (Invocation.invoc_id (Invocation.info (wc_imm_data wc))).

Lemma warm_answers header wcs s t u s' t' :
  warm_completions header wcs s t = Ok (u, s', t') →
  results t' = results t ++ (answer <$> succeeded wcs) ∧
  calls t' = (calls t + length (succeeded wcs))%nat ∧
  repetitions s' = repetitions s + Z.of_nat (length (succeeded wcs)).
Proof using.
  revert s t. induction wcs as [|wc wcs IH]; intros s t E; cbn [warm_completions] in E.
  { run_inv_at E. cbn. rewrite app_nil_r. split_and!; [done|lia|lia]. }
  unfold nonzero in E. unfold succeeded. destruct (Z.eqb_spec (wc_status wc) 0) as [Hz|Hz]; cbn [negb] in E.
  - rewrite filter_cons_True by done. bind_inv E as fin s1 t1 E1. unfold run_completion in E1.
    apply work_answers in E1 as (Hr1 & Hc1 & Hp1 & _). bind_inv E as ? s2 t2 E2.
    apply (mute_on_active _ (Rdma.silent_poll_wc _ _ _)) in E2 as F2. destruct F2 as (Hr2 & Hc2 & _).
    assert (repetitions s2 = repetitions s1) as Hp2.
    { assert (frames repetitions (on_active (Connection.poll_wc Connection.SEND true (-1)))) as Hf
        by (unfold on_active; auto with rfaas). by apply Hf in E2. }
    step_inv E. apply IH in E as (Hr & Hc & Hp). cbn in Hp |- *. unfold succeeded in Hr, Hc, Hp.
    rewrite Hr, Hc, Hp, Hr2, Hc2, Hp2, Hr1, Hc1, Hp1, <-app_assoc. split_and!; [done|lia|lia].
  - rewrite filter_cons_False by done. by apply IH in E.
Qed.

(** What a thread does for one invocation: one call, of the function the number names, and one result. *)
Definition serves_one (wc : ibv_wc) (s : Thread) (t : trace) (s' : Thread) (t' : trace) : Prop :=
  results t' = results t ++ [answer wc] ∧
  ∀ addr name, (∀ tr n, env_dlsym tr n = addr n) → table_ok addr (t_functions s) →
    znth (_names (t_functions s)) (Invocation.func_id (Invocation.info (wc_imm_data wc))) = Some name →
    invoked t' = invoked t ++ [addr name] ∧ table_ok addr (t_functions s') ∧
    _names (t_functions s') = _names (t_functions s).

Lemma run_serves_one header wc s t fin s1 t1 s2 t2 r :
  run_completion header wc s t = Ok (fin, s1, t1) →
  (λ s, (results t1, invoked t1, t_functions s)) s1 = (results t2, invoked t2, t_functions s2) →
  r = s2 → serves_one wc s t r t2.
Proof using.
  intros E Hsame ->. unfold run_completion in E. apply work_answers in E as (Hr & _ & _ & Ht).
  injection Hsame as Hr2 Hi2 Hf2. unfold serves_one. rewrite <-Hr2, <-Hi2, <-Hf2. split; [exact Hr|exact Ht].
Qed.

Lemma poll_sends_mute s t r s' t' : on_active (Connection.poll_wc Connection.SEND true (-1)) s t = Ok (r, s', t') →
  results t' = results t ∧ invoked t' = invoked t ∧ t_functions s' = t_functions s.
Proof using.
  intros E. pose proof E as E'. apply (mute_on_active _ (Rdma.silent_poll_wc _ _ _)) in E' as (Hr & _ & Hi).
  assert (frames t_functions (on_active (Connection.poll_wc Connection.SEND true (-1)))) as Hf
    by (unfold on_active; auto with rfaas).
  apply Hf in E. done.
Qed.

Lemma warm_serves_one header wc s t u s' t' :
  wc_status wc = 0 → warm_completions header [wc] s t = Ok (u, s', t') → serves_one wc s t s' t'.
Proof using.
  intros Hz E. cbn [warm_completions] in E. rewrite Hz in E. change (nonzero 0) with false in E. cbv iota in E.
  bind_inv E as fin s1 t1 E1. bind_inv E as ? s2 t2 E2. apply poll_sends_mute in E2 as (Hr & Hi & Hf).
  step_inv E. run_inv_at E. eapply run_serves_one; [exact E1| |reflexivity]. cbn. by rewrite Hr, Hi, Hf.
Qed.

(** A single invocation in a hot poll: the loop ends after it. *)
Lemma hot_serves_one header fuel wc start s t r s' t' :
  wc_status wc = 0 → hot_completions header fuel [wc] 1 0 start s t = Ok (r, s', t') → serves_one wc s t s' t'.
Proof using.
  intros Hz E. destruct fuel as [|fuel]; cbn [hot_completions] in E; [discriminate E|].
  change (0 <? 1) with true in E. cbv iota in E. bind_inv E as wc' s0 t0 E0. injection E0 as <- <- <-.
  rewrite Hz in E. change (nonzero 0) with false in E. cbv iota in E.
  step_inv E as now. bind_inv E as fin s1 t1 E1. step_inv E. cbv zeta in E. bind_inv E as ? s2 t2 E2.
  apply poll_sends_mute in E2 as (Hr & Hi & Hf). step_inv E.
  destruct fuel as [|fuel]; cbn [hot_completions] in E; [discriminate E|].
  change (0 + 1 <? 1) with false in E. cbv iota in E. run_inv_at E.
  match goal with |- serves_one _ _ _ ?s2 ?t2 =>
    assert (serves_one wc s (Cclock :: t) s2 t2) as Hone by (eapply run_serves_one; [exact E1| |reflexivity]; cbn; by rewrite Hr, Hi, Hf) end.
  exact Hone.
Qed.

(** A completion that succeeded at a position after the first is met again and again. *)
Lemma hot_meets_again header fuel wcs count j wc i start s t r :
  1 ≤ j < count → znth wcs j = Some wc → wc_status wc = 0 → i ≤ j →
  hot_completions header fuel wcs count i start s t ≠ Ok r.
Proof using.
  intros Hj Hwc Hz. revert i start s t. induction fuel as [|fuel IH]; intros i start s t Hi E; cbn [hot_completions] in E.
  { by run_inv_at E. }
  destruct r as [[fin s'] t']. destruct (Z.ltb_spec i count); [|lia].
  bind_inv E as wc' ? ? E1. run_inv_at E1. apply from_opt_Ok in E1.
  destruct (nonzero (wc_status wc')) eqn:Hn.
  - eapply IH; [|exact E]. destruct (decide (i = j)) as [->|]; [|lia].
    rewrite Hwc in E1. injection E1 as <-. by rewrite Hz in Hn.
  - step_inv E as now. bind_inv E as fe ? ? E2. step_inv E. cbv zeta in E.
    bind_inv E as ? ? ? E3. step_inv E. eapply IH; [|exact E]. lia.
Qed.
End Answers.

Lemma u64_difference a b c : u64 (a - c) = u64 b → u64 (a - b) = u64 c.
Proof.
  unfold wrap. intros E. replace (a - b) with (a - c - b + c) by lia.
  rewrite Zplus_mod, Zminus_mod, E, <-Zminus_mod, Z.sub_diag, Zmod_0_l, Z.add_0_l. by apply Z.mod_mod.
Qed.

(** ** Theorems *)

(** C12. Every nanosecond a thread counts reaches the manager. For a thread that starts
    with empty counters, whatever it goes through until it returns (refused
    connections, hot and warm polling, invocations, the signal to terminate), the sum of
    the values it added to the execution counter in the manager's buffer is its total
    execution time, and the sum of those added to the polling counter its total polling
    time, both modulo 2^64. *)
Theorem thread_time_accounted `{Env} symbols header term fuel timeout s t u s' t' :
  _accounting s = mk_Accounting 0 0 0 0 0 →
  thread_work symbols header term fuel timeout s t = Ok (u, s', t') →
  u64 (added (exec_addr s) t' - added (exec_addr s) t) = u64 (total_execution_time (_accounting s')) ∧
  u64 (added (poll_addr s) t' - added (poll_addr s) t) = u64 (total_hot_polling_time (_accounting s')).
Proof.
  intros Ha E.
  enough (settled s t s' t') as (Hm & Ho & He & Hp).
  { assert (exec_addr s' = exec_addr s ∧ poll_addr s' = poll_addr s) as [Hx Hy]
      by (unfold exec_addr, poll_addr; by rewrite Hm).
    unfold owed in Ho. rewrite Hx, Hy, He, Hp, Ha in Ho. apply pair_equal_spec in Ho as [Ho1 Ho2].
    cbn [execution_time hot_polling_time total_execution_time total_hot_polling_time] in Ho1, Ho2.
    rewrite !Z.add_0_r, !Z.sub_0_r in Ho1, Ho2. split; by apply u64_difference. }
  eapply thread_work_settles; [..|exact E]; by rewrite Ha.
Qed.

(** A thread whose client sent a library of two functions. Polls find one completion. *)
Definition thread_env : Env :=
  scripted_env 8 (λ _ _ _, (1, [mk_wc 0 0 5 (htonl (Invocation.submission true 7 0)) 20]))
    (λ _, (0, quiet_event)) (λ _, 0) (λ _, 0).
Definition demo_symbols : list string := ["resize"; "empty"]%string.
Definition demo_header : trace → Buffer.RemoteBuffer := λ _, Buffer.mk_remote 65536 33 0.

Definition demo_thread : option (Thread * trace) :=
  match @thread_construct thread_env unit "10.0.0.9" 10005 0 1024 64 64 32 0
          (mk_ManagerConnection "10.0.0.2" 10006 13 8192 12) tt [] with
  | Ok (th, _, t) => Some (th, t)
  | Fault _ => None
  end.

Definition demo_ready : option (Thread * trace) :=
  st ← demo_thread;
  match (@connect_manager thread_env ;; @connect_client thread_env 100 ;;
         @exchange thread_env demo_symbols) st.1 st.2 with
  | Ok (_, s, t) => Some (s, t)
  | Fault _ => None
  end.

(** The signal arrives when the thread has made 60 calls. *)
Definition demo_term : trace → bool := λ t, (60 <? Z.of_nat (length t)).

Lemma thread_time_accounted_witness :
  ∃ s t s' t', demo_thread = Some (s, t) ∧
    @thread_work thread_env demo_symbols demo_header demo_term 20 0 s t = Ok (tt, s', t') ∧
    u64 (added (exec_addr s) t' - added (exec_addr s) t) = u64 (total_execution_time (_accounting s')) ∧
    0 < total_execution_time (_accounting s').
Proof.
  destruct demo_thread as [[s t]|] eqn:Ed; [|vm_compute in Ed; discriminate Ed].
  destruct (@thread_work thread_env demo_symbols demo_header demo_term 20 0 s t) as [[[[] s'] t']|] eqn:E;
    [|vm_compute in Ed; injection Ed as <- <-; vm_compute in E; discriminate E].
  assert (_accounting s = mk_Accounting 0 0 0 0 0) as Ha
    by (vm_compute in Ed; injection Ed as <- <-; reflexivity).
  exists s, t, s', t'. split; [reflexivity|]. split; [exact E|].
  split; [exact (proj1 (@thread_time_accounted thread_env demo_symbols demo_header demo_term 20 0 s t tt s' t' Ha E))|].
  vm_compute in Ed. injection Ed as <- <-. vm_compute in E. injection E as <- <-. reflexivity.
Defined.

(** C13. In warm polling every invocation is answered once. Over the completions of one
    poll, the functions are called and the results written in the order of the
    completions, one call and one result for each completion that did not fail, the
    result carrying the number of its invocation. *)
Theorem warm_answers_each_once `{Env} header wcs s t u s' t' :
  warm_completions header wcs s t = Ok (u, s', t') →
  results t' = results t ++ (answer <$> succeeded wcs) ∧
  calls t' = (calls t + length (succeeded wcs))%nat ∧
  repetitions s' = repetitions s + Z.of_nat (length (succeeded wcs)).
Proof. apply warm_answers. Qed.

Lemma warm_answers_each_once_witness :
  let wcs := [mk_wc 0 0 5 (htonl (Invocation.submission true 7 0)) 20; mk_wc 1 1 5 0 0;
              mk_wc 0 2 5 (htonl (Invocation.submission true 40000 1)) 20] in
  ∃ s t s' t', demo_ready = Some (s, t) ∧
    @warm_completions thread_env demo_header wcs s t = Ok (tt, s', t') ∧
    results t' = results t ++ [7 * 2 ^ 16; 40000 * 2 ^ 16] ∧ repetitions s' = repetitions s + 2.
Proof.
  intros wcs.
  destruct demo_ready as [[s t]|] eqn:Ed; [|vm_compute in Ed; discriminate Ed].
  destruct (@warm_completions thread_env demo_header wcs s t) as [[[[] s'] t']|] eqn:E;
    [|vm_compute in Ed; injection Ed as <- <-; vm_compute in E; discriminate E].
  destruct (@warm_answers_each_once thread_env demo_header wcs s t tt s' t' E) as (Hr & _ & Hp).
  exists s, t, s', t'. split; [reflexivity|]. split; [exact E|].
  assert (answer <$> succeeded wcs = [7 * 2 ^ 16; 40000 * 2 ^ 16]) as Ha by (vm_compute; reflexivity).
  rewrite Hr, Hp, Ha. split; reflexivity.
Defined.

(** In hot polling two invocations in one poll hang the thread. The body of the
    loop over the completions resets the loop's own index instead of the counter of
    empty polls: as soon as a completion other than the first succeeded, the loop runs
    it again without end, and never returns whatever number of iterations it gets. *)
Theorem hot_polling_hangs `{Env} header fuel wcs count j wc start s t r :
  1 ≤ j < count → znth wcs j = Some wc → wc_status wc = 0 →
  hot_completions header fuel wcs count 0 start s t ≠ Ok r.
Proof. intros Hj Hwc Hz. eapply hot_meets_again; [exact Hj|exact Hwc|exact Hz|lia]. Qed.

(** Two requests of a client arrive together. *)
Lemma hot_polling_hangs_witness :
  let wc := mk_wc 0 0 5 (htonl (Invocation.submission true 7 0)) 20 in
  ∃ s t, demo_ready = Some (s, t) ∧
    ∀ fuel r, @hot_completions thread_env demo_header fuel [wc; wc] 2 0 0 s t ≠ Ok r.
Proof.
  intros wc. destruct demo_ready as [[s t]|] eqn:Ed; [|vm_compute in Ed; discriminate Ed].
  exists s, t. split; [reflexivity|]. intros fuel r.
  apply (@hot_polling_hangs thread_env demo_header fuel [wc; wc] 2 1 wc 0 s t r);
    [split; [discriminate|reflexivity]|reflexivity|reflexivity].
Defined.

End ExecutorThread.
