(* ===== verification/ExecutorOptions.v ===== *)
(** * The options of the executor

    src/server/executor/opts.cpp and cli.cpp: what the executor process reads from the
    command line that an executor manager built (ExecutorManager.v), and the threads it
    then sets up.  The parser is the one of CommandLine.v. *)

From stdpp Require Import pretty.
From S2P Require Import Prelude CommandLine Verbs Messages ExecutorManager ExecutorThread.

Module ExecutorOptions.

Import CommandLine.

Definition declared : list option_spec :=
  [mk_option "a" "address" false None; mk_option "p" "port" false (Some "0"); mk_option "" "cheap" false (Some "0");
   mk_option "" "fast" false (Some "1"); mk_option "" "polling-mgr" false (Some "server");
   mk_option "" "polling-type" false (Some "wc"); mk_option "" "warmup-iters" false (Some "1");
   mk_option "" "pin-threads" false (Some "-1"); mk_option "" "max-inline-data" false (Some "0");
   mk_option "x" "requests" false (Some "32"); mk_option "" "func-size" false None; mk_option "" "timeout" false None;
   mk_option "s" "size" false (Some "1"); mk_option "" "output-size" false (Some "1");
   mk_option "r" "repetitions" false (Some "1"); mk_option "f" "file" false None; mk_option "v" "verbose" true (Some "false");
   mk_option "" "mgr-address" false None; mk_option "" "mgr-port" false None; mk_option "" "mgr-secret" false None;
   mk_option "" "mgr-buf-addr" false None; mk_option "" "mgr-buf-rkey" false None;
   mk_option "" "core-start-idx" false (Some "0")]%string.

(** ** Options *)

Inductive PollingMgr : Type := SERVER | SERVER_NOTIFY | THREAD.
Inductive PollingType : Type := WC | DRAM.

Record Options := mk_Options {
  address : string; port : Z; cheap_executors : Z; fast_executors : Z; recv_buffer_size : Z; msg_size : Z;
  out_size : Z; repetitions : Z; warmup_iters : Z; verbose : bool; pin_threads : Z; core_start_index : Z;
  max_inline_data : Z; func_size : Z; timeout : Z; mgr_address : string; mgr_port : Z; mgr_secret : Z;
  accounting_buffer_addr : Z; accounting_buffer_rkey : Z; polling_manager : PollingMgr;
  polling_type : PollingType }.

Section Opts.
Context `{Cxxopts}.

Definition read_polling_mgr (s : string) : result PollingMgr :=
  if bool_decide (s = "server") then Ok SERVER
  else if bool_decide (s = "server-notify") then Ok SERVER_NOTIFY
  else if bool_decide (s = "thread") then Ok THREAD
  else Fault (Throw "Unrecognized choice for polling-mgr option").

Definition read_polling_type (s : string) : result PollingType :=
  if bool_decide (s = "wc") then Ok WC
  else if bool_decide (s = "dram") then Ok DRAM
  else Fault (Throw "Unrecognized choice for polling-type option").

Definition opts (argv : list string) : result Options :=
  r ← or_throw "options" (cx_parse declared argv);
  let p := r.1 in
  address ← as_string p "address";
  port ← as_int p "port";
  cheap_executors ← as_int p "cheap";
  fast_executors ← as_int p "fast";
  recv_buffer_size ← as_int p "requests";
  msg_size ← as_int p "size";
  out_size ← as_int p "output-size";
  repetitions ← as_int p "repetitions";
  warmup_iters ← as_int p "warmup-iters";
  verbose ← as_bool p "verbose";
  pin_threads ← as_int p "pin-threads";
  core_start_index ← as_int p "core-start-idx";
  max_inline_data ← as_int p "max-inline-data";
  func_size ← as_int p "func-size";
  timeout ← as_int p "timeout";
  mgr_address ← as_string p "mgr-address";
  mgr_port ← as_int p "mgr-port";
  mgr_secret ← as_int p "mgr-secret";
  accounting_buffer_addr ← as_type cx_u64 p "mgr-buf-addr";
  accounting_buffer_rkey ← as_type cx_u32 p "mgr-buf-rkey";
  polling_mgr ← as_string p "polling-mgr";
  polling_manager ← read_polling_mgr polling_mgr;
  polling_type ← as_string p "polling-type";
  polling_type ← read_polling_type polling_type;
  Ok (mk_Options address port cheap_executors fast_executors recv_buffer_size msg_size out_size repetitions
        warmup_iters verbose pin_threads core_start_index max_inline_data func_size timeout mgr_address mgr_port
        mgr_secret accounting_buffer_addr accounting_buffer_rkey polling_manager polling_type).

(** [main]: the executors with the threads that were started. *)
Definition main `{Env} {S} (affinity : Z → Z) (argv : list string) : M S ExecutorThread.FastExecutors :=
  o ← lift (opts argv);
  let mgr := ExecutorManager.mk_ManagerConnection (mgr_address o) (mgr_port o) (mgr_secret o)
               (accounting_buffer_addr o) (accounting_buffer_rkey o) in
  executor ← ExecutorThread.executors_construct (address o) (port o) (func_size o) (fast_executors o) (msg_size o)
               (out_size o) (recv_buffer_size o) (max_inline_data o) (nonzero (pin_threads o)) mgr;
  executor ← on_object executor
    (ExecutorThread.allocate_threads affinity (timeout o) (repetitions o + warmup_iters o) (core_start_index o));
  on_object executor ExecutorThread.close.
End Opts.

(** ** From the manager to the threads *)

(** The numbers of a request, the settings, the connection data and the lease are in the range of the
    types the executor reads them with; of these only the size of the code is not by its own type. *)
Definition int_range (n : Z) : Prop := - 2 ^ 31 ≤ n < 2 ^ 31.

Definition readable (request : AllocationRequest) (exec : ExecutorManager.ExecutorSettings)
    (conn : ExecutorManager.ManagerConnection) (lease : ExecutorManager.Lease) : Prop :=
  Forall int_range
    [ar_listen_port request; ar_input_buf_size request; ar_output_buf_size request; ar_func_buf_size request;
     ar_hot_timeout request; ar_core_start_index request; ExecutorManager.l_cores lease;
     ExecutorManager.repetitions exec; ExecutorManager.recv_buffer_size exec; ExecutorManager.warmup_iters exec;
     ExecutorManager.xs_max_inline_data exec; ExecutorManager.mc_port conn; ExecutorManager.mc_secret conn] ∧
  0 ≤ ExecutorManager.mc_r_addr conn < 2 ^ 64 ∧ 0 ≤ ExecutorManager.mc_r_key conn < 2 ^ 32.

#[global] Instance readable_decision request exec conn lease : Decision (readable request exec conn lease).
Proof. unfold readable, int_range. apply _. Defined.

(** The command line as options with their values. *)
Definition command_line (addr : string) (request : AllocationRequest) (exec : ExecutorManager.ExecutorSettings)
    (conn : ExecutorManager.ManagerConnection) (lease : ExecutorManager.Lease) : list (string * option string) :=
  let n z := Some (ExecutorManager.to_string z) in
  [("-a", Some addr); ("-p", n (ar_listen_port request)); ("--polling-mgr", Some "thread");
   ("-r", n (ExecutorManager.repetitions exec)); ("-x", n (ExecutorManager.recv_buffer_size exec));
   ("-s", n (ar_input_buf_size request)); ("--output-size", n (ar_output_buf_size request));
   ("--pin-threads", n (if ExecutorManager.pin_threads exec then 1 else 0));
   ("--fast", n (ExecutorManager.l_cores lease)); ("--warmup-iters", n (ExecutorManager.warmup_iters exec));
   ("--max-inline-data", n (ExecutorManager.xs_max_inline_data exec));
   ("--func-size", n (ar_func_buf_size request)); ("--timeout", n (ar_hot_timeout request));
   ("--mgr-address", Some (ExecutorManager.mc_addr conn)); ("--mgr-port", n (ExecutorManager.mc_port conn));
   ("--mgr-secret", n (ExecutorManager.mc_secret conn)); ("--mgr-buf-addr", n (ExecutorManager.mc_r_addr conn));
   ("--mgr-buf-rkey", n (ExecutorManager.mc_r_key conn));
   ("--core-start-idx", n (ar_core_start_index request))]%string.

Lemma argv_command_line addr request exec conn lease :
  ExecutorManager.use_docker exec = false →
  ExecutorManager.executor_argv addr request exec conn lease =
  "executor"%string :: arguments (command_line addr request exec conn lease).
Proof. intros Hd. unfold ExecutorManager.executor_argv. rewrite Hd. reflexivity. Qed.

Lemma command_line_well_formed addr request exec conn lease :
  Forall (well_formed declared) (command_line addr request exec conn lease).
Proof.
  unfold command_line. repeat constructor; unfold well_formed; cbn [fst snd]; (eexists; split; vm_compute; reflexivity).
Qed.

(** Every option finds its value, whatever the values are. *)
Lemma line_values (a p r x s o pin f w m fs t ma mp ms ba bk ci : string) :
  let line := [("-a", Some a); ("-p", Some p); ("--polling-mgr", Some "thread"); ("-r", Some r); ("-x", Some x); ("-s", Some s);
    ("--output-size", Some o); ("--pin-threads", Some pin); ("--fast", Some f); ("--warmup-iters", Some w);
    ("--max-inline-data", Some m); ("--func-size", Some fs); ("--timeout", Some t); ("--mgr-address", Some ma); ("--mgr-port", Some mp);
    ("--mgr-secret", Some ms); ("--mgr-buf-addr", Some ba); ("--mgr-buf-rkey", Some bk); ("--core-start-idx", Some ci)]%string in
  last_value declared (occurrences declared line) <$>
    ["address"; "port"; "cheap"; "fast"; "requests"; "size"; "output-size"; "repetitions"; "warmup-iters"; "verbose";
     "pin-threads"; "core-start-idx"; "max-inline-data"; "func-size"; "timeout"; "mgr-address"; "mgr-port";
     "mgr-secret"; "mgr-buf-addr"; "mgr-buf-rkey"; "polling-mgr"; "polling-type"]%string =
  Some <$> [a; p; "0"; f; x; s; o; r; w; "false"; pin; ci; m; fs; t; ma; mp; ms; ba; bk; "thread"; "wc"]%string.
Proof. vm_compute. reflexivity. Qed.

Lemma values_read (p : string → option string) addr request exec conn lease :
  (∀ name, p name = last_value declared (occurrences declared (command_line addr request exec conn lease)) name) →
  let n := ExecutorManager.to_string in
  p <$> ["address"; "port"; "cheap"; "fast"; "requests"; "size"; "output-size"; "repetitions"; "warmup-iters"; "verbose";
     "pin-threads"; "core-start-idx"; "max-inline-data"; "func-size"; "timeout"; "mgr-address"; "mgr-port";
     "mgr-secret"; "mgr-buf-addr"; "mgr-buf-rkey"; "polling-mgr"; "polling-type"]%string =
  Some <$> [addr; n (ar_listen_port request); "0"; n (ExecutorManager.l_cores lease);
     n (ExecutorManager.recv_buffer_size exec); n (ar_input_buf_size request); n (ar_output_buf_size request);
     n (ExecutorManager.repetitions exec); n (ExecutorManager.warmup_iters exec); "false";
     n (if ExecutorManager.pin_threads exec then 1 else 0); n (ar_core_start_index request);
     n (ExecutorManager.xs_max_inline_data exec); n (ar_func_buf_size request); n (ar_hot_timeout request);
     ExecutorManager.mc_addr conn; n (ExecutorManager.mc_port conn); n (ExecutorManager.mc_secret conn);
     n (ExecutorManager.mc_r_addr conn); n (ExecutorManager.mc_r_key conn); "thread"; "wc"]%string.
Proof.
  intros Hp n. unfold n. rewrite <-(line_values addr). apply list_fmap_ext. intros i name _. apply Hp.
Qed.

Section Configured.
Context (cx : Cxxopts) {laws : CxxoptsLaws cx}.

(** What the executor reads is what the manager wrote. *)
Lemma opts_command_line addr request exec conn lease :
  ExecutorManager.use_docker exec = false → readable request exec conn lease →
  opts (ExecutorManager.executor_argv addr request exec conn lease) =
  Ok (mk_Options addr (ar_listen_port request) 0 (ExecutorManager.l_cores lease)
        (ExecutorManager.recv_buffer_size exec) (ar_input_buf_size request) (ar_output_buf_size request)
        (ExecutorManager.repetitions exec) (ExecutorManager.warmup_iters exec) false
        (if ExecutorManager.pin_threads exec then 1 else 0) (ar_core_start_index request)
        (ExecutorManager.xs_max_inline_data exec) (ar_func_buf_size request) (ar_hot_timeout request)
        (ExecutorManager.mc_addr conn) (ExecutorManager.mc_port conn) (ExecutorManager.mc_secret conn)
        (ExecutorManager.mc_r_addr conn) (ExecutorManager.mc_r_key conn) THREAD WC).
Proof using laws.
  intros Hd (Hints & Haddr & Hkey). rewrite argv_command_line by done.
  destruct (cx_accepts declared "executor" _ (command_line_well_formed addr request exec conn lease))
    as ([p count] & Hparse & Hpc). cbn [fst snd] in Hpc.
  assert (∀ name, p name = last_value declared (occurrences declared (command_line addr request exec conn lease)) name)
    as Hp by (intros name; apply Hpc). clear Hpc.
  unfold opts. rewrite Hparse. cbn [or_throw mbind result_bind fst].
  pose proof (values_read p addr request exec conn lease Hp) as Hv. cbn [fmap list_fmap] in Hv.
  injection Hv as E1 E2 E3 E4 E5 E6 E7 E8 E9 E10 E11 E12 E13 E14 E15 E16 E17 E18 E19 E20 E21 E22.
  change "0"%string with (ExecutorManager.to_string 0) in E3. rewrite !Forall_cons in Hints. destruct_and! Hints.
  assert (int_range 0 ∧ int_range (if ExecutorManager.pin_threads exec then 1 else 0)) as [Hzero Hpin]
    by (unfold int_range; split; [lia|case_match; lia]).
  unfold as_string, as_bool.
  repeat (first [erewrite as_int_to_string by eassumption
                |erewrite as_type_Some by eauto using cx_bool_false, cx_u64_decimal, cx_u32_decimal];
          cbn [mbind result_bind]).
  reflexivity.
Qed.
End Configured.

(** The threads are built for the client and the manager they are given. *)
Definition configured (addr : string) (port : Z) (conn : ExecutorManager.ManagerConnection)
    (th : ExecutorThread.Thread) : Prop :=
  ExecutorThread.t_addr th = addr ∧ ExecutorThread.t_port th = port ∧ ExecutorThread._mgr_conn th = conn.

Lemma fast_executors_inv `{Env} {S} addr port fs n ms os rb inl conn (s : S) t l s' t' :
  ExecutorThread.fast_executors addr port fs n ms os rb inl conn s t = Ok (l, s', t') →
  length l = Z.to_nat n ∧ Forall (configured addr port conn) l.
Proof.
  unfold ExecutorThread.fast_executors. rewrite <-(length_range n). generalize (range n) as ids. intros ids.
  revert s t l s' t'. induction ids as [|id ids IH]; intros s t l s' t' E; cbn [foldr] in E.
  { run_inv_at E. done. }
  bind_inv E as th s1 t1 E1. bind_inv E as rest s2 t2 E2. run_inv_at E. apply IH in E2 as [Hlen Hall].
  split; [cbn; by rewrite Hlen|]. constructor; [|done]. unfold ExecutorThread.thread_construct in E1.
  do 4 bind_inv E1 as ? ? ? ?. run_inv_at E1. done.
Qed.

(** [allocate_threads] starts a thread for every core and changes nothing that was configured. *)
Lemma allocate_threads_inv `{Env} affinity timeout iterations start f t u f' t' addr port conn :
  ExecutorThread.allocate_threads affinity timeout iterations start f t = Ok (u, f', t') →
  Forall (configured addr port conn) (ExecutorThread._threads_data f) →
  Forall (configured addr port conn) (ExecutorThread._threads_data f') ∧
  length (ExecutorThread._threads_data f') = length (ExecutorThread._threads_data f) ∧
  ExecutorThread._threads f' = ExecutorThread._threads f ++
    ((λ i, ExecutorThread.mk_std_thread i timeout (ExecutorThread.core_of (ExecutorThread._pin_threads f) start i) true) <$>
       range (ExecutorThread._numcores f)).
Proof.
  unfold ExecutorThread.allocate_threads. intros E. step_inv E. revert E. generalize (range (ExecutorThread._numcores f)) as ids.
  intros ids. revert f t. induction ids as [|i ids IH]; intros f t E Hf; cbn [for_each] in E.
  { run_inv_at E. cbn. by rewrite app_nil_r. }
  bind_inv E as v f1 t1 E1. step_inv E1. bind_inv E1 as th f2 t2 E2. run_inv_at E2. apply from_opt_Ok in E2.
  bind_inv E1 as l f3 t3 E3. run_inv_at E3. apply from_opt_Ok in E3. step_inv E1. unfold expect_zero in E1. run_inv_at E1.
  unfold zset in E3. case_bool_decide as Hi; [|discriminate E3]. injection E3 as <-.
  unfold znth in E2. rewrite bool_decide_eq_true_2 in E2 by lia.
  apply IH in E as (Ha & Hlen & Hb); cbn in *.
  - split; [done|]. split; [by rewrite Hlen, length_insert|]. by rewrite Hb, <-app_assoc.
  - apply Forall_insert; [done|]. rewrite Forall_lookup in Hf. exact (Hf _ _ E2).
Qed.

(** The i-th thread runs [thread_work] on the i-th data, with the given timeout and on the given core. *)
Definition runs `{Env} (f : ExecutorThread.FastExecutors) (addr : string) (port : Z)
    (conn : ExecutorManager.ManagerConnection) (timeout : Z) (core : Z → Z) (i : Z) : Prop :=
  ∃ th data, znth (ExecutorThread._threads f) i = Some th ∧ ExecutorThread.th_core th = core i ∧
    znth (ExecutorThread._threads_data f) i = Some data ∧ configured addr port conn data ∧
    ∀ symbols header term fuel t,
      ExecutorThread.thread_entry symbols header term fuel f th t =
      ExecutorThread.thread_work symbols header term fuel timeout data t.

Lemma started_runs `{Env} f addr port conn timeout core joinable n i :
  ExecutorThread._threads f = (λ i, ExecutorThread.mk_std_thread i timeout (core i) joinable) <$> range n →
  length (ExecutorThread._threads_data f) = Z.to_nat n → Forall (configured addr port conn) (ExecutorThread._threads_data f) →
  0 ≤ i < n → runs f addr port conn timeout core i.
Proof.
  intros Ht Hlen Hall Hi. destruct (lookup_lt_is_Some_2 (ExecutorThread._threads_data f) (Z.to_nat i)) as [data Hd]; [lia|].
  assert (znth (ExecutorThread._threads_data f) i = Some data) as Hz
    by (unfold znth; by rewrite bool_decide_eq_true_2 by lia).
  exists (ExecutorThread.mk_std_thread i timeout (core i) joinable), data. repeat split; try done.
  - unfold znth. rewrite bool_decide_eq_true_2 by lia. rewrite Ht, list_lookup_fmap. unfold range.
    rewrite lookup_seqZ_lt by lia. cbn. do 2 f_equal; [lia|f_equal; lia].
  - rewrite Forall_lookup in Hall. apply (Hall _ _ Hd).
  - rewrite Forall_lookup in Hall. apply (Hall _ _ Hd).
  - rewrite Forall_lookup in Hall. apply (Hall _ _ Hd).
  - intros. unfold ExecutorThread.thread_entry. cbn. by rewrite Hz.
Qed.

(** C31. The executor that is started as a process of its own (not in a docker container, whose command line
    has an option without its dashes) is the one that was asked for. For a parser with the documented
    behaviour and numbers that fit the types they are read with: the options the executor reads from the
    command line of the manager are the values of the request, the lease and the settings, each in its own
    place; if the process then sets up its threads there is one per leased core, the i-th thread runs the work
    loop on the i-th data with the timeout of the request, these data have the client's address and port and
    the manager's address, secret and accounting buffer, and the thread is bound to the i-th core from the
    requested one on, or all threads to the same one. *)
Theorem spawned_executor_configured (cx : Cxxopts) `{Env} addr request exec conn lease
    (s : unit) t affinity executors s' t' :
  CxxoptsLaws cx → ExecutorManager.use_docker exec = false → readable request exec conn lease →
  main affinity (ExecutorManager.executor_argv addr request exec conn lease) s t = Ok (executors, s', t') →
  opts (ExecutorManager.executor_argv addr request exec conn lease) =
  Ok (mk_Options addr (ar_listen_port request) 0 (ExecutorManager.l_cores lease)
        (ExecutorManager.recv_buffer_size exec) (ar_input_buf_size request) (ar_output_buf_size request)
        (ExecutorManager.repetitions exec) (ExecutorManager.warmup_iters exec) false
        (if ExecutorManager.pin_threads exec then 1 else 0) (ar_core_start_index request)
        (ExecutorManager.xs_max_inline_data exec) (ar_func_buf_size request) (ar_hot_timeout request)
        (ExecutorManager.mc_addr conn) (ExecutorManager.mc_port conn) (ExecutorManager.mc_secret conn)
        (ExecutorManager.mc_r_addr conn) (ExecutorManager.mc_r_key conn) THREAD WC) ∧
  length (ExecutorThread._threads executors) = Z.to_nat (ExecutorManager.l_cores lease) ∧
  length (ExecutorThread._threads_data executors) = Z.to_nat (ExecutorManager.l_cores lease) ∧
  ∀ i, 0 ≤ i < ExecutorManager.l_cores lease →
    runs executors addr (ar_listen_port request) conn (ar_hot_timeout request)
      (λ i, 4 + ar_core_start_index request + (if ExecutorManager.pin_threads exec then i else 0)) i.
Proof.
  intros Hl Hd Hr E. pose proof (opts_command_line cx addr request exec conn lease Hd Hr) as Ho.
  split; [exact Ho|]. unfold main in E. rewrite Ho in E. bind_inv E as o s1 t1 E1. injection E1 as <- <- <-.
  cbv zeta in E. bind_inv E as f s2 t2 E2. unfold ExecutorThread.executors_construct in E2.
  bind_inv E2 as l s3 t3 E3. run_inv_at E2. apply fast_executors_inv in E3 as [Hlen Hall]. cbn in Hlen, Hall.
  bind_inv E as f1 s4 t4 E4. apply on_object_Ok in E4 as [E4 ->].
  destruct (allocate_threads_inv _ _ _ _ _ _ _ _ _ _ _ _ E4 Hall) as (Hall1 & Hlen1 & Hth). cbn in Hlen1, Hth.
  apply on_object_Ok in E as [E ->]. unfold ExecutorThread.close in E. step_inv E.
  assert (∃ j, ExecutorThread._threads_data executors = ExecutorThread._threads_data f1 ∧
    ExecutorThread._threads executors = (λ i, ExecutorThread.mk_std_thread i (ar_hot_timeout request)
      (ExecutorThread.core_of (ExecutorManager.pin_threads exec) (ar_core_start_index request) i) j)
      <$> range (ExecutorManager.l_cores lease)) as (j & Hdata & Hthreads).
  { destruct (ExecutorThread._closing f1); run_inv_at E; [exists true|exists false; split; [done|]];
      cbn; rewrite Hth, <-?list_fmap_compose; by destruct (ExecutorManager.pin_threads exec). }
  split; [by rewrite Hthreads, length_fmap, length_range|]. split; [by rewrite Hdata, Hlen1, Hlen|].
  intros i Hi. apply (started_runs _ _ _ _ _ _ _ _ _ Hthreads); [by rewrite Hdata, Hlen1, Hlen| |done].
  rewrite Hdata. by destruct conn.
Qed.

(** Two cores from core 6 on. *)
Definition demo_request : AllocationRequest :=
  mk_AllocationRequest 4 2 2 (-1) 5 1 1024 2048 40000 10005 (strncpy 16 []).
Definition demo_settings : ExecutorManager.ExecutorSettings :=
  ExecutorManager.mk_ExecutorSettings false 10 1 32 128 true.
Definition demo_conn : ExecutorManager.ManagerConnection :=
  ExecutorManager.mk_ManagerConnection "10.0.0.2" 10006 13 (2 ^ 40) (2 ^ 31).

Lemma spawned_executor_configured_witness :
  ∃ executors t', @main reference_parser ideal_env unit (λ _, 0)
      (ExecutorManager.executor_argv "10.0.0.1" demo_request demo_settings demo_conn (ExecutorManager.mk_Lease 4 2 512))
      tt [] = Ok (executors, tt, t') ∧ length (ExecutorThread._threads executors) = 2%nat ∧
    @runs ideal_env executors "10.0.0.1" 10005 demo_conn (-1) (λ i, 6 + i) 1.
Proof.
  destruct (@main reference_parser ideal_env unit (λ _, 0)
    (ExecutorManager.executor_argv "10.0.0.1" demo_request demo_settings demo_conn (ExecutorManager.mk_Lease 4 2 512)) tt [])
    as [[[executors []] t']|] eqn:E; [|vm_compute in E; discriminate E].
  destruct (@spawned_executor_configured reference_parser ideal_env "10.0.0.1" demo_request demo_settings demo_conn
    (ExecutorManager.mk_Lease 4 2 512) tt [] (λ _, 0) executors tt t' reference_laws eq_refl
    ltac:(apply (bool_decide_unpack (readable demo_request demo_settings demo_conn (ExecutorManager.mk_Lease 4 2 512)));
          vm_compute; exact I) E) as (_ & Hlen & _ & Hruns).
  exists executors, t'. split; [reflexivity|]. split; [exact Hlen|]. apply (Hruns 1). cbn. lia.
Defined.
End ExecutorOptions.
