(* ===== verification/ClientConnection.v ===== *)
(** * The client's connections to the managers

    src/rfaas: the devices (devices.{hpp,cpp}), the list of servers (resources.cpp) and
    the connections of the client library to an executor manager and to the resource
    manager (connection.{hpp,cpp}).  What the managers write into the receive buffers is
    an argument: [statuses] and [responses], by slot. *)

From S2P Require Import Prelude Verbs PrivateData Buffer Queue Connection Messages ResourceDB Rdma.

Module ClientConnection.

(** ** Devices and servers *)

Record device_data := mk_device {
  dev_name : string; ip_address : string; dev_port : Z; max_inline_data : Z; default_receive_buffer_size : Z }.

(** [devices::device(name)] and [devices::front()]; [None] is a null pointer. *)
Definition device (name : string) (data : list device_data) : option device_data :=
  snd <$> list_find (λ d, dev_name d = name) data.
Definition front (data : list device_data) : option device_data := head data.

(** [servers(positions)], [server(idx)] and [size()]. *)
Definition servers (positions : Z) : list ResourceDB.server_data :=
  replicate (Z.to_nat positions) (ResourceDB.mk_server_data "" "" (-1) (-1) (-1)).
Definition server (idx : Z) (l : list ResourceDB.server_data) : result ResourceDB.server_data :=
  from_opt "server index out of bounds" (znth l idx).

(** ** The connection to an executor manager

    [x_request] is the request in the part of the buffer behind the responses. *)

Record manager_connection := mk_mgr {
  x_address : string; x_port : Z; x_rcv_buf_size : Z; x_max_inline_data : Z; x_active : Rdma.active;
  _allocation_buffer : Buffer.t; _poller : Rdma.Poller; x_request : option AllocationRequest }.

Definition set_x_active (a : Rdma.active) (c : manager_connection) : manager_connection :=
  mk_mgr (x_address c) (x_port c) (x_rcv_buf_size c) (x_max_inline_data c) a (_allocation_buffer c)
    (_poller c) (x_request c).
Definition set_allocation_buffer (b : Buffer.t) (c : manager_connection) : manager_connection :=
  mk_mgr (x_address c) (x_port c) (x_rcv_buf_size c) (x_max_inline_data c) (x_active c) b
    (_poller c) (x_request c).
Definition set_x_request (r : AllocationRequest) (c : manager_connection) : manager_connection :=
  mk_mgr (x_address c) (x_port c) (x_rcv_buf_size c) (x_max_inline_data c) (x_active c) (_allocation_buffer c)
    (_poller c) (Some r).

(** [(AllocationRequest) {-1, 0, 0, 0, 0, 0, 0, 0, 0, 0, ""}] *)
Definition goodbye_request : AllocationRequest :=
  mk_AllocationRequest (-1) 0 0 0 0 0 0 0 0 0 (strncpy ADDRESS_LENGTH []).

Section Manager.
Context `{Env} (statuses : trace → Z → Z).

(** Run an operation of an endpoint that is not part of the state. *)
Definition on_endpoint {S} (a : Rdma.active) (op : M Rdma.active unit) : M S Rdma.active := λ s t,
  match op a t with
  | Ok (_, a', t') => Ok (a', s, t')
  | Fault f => Fault f
  end.

(** [connection()] of an endpoint. *)
Definition endpoint_qp (a : Rdma.active) : result ibv_qp :=
  c ← from_opt "null connection" (Rdma._conn a); from_opt "null queue pair" (Connection._qp c).

Definition mgr_construct {S} (address : string) (port rcv_buf inline : Z) : M S manager_connection :=
  a ← Rdma.active_construct address port rcv_buf 0;
  b ← Buffer.allocate (sizeof_LeaseStatus * rcv_buf + sizeof_AllocationRequest) 1 0;
  a ← on_endpoint a Rdma.allocate;
  qp ← lift (endpoint_qp a);
  mret (mk_mgr address port rcv_buf inline a b (Rdma.mk_poller (qp_recv_cq qp) (qp_channel qp)) None).

Definition on_x_conn {A} (op : M Connection.t A) : M manager_connection A :=
  m ← read;
  c ← lift (from_opt "null connection" (Rdma._conn (x_active m)));
  zoom (λ _, c) (λ c m, set_x_active (Rdma.set_conn (Some c) (x_active m)) m) op.

Definition mgr_connect : M manager_connection bool :=
  ok ← zoom x_active set_x_active (Rdma.connect 0);
  if negb ok then mret false else
  m ← read;
  b ← Buffer.on_buffer (_allocation_buffer m) (Buffer.register_memory (Rdma._pd (x_active m))
        (Z.lor IBV_ACCESS_LOCAL_WRITE IBV_ACCESS_REMOTE_WRITE));
  modify (set_allocation_buffer b) ;;
  on_x_conn (Connection.receive_wcs (Queue.initialize b sizeof_LeaseStatus)) ;;
  mret ok.

(** The request is posted from its part of the buffer, then the send is awaited. *)
Definition post_request : M manager_connection unit :=
  m ← read;
  sges ← Buffer.add_range [] (_allocation_buffer m) sizeof_AllocationRequest
           (sizeof_LeaseStatus * x_rcv_buf_size m);
  on_x_conn (Connection.post_send sges (-1) false None) ;;
  on_x_conn (Connection.poll_wc Connection.SEND true (-1)) ;;
  mret tt.

Definition mgr_disconnect : M manager_connection unit :=
  m ← read;
  if Rdma._is_connected (x_active m) then
    modify (set_x_request goodbye_request) ;;
    post_request ;;
    zoom x_active set_x_active Rdma.disconnect
  else mret tt.

(** The slot of the response, [None] when the completion failed. *)
Definition poll_response : M manager_connection (option Z) :=
  m ← read;
  r ← Rdma.poller_poll (_poller m) true (-1);
  wcs ← lift (from_opt "null work completions" r.1);
  wc ← lift (from_opt "no work completion" (head wcs));
  mret (if nonzero (wc_status wc) then None else Some (wc_wr_id wc)).

Definition mgr_submit : M manager_connection bool :=
  post_request ;;
  slot ← poll_response;
  match slot with
  | None => mret false
  | Some slot =>
      status ← peek (λ t, statuses t slot);
      mret (status =? LeaseStatus.ALLOCATED)
  end.
End Manager.

(** ** The connection to the resource manager *)

Definition CLIENT_ID : Z := 2.

Record resource_mgr_connection := mk_res {
  r_address : string; r_port : Z; r_active : Rdma.active; r_rcv_buf_size : Z;
  r_send_buffer : Buffer.t; r_receive_buffer : Buffer.t; r_max_inline_data : Z;
  r_request : option LeaseRequest }.

Definition set_r_active (a : Rdma.active) (c : resource_mgr_connection) : resource_mgr_connection :=
  mk_res (r_address c) (r_port c) a (r_rcv_buf_size c) (r_send_buffer c) (r_receive_buffer c)
    (r_max_inline_data c) (r_request c).
Definition set_r_buffers (b b' : Buffer.t) (c : resource_mgr_connection) : resource_mgr_connection :=
  mk_res (r_address c) (r_port c) (r_active c) (r_rcv_buf_size c) b b' (r_max_inline_data c) (r_request c).
Definition set_r_request (r : LeaseRequest) (c : resource_mgr_connection) : resource_mgr_connection :=
  mk_res (r_address c) (r_port c) (r_active c) (r_rcv_buf_size c) (r_send_buffer c) (r_receive_buffer c)
    (r_max_inline_data c) (Some r).

Section ResourceManager.
Context `{Env}.

Definition res_construct {S} (address : string) (port rcv_buf inline : Z) : M S resource_mgr_connection :=
  a ← Rdma.active_construct address port rcv_buf 0;
  sb ← Buffer.allocate 1 sizeof_LeaseRequest 0;
  rb ← Buffer.allocate rcv_buf sizeof_LeaseResponse 0;
  a ← on_endpoint a Rdma.allocate;
  mret (mk_res address port a rcv_buf sb rb inline None).

Definition on_r_conn {A} (op : M Connection.t A) : M resource_mgr_connection A :=
  m ← read;
  c ← lift (from_opt "null connection" (Rdma._conn (r_active m)));
  zoom (λ _, c) (λ c m, set_r_active (Rdma.set_conn (Some c) (r_active m)) m) op.

(** [uint32_t secret = (CLIENT_ID << 24)] *)
Definition client_secret : Z := Z.shiftl CLIENT_ID 24.

Definition res_connect : M resource_mgr_connection bool :=
  ok ← zoom r_active set_r_active (Rdma.connect client_secret);
  if negb ok then mret false else
  m ← read;
  let pd := Rdma._pd (r_active m) in
  sb ← Buffer.on_buffer (r_send_buffer m) (Buffer.register_memory pd IBV_ACCESS_LOCAL_WRITE);
  rb ← Buffer.on_buffer (r_receive_buffer m) (Buffer.register_memory pd
         (Z.lor IBV_ACCESS_LOCAL_WRITE IBV_ACCESS_REMOTE_WRITE));
  modify (set_r_buffers sb rb) ;;
  on_r_conn (Connection.receive_wcs (Queue.initialize rb (-1))) ;;
  mret ok.

Definition res_submit : M resource_mgr_connection bool :=
  m ← read;
  sges ← Buffer.add_range [] (r_send_buffer m) sizeof_LeaseRequest 0;
  on_r_conn (Connection.post_send sges (-1) false None) ;;
  on_r_conn (Connection.poll_wc Connection.SEND true (-1)) ;;
  mret true.

Definition res_disconnect : M resource_mgr_connection unit :=
  m ← read;
  if Rdma._is_connected (r_active m) then
    modify (set_r_request (mk_LeaseRequest (-1) 0)) ;;
    res_submit ;;
    zoom r_active set_r_active Rdma.disconnect
  else mret tt.

Definition connected (c : resource_mgr_connection) : bool := Rdma._is_connected (r_active c).
End ResourceManager.

End ClientConnection.
