(* ===== verification/ClientExecutor.v ===== *)
(** * The client library's executor

    src/rfaas: [executor] (executor.{hpp,cpp}) is what a client holds of a lease: the
    connections to the executor threads, the pending invocations, the operations that
    submit functions and collect results; [client] (client.hpp) obtains it.

    Arguments stand for what is outside the process: [statuses] and [responses], what the
    managers write into the receive buffers; [infos], the buffers the executor threads
    announce; the library is its size and its function names.  A loop that waits follows
    at most the number of iterations it is given. *)

From S2P Require Import Prelude Verbs Buffer Queue Connection Messages ResourceDB Rdma Invocation ClientConnection.

Module ClientExecutor.
Import ClientConnection.

(** [conn] is a pointer to a connection of the listening endpoint. *)
Record executor_state := mk_executor_state { conn : Z; remote_input : Buffer.RemoteBuffer }.

(** An element of [_futures]: how many results are missing, and the value of the
    promise. *)
Record future := mk_future { f_left : Z; f_value : option Z }.

(** An element of [_callbacks]: how many results are missing, the function, the address
    of the output buffer. *)
Record callback := mk_callback { cb_left : Z; cb_function : Z; cb_out : Z }.

(** An element of [_callbacks2], which has a tag too. *)
Record callback2 := mk_callback2 { cb2_left : Z; cb2_function : Z; cb2_out : Z; cb2_tag : Z }.

(** [_context] is [None] while it has no value; [headers] is what was written at the
    start of input buffers, by address; [called] the calls of result functions: the
    function and its first two arguments; [_background_thread] tells whether the pointer
    to the thread that polls for results is set. *)
Record executor := mk_executor {
  e_state : Rdma.passive; _execs_buf : Buffer.t; _device : device_data; _numcores : Z; _memory : Z;
  _executions : Z; _invoc_id : Z; _lease_id : Z; _connections : list executor_state;
  _exec_manager : option manager_connection; _func_names : list string; _end_requested : bool;
  _active_polling : bool; _futures : gmap Z future; _callbacks : gmap Z callback;
  _callbacks2 : gmap Z callback2; _context : option Z;
  headers : gmap Z Buffer.RemoteBuffer; called : list (Z * Z * Z); _background_thread : bool }.

Definition set_state (x : Rdma.passive) (e : executor) : executor :=
  mk_executor x (_execs_buf e) (_device e) (_numcores e) (_memory e) (_executions e) (_invoc_id e)
    (_lease_id e) (_connections e) (_exec_manager e) (_func_names e) (_end_requested e)
    (_active_polling e) (_futures e) (_callbacks e) (_callbacks2 e) (_context e) (headers e) (called e) (_background_thread e).
Definition set_invoc_id (x : Z) (e : executor) : executor :=
  mk_executor (e_state e) (_execs_buf e) (_device e) (_numcores e) (_memory e) (_executions e) x
    (_lease_id e) (_connections e) (_exec_manager e) (_func_names e) (_end_requested e)
    (_active_polling e) (_futures e) (_callbacks e) (_callbacks2 e) (_context e) (headers e) (called e) (_background_thread e).
Definition set_connections (x : list executor_state) (e : executor) : executor :=
  mk_executor (e_state e) (_execs_buf e) (_device e) (_numcores e) (_memory e) (_executions e)
    (_invoc_id e) (_lease_id e) x (_exec_manager e) (_func_names e) (_end_requested e)
    (_active_polling e) (_futures e) (_callbacks e) (_callbacks2 e) (_context e) (headers e) (called e) (_background_thread e).
Definition set_exec_manager (x : option manager_connection) (e : executor) : executor :=
  mk_executor (e_state e) (_execs_buf e) (_device e) (_numcores e) (_memory e) (_executions e)
    (_invoc_id e) (_lease_id e) (_connections e) x (_func_names e) (_end_requested e)
    (_active_polling e) (_futures e) (_callbacks e) (_callbacks2 e) (_context e) (headers e) (called e) (_background_thread e).
Definition set_func_names (x : list string) (e : executor) : executor :=
  mk_executor (e_state e) (_execs_buf e) (_device e) (_numcores e) (_memory e) (_executions e)
    (_invoc_id e) (_lease_id e) (_connections e) (_exec_manager e) x (_end_requested e)
    (_active_polling e) (_futures e) (_callbacks e) (_callbacks2 e) (_context e) (headers e) (called e) (_background_thread e).
Definition set_end_requested (x : bool) (e : executor) : executor :=
  mk_executor (e_state e) (_execs_buf e) (_device e) (_numcores e) (_memory e) (_executions e)
    (_invoc_id e) (_lease_id e) (_connections e) (_exec_manager e) (_func_names e) x (_active_polling e)
    (_futures e) (_callbacks e) (_callbacks2 e) (_context e) (headers e) (called e) (_background_thread e).
Definition set_active_polling (x : bool) (e : executor) : executor :=
  mk_executor (e_state e) (_execs_buf e) (_device e) (_numcores e) (_memory e) (_executions e)
    (_invoc_id e) (_lease_id e) (_connections e) (_exec_manager e) (_func_names e) (_end_requested e) x
    (_futures e) (_callbacks e) (_callbacks2 e) (_context e) (headers e) (called e) (_background_thread e).
Definition set_futures (x : gmap Z future) (e : executor) : executor :=
  mk_executor (e_state e) (_execs_buf e) (_device e) (_numcores e) (_memory e) (_executions e)
    (_invoc_id e) (_lease_id e) (_connections e) (_exec_manager e) (_func_names e) (_end_requested e)
    (_active_polling e) x (_callbacks e) (_callbacks2 e) (_context e) (headers e) (called e) (_background_thread e).
Definition set_callbacks (x : gmap Z callback) (e : executor) : executor :=
  mk_executor (e_state e) (_execs_buf e) (_device e) (_numcores e) (_memory e) (_executions e)
    (_invoc_id e) (_lease_id e) (_connections e) (_exec_manager e) (_func_names e) (_end_requested e)
    (_active_polling e) (_futures e) x (_callbacks2 e) (_context e) (headers e) (called e) (_background_thread e).
Definition set_callbacks2 (x : gmap Z callback2) (e : executor) : executor :=
  mk_executor (e_state e) (_execs_buf e) (_device e) (_numcores e) (_memory e) (_executions e)
    (_invoc_id e) (_lease_id e) (_connections e) (_exec_manager e) (_func_names e) (_end_requested e)
    (_active_polling e) (_futures e) (_callbacks e) x (_context e) (headers e) (called e) (_background_thread e).
Definition set_context_ptr (x : option Z) (e : executor) : executor :=
  mk_executor (e_state e) (_execs_buf e) (_device e) (_numcores e) (_memory e) (_executions e)
    (_invoc_id e) (_lease_id e) (_connections e) (_exec_manager e) (_func_names e) (_end_requested e)
    (_active_polling e) (_futures e) (_callbacks e) (_callbacks2 e) x (headers e) (called e) (_background_thread e).
Definition set_headers (x : gmap Z Buffer.RemoteBuffer) (e : executor) : executor :=
  mk_executor (e_state e) (_execs_buf e) (_device e) (_numcores e) (_memory e) (_executions e)
    (_invoc_id e) (_lease_id e) (_connections e) (_exec_manager e) (_func_names e) (_end_requested e)
    (_active_polling e) (_futures e) (_callbacks e) (_callbacks2 e) (_context e) x (called e) (_background_thread e).
Definition set_called (x : list (Z * Z * Z)) (e : executor) : executor :=
  mk_executor (e_state e) (_execs_buf e) (_device e) (_numcores e) (_memory e) (_executions e)
    (_invoc_id e) (_lease_id e) (_connections e) (_exec_manager e) (_func_names e) (_end_requested e)
    (_active_polling e) (_futures e) (_callbacks e) (_callbacks2 e) (_context e) (headers e) x (_background_thread e).
Definition set_background_thread (x : bool) (e : executor) : executor :=
  mk_executor (e_state e) (_execs_buf e) (_device e) (_numcores e) (_memory e) (_executions e)
    (_invoc_id e) (_lease_id e) (_connections e) (_exec_manager e) (_func_names e) (_end_requested e)
    (_active_polling e) (_futures e) (_callbacks e) (_callbacks2 e) (_context e) (headers e) (called e) x.

Definition MAX_REMOTE_WORKERS : Z := 256.

Section Executor.
Context `{Env} (statuses : trace → Z → Z) (infos : trace → Z → Buffer.RemoteBuffer).

(** [_connections[i].conn->op(...)] *)
Definition the_connection (i : Z) : M executor executor_state :=
  e ← read; lift (from_opt "connection index out of bounds" (znth (_connections e) i)).

Definition on_conn {A} (i : Z) (op : M Connection.t A) : M executor A :=
  c ← the_connection i; zoom e_state set_state (Rdma.on_conn (conn c) op).

(** For all connections, in order. *)
Definition on_all (op : Z → M executor unit) : M executor unit :=
  e ← read; for_each (range (Z.of_nat (length (_connections e)))) op.

(** *** Submitting *)

(** The address and key of [out] are written at the start of [in]. *)
Definition write_header (inb out : Buffer.t) : M executor unit :=
  a ← Buffer.address out;
  k ← Buffer.rkey out;
  modify (λ e, set_headers (<[Buffer.ptr inb := Buffer.mk_remote a k 0]> (headers e)) e).

(** [post_write] of an input: the first [size] bytes, or all of them. *)
Definition post_input (i : Z) (inb : Buffer.t) (size code : Z) (solicited : bool) : M executor unit :=
  e ← read;
  c ← the_connection i;
  (if size =? -1 then
     sges ← Buffer.add [] inb;
     on_conn i (Connection.post_write_imm sges (remote_input c) code
       (Buffer.bytes inb <=? max_inline_data (_device e)) solicited)
   else
     sges ← Buffer.add_range [] inb (u32 size) 0;
     on_conn i (Connection.post_write_imm sges (remote_input c) code
       (size <=? max_inline_data (_device e)) solicited)) ;;
  mret tt.

Definition refill (i : Z) : M executor unit :=
  on_conn i (Connection.receive_wcs Queue.refill) ;; mret tt.

(** [++_invoc_id], back to 1 after 65535. *)
Definition next_invoc_id : M executor Z :=
  modify (λ e, set_invoc_id (Invocation.next_invoc (_invoc_id e)) e) ;; gets _invoc_id.

(** [async(fname, in, out, size)]: the number of the new future, [None] for an invalid
    one.  The counter is not brought back to 1 here. *)
Definition async (fname : string) (inb out : Buffer.t) (size : Z) : M executor (option Z) :=
  e ← read;
  match Invocation.func_index fname (_func_names e) with
  | None => mret None
  | Some func_idx =>
      write_header inb out ;;
      let invoc_id := _invoc_id e in
      modify (set_invoc_id (i32 (invoc_id + 1))) ;;
      modify (λ e, set_futures (<[invoc_id := mk_future 1 None]> (_futures e)) e) ;;
      post_input 0 inb size (Invocation.async_code invoc_id func_idx) true ;;
      refill 0 ;;
      mret (Some invoc_id)
  end.

(** [async(fname, in, out)] for vectors: one invocation on every connection. *)
Definition async_all (fname : string) (ins outs : list Buffer.t) : M executor (option Z) :=
  e ← read;
  match Invocation.func_index fname (_func_names e) with
  | None => mret None
  | Some func_idx =>
      invoc_id ← next_invoc_id;
      let numcores := Z.of_nat (length (_connections e)) in
      modify (λ e, set_futures (<[invoc_id := mk_future numcores None]> (_futures e)) e) ;;
      for_each (range numcores) (λ i,
        inb ← lift (from_opt "input index out of bounds" (znth ins i));
        out ← lift (from_opt "output index out of bounds" (znth outs i));
        write_header inb out ;;
        post_input i inb (-1) (Invocation.async_code invoc_id func_idx) true) ;;
      on_all refill ;;
      mret (Some invoc_id)
  end.

(** [async_callback(fname, in, out, callback, size)] *)
Definition async_callback (fname : string) (inb out : Buffer.t) (result_callback size : Z) : M executor unit :=
  e ← read;
  match Invocation.func_index fname (_func_names e) with
  | None => mret tt
  | Some func_idx =>
      write_header inb out ;;
      invoc_id ← next_invoc_id;
      modify (λ e, set_callbacks (<[invoc_id := mk_callback 1 result_callback (Buffer.ptr out)]> (_callbacks e)) e) ;;
      post_input 0 inb size (Invocation.async_code invoc_id func_idx) true ;;
      on_conn 0 (Connection.poll_wc Connection.SEND false (-1)) ;;
      refill 0
  end.

(** [async_callback(fname, in, out, para, callback, size)]: on the connection that [para]
    names. *)
Definition async_callback2 (fname : string) (inb out : Buffer.t) (para result_callback size : Z) :
    M executor unit :=
  e ← read;
  match Invocation.func_index fname (_func_names e) with
  | None => mret tt
  | Some func_idx =>
      write_header inb out ;;
      invoc_id ← next_invoc_id;
      modify (λ e, set_callbacks2
        (<[invoc_id := mk_callback2 1 result_callback (Buffer.ptr out) para]> (_callbacks2 e)) e) ;;
      post_input para inb size (Invocation.async_code invoc_id func_idx) true ;;
      on_conn para (Connection.poll_wc Connection.SEND false (-1)) ;;
      on_all refill
  end.

(** [stop_execute]: function index -1. *)
Definition stop_execute (fname : string) (inb out : Buffer.t) : M executor unit :=
  e ← read;
  match Invocation.func_index fname (_func_names e) with
  | None => mret tt
  | Some _ =>
      write_header inb out ;;
      invoc_id ← next_invoc_id;
      post_input 0 inb (-1) (Invocation.execute_code invoc_id (-1)) false ;;
      on_conn 0 (Connection.poll_wc Connection.SEND false (-1)) ;;
      mret tt
  end.

(** *** Collecting results *)

(** The word of a completion. *)
Definition word (wc : ibv_wc) : Z := ntohl (wc_imm_data wc).

(** A result for a future: [_futures.find(id)], [if(!--count) set_value(...)].  The
    answer tells whether the promise was fulfilled. *)
Definition settle (val : Z) : M executor bool :=
  let id := Invocation.finished_invoc_id val in
  e ← read;
  f ← lift (from_opt "unknown invocation" (_futures e !! id));
  let left := f_left f - 1 in
  if left =? 0 then
    match f_value f with
    | Some _ => raise (Throw "promise_already_satisfied")
    | None =>
        modify (λ e, set_futures (<[id := mk_future left (Some (Invocation.return_val val))]> (_futures e)) e) ;;
        mret true
    end
  else
    modify (λ e, set_futures (<[id := mk_future left (f_value f)]> (_futures e)) e) ;; mret false.

(** The same for the callbacks; the second kind gets the number of the invocation and
    the context. *)
Definition settle_callback (val : Z) : M executor bool :=
  let id := Invocation.finished_invoc_id val in
  e ← read;
  c ← lift (from_opt "unknown invocation" (_callbacks e !! id));
  let left := cb_left c - 1 in
  modify (λ e, set_callbacks (<[id := mk_callback left (cb_function c) (cb_out c)]> (_callbacks e)) e) ;;
  if left =? 0 then
    modify (λ e, set_called (called e ++ [(cb_function c, Invocation.return_val val, cb_out c)]) e) ;; mret true
  else mret false.

Definition settle_callback2 (val : Z) : M executor bool :=
  let id := Invocation.finished_invoc_id val in
  e ← read;
  c ← lift (from_opt "unknown invocation" (_callbacks2 e !! id));
  let left := cb2_left c - 1 in
  modify (λ e, set_callbacks2
    (<[id := mk_callback2 left (cb2_function c) (cb2_out c) (cb2_tag c)]> (_callbacks2 e)) e) ;;
  if left =? 0 then
    context ← lift (from_opt "context without a value" (_context e));
    modify (λ e, set_called (called e ++ [(cb2_function c, id, context)]) e) ;; mret true
  else mret false.

Definition poll_receive (i : Z) (blocking : bool) : M executor (list ibv_wc) :=
  r ← on_conn i (Connection.receive_wcs (Queue.poll blocking)); mret (Queue.polled r).

(** [block()] *)
Definition block : M executor bool :=
  on_conn 0 (Connection.poll_wc Connection.SEND true (-1)) ;;
  r ← on_conn 0 (Connection.receive_wcs (Queue.poll true));
  wcs ← lift (from_opt "null work completions" r.1);
  wc ← lift (from_opt "no work completion" (head wcs));
  mret (Invocation.return_val (word wc) =? 0).

(** One poll of [execute]: the results of other invocations are settled; the last
    completion with the number that is waited for gives the result. *)
Fixpoint collect (invoc_id : Z) (wcs : list ibv_wc) (found : option (Z * Z)) : M executor (option (Z * Z)) :=
  match wcs with
  | [] => mret found
  | wc :: wcs =>
      if Invocation.finished_invoc_id (word wc) =? invoc_id then
        collect invoc_id wcs (Some (Invocation.return_val (word wc), i32 (wc_byte_len wc)))
      else settle (word wc) ;; collect invoc_id wcs found
  end.

Fixpoint await_result (fuel : nat) (invoc_id : Z) : M executor (Z * Z) :=
  match fuel with
  | O => raise StillRunning
  | S fuel =>
      wcs ← poll_receive 0 true;
      found ← collect invoc_id wcs None;
      match found with
      | None => await_result fuel invoc_id
      | Some r =>
          modify (set_active_polling false) ;;
          wcs ← poll_receive 0 false;
          for_each wcs (λ wc, settle (word wc) ;; mret tt) ;;
          mret r
      end
  end.

(** [execute(fname, in, out)] *)
Definition execute (fuel : nat) (fname : string) (inb out : Buffer.t) : M executor (bool * Z) :=
  e ← read;
  match Invocation.func_index fname (_func_names e) with
  | None => mret (false, 0)
  | Some func_idx =>
      write_header inb out ;;
      invoc_id ← next_invoc_id;
      post_input 0 inb (-1) (Invocation.execute_code invoc_id func_idx) false ;;
      modify (set_active_polling true) ;;
      refill 0 ;;
      r ← await_result fuel invoc_id;
      on_conn 0 (Connection.poll_wc Connection.SEND false (-1)) ;;
      mret (if r.1 =? 0 then (true, r.2) else (false, 0))
  end.

(** [while(expected) { ...; expected -= count; }] for the sends, then for the results. *)
Fixpoint await_sends (fuel : nat) (expected : Z) : M executor unit :=
  match fuel with
  | O => raise StillRunning
  | S fuel =>
      if expected =? 0 then mret tt else
      r ← on_conn 0 (Connection.poll_wc Connection.SEND true (-1));
      await_sends fuel (expected - r.2)
  end.

Fixpoint await_all (fuel : nat) (expected : Z) (correct : bool) : M executor bool :=
  match fuel with
  | O => raise StillRunning
  | S fuel =>
      if expected =? 0 then mret correct else
      r ← on_conn 0 (Connection.receive_wcs (Queue.poll true));
      await_all fuel (expected - r.2)
        (foldl (λ c wc, c && (Invocation.return_val (word wc) =? 0)) correct (Queue.polled r))
  end.

Definition update_requests (i change : Z) : M executor unit :=
  on_conn i (Connection.receive_wcs (Queue.update_requests change)).

(** [execute(fname, in, out)] for vectors. *)
Definition execute_all (fuel : nat) (fname : string) (ins outs : list Buffer.t) : M executor bool :=
  e ← read;
  match Invocation.func_index fname (_func_names e) with
  | None => mret false
  | Some func_idx =>
      invoc_id ← next_invoc_id;
      let numcores := Z.of_nat (length (_connections e)) in
      for_each (range numcores) (λ i,
        inb ← lift (from_opt "input index out of bounds" (znth ins i));
        out ← lift (from_opt "output index out of bounds" (znth outs i));
        write_header inb out ;;
        post_input i inb (-1) (Invocation.execute_code invoc_id func_idx) false) ;;
      on_all refill ;;
      await_sends fuel numcores ;;
      modify (set_active_polling true) ;;
      correct ← await_all fuel numcores true;
      modify (set_active_polling false) ;;
      update_requests 0 (numcores - 1) ;;
      for_each (seqZ 1 (numcores - 1)) (λ i, update_requests i (-1)) ;;
      mret correct
  end.

(** *** The background thread

    [allocate] has its start in a comment, so it leaves [_background_thread] as it is; whoever
    calls [poll_queue] is the thread. *)

(** The requests of the other connections are taken off connection 0. *)
Definition balance : M executor unit :=
  e ← read;
  let n := Z.of_nat (length (_connections e)) in
  update_requests 0 (n - 1) ;;
  for_each (seqZ 1 (n - 1)) (λ _, update_requests 0 (-1)).

(** An event is there. *)
Definition handle_event (settle_one : Z → M executor bool) : M executor unit :=
  cq ← on_conn 0 Connection.wait_events;
  on_conn 0 (Connection.notify_events true) ;;
  on_conn 0 (Connection.ack_events cq 1) ;;
  wcs ← poll_receive 0 false;
  for_each wcs (λ wc, done ← settle_one (word wc); when done balance) ;;
  on_all (λ i, on_conn i (Connection.poll_wc Connection.SEND false (-1)) ;; mret tt).

(** The loop.  A wake-up of [poll] is its return value and whether the main thread has
    set [_end_requested] by then. *)
Fixpoint poll_loop (settle_one : Z → M executor bool) (wakeups : list (Z * bool)) : M executor unit :=
  e ← read;
  if _end_requested e || bool_decide (_connections e = []) then mret tt else
  match wakeups with
  | [] => raise StillRunning
  | (rc, ended) :: wakeups =>
      when ended (modify (set_end_requested true)) ;;
      if ended then mret tt
      else if rc =? 0 then poll_loop settle_one wakeups
      else if rc <? 0 then mret tt
      else handle_event settle_one ;; poll_loop settle_one wakeups
  end.

(** [poll_queue()] and [poll_queue_callback()]; [fcntl_rc] is the answer when the channel
    is made non-blocking. *)
Definition poll_queue_with (settle_one : Z → M executor bool) (fcntl_rc : Z) (wakeups : list (Z * bool)) :
    M executor unit :=
  on_conn 0 (Connection.notify_events true) ;;
  if fcntl_rc <? 0 then mret tt else poll_loop settle_one wakeups.

Definition poll_queue : Z → list (Z * bool) → M executor unit := poll_queue_with settle.
Definition poll_queue_callback : Z → list (Z * bool) → M executor unit := poll_queue_with settle_callback.

(** [poll_queue_once] polls connection 0, [poll_queue_once2] the one it is given. *)
Definition poll_once (settle_one : Z → M executor bool) (from cid : Z) : M executor unit :=
  e ← read;
  if _end_requested e then mret tt else
  wcs ← poll_receive from false;
  for_each wcs (λ wc, settle_one (word wc) ;; mret tt) ;;
  on_conn cid (Connection.poll_wc Connection.SEND false (-1)) ;;
  refill cid.

Definition poll_queue_once (cid : Z) : M executor unit := poll_once settle_callback 0 cid.
Definition poll_queue_once2 (cid : Z) : M executor unit := poll_once settle_callback2 cid cid.

(** *** Life cycle *)

(** The constructor. *)
Definition executor_construct (address : string) (port numcores memory lease_id : Z) (dev : device_data) :
    M unit executor :=
  st ← Rdma.passive_construct (ip_address dev) (dev_port dev) (default_receive_buffer_size dev + 1) true 0;
  b ← Buffer.allocate MAX_REMOTE_WORKERS sizeof_BufferInformation 0;
  b ← Buffer.on_buffer b (Buffer.register_memory (Rdma.p_pd st)
        (Z.lor IBV_ACCESS_LOCAL_WRITE IBV_ACCESS_REMOTE_WRITE));
  st ← (λ s t, match Rdma.register_shared_queue 0 true st t with
               | Ok (_, st', t') => Ok (st', s, t')
               | Fault f => Fault f
               end);
  mc ← mgr_construct address port (default_receive_buffer_size dev) (max_inline_data dev);
  mret (mk_executor st b dev numcores memory 0 0 lease_id [] (Some mc) [] false false ∅ ∅ ∅ (Some 0) ∅ [] false).

(** The move constructor: the new executor has no callbacks and no context; the old one
    keeps its callbacks. *)
Definition executor_move (obj : executor) : executor * executor :=
  (mk_executor (Rdma.passive_move (e_state obj)).1 (Buffer.move_construct (_execs_buf obj)).1 (_device obj)
     (_numcores obj) (_memory obj) (_executions obj) (_invoc_id obj) (_lease_id obj) (_connections obj)
     (_exec_manager obj) (_func_names obj) (_end_requested obj) (_active_polling obj) (_futures obj) ∅ ∅ None
     (headers obj) (called obj) (_background_thread obj),
   mk_executor (Rdma.passive_move (e_state obj)).2 (Buffer.move_construct (_execs_buf obj)).2 (_device obj)
     (_numcores obj) (_memory obj) (_executions obj) (_invoc_id obj) (_lease_id obj) []
     None [] false false ∅ (_callbacks obj) (_callbacks2 obj) (_context obj) (headers obj) (called obj) false).

Definition set_context (context : Z) : M executor unit :=
  e ← read;
  c ← lift (from_opt "context without a value" (_context e));
  assert_ (c =? 0) "_context == NULL" ;;
  modify (set_context_ptr (Some context)).

(** [_exec_manager->op(...)] *)
Definition on_manager {A} (op : M manager_connection A) : M executor A :=
  e ← read;
  mc ← lift (from_opt "null manager connection" (_exec_manager e));
  zoom (λ _, mc) (λ mc e, set_exec_manager (Some mc) e) op.

(** [deallocate()]: the background thread, if there is one, is joined. *)
Definition deallocate : M executor unit :=
  e ← read;
  match _exec_manager e with
  | None => mret tt
  | Some _ =>
      modify (set_end_requested true) ;;
      modify (set_background_thread false) ;;
      on_manager mgr_disconnect ;;
      e ← read;
      mc ← lift (from_opt "null manager connection" (_exec_manager e));
      Buffer.destroy (_allocation_buffer mc) ;;
      on_manager (zoom x_active set_x_active Rdma.active_destroy) ;;
      modify (set_exec_manager None) ;;
      modify (λ e, set_state (Rdma.set_cqs 0 0 (e_state e)) e) ;;
      for_each (_connections e) (λ c, zoom e_state set_state (Rdma.delete_conn (conn c))) ;;
      modify (set_connections [])
  end.

(** The destructor: [deallocate()], then the members that own something. *)
Definition executor_destroy : M executor unit :=
  deallocate ;;
  e ← read;
  Buffer.destroy (_execs_buf e) ;;
  zoom e_state set_state Rdma.passive_destroy.

(** [load_library]: a library of [len] bytes with the given function names. *)
Definition load_library (len : Z) (symbols : list string) : M executor Buffer.t :=
  b ← Buffer.allocate len 1 0;
  e ← read;
  b ← Buffer.on_buffer b (Buffer.register_memory (Rdma.p_pd (e_state e)) IBV_ACCESS_LOCAL_WRITE);
  modify (set_func_names (Invocation.sort_names symbols)) ;;
  mret b.

(** The request of [allocate]; [strcpy] writes past an address field that is too
    short. *)
Definition allocation_request (e : executor) (functions : Buffer.t)
    (max_input_size max_output_size hot_timeout cores core_start_index : Z) : result AllocationRequest :=
  let addr := String.list_ascii_of_string (ip_address (_device e)) in
  if bool_decide (length addr < ADDRESS_LENGTH)%nat then
    Ok (mk_AllocationRequest (i32 (_lease_id e)) (i16 cores) (i16 core_start_index) (i16 hot_timeout) 5 1
          max_input_size max_output_size (Buffer.data_size functions) (Rdma.listen_port (e_state e))
          (strncpy ADDRESS_LENGTH addr))
  else Fault (Undefined "listen_address overflow").

(** Waiting for the executor threads to connect. *)
Fixpoint accept_threads (fuel : nat) (functions : Buffer.t) (requested established : Z) : M executor unit :=
  match fuel with
  | O => raise StillRunning
  | S fuel =>
      e ← read;
      if established <? _numcores e then
        ev ← zoom e_state set_state Rdma.poll_events;
        match ev.2 with
        | Connection.REQUESTED =>
            c ← lift (from_opt "null connection" ev.1);
            modify (λ e, set_connections (_connections e ++ [mk_executor_state c (Buffer.mk_remote 0 0 0)]) e) ;;
            sges ← Buffer.sge (_execs_buf e) sizeof_BufferInformation (requested * sizeof_BufferInformation);
            zoom e_state set_state (Rdma.on_conn c (Connection.post_recv sges requested 1)) ;;
            zoom e_state set_state (Rdma.on_conn c (Connection.receive_wcs Queue.refill)) ;;
            zoom e_state set_state (Rdma.accept c) ;;
            accept_threads fuel functions (requested + 1) established
        | Connection.ESTABLISHED =>
            c ← lift (from_opt "null connection" ev.1);
            sges ← Buffer.add [] functions;
            zoom e_state set_state (Rdma.on_conn c (Connection.post_send sges (-1) false None)) ;;
            accept_threads fuel functions requested (established + 1)
        | _ => accept_threads fuel functions requested established
        end
      else mret tt
  end.

(** The buffer a thread announced. *)
Definition receive_info (wc : ibv_wc) : M executor unit :=
  let id := i32 (wc_wr_id wc) in
  info ← peek (λ t, infos t id);
  e ← read;
  (if bool_decide (0 ≤ id < MAX_REMOTE_WORKERS) then mret tt
   else raise (Undefined "buffer information out of bounds")) ;;
  c ← lift (from_opt "connection index out of bounds" (znth (_connections e) id));
  l ← lift (from_opt "connection index out of bounds"
              (zset (_connections e) id (mk_executor_state (conn c) info)));
  modify (set_connections l).

Fixpoint receive_infos (fuel : nat) (received : Z) : M executor unit :=
  match fuel with
  | O => raise StillRunning
  | S fuel =>
      e ← read;
      if received <? _numcores e then
        r ← on_conn 0 (Connection.poll_wc Connection.RECV true (-1));
        for_each (Queue.polled r) receive_info ;;
        receive_infos fuel (received + r.2)
      else mret tt
  end.

Fixpoint code_sent (fuel : nat) (received : Z) : M executor unit :=
  match fuel with
  | O => raise StillRunning
  | S fuel =>
      e ← read;
      if received <? _numcores e then
        r ← on_conn 0 (Connection.poll_wc Connection.SEND true (-1));
        code_sent fuel (received + r.2)
      else mret tt
  end.

Definition allocate (fuel : nat) (len : Z) (symbols : list string)
    (max_input_size max_output_size hot_timeout cores core_start_index : Z) (skip_manager : bool) : M executor bool :=
  functions ← load_library len symbols;
  ok ← (if skip_manager then mret true else
          ok ← on_manager mgr_connect;
          if negb ok then mret false else
          e ← read;
          req ← lift (allocation_request e functions max_input_size max_output_size hot_timeout cores core_start_index);
          on_manager (modify (set_x_request req)) ;;
          on_manager (mgr_submit statuses));
  if negb ok then Buffer.destroy functions ;; mret false else
  accept_threads fuel functions 0 0 ;;
  receive_infos fuel 0 ;;
  modify (set_active_polling false) ;;
  on_conn 0 (Connection.notify_events true) ;;
  code_sent fuel 0 ;;
  Buffer.destroy functions ;;
  mret true.
End Executor.

(** ** The client *)

Record client := mk_client { _resource_mgr : resource_mgr_connection; c_device : device_data }.

Definition set_resource_mgr (r : resource_mgr_connection) (c : client) : client := mk_client r (c_device c).

Section Client.
Context `{Env} (responses : trace → Z → LeaseResponse).

Definition client_construct {S} (address : string) (port : Z) (dev : device_data) : M S client :=
  r ← res_construct address port (default_receive_buffer_size dev) (max_inline_data dev);
  mret (mk_client r dev).

Definition connect : M client bool := zoom _resource_mgr set_resource_mgr res_connect.
Definition disconnect : M client unit := zoom _resource_mgr set_resource_mgr res_disconnect.

(** [lease(cores, memory, dev)]: the node's address and port and the lease's number, with
    which the executor is constructed. *)
Definition lease (cores memory : Z) : M client (option (string * Z * Z)) :=
  c ← read;
  if negb (connected (_resource_mgr c)) then mret None else
  zoom _resource_mgr set_resource_mgr (modify (set_r_request (mk_LeaseRequest (i16 cores) (i32 memory)))) ;;
  zoom _resource_mgr set_resource_mgr res_submit ;;
  r ← zoom _resource_mgr set_resource_mgr (on_r_conn (Connection.poll_wc Connection.RECV true (-1)));
  wcs ← lift (from_opt "null work completions" r.1);
  wc ← lift (from_opt "no work completion" (head wcs));
  if i32 (ntohl (wc_imm_data wc)) =? 0 then mret None else
  resp ← peek (λ t, responses t (i32 (wc_wr_id wc)));
  addr ← lift (from_opt "unterminated address" (c_str (resp_address resp)));
  mret (Some (String.string_of_list_ascii addr, resp_port resp, resp_lease_id resp)).

(** [lease(nodes, cores, memory)]: the first server, with the lease number -1. *)
Definition lease_static (nodes : list ResourceDB.server_data) : M client (option (string * Z * Z)) :=
  match nodes with
  | [] => mret None
  | _ =>
      s ← lift (server 0 nodes);
      mret (Some (ResourceDB.s_address s, ResourceDB.s_port s, -1))
  end.
End Client.

(** ** Promises

    The specification of the futures: for every invocation number, how many results were
    expected when it was submitted, and the results received since, oldest first. *)

Abbreviation promises := (gmap Z (Z * list Z)).

(** What the executor stores of an entry: the number of missing results and, once the
    last expected one has arrived, its value. *)
Definition stored (p : Z * list Z) : future := mk_future (p.1 - Z.of_nat (length p.2)) (znth p.2 (p.1 - 1)).

Inductive promise_result : promises → promises → Prop :=
  | promise_received sp id n got v :
      sp !! id = Some (n, got) → promise_result sp (<[id := (n, got ++ [v])]> sp).

(** A call opens at most one number, then results arrive. *)
Definition opened (new : option (Z * Z)) (sp : promises) : promises :=
  match new with Some (id, n) => <[id := (n, [])]> sp | None => sp end.

Inductive promise_run : promises → list (option (Z * Z)) → promises → Prop :=
  | promise_start sp : promise_run sp [] sp
  | promise_call sp new sp1 news sp2 :
      rtc promise_result (opened new sp) sp1 → promise_run sp1 news sp2 →
      promise_run sp (new :: news) sp2.

(** The executor holds what the specification says. *)
Definition holds (sp : promises) (e : executor) : Prop := _futures e = stored <$> sp.

(** Every run of the operation is one of the specification: a call that opens [new]. *)
Definition calls {A} (new : executor → A → option (Z * Z)) (op : M executor A) : Prop :=
  ∀ sp e t r e' t', holds sp e → op e t = Ok (r, e', t') →
    ∃ sp', rtc promise_result (opened (new e r) sp) sp' ∧ holds sp' e'.

(** An operation that opens nothing. *)
Definition refines {A} (op : M executor A) : Prop := calls (λ _ _, None) op.

Lemma stored_result n got v :
  stored (n, got ++ [v]) =
  mk_future (n - Z.of_nat (length got) - 1)
    (if n - Z.of_nat (length got) - 1 =? 0 then Some v else znth got (n - 1)).
Proof.
  unfold stored. cbn [fst snd]. rewrite length_app. cbn [length]. f_equal; [lia|].
  unfold znth. destruct (Z.eqb_spec (n - Z.of_nat (length got) - 1) 0).
  - rewrite bool_decide_eq_true_2 by lia. apply list_lookup_middle. lia.
  - case_bool_decide; [|done]. destruct (decide (Z.to_nat (n - 1) < length got)%nat).
    + by rewrite lookup_app_l.
    + rewrite !lookup_ge_None_2 by (rewrite ?length_app; cbn [length]; lia). done.
Qed.

Lemma stored_missing n got : n - Z.of_nat (length got) - 1 = 0 → f_value (stored (n, got)) = None.
Proof.
  intros E. unfold stored, znth. cbn [fst snd f_value]. case_bool_decide; [|done].
  apply lookup_ge_None_2. lia.
Qed.

Section Promises.
Context `{Env} (statuses : trace → Z → Z) (infos : trace → Z → Buffer.RemoteBuffer).

(** A result for a known number is recorded; the promise is fulfilled by the last one
    expected, and never twice. *)
Lemma settle_known sp e t val n got :
  holds sp e → sp !! Invocation.finished_invoc_id val = Some (n, got) →
  ∃ e', settle val e t = Ok (n =? Z.of_nat (length got) + 1, e', t) ∧
    holds (<[Invocation.finished_invoc_id val := (n, got ++ [Invocation.return_val val])]> sp) e'.
Proof using.
  intros Hh Hsp. unfold settle, holds in *.
  assert (_futures e !! Invocation.finished_invoc_id val = Some (stored (n, got))) as Hf
    by (by rewrite Hh, lookup_fmap, Hsp).
  run. rewrite Hf. cbn [f_left stored fst snd].
  rewrite fmap_insert, stored_result.
  destruct (Z.eqb_spec (n - Z.of_nat (length got) - 1) 0) as [E|E].
  - rewrite (stored_missing n got E). eexists. split.
    + rewrite (proj2 (Z.eqb_eq n _)) by lia. reflexivity.
    + cbn. rewrite Hh. by rewrite E.
  - eexists. split.
    + rewrite (proj2 (Z.eqb_neq n _)) by lia. reflexivity.
    + cbn. by rewrite Hh.
Qed.

Lemma settle_unknown sp e t val :
  holds sp e → sp !! Invocation.finished_invoc_id val = None →
  settle val e t = Fault (Undefined "unknown invocation").
Proof using.
  intros Hh Hsp. unfold settle, holds in *. run. by rewrite Hh, lookup_fmap, Hsp.
Qed.

Lemma refines_settle val : refines (settle val).
Proof using.
  intros sp e t r e' t' Hh E.
  destruct (sp !! Invocation.finished_invoc_id val) as [[n got]|] eqn:Hsp.
  - destruct (settle_known sp e t val n got Hh Hsp) as (e1 & E1 & H1). rewrite E1 in E. injection E as <- <- <-.
    eexists. split; [|exact H1]. apply rtc_once. by constructor.
  - by rewrite (settle_unknown sp e t val Hh Hsp) in E.
Qed.

Lemma refines_frames {A} (op : M executor A) : frames _futures op → refines op.
Proof using.
  intros Hf sp e t r e' t' Hh E. exists sp. split; [done|]. unfold holds. by rewrite (Hf _ _ _ _ _ E).
Qed.

Lemma refines_bind {A B} (op : M executor A) (k : A → M executor B) :
  refines op → (∀ a, refines (k a)) → refines (op ≫= k).
Proof using.
  intros Ho Hk sp e t r e' t' Hh E. bind_inv E as a e1 t1 E1.
  destruct (Ho _ _ _ _ _ _ Hh E1) as (sp1 & Hs1 & Hh1).
  destruct (Hk _ _ _ _ _ _ _ Hh1 E) as (sp2 & Hs2 & Hh2). exists sp2. split; [by etrans|done].
Qed.

Lemma refines_for_each {A} (l : list A) (body : A → M executor unit) :
  (∀ a, refines (body a)) → refines (for_each l body).
Proof using.
  intros Hb. induction l as [|a l IH]; cbn [for_each]; [apply refines_frames, frames_ret|].
  by apply refines_bind.
Qed.

Lemma holds_open sp e id n :
  holds sp e → holds (opened (Some (id, n)) sp) (set_futures (<[id := mk_future n None]> (_futures e)) e).
Proof using.
  unfold holds. intros Hh. cbn. rewrite fmap_insert, Hh. do 2 f_equal.
  unfold stored, znth. cbn [fst snd length]. f_equal; [lia|]. by case_bool_decide.
Qed.

(** An operation that opens a number and leaves the other futures alone. *)
Lemma calls_open {A} (new : executor → A → option (Z * Z)) (op : M executor A) :
  (∀ e t r e' t', op e t = Ok (r, e', t') →
     _futures e' = match new e r with
                   | Some (id, n) => <[id := mk_future n None]> (_futures e)
                   | None => _futures e
                   end) → calls new op.
Proof using.
  intros Hop sp e t r e' t' Hh E. exists (opened (new e r) sp). split; [done|]. unfold holds in *.
  rewrite (Hop _ _ _ _ _ E). destruct (new e r) as [[id n]|]; [|done]. apply (holds_open sp e id n Hh).
Qed.

(** *** The operations that leave the futures alone *)

Lemma futures_on_conn {A} i (op : M Connection.t A) : frames _futures (on_conn i op).
Proof using. unfold on_conn, the_connection. frame. Qed.

#[local] Hint Resolve futures_on_conn : rfaas.

Lemma futures_on_all op : (∀ i, frames _futures (op i)) → frames _futures (on_all op).
Proof using. intros Ho. unfold on_all. frame. Qed.

Lemma futures_write_header inb out : frames _futures (write_header inb out).
Proof using. unfold write_header, Buffer.rkey. frame. Qed.

Lemma futures_post_input i inb size code sol : frames _futures (post_input i inb size code sol).
Proof using. unfold post_input, the_connection. frame. Qed.

Lemma futures_refill i : frames _futures (refill i).
Proof using. unfold refill. frame. Qed.

Lemma futures_next_invoc_id : frames _futures next_invoc_id.
Proof using. unfold next_invoc_id. frame. Qed.

#[local] Hint Resolve futures_on_all futures_write_header futures_post_input futures_refill
  futures_next_invoc_id : rfaas.

Lemma futures_poll_receive i b : frames _futures (poll_receive i b).
Proof using. unfold poll_receive. frame. Qed.

Lemma futures_balance : frames _futures balance.
Proof using. unfold balance, update_requests. frame. Qed.

Lemma futures_block : frames _futures block.
Proof using. unfold block. frame. Qed.

Lemma futures_await_sends fuel expected : frames _futures (await_sends fuel expected).
Proof using. revert expected. induction fuel as [|fuel IH]; intros expected; cbn [await_sends]; frame. Qed.

Lemma futures_await_all fuel expected correct : frames _futures (await_all fuel expected correct).
Proof using.
  revert expected correct. induction fuel as [|fuel IH]; intros expected correct; cbn [await_all]; frame.
Qed.

#[local] Hint Resolve futures_poll_receive futures_balance futures_await_sends futures_await_all : rfaas.
#[local] Hint Extern 2 (frames _ (match ?x with _ => _ end)) => destruct x : rfaas.

Lemma futures_execute_all fuel fname ins outs : frames _futures (execute_all fuel fname ins outs).
Proof using. unfold execute_all, update_requests. auto 40 with rfaas. Qed.

Lemma futures_async_callback fname inb out cb size : frames _futures (async_callback fname inb out cb size).
Proof using. unfold async_callback. auto 30 with rfaas. Qed.

Lemma futures_async_callback2 fname inb out para cb size :
  frames _futures (async_callback2 fname inb out para cb size).
Proof using. unfold async_callback2. auto 30 with rfaas. Qed.

Lemma futures_stop_execute fname inb out : frames _futures (stop_execute fname inb out).
Proof using. unfold stop_execute. auto 30 with rfaas. Qed.

Lemma futures_settle_callback val : frames _futures (settle_callback val).
Proof using. unfold settle_callback. auto 30 with rfaas. Qed.

Lemma futures_settle_callback2 val : frames _futures (settle_callback2 val).
Proof using. unfold settle_callback2. auto 30 with rfaas. Qed.

#[local] Hint Resolve futures_settle_callback futures_settle_callback2 : rfaas.

Lemma futures_poll_once settle_one from cid :
  (∀ val, frames _futures (settle_one val)) → frames _futures (poll_once settle_one from cid).
Proof using. intros Hs. unfold poll_once. auto 30 with rfaas. Qed.

Lemma futures_set_context c : frames _futures (set_context c).
Proof using. unfold set_context. frame. Qed.

Lemma futures_on_manager {A} (op : M manager_connection A) : frames _futures (on_manager op).
Proof using. unfold on_manager. frame. Qed.

#[local] Hint Resolve futures_on_manager : rfaas.

Lemma futures_deallocate : frames _futures deallocate.
Proof using. unfold deallocate. auto 30 with rfaas. Qed.

Lemma futures_accept_threads fuel functions requested established :
  frames _futures (accept_threads fuel functions requested established).
Proof using.
  revert requested established. induction fuel as [|fuel IH]; intros requested established;
    cbn [accept_threads]; auto 30 with rfaas.
Qed.

Lemma futures_receive_infos fuel received : frames _futures (receive_infos infos fuel received).
Proof using.
  revert received. induction fuel as [|fuel IH]; intros received; cbn [receive_infos];
    unfold receive_info; auto 30 with rfaas.
Qed.

Lemma futures_code_sent fuel received : frames _futures (code_sent fuel received).
Proof using. revert received. induction fuel as [|fuel IH]; intros received; cbn [code_sent]; auto 30 with rfaas. Qed.

#[local] Hint Resolve futures_accept_threads futures_receive_infos futures_code_sent : rfaas.

Lemma futures_allocate fuel len symbols mi mo hot cores start skip :
  frames _futures (allocate statuses infos fuel len symbols mi mo hot cores start skip).
Proof using. unfold allocate, load_library. auto 40 with rfaas. Qed.

(** *** The operations that change them *)

#[local] Hint Resolve refines_frames refines_settle refines_bind refines_for_each : rfaas.
#[local] Hint Extern 2 (refines (_ ≫= _)) => apply refines_bind; [|intros ?] : rfaas.
#[local] Hint Extern 2 (refines (match ?x with _ => _ end)) => destruct x : rfaas.
#[local] Hint Extern 2 (refines (when ?b _)) => destruct b; unfold when : rfaas.

(** The submissions: the number and the count of results they open. *)
Definition new_future (_ : executor) (r : option Z) : option (Z * Z) := (λ id, (id, 1)) <$> r.
Definition new_futures (e : executor) (r : option Z) : option (Z * Z) :=
  (λ id, (id, Z.of_nat (length (_connections e)))) <$> r.

Lemma futures_async fname inb out size e t r e' t' :
  async fname inb out size e t = Ok (r, e', t') →
  _futures e' = match new_future e r with
                | Some (id, n) => <[id := mk_future n None]> (_futures e)
                | None => _futures e
                end.
Proof using.
  unfold async, new_future. intros E. step_inv E.
  destruct (Invocation.func_index fname _) as [idx|]; [|by run_inv_at E].
  bind_inv E as ? e1 t1 E1. apply futures_write_header in E1. do 2 step_inv E.
  bind_inv E as ? e2 t2 E2. apply futures_post_input in E2.
  bind_inv E as ? e3 t3 E3. apply futures_refill in E3. run_inv_at E. cbn. by rewrite E3, E2, <-E1.
Qed.

Lemma calls_async fname inb out size : calls new_future (async fname inb out size).
Proof using. apply calls_open. apply futures_async. Qed.

Lemma futures_async_all fname ins outs e t r e' t' :
  async_all fname ins outs e t = Ok (r, e', t') →
  _futures e' = match new_futures e r with
                | Some (id, n) => <[id := mk_future n None]> (_futures e)
                | None => _futures e
                end.
Proof using.
  unfold async_all, new_futures. intros E. step_inv E.
  destruct (Invocation.func_index fname _) as [idx|]; [|by run_inv_at E].
  bind_inv E as id e1 t1 E1. apply futures_next_invoc_id in E1. step_inv E.
  bind_inv E as ? e2 t2 E2.
  apply (frames_for_each _futures) in E2; [|auto 20 with rfaas].
  bind_inv E as ? e3 t3 E3. apply (futures_on_all refill futures_refill) in E3.
  run_inv_at E. cbn. by rewrite E3, E2, <-E1.
Qed.

Lemma calls_async_all fname ins outs : calls new_futures (async_all fname ins outs).
Proof using. apply calls_open, futures_async_all. Qed.

Lemma refines_collect invoc_id wcs found : refines (collect invoc_id wcs found).
Proof using. revert found. induction wcs as [|wc wcs IH]; intros found; cbn [collect]; auto 20 with rfaas. Qed.

#[local] Hint Resolve refines_collect : rfaas.

Lemma refines_await_result fuel invoc_id : refines (await_result fuel invoc_id).
Proof using. induction fuel as [|fuel IH]; cbn [await_result]; auto 20 with rfaas. Qed.

#[local] Hint Resolve refines_await_result : rfaas.

Lemma refines_execute fuel fname inb out : refines (execute fuel fname inb out).
Proof using. unfold execute. auto 40 with rfaas. Qed.

Lemma refines_poll_loop settle_one wakeups :
  (∀ val, refines (settle_one val)) → refines (poll_loop settle_one wakeups).
Proof using.
  intros Hs. induction wakeups as [|[rc ended] wakeups IH]; cbn [poll_loop];
    unfold handle_event; auto 40 with rfaas.
Qed.

(** What a client may call, and what the call opens. *)
Inductive client_op : ∀ {A}, M executor A → (executor → A → option (Z * Z)) → Prop :=
  | op_async fname inb out size : client_op (async fname inb out size) new_future
  | op_async_all fname ins outs : client_op (async_all fname ins outs) new_futures
  | op_async_callback fname inb out cb size : client_op (async_callback fname inb out cb size) (λ _ _, None)
  | op_async_callback2 fname inb out para cb size :
      client_op (async_callback2 fname inb out para cb size) (λ _ _, None)
  | op_stop_execute fname inb out : client_op (stop_execute fname inb out) (λ _ _, None)
  | op_block : client_op block (λ _ _, None)
  | op_execute fuel fname inb out : client_op (execute fuel fname inb out) (λ _ _, None)
  | op_execute_all fuel fname ins outs : client_op (execute_all fuel fname ins outs) (λ _ _, None)
  | op_poll_queue rc wakeups : client_op (poll_queue rc wakeups) (λ _ _, None)
  | op_poll_queue_callback rc wakeups : client_op (poll_queue_callback rc wakeups) (λ _ _, None)
  | op_poll_queue_once cid : client_op (poll_queue_once cid) (λ _ _, None)
  | op_poll_queue_once2 cid : client_op (poll_queue_once2 cid) (λ _ _, None)
  | op_set_context c : client_op (set_context c) (λ _ _, None)
  | op_allocate fuel len symbols mi mo hot cores start skip :
      client_op (allocate statuses infos fuel len symbols mi mo hot cores start skip) (λ _ _, None)
  | op_deallocate : client_op deallocate (λ _ _, None).

(** Calls that returned, with what they opened. *)
Inductive client_run : executor → trace → list (option (Z * Z)) → executor → trace → Prop :=
  | run_start e t : client_run e t [] e t
  | run_call {A} (op : M executor A) new r e t e1 t1 news e2 t2 :
      client_op op new → op e t = Ok (r, e1, t1) → client_run e1 t1 news e2 t2 →
      client_run e t (new e r :: news) e2 t2.

#[local] Hint Resolve refines_poll_loop futures_block futures_execute_all futures_async_callback
  futures_async_callback2 futures_stop_execute futures_poll_once futures_set_context futures_allocate
  futures_deallocate refines_execute : rfaas.

Lemma calls_client_op {A} (op : M executor A) new : client_op op new → calls new op.
Proof using.
  destruct 1; [apply calls_async|apply calls_async_all|..];
    unfold poll_queue, poll_queue_callback, poll_queue_once, poll_queue_once2, poll_queue_with;
    match goal with |- calls _ ?op => change (refines op) end; auto 20 with rfaas.
Qed.

Lemma client_run_promises e t news e' t' sp :
  client_run e t news e' t' → holds sp e → ∃ sp', promise_run sp news sp' ∧ holds sp' e'.
Proof using.
  intros Hr. revert sp. induction Hr as [e t|A op new r e t e1 t1 news e2 t2 Hop E _ IH]; intros sp Hh.
  { exists sp. split; [constructor|done]. }
  destruct (calls_client_op op new Hop sp _ _ _ _ _ Hh E) as (sp1 & H1 & Hh1).
  destruct (IH sp1 Hh1) as (sp2 & H2 & Hh2). exists sp2. split; [by econstructor|done].
Qed.

(** C10. The futures implement promises. Whatever a client calls on an executor that
    starts without futures, what it stores is at any time the image of a run of the
    specification, in which the submissions open the numbers they return, with the count of
    results they wait for, and results are appended to open numbers: a future of [n]
    results has the value of the [n]-th result received once there is one, no value
    before, and later results do not change it. A result for an open number is always
    accepted, a second fulfilment never occurs, and the only result the code does not
    survive is one for a number that was never opened. *)
Theorem futures_refine_promises e t news e' t' :
  client_run e t news e' t' → _futures e = ∅ →
  ∃ sp, promise_run ∅ news sp ∧
    (∀ id, _futures e' !! id =
       (λ p, mk_future (p.1 - Z.of_nat (length p.2)) (znth p.2 (p.1 - 1))) <$> sp !! id) ∧
    ∀ val u, match sp !! Invocation.finished_invoc_id val with
             | Some (n, got) => ∃ e'', settle val e' u = Ok (n =? Z.of_nat (length got) + 1, e'', u) ∧
                 _futures e'' !! Invocation.finished_invoc_id val =
                   Some (stored (n, got ++ [Invocation.return_val val]))
             | None => settle val e' u = Fault (Undefined "unknown invocation")
             end.
Proof using.
  intros Hr He.
  destruct (client_run_promises _ _ _ _ _ ∅ Hr) as (sp & Hs & Hh); [by unfold holds; rewrite fmap_empty|].
  exists sp. split; [done|]. split; [intros id; rewrite Hh; apply lookup_fmap|].
  intros val u. destruct (sp !! Invocation.finished_invoc_id val) as [[n got]|] eqn:E.
  - destruct (settle_known sp e' u val n got Hh E) as (e'' & E' & H''). exists e''. split; [done|].
    rewrite H'', lookup_fmap, lookup_insert_eq. done.
  - by eapply settle_unknown.
Qed.
End Promises.


(** ** The count of posted receives *)

Section Balance.
Context `{Env}.

(** [shift i k e]: the receive queue of connection [i] counts [k] more requests. *)
Definition shift (ptr : Z) (c : Connection.t) (k : Z) (e : executor) : executor :=
  set_state (Rdma.set_store (<[ptr := Connection.set_rcv_wcs
    (Queue.set_requests (Queue._requests (Connection._rcv_wcs c) + k) (Connection._rcv_wcs c)) c]>
    (Rdma.p_store (e_state e))) (e_state e)) e.

Lemma update_requests_shift i st c j k e t :
  znth (_connections e) i = Some st → Rdma.p_store (e_state e) !! conn st = Some c →
  update_requests i k (shift (conn st) c j e) t = Ok (tt, shift (conn st) c (j + k) e, t).
Proof using.
  intros Hi Hc. unfold update_requests, on_conn, the_connection, Rdma.on_conn, Connection.receive_wcs,
    Queue.update_requests. run. cbn [_connections shift set_state]. rewrite Hi. run. unfold shift.
  cbn [e_state set_state Rdma.p_store Rdma.set_store]. rewrite lookup_insert_eq. cbn.
  rewrite insert_insert_eq, Z.add_assoc. done.
Qed.

Lemma shift_zero st c e : Rdma.p_store (e_state e) !! conn st = Some c → shift (conn st) c 0 e = e.
Proof using.
  intros Hc. unfold shift. rewrite Z.add_0_r.
  replace (Connection.set_rcv_wcs _ c) with c by (destruct c as [? ? ? ? ? ? ? ? q ?]; by destruct q).
  rewrite insert_id by done. destruct e as [p]. by destruct p.
Qed.

Lemma take_off l st c j e t :
  znth (_connections e) 0 = Some st → Rdma.p_store (e_state e) !! conn st = Some c →
  for_each (l : list Z) (λ _, update_requests 0 (-1)) (shift (conn st) c j e) t =
  Ok (tt, shift (conn st) c (j - Z.of_nat (length l)) e, t).
Proof using.
  intros Hi Hc. revert j. induction l as [|x l IH]; intros j; cbn [for_each length].
  - by rewrite Z.sub_0_r.
  - rewrite (bind_run _ _ _ _ _ _ _ (update_requests_shift 0 st c j (-1) e t Hi Hc)), IH. do 4 f_equal. lia.
Qed.

(** The background thread does not balance the receive queues. The results of all
    threads are polled from connection 0; the code means to credit connection 0 with the
    requests of the others and to debit those, as [execute] does, but it debits connection 0
    too: the whole step is equivalent to doing nothing, whatever the number of connections. *)
Theorem balance_does_nothing e t st c :
  znth (_connections e) 0 = Some st → Rdma.p_store (e_state e) !! conn st = Some c →
  balance e t = (mret tt : M executor unit) e t.
Proof using.
  intros Hi Hc. unfold balance. set (n := Z.of_nat (length (_connections e))).
  pose proof (update_requests_shift 0 st c 0 (n - 1) e t Hi Hc) as E. rewrite (shift_zero st c e Hc) in E.
  rewrite (bind_run read _ _ _ _ _ _ eq_refl). cbv zeta. fold n. rewrite (bind_run _ _ _ _ _ _ _ E).
  rewrite (take_off _ st c _ e t Hi Hc), length_seqZ.
  assert (1 ≤ n) by (apply znth_lt in Hi; unfold n; lia).
  replace (0 + (n - 1) - Z.of_nat (Z.to_nat (n - 1))) with 0 by lia. by rewrite (shift_zero st c e Hc).
Qed.
End Balance.

(** ** Examples

    An executor with [n] threads, connected under the pointers 1 to [n], whose counter of
    invocations is [id] and whose lease is [lease]. *)

Definition demo_connection : Connection.t := Connection.initialize some_id (Connection.construct 32 true).

Definition demo_executor (n id lease : Z) : executor :=
  mk_executor
    (Rdma.mk_passive (Rdma.mk_addr 1 10000) 1 (Some some_id) 9 33 0 70 71 ∅ ∅
       (list_to_map ((λ i, (i, demo_connection)) <$> seqZ 1 n)) (n + 1) ∅)
    (Buffer.mk 256 0 3072 12 4096 (Some (mk_mr 1 4096 11 12)) true)
    (mk_device "mlx5" "10.0.0.1" 10000 128 32) n 512 0 id lease
    ((λ i, mk_executor_state i (Buffer.mk_remote (8192 * i) 44 0)) <$> seqZ 1 n)
    None ["empty"; "resize"]%string false false ∅ ∅ ∅ (Some 0) ∅ [] false.

Definition demo_input : Buffer.t := Buffer.mk 20 12 32 1 16384 (Some (mk_mr 2 16384 21 22)) true.
Definition demo_output : Buffer.t := Buffer.mk 64 0 64 1 32768 (Some (mk_mr 3 32768 31 32)) true.

Lemma balance_does_nothing_witness : balance (demo_executor 3 0 3) [] = Ok (tt, demo_executor 3 0 3, []).
Proof.
  exact (balance_does_nothing (demo_executor 3 0 3) [] (mk_executor_state 1 (Buffer.mk_remote 8192 44 0))
           demo_connection eq_refl eq_refl).
Defined.

(** Two submissions: one on connection 0, one on both connections. *)
Definition demo_run : option (executor * trace * option Z * executor * trace * option Z) :=
  match @async ideal_env "empty" demo_input demo_output (-1) (demo_executor 2 0 3) [] with
  | Ok (r1, e1, t1) =>
      match @async_all ideal_env "resize" [demo_input; demo_input] [demo_output; demo_output] e1 t1 with
      | Ok (r2, e2, t2) => Some (e1, t1, r1, e2, t2, r2)
      | Fault _ => None
      end
  | Fault _ => None
  end.


Lemma futures_refine_promises_witness :
  ∃ e1 t1 e2 t2 sp, demo_run = Some (e1, t1, Some 0, e2, t2, Some 2) ∧
    promise_run ∅ [Some (0, 1); Some (2, 2)] sp ∧
    ∀ id, _futures e2 !! id =
      (λ p, mk_future (p.1 - Z.of_nat (length p.2)) (znth p.2 (p.1 - 1))) <$> sp !! id.
Proof.
  destruct demo_run as [[[[[[e1 t1] r1] e2] t2] r2]|] eqn:E; [|vm_compute in E; discriminate E].
  assert (r1 = Some 0 ∧ r2 = Some 2) as [-> ->] by (vm_compute in E; injection E as <- <- <- <- <- <-; done).
  exists e1, t1, e2, t2. unfold demo_run in E.
  destruct (@async ideal_env "empty" demo_input demo_output (-1) (demo_executor 2 0 3) []) as [[[r1 e1'] t1']|] eqn:E1;
    [|discriminate E].
  destruct (@async_all ideal_env "resize" [demo_input; demo_input] [demo_output; demo_output] e1' t1')
    as [[[r2 e2'] t2']|] eqn:E2; [|discriminate E].
  injection E as -> -> -> -> -> ->.
  assert (new_futures e1 (Some 2) = Some (2, 2)) as Hn
    by (vm_compute in E1; injection E1 as <- <-; reflexivity).
  destruct (@futures_refine_promises ideal_env (λ _ _, 0) (λ _ _, Buffer.mk_remote 0 0 0)
    (demo_executor 2 0 3) [] [Some (0, 1); Some (2, 2)] e2 t2) as (sp & Hs & Hf & _).
  - apply (run_call _ _ (@async ideal_env "empty" demo_input demo_output (-1)) new_future (Some 0) _ _ e1 t1); [constructor|exact E1|]. rewrite <-Hn.
    apply (run_call _ _ (@async_all ideal_env "resize" [demo_input; demo_input] [demo_output; demo_output])
             new_futures (Some 2) _ _ e2 t2); [constructor|exact E2|]. constructor.
  - reflexivity.
  - exists sp. split; [reflexivity|]. split; [exact Hs|exact Hf].
Defined.

End ClientExecutor.
