(* ===== verification/System.v ===== *)
(** * Client, managers and executor together

    What the client library (ClientConnection.v, ClientExecutor.v) sends is what the executor
    (ExecutorThread.v) and the executor manager (ExecutorManager.v) read, and what comes back
    reaches the invocation it belongs to. *)

From S2P Require Import Prelude Verbs Buffer Queue Connection Messages ResourceDB Rdma ExecutorManager Invocation ExecutorThread ClientConnection ClientExecutor.

Module System.
Import ClientExecutor.

(** ** What the client posts

    [ExecutorThread.results] are the words of the writes with an immediate value, oldest
    first. *)

Abbreviation words := ExecutorThread.results.

Section Words.
Context `{Env}.

Lemma the_connection_inv i e t c e' t' :
  the_connection i e t = Ok (c, e', t') → znth (_connections e) i = Some c ∧ e' = e ∧ t' = t.
Proof using. unfold the_connection. intros E. run_inv. by apply from_opt_Ok in E. Qed.

(** The operation writes no word. *)
Definition wordless {A} (op : M executor A) : Prop :=
  ∀ e t a e' t', op e t = Ok (a, e', t') → words t' = words t.

Lemma wordless_emits {A} (op : M executor A) : emits ExecutorThread.no_result op → wordless op.
Proof using.
  intros He e t a e' t' (u & -> & Hu)%He. apply ExecutorThread.no_result_silent in Hu as (Hr & _).
  by rewrite ExecutorThread.results_app, Hr, app_nil_r.
Qed.

Lemma wordless_on_conn {A} i (op : M Connection.t A) : emits not_send op → wordless (on_conn i op).
Proof using.
  intros Ho. apply wordless_emits, ExecutorThread.no_result_not_send. unfold on_conn, the_connection.
  apply emits_bind; [auto with rfaas|]. intros c. by apply emits_zoom, Rdma.emits_on_conn.
Qed.

Lemma write_word i sges r code inl sol e t n e' t' :
  on_conn i (Connection.post_write_imm sges r code inl sol) e t = Ok (n, e', t') →
  words t' = words t ++ [u32 code].
Proof using.
  unfold on_conn. intros E. bind_inv E as c e1 t1 E1.
  apply the_connection_inv in E1 as (_ & -> & ->). run_inv_at E.
  apply Rdma.on_conn_inv in E as (c1 & c2 & _ & E & _). by apply ExecutorThread.write_answers in E as [E _].
Qed.

Lemma wordless_bind {A B} (op : M executor A) (k : A → M executor B) :
  wordless op → (∀ a, wordless (k a)) → wordless (op ≫= k).
Proof using. intros Ho Hk e t b e' t' E. bind_inv E as a e1 t1 E1. apply Ho in E1. apply Hk in E. congruence. Qed.

Lemma wordless_write_header inb out : wordless (write_header inb out).
Proof using.
  apply wordless_emits. unfold write_header, Buffer.address, Buffer.rkey, Buffer.with_mr. auto 10 with rfaas.
Qed.

Lemma wordless_refill i : wordless (refill i).
Proof using.
  apply wordless_bind; [apply wordless_on_conn, emits_zoom, Rdma.silent_refill|].
  intros a. apply wordless_emits. auto with rfaas.
Qed.

Lemma wordless_next_invoc_id : wordless next_invoc_id.
Proof using. apply wordless_emits. unfold next_invoc_id. auto with rfaas. Qed.

(** A submission writes its word. *)
Lemma post_input_word i inb size code sol e t u e' t' :
  post_input i inb size code sol e t = Ok (u, e', t') → words t' = words t ++ [u32 code].
Proof using.
  unfold post_input. intros E. step_inv E. bind_inv E as c e0 t0 E0. apply the_connection_inv in E0 as (_ & -> & ->).
  bind_inv E as n e1 t1 E1. run_inv_at E.
  assert (∀ l b, emits ExecutorThread.no_result (Buffer.add l b : M executor _)) as Ha.
  { intros. unfold Buffer.add, Buffer.address, Buffer.lkey, Buffer.with_mr. auto 10 with rfaas. }
  assert (∀ l b n o, emits ExecutorThread.no_result (Buffer.add_range l b n o : M executor _)) as Hr.
  { intros. unfold Buffer.add_range, Buffer.address, Buffer.lkey, Buffer.with_mr. auto 10 with rfaas. }
  destruct (size =? -1); bind_inv E1 as sges e2 t2 E2.
  - apply (wordless_emits _ (Ha _ _)) in E2. apply write_word in E1. congruence.
  - apply (wordless_emits _ (Hr _ _ _ _)) in E2. apply write_word in E1. congruence.
Qed.

(** [async] returns the counter, opens the future of that number and writes one word. *)
Lemma async_inv fname inb out size e t id e' t' :
  async fname inb out size e t = Ok (Some id, e', t') →
  id = _invoc_id e ∧ _futures e' = <[id := mk_future 1 None]> (_futures e) ∧
  ∃ idx, Invocation.func_index fname (_func_names e) = Some idx ∧
    words t' = words t ++ [Invocation.async_code id idx].
Proof using.
  intros E. assert (_futures e' = <[id := mk_future 1 None]> (_futures e)) as Hf.
  { by rewrite (futures_async fname inb out size _ _ _ _ _ E). }
  unfold async in E. step_inv E. destruct (Invocation.func_index fname (_func_names e)) as [idx|]; [|discriminate E].
  bind_inv E as ? e1 t1 E1. apply wordless_write_header in E1. do 2 step_inv E.
  bind_inv E as ? e2 t2 E2. apply post_input_word in E2.
  bind_inv E as ? e3 t3 E3. apply wordless_refill in E3. run_inv_at E.
  split; [done|]. split; [done|]. exists idx. split; [done|].
  rewrite E3, E2, E1. unfold Invocation.async_code. by rewrite wrap_wrap by lia.
Qed.
End Words.

(** ** From the submission to the future *)

(** The word with which the executor answers the word [w]. *)
Definition reply (w : Z) : Z := Invocation.result_code (Invocation.invoc_id (Invocation.info (htonl w))).

Lemma reply_number i f wc : 0 ≤ f < 2 ^ 15 → wc_imm_data wc = htonl (reply (Invocation.async_code i f)) →
  Invocation.finished_invoc_id (word wc) = u16 i.
Proof. intros Hf Hwc. unfold word. rewrite Hwc. by apply Invocation.answer_number. Qed.

Lemma reply_value i f wc : 0 ≤ f < 2 ^ 15 → wc_imm_data wc = htonl (reply (Invocation.async_code i f)) →
  Invocation.return_val (word wc) = 0.
Proof. intros Hf Hwc. unfold word. rewrite Hwc. by apply Invocation.answer_value. Qed.

(** What the client relies on: serving an invocation that arrived, if it returns, calls the function whose
    number it carries once and writes the reply to its word. *)
Class Replies (addr : string → Z) (serve : ibv_wc → M ExecutorThread.Thread unit) : Prop :=
  replies : ∀ wc w name s t u s' t', wc_imm_data wc = htonl w → wc_status wc = IBV_WC_SUCCESS →
    ExecutorThread.table_ok addr (ExecutorThread.t_functions s) →
    znth (ExecutorThread._names (ExecutorThread.t_functions s))
      (Invocation.func_id (Invocation.info (wc_imm_data wc))) = Some name →
    serve wc s t = Ok (u, s', t') →
    words t' = words t ++ [reply w] ∧
    ExecutorThread.invoked t' = ExecutorThread.invoked t ++ [addr name] ∧
    ExecutorThread.table_ok addr (ExecutorThread.t_functions s') ∧
    ExecutorThread._names (ExecutorThread.t_functions s') = ExecutorThread._names (ExecutorThread.t_functions s).

(** A thread serves it as the only completion of a poll, in warm or in hot polling. *)
Inductive serving `{Env} (header : trace → Buffer.RemoteBuffer) :
    (ibv_wc → M ExecutorThread.Thread unit) → Prop :=
  | serving_warm : serving header (λ wc, ExecutorThread.warm_completions header [wc])
  | serving_hot fuel start :
      serving header (λ wc, ExecutorThread.hot_completions header fuel [wc] 1 0 start ;; mret tt).

Lemma serving_replies `{Env} addr header serve :
  (∀ tr name, env_dlsym tr name = addr name) → serving header serve → Replies addr serve.
Proof.
  intros Hd Hs wc w name s t u s' t' Hwc Hst Hok Hn E.
  assert (ExecutorThread.serves_one wc s t s' t') as [Ht Hc].
  { destruct Hs as [|fuel start]; [by apply ExecutorThread.warm_serves_one in E|].
    bind_inv E as r s1 t1 E1. run_inv_at E. by apply ExecutorThread.hot_serves_one in E1. }
  split; [|by apply Hc]. change (words t') with (ExecutorThread.results t'). rewrite Ht.
  unfold ExecutorThread.answer, reply. by rewrite Hwc.
Qed.

(** A result for a number whose future waits for one result. *)
Lemma settle_last e t val :
  _futures e !! Invocation.finished_invoc_id val = Some (mk_future 1 None) →
  ∃ e', settle val e t = Ok (true, e', t) ∧
    _futures e' !! Invocation.finished_invoc_id val = Some (mk_future 0 (Some (Invocation.return_val val))).
Proof.
  intros Hf. unfold settle. run. rewrite Hf. cbn. eexists. split; [reflexivity|]. apply lookup_insert_eq.
Qed.

(** A result changes the future of its number only. *)
Lemma settle_other e t val b e' t' id :
  settle val e t = Ok (b, e', t') → id ≠ Invocation.finished_invoc_id val → _futures e' !! id = _futures e !! id.
Proof.
  unfold settle. intros E Hne. run_inv. destruct (_ - 1 =? 0).
  - destruct (f_value _); run_inv; cbn; by apply lookup_insert_ne.
  - run_inv; cbn; by apply lookup_insert_ne.
Qed.

(** The client's side of an invocation, for any executor that replies. *)
Lemma async_comes_back `{Env, !Replies addr serve} fname inb out size e t id e' t' :
  async fname inb out size e t = Ok (Some id, e', t') → 0 ≤ id < 2 ^ 16 →
  Z.of_nat (length (_func_names e)) ≤ 2 ^ 15 →
  ∃ w, words t' = words t ++ [w] ∧
    ∀ s u s' u' wc, wc_imm_data wc = htonl w → wc_status wc = IBV_WC_SUCCESS →
      ExecutorThread._names (ExecutorThread.t_functions s) = _func_names e →
      ExecutorThread.table_ok addr (ExecutorThread.t_functions s) →
      serve wc s u = Ok (tt, s', u') →
      ExecutorThread.invoked u' = ExecutorThread.invoked u ++ [addr fname] ∧
      ExecutorThread.table_ok addr (ExecutorThread.t_functions s') ∧
      ∃ w', words u' = words u ++ [w'] ∧
        ∀ wc' e1 t1, wc_imm_data wc' = htonl w' → _futures e1 !! id = Some (mk_future 1 None) →
          ∃ e2, settle (word wc') e1 t1 = Ok (true, e2, t1) ∧
                _futures e2 !! id = Some (mk_future 0 (Some 0)).
Proof.
  intros E Hid Hlen. apply async_inv in E as (_ & Hf & idx & Hidx & Hw).
  apply Invocation.func_index_Some in Hidx as [Hr Hn].
  exists (Invocation.async_code id idx). split; [done|]. intros s u s' u' wc Hwc Hst Hnames Hok Ht.
  destruct (replies wc _ fname s u tt s' u' Hwc Hst Hok) as (Hw' & Hc & Hok' & _); [|done|].
  { rewrite Hnames, Hwc, Invocation.async_func_id by lia. exact Hn. }
  split; [done|]. split; [done|]. exists (reply (Invocation.async_code id idx)). split; [done|].
  intros wc' e1 t1 Hwc' Hf1.
  pose proof (reply_number id idx wc' ltac:(lia) Hwc') as Hfin. rewrite (wrap_small 16 id Hid) in Hfin.
  rewrite <-Hfin in Hf1 |- *. apply (settle_last e1 t1) in Hf1.
  by rewrite (reply_value id idx wc' ltac:(lia) Hwc') in Hf1.
Qed.

(** C9. An asynchronous invocation comes back, if both sides get to run. While the counter is below 65536
    and the library has at most 32768 functions: [async] opens a future and writes one word; an executor
    thread that polls it as its only completion, in warm or in hot polling, and has the client's function
    names and a table of addresses that are those of its names, calls the address of the function that was
    named, once, and nothing else, keeps its table right and, if it returns, has written one word; and when
    the client handles that word while the future of that number still waits for its one result, it fulfils
    the future [async] returned, with the value 0. The address of a function is what [dlsym] answers for its
    name, always the same. *)
Theorem invocation_end_to_end (client thread : Env) addr header serve fname inb out size e t id e' t' :
  (∀ tr name, @env_dlsym thread tr name = addr name) → @serving thread header serve →
  @async client fname inb out size e t = Ok (Some id, e', t') → 0 ≤ id < 2 ^ 16 →
  Z.of_nat (length (_func_names e)) ≤ 2 ^ 15 →
  _futures e' !! id = Some (mk_future 1 None) ∧
  ∃ w, words t' = words t ++ [w] ∧
    ∀ s u s' u' wc, wc_imm_data wc = htonl w → wc_status wc = IBV_WC_SUCCESS →
      ExecutorThread._names (ExecutorThread.t_functions s) = _func_names e →
      ExecutorThread.table_ok addr (ExecutorThread.t_functions s) →
      serve wc s u = Ok (tt, s', u') →
      ExecutorThread.invoked u' = ExecutorThread.invoked u ++ [addr fname] ∧
      ExecutorThread.table_ok addr (ExecutorThread.t_functions s') ∧
      ∃ w', words u' = words u ++ [w'] ∧
        ∀ wc' e1 t1, wc_imm_data wc' = htonl w' → _futures e1 !! id = Some (mk_future 1 None) →
          ∃ e2, settle (word wc') e1 t1 = Ok (true, e2, t1) ∧
                _futures e2 !! id = Some (mk_future 0 (Some 0)).
Proof.
  intros Hd Hs E Hid Hlen. apply (serving_replies addr) in Hs; [|done].
  split; [|exact (async_comes_back fname inb out size e t id e' t' E Hid Hlen)].
  apply async_inv in E as (_ & -> & _). apply lookup_insert_eq.
Qed.

(** A future past the 65535th is never fulfilled. [async] counts on without bound while
    the word carries 16 bits of the number: from 65536 on the answer is taken for one to the
    number modulo 65536, and the future that was returned stays without a value. *)
Theorem async_number_overflow (client : Env) fname inb out size e t id e' t' :
  @async client fname inb out size e t = Ok (Some id, e', t') → 2 ^ 16 ≤ id →
  Z.of_nat (length (_func_names e)) ≤ 2 ^ 15 →
  ∃ w, words t' = words t ++ [w] ∧
    ∀ wc' e1 t1 b e2 t2, wc_imm_data wc' = htonl (reply w) → _futures e1 !! id = Some (mk_future 1 None) →
      settle (word wc') e1 t1 = Ok (b, e2, t2) →
      is_Some (_futures e1 !! (id mod 2 ^ 16)) ∧ _futures e2 !! id = Some (mk_future 1 None).
Proof.
  intros E Hid Hlen. apply async_inv in E as (_ & Hf & idx & Hidx & Hw).
  apply Invocation.func_index_Some in Hidx as [Hr Hn].
  exists (Invocation.async_code id idx). split; [done|]. intros wc' e1 t1 b e2 t2 Hwc' Hf1 E.
  pose proof (reply_number id idx wc' ltac:(lia) Hwc') as Hfin.
  change (u16 id) with (id mod 2 ^ 16) in Hfin. split.
  - rewrite <-Hfin. unfold settle in E. step_inv E. bind_inv E as f e3 t3 E3. run_inv_at E3.
    apply from_opt_Ok in E3. eauto.
  - rewrite <-Hf1. eapply settle_other; [exact E|]. rewrite Hfin.
    pose proof (Z.mod_pos_bound id (2 ^ 16) ltac:(lia)). lia.
Qed.

(** ** Numbers *)

Section Numbers.
Context `{Env}.

Lemma number_on_conn {A} i (op : M Connection.t A) : frames _invoc_id (on_conn i op).
Proof using. unfold on_conn, the_connection. frame. Qed.

#[local] Hint Resolve number_on_conn : rfaas.

Lemma number_post_input i inb size code sol : frames _invoc_id (post_input i inb size code sol).
Proof using. unfold post_input, the_connection. frame. Qed.

Lemma number_write_header inb out : frames _invoc_id (write_header inb out).
Proof using. unfold write_header, Buffer.rkey. frame. Qed.

Lemma number_refills : frames _invoc_id (on_all refill).
Proof using. unfold on_all, refill. auto 20 with rfaas. Qed.

#[local] Hint Resolve number_post_input number_write_header : rfaas.

(** The number of a submission to all threads is what the counter holds afterwards. *)
Lemma async_all_number fname ins outs e t id e' t' :
  async_all fname ins outs e t = Ok (Some id, e', t') → _invoc_id e' = id.
Proof using.
  unfold async_all. intros E. step_inv E.
  destruct (Invocation.func_index fname (_func_names e)) as [idx|]; [|discriminate E].
  bind_inv E as n e1 t1 E1. unfold next_invoc_id in E1. step_inv E1. run_inv_at E1. step_inv E.
  bind_inv E as ? e2 t2 E2. apply (frames_for_each _invoc_id) in E2; [|auto 20 with rfaas].
  bind_inv E as ? e3 t3 E3. apply number_refills in E3. run_inv_at E. by rewrite E3, E2.
Qed.

(** A number is given twice. The submission to all threads advances the counter and
    uses the new value, the one to a single thread uses the value and then advances: if the
    second follows the first, it gets the same number, and the future of the first, which may
    still wait for any number of results, is overwritten. *)
Theorem async_reuses_number fname ins outs e t id e1 t1 fname' inb out size id' e2 t2 :
  async_all fname ins outs e t = Ok (Some id, e1, t1) →
  async fname' inb out size e1 t1 = Ok (Some id', e2, t2) →
  id' = id ∧ _futures e1 !! id = Some (mk_future (Z.of_nat (length (_connections e))) None) ∧
  _futures e2 !! id = Some (mk_future 1 None).
Proof using.
  intros E1 E2. pose proof (async_all_number _ _ _ _ _ _ _ _ E1) as Hn.
  pose proof (futures_async_all fname ins outs _ _ _ _ _ E1) as Hf1. cbn in Hf1.
  apply async_inv in E2 as (-> & Hf & _). rewrite Hn in *.
  split; [done|]. rewrite Hf, Hf1, !lookup_insert_eq. done.
Qed.
End Numbers.

(** ** Synchronous invocations *)

Section Execute.
Context `{Env}.

(** A poll made between the traces [t] and [t'] returned the completion. *)
Definition received (t t' : trace) (wc : ibv_wc) : Prop :=
  ∃ tr cq num, t `suffix_of` tr ∧ (Cpoll_cq cq num :: tr) `suffix_of` t' ∧
    wc ∈ take (Z.to_nat (env_poll_cq tr cq num).1) (env_poll_cq tr cq num).2.

Lemma received_weaken t0 t t' t1 wc :
  t0 `suffix_of` t → t' `suffix_of` t1 → received t t' wc → received t0 t1 wc.
Proof using.
  intros H0 H1 (tr & cq & num & Ht & Ht' & Hwc). exists tr, cq, num. split; [by etrans|]. split; [by etrans|done].
Qed.

Lemma emits_suffix {S A} P (op : M S A) s t a s' t' : emits P op → op s t = Ok (a, s', t') → t `suffix_of` t'.
Proof using. intros Ho (u & -> & _)%Ho. by exists u. Qed.

Lemma poll_loop_last {S} fuel cq num b (s : S) t r s' t' :
  Queue.poll_loop fuel cq num b s t = Ok (r, s', t') →
  ∃ tr, t `suffix_of` tr ∧ t' = Cpoll_cq cq num :: tr ∧ r = env_poll_cq tr cq num.
Proof using.
  revert t. induction fuel as [|fuel IH]; intros t E; cbn [Queue.poll_loop] in E; [discriminate E|].
  step_inv E. destruct (b && _).
  - apply IH in E as (tr & Ht & -> & ->). exists tr. split; [|done].
    etrans; [|exact Ht]. by apply suffix_cons_r.
  - run_inv_at E. by exists t.
Qed.

Lemma poll_receive_inv i b e t wcs e' t' :
  poll_receive i b e t = Ok (wcs, e', t') → t `suffix_of` t' ∧ ∀ wc, wc ∈ wcs → received t t' wc.
Proof using.
  unfold poll_receive, on_conn. intros E. bind_inv E as r e1 t1 E1. run_inv_at E.
  bind_inv E1 as c e2 t2 E2. apply the_connection_inv in E2 as (_ & -> & ->). run_inv_at E1.
  apply Rdma.on_conn_inv in E1 as (c1 & c2 & _ & E1 & _). unfold Connection.receive_wcs in E1. run_inv_at E1.
  unfold Queue.poll, Queue._poll, Queue.the_qp in E1. bind_inv E1 as wc q1 t3 E3. step_inv E1. run_inv_at E1.
  bind_inv E3 as qp q2 t4 E4. bind_inv E4 as q3 q4 t5 E5. run_inv_at E5. run_inv_at E4.
  bind_inv E3 as r1 q5 t6 E6. run_inv_at E3. apply poll_loop_last in E6 as (tr & Ht & -> & ->).
  split; [by apply suffix_cons_r|]. intros wc Hwc. eexists tr, _, _. split; [done|]. split; [done|].
  unfold Queue.poll_result, Queue.polled in Hwc. destruct (_ <? 0); [|exact Hwc]. by apply not_elem_of_nil in Hwc.
Qed.

Lemma settle_trace val e t b e' t' : settle val e t = Ok (b, e', t') → t' = t.
Proof using.
  unfold settle. intros E. run_inv. destruct (_ - 1 =? 0); [destruct (f_value _)|]; by run_inv.
Qed.

Lemma settle_all_trace wcs e t u e' t' :
  for_each wcs (λ wc, settle (word wc) ;; mret tt) e t = Ok (u, e', t') → t' = t.
Proof using.
  revert e t. induction wcs as [|wc wcs IH]; intros e t E; cbn [for_each] in E; [by run_inv_at E|].
  bind_inv E as ? e1 t1 E1. bind_inv E1 as b e2 t2 E2. apply settle_trace in E2 as ->. run_inv_at E1. by apply IH in E.
Qed.

(** What is collected comes from a completion of the poll, or was there before. *)
Lemma collect_inv id wcs found e t r e' t' :
  collect id wcs found e t = Ok (r, e', t') → t' = t ∧
  (r = found ∨ ∃ wc, wc ∈ wcs ∧ Invocation.finished_invoc_id (word wc) = id ∧
     r = Some (Invocation.return_val (word wc), i32 (wc_byte_len wc))).
Proof using.
  revert found e t. induction wcs as [|wc wcs IH]; intros found e t E; cbn [collect] in E.
  { run_inv_at E. by auto. }
  destruct (Z.eqb_spec (Invocation.finished_invoc_id (word wc)) id) as [Hid|Hid].
  - apply IH in E as [-> [->|(wc' & Hin & Hwc')]]; (split; [done|]); right.
    + exists wc. split; [constructor|done].
    + exists wc'. split; [by constructor|done].
  - bind_inv E as b e1 t1 E1. apply settle_trace in E1 as ->.
    apply IH in E as [-> [->|(wc' & Hin & Hwc')]]; (split; [done|]); [by left|right].
    exists wc'. split; [by constructor|done].
Qed.

Lemma await_result_inv fuel id e t r e' t' :
  await_result fuel id e t = Ok (r, e', t') → t `suffix_of` t' ∧
  ∃ wc, received t t' wc ∧ Invocation.finished_invoc_id (word wc) = id ∧
    r = (Invocation.return_val (word wc), i32 (wc_byte_len wc)).
Proof using.
  revert e t. induction fuel as [|fuel IH]; intros e t E; cbn [await_result] in E; [discriminate E|].
  bind_inv E as wcs e1 t1 E1. apply poll_receive_inv in E1 as [Ht1 Hwcs].
  bind_inv E as found e2 t2 E2. apply collect_inv in E2 as [-> Hf]. destruct found as [p|].
  - destruct Hf as [Hf|(wc & Hin & Hid & [= ->])]; [discriminate Hf|].
    step_inv E. bind_inv E as wcs' e3 t3 E3. apply poll_receive_inv in E3 as [Ht3 _].
    bind_inv E as ? e4 t4 E4. apply settle_all_trace in E4 as ->. run_inv_at E. split; [by etrans|].
    exists wc. split; [|done]. apply (received_weaken t t t1); [done|exact Ht3|]. by apply Hwcs.
  - apply IH in E as [Ht (wc & Hr & Hid & Hrr)]. split; [by etrans|]. exists wc. split; [|done].
    by apply (received_weaken t t1 t' t').
Qed.

Lemma wordless_modify g : wordless (modify g).
Proof using. apply wordless_emits. auto with rfaas. Qed.

Lemma wordless_poll_receive i b : wordless (poll_receive i b).
Proof using.
  apply wordless_bind; [apply wordless_on_conn, emits_zoom, Rdma.silent_poll|].
  intros a. apply wordless_emits. auto with rfaas.
Qed.

Lemma wordless_await_result fuel id : wordless (await_result fuel id).
Proof using.
  induction fuel as [|fuel IH]; cbn [await_result]; [by intros e t a e' t' E|].
  apply wordless_bind; [apply wordless_poll_receive|]. intros wcs. apply wordless_bind.
  { intros e t a e' t' E. by apply collect_inv in E as [-> _]. }
  intros [r|]; [|apply IH]. apply wordless_bind; [apply wordless_modify|]. intros _.
  apply wordless_bind; [apply wordless_poll_receive|]. intros wcs'. apply wordless_bind.
  { intros e t a e' t' E. by apply settle_all_trace in E as ->. }
  intros _. apply wordless_emits. auto with rfaas.
Qed.

Lemma on_conn_suffix {A} i (op : M Connection.t A) e t a e' t' :
  emits not_send op → on_conn i op e t = Ok (a, e', t') → t `suffix_of` t'.
Proof using.
  intros Ho. eapply (emits_suffix not_send). unfold on_conn, the_connection.
  apply emits_bind; [auto with rfaas|]. intros c. by apply emits_zoom, Rdma.emits_on_conn.
Qed.

(** The input and the word are posted; nothing before is lost. *)
Lemma post_input_suffix i inb size code sol e t u e' t' :
  post_input i inb size code sol e t = Ok (u, e', t') → t `suffix_of` t'.
Proof using.
  apply (emits_suffix (λ _, True)). unfold post_input, on_conn, the_connection.
  apply emits_bind; [auto with rfaas|]. intros e0. apply emits_bind; [auto with rfaas|]. intros c.
  assert (∀ l r w x y, emits (λ _, True) (Connection.post_write_imm l r w x y)) as Hw.
  { intros. unfold Connection.post_write_imm, Connection._post_write, Connection.submit, Connection.the_qp,
      Connection.next_req. do 3 (apply emits_bind; [auto 10 with rfaas|intros]).
    repeat case_match; auto 10 with rfaas. }
  apply emits_bind; [|auto with rfaas].
  destruct (size =? -1); apply emits_bind;
    unfold Buffer.add, Buffer.add_range, Buffer.address, Buffer.lkey, Buffer.with_mr; try (by auto 10 with rfaas);
    intros l; (apply emits_bind; [auto with rfaas|]); intros c'; apply emits_zoom, Rdma.emits_on_conn, Hw.
Qed.

(** What a synchronous invocation that returned did. *)
Lemma execute_result fuel fname inb out e t ok n e' t' idx :
  execute fuel fname inb out e t = Ok ((ok, n), e', t') →
  Invocation.func_index fname (_func_names e) = Some idx →
  let number := Invocation.next_invoc (_invoc_id e) in
  t `suffix_of` t' ∧ words t' = words t ++ [Invocation.execute_code number idx] ∧
  ∃ wc, received t t' wc ∧ Invocation.finished_invoc_id (word wc) = number ∧
    ok = (Invocation.return_val (word wc) =? 0) ∧ n = if ok then i32 (wc_byte_len wc) else 0.
Proof using.
  intros E Hidx number. unfold execute in E. step_inv E. rewrite Hidx in E.
  bind_inv E as ? e1 t1 E1.
  assert (_invoc_id e1 = _invoc_id e ∧ t1 = t) as [Hn ->].
  { unfold write_header, Buffer.address, Buffer.rkey, Buffer.with_mr in E1. by run_inv. }
  bind_inv E as id e2 t2 E2. unfold next_invoc_id in E2. step_inv E2. run_inv_at E2. rewrite Hn in *.
  bind_inv E as ? e3 t3 E3. pose proof (post_input_word _ _ _ _ _ _ _ _ _ _ E3) as W3.
  apply post_input_suffix in E3. step_inv E. bind_inv E as ? e4 t4 E4.
  pose proof (wordless_refill _ _ _ _ _ _ E4) as W4. unfold refill in E4. bind_inv E4 as ? e5 t5 E5. run_inv_at E4.
  apply on_conn_suffix in E5; [|apply emits_zoom, Rdma.silent_refill].
  bind_inv E as r e6 t6 E6. pose proof (wordless_await_result _ _ _ _ _ _ _ E6) as W6.
  apply await_result_inv in E6 as (S6 & wc & Hwc & Hid & ->). bind_inv E as ? e7 t7 E7.
  pose proof (wordless_on_conn _ _ (Rdma.silent_poll_wc _ _ _) _ _ _ _ _ E7) as W7.
  apply on_conn_suffix in E7; [|apply Rdma.silent_poll_wc].
  cbn [fst snd] in E. destruct (Invocation.return_val (word wc) =? 0) eqn:Ez; injection E as <- <- <- <-;
    (split; [by repeat (etrans; [eassumption|])|]);
    (split; [rewrite W7, W6, W4, W3; unfold Invocation.execute_code; by rewrite wrap_wrap by lia|]);
    exists wc; (split; [apply (received_weaken t t5 t6 t7); [by etrans|done|done]|]); by rewrite Ez.
Qed.

(** C11. A synchronous invocation returns its own result. If [execute] returns for a
    function of the library, it has written exactly one word, with the number after the
    counter; some poll made during the call returned a completion with this very number, whatever
    other results arrived meanwhile; the answer is a success exactly if that completion
    carries the value 0, and then the size is that completion's. *)
Theorem execute_own_result fuel fname inb out e t ok n e' t' idx :
  execute fuel fname inb out e t = Ok ((ok, n), e', t') →
  Invocation.func_index fname (_func_names e) = Some idx →
  let number := Invocation.next_invoc (_invoc_id e) in
  words t' = words t ++ [Invocation.execute_code number idx] ∧
  ∃ wc, received t t' wc ∧ Invocation.finished_invoc_id (word wc) = number ∧
    ok = (Invocation.return_val (word wc) =? 0) ∧ n = if ok then i32 (wc_byte_len wc) else 0.
Proof using. intros E Hidx. by apply (execute_result _ _ _ _ _ _ _ _ _ _ _ E Hidx). Qed.
End Execute.

(** ** What does not wait *)

(** The operations of the asynchronous interface, and the background thread when it is asked
    to end. *)
Inductive prompt `{Env} : ∀ {A}, M executor A → Prop :=
  | prompt_async fname inb out size : prompt (async fname inb out size)
  | prompt_async_all fname ins outs : prompt (async_all fname ins outs)
  | prompt_async_callback fname inb out cb size : prompt (async_callback fname inb out cb size)
  | prompt_async_callback2 fname inb out para cb size : prompt (async_callback2 fname inb out para cb size)
  | prompt_stop_execute fname inb out : prompt (stop_execute fname inb out)
  | prompt_poll_queue_once cid : prompt (poll_queue_once cid)
  | prompt_poll_queue_once2 cid : prompt (poll_queue_once2 cid)
  | prompt_poll_queue rc answer wakeups : (answer, true) ∈ wakeups → prompt (poll_queue rc wakeups)
  | prompt_poll_queue_callback rc answer wakeups :
      (answer, true) ∈ wakeups → prompt (poll_queue_callback rc wakeups).

Section Prompt.
Context `{Env} (spins : (0 < env_spin)%nat).

Lemma halts_client_conn {A} i (op : M Connection.t A) : halts op → halts (on_conn i op).
Proof using. intros Ho. unfold on_conn, the_connection. auto 10 using Rdma.halts_on_conn with rfaas. Qed.

Lemma halts_write_header inb out : halts (write_header inb out).
Proof using. unfold write_header, Buffer.address, Buffer.rkey, Buffer.with_mr. auto 10 with rfaas. Qed.

Lemma halts_post_input i inb size code sol : halts (post_input i inb size code sol).
Proof using.
  unfold post_input, the_connection, Buffer.add, Buffer.add_range, Buffer.address, Buffer.lkey, Buffer.with_mr.
  auto 20 using halts_client_conn, Rdma.halts_post_write_imm with rfaas.
Qed.

Lemma halts_client_refill i : halts (refill i).
Proof using. unfold refill, Connection.receive_wcs. auto 10 using halts_client_conn, Rdma.halts_refill with rfaas. Qed.

Lemma halts_next_invoc_id : halts next_invoc_id.
Proof using. unfold next_invoc_id. auto with rfaas. Qed.

Lemma halts_poll_sends i n : halts (on_conn i (Connection.poll_wc Connection.SEND false n)).
Proof using spins. auto using halts_client_conn, Rdma.halts_poll_wc. Qed.

Lemma halts_poll_receive i : halts (poll_receive i false).
Proof using spins.
  unfold poll_receive, Connection.receive_wcs. auto 10 using halts_client_conn, Rdma.halts_poll with rfaas.
Qed.

Lemma halts_on_all op : (∀ i, halts (op i)) → halts (on_all op).
Proof using. intros Ho. unfold on_all. auto with rfaas. Qed.

#[local] Hint Resolve halts_write_header halts_post_input halts_client_refill halts_next_invoc_id halts_poll_sends
  halts_poll_receive halts_on_all halts_client_conn : rfaas.

Lemma halts_settle val : halts (settle val).
Proof using. unfold settle. auto 10 with rfaas. Qed.
Lemma halts_settle_callback val : halts (settle_callback val).
Proof using. unfold settle_callback. auto 10 with rfaas. Qed.
Lemma halts_settle_callback2 val : halts (settle_callback2 val).
Proof using. unfold settle_callback2. auto 10 with rfaas. Qed.

#[local] Hint Resolve halts_settle halts_settle_callback halts_settle_callback2 : rfaas.

Lemma halts_handle_event settle_one : (∀ val, halts (settle_one val)) → halts (handle_event settle_one).
Proof using spins.
  intros Hs. unfold handle_event, balance, update_requests, Queue.update_requests, Connection.wait_events,
    Connection.notify_events, Connection.ack_events, Connection.the_qp, Connection.receive_wcs, expect_zero.
  auto 20 with rfaas.
Qed.

(** The loop ends with the wake-up at which the end was requested, if not before. *)
Lemma halts_poll_queue settle_one rc wakeups answer :
  (∀ val, halts (settle_one val)) → (answer, true) ∈ wakeups → halts (poll_queue_with settle_one rc wakeups).
Proof using spins.
  intros Hs Hin. unfold poll_queue_with, Connection.notify_events, Connection.the_qp, expect_zero.
  apply halts_bind; [auto 10 with rfaas|]. intros _. destruct (rc <? 0); [auto with rfaas|].
  induction wakeups as [|[a ended] wakeups IH]; [by apply not_elem_of_nil in Hin|]. cbn [poll_loop].
  apply halts_bind; [auto with rfaas|]. intros e. destruct (_ || _); [auto with rfaas|].
  apply halts_bind; [auto with rfaas|]. intros _. destruct ended; [auto with rfaas|].
  apply elem_of_cons in Hin as [[=]|Hin]. auto using halts_handle_event with rfaas.
Qed.

(** C30. The asynchronous interface does not wait. Submitting work, stopping an executor and a single
    poll end whatever the hardware answers: every loop they run is bounded. The background thread's
    loop ends at the latest when it wakes up after the end was requested. *)
Theorem asynchronous_interface_ends {A} (op : M executor A) e t : prompt op → op e t ≠ Fault StillRunning.
Proof using spins.
  intros Hp. revert e t. change (halts op). destruct Hp.
  - unfold async. auto 20 with rfaas.
  - unfold async_all. auto 20 with rfaas.
  - unfold async_callback. auto 20 with rfaas.
  - unfold async_callback2. auto 20 with rfaas.
  - unfold stop_execute. auto 20 with rfaas.
  - unfold poll_queue_once, poll_once. auto 20 with rfaas.
  - unfold poll_queue_once2, poll_once. auto 20 with rfaas.
  - eapply halts_poll_queue; [auto with rfaas|eassumption].
  - eapply halts_poll_queue; [auto with rfaas|eassumption].
Qed.
End Prompt.

(** ** Leases without a resource manager *)

(** A lease from a list of servers is a goodbye. [lease(servers, ...)] gives the executor the lease
    number -1; [allocate] copies it into its request, and the executor manager takes any request with a
    negative number for the end of the client: it disconnects the client and forgets it instead of starting
    an executor. *)
Theorem static_lease_says_goodbye (manager : Env) nodes c t addr port id c' t' e functions
    max_input max_output hot cores start req
    wide_shift indeterminate requests accounting_data wc m u r m' u' cl conn :
  lease_static nodes c t = Ok (Some (addr, port, id), c', t') → _lease_id e = id →
  allocation_request e functions max_input max_output hot cores start = Ok req →
  requests u (wc_qp_num wc) (wc_wr_id wc) = req →
  wc_status wc = 0 → ExecutorManager._clients m !! wc_qp_num wc = Some cl →
  ExecutorManager.connection cl = Some conn →
  @ExecutorManager._handle_client_message manager wide_shift indeterminate requests accounting_data wc m u =
    Ok (r, m', u') →
  ar_lease_id req = -1 ∧ ExecutorManager._clients m' = delete (wc_qp_num wc) (ExecutorManager._clients m) ∧
  Rdma.p_store (ExecutorManager.m_state m') !! conn = None.
Proof.
  intros El Hid Er Hreq Hst Hcl Hconn Eh.
  assert (id = -1) as ->.
  { unfold lease_static in El. destruct nodes; [discriminate El|]. bind_inv El as sv c1 t1 E1. by injection El. }
  assert (ar_lease_id req = -1) as Hneg.
  { unfold allocation_request in Er. case_bool_decide; [|discriminate Er]. injection Er as <-. cbn. by rewrite Hid. }
  split; [done|].
  apply (ExecutorManager.goodbye_inv _ _ _ _ _ _ _ _ _ _ cl conn) in Eh as (Hc & Hs & _); [done..|].
  rewrite Hreq, Hneg. done.
Qed.

(** ** Examples *)

(** The client calls [resize] as number 40000; the thread of ExecutorThread.v answers; the answer fulfils
    the future. *)
Lemma invocation_end_to_end_witness :
  ∃ e' t' w, @async ideal_env "resize" demo_input demo_output (-1) (demo_executor 1 40000 3) [] =
      Ok (Some 40000, e', t') ∧ words t' = [w] ∧
    ∃ s u s' u', ExecutorThread.demo_ready = Some (s, u) ∧
      @ExecutorThread.warm_completions ExecutorThread.thread_env ExecutorThread.demo_header
        [mk_wc 0 0 5 (htonl w) 20] s u = Ok (tt, s', u') ∧
      ExecutorThread.invoked u' = ExecutorThread.invoked u ++ [7] ∧
      ∃ w' e2, words u' = words u ++ [w'] ∧ settle (word (mk_wc 0 0 7 (htonl w') 4)) e' t' = Ok (true, e2, t') ∧
        _futures e2 !! 40000 = Some (mk_future 0 (Some 0)).
Proof.
  destruct (@async ideal_env "resize" demo_input demo_output (-1) (demo_executor 1 40000 3) [])
    as [[[r e'] t']|] eqn:E; [|vm_compute in E; discriminate E].
  assert (r = Some 40000) as -> by (vm_compute in E; by injection E as <- <- <-).
  destruct (invocation_end_to_end ideal_env ExecutorThread.thread_env (λ name, Z.of_nat (String.length name) + 1)
    ExecutorThread.demo_header (λ wc, @ExecutorThread.warm_completions ExecutorThread.thread_env ExecutorThread.demo_header [wc])
    "resize" demo_input demo_output (-1) (demo_executor 1 40000 3) [] 40000 e' t' ltac:(reflexivity) (serving_warm _) E)
    as (Hf & w & Hw & Hthread);
    [split; [discriminate|reflexivity]|vm_compute; discriminate|].
  destruct ExecutorThread.demo_ready as [[s u]|] eqn:Ed; [|vm_compute in Ed; discriminate Ed].
  assert (w = 40000 * 2 ^ 16 + 2 ^ 15 + 1) as Hwv
    by (vm_compute in E; injection E as <- <-; vm_compute in Hw; by injection Hw as <-).
  destruct (@ExecutorThread.warm_completions ExecutorThread.thread_env ExecutorThread.demo_header
        [mk_wc 0 0 5 (htonl w) 20] s u) as [[[[] s'] u']|] eqn:Et;
    [|subst w; vm_compute in Ed; injection Ed as <- <-; vm_compute in Et; discriminate Et].
  assert (∃ p size, ExecutorThread.t_functions s = ExecutorThread.process_library ExecutorThread.demo_symbols
    (ExecutorThread.mk_Functions p size [] [])) as (p & size & Hfs).
  { clear -Ed. vm_compute in Ed. injection Ed as <- _. do 2 eexists. vm_compute. reflexivity. }
  destruct (Hthread _ _ _ _ (mk_wc 0 0 5 (htonl w) 20) eq_refl eq_refl ltac:(rewrite Hfs; vm_compute; reflexivity)
    ltac:(rewrite Hfs; apply ExecutorThread.process_library_table) Et) as (Hcall & _ & w' & Hw' & Hback).
  destruct (Hback (mk_wc 0 0 7 (htonl w') 4) e' t' eq_refl Hf) as (e2 & E2 & H2).
  exists e', t', w. split; [reflexivity|]. split; [exact Hw|].
  exists s, u, s', u'. split; [reflexivity|]. split; [exact Et|]. split; [exact Hcall|].
  exists w', e2. split; [exact Hw'|]. split; [exact E2|exact H2].
Defined.

(** The 65537th submission, while the first future still waits. *)
Lemma async_number_overflow_witness :
  ∃ e' t' w, @async ideal_env "resize" demo_input demo_output (-1) (demo_executor 1 65536 3) [] =
      Ok (Some 65536, e', t') ∧ words t' = [w] ∧
    ∃ e2 t2, settle (word (mk_wc 0 0 7 (htonl (reply w)) 4)) (set_futures (<[0 := mk_future 1 None]> (_futures e')) e') t' =
        Ok (true, e2, t2) ∧ _futures e2 !! 65536 = Some (mk_future 1 None).
Proof.
  destruct (@async ideal_env "resize" demo_input demo_output (-1) (demo_executor 1 65536 3) [])
    as [[[r e'] t']|] eqn:E; [|vm_compute in E; discriminate E].
  assert (r = Some 65536) as -> by (vm_compute in E; by injection E as <- <- <-).
  destruct (async_number_overflow ideal_env "resize" demo_input demo_output (-1)
    (demo_executor 1 65536 3) [] 65536 e' t' E) as (w & Hw & Hreply);
    [discriminate|vm_compute; discriminate|].
  assert (w = 2 ^ 15 + 1) as Hwv
    by (vm_compute in E; injection E as <- <-; vm_compute in Hw; by injection Hw as <-).
  assert (_futures (set_futures (<[0 := mk_future 1 None]> (_futures e')) e') !! 65536 = Some (mk_future 1 None)) as Hf
    by (vm_compute in E; injection E as <- <-; reflexivity).
  destruct (settle (word (mk_wc 0 0 7 (htonl (reply w)) 4)) (set_futures (<[0 := mk_future 1 None]> (_futures e')) e') t')
    as [[[b e2] t2]|] eqn:Es;
    [|subst w; vm_compute in E; injection E as <- <-; vm_compute in Es; discriminate Es].
  assert (b = true) as -> by (subst w; vm_compute in E; injection E as <- <-; vm_compute in Es; by injection Es as <- <- <-).
  assert (wc_imm_data (mk_wc 0 0 7 (htonl (reply w)) 4) = htonl (reply w)) as Hi by (cbn [wc_imm_data]; reflexivity).
  destruct (Hreply (mk_wc 0 0 7 (htonl (reply w)) 4) (set_futures (<[0 := mk_future 1 None]> (_futures e')) e') t' true e2 t2
    Hi Hf Es) as [_ H2].
  exists e', t', w. split; [reflexivity|]. split; [exact Hw|]. exists e2, t2. split; [exact Es|exact H2].
Defined.

Lemma async_reuses_number_witness :
  ∃ e1 t1 e2 t2,
    @async_all ideal_env "resize" [demo_input; demo_input] [demo_output; demo_output] (demo_executor 2 0 3) [] =
      Ok (Some 1, e1, t1) ∧
    @async ideal_env "empty" demo_input demo_output (-1) e1 t1 = Ok (Some 1, e2, t2) ∧
    _futures e1 !! 1 = Some (mk_future 2 None) ∧ _futures e2 !! 1 = Some (mk_future 1 None).
Proof.
  destruct (@async_all ideal_env "resize" [demo_input; demo_input] [demo_output; demo_output] (demo_executor 2 0 3) [])
    as [[[r1 e1] t1]|] eqn:E1; [|vm_compute in E1; discriminate E1].
  assert (r1 = Some 1) as -> by (vm_compute in E1; by injection E1 as <- <- <-).
  destruct (@async ideal_env "empty" demo_input demo_output (-1) e1 t1) as [[[r2 e2] t2]|] eqn:E2;
    [|vm_compute in E1; injection E1 as <- <-; vm_compute in E2; discriminate E2].
  assert (r2 = Some 1) as ->
    by (vm_compute in E1; injection E1 as <- <-; vm_compute in E2; by injection E2 as <- <- <-).
  destruct (@async_reuses_number ideal_env _ _ _ _ _ _ _ _ _ _ _ _ _ _ _ E1 E2) as (_ & H1 & H2).
  exists e1, t1, e2, t2. split; [reflexivity|]. split; [exact E2|]. split; [exact H1|exact H2].
Defined.

(** The first poll returns a result for number 7, which is pending, and the second one the own result,
    number 1. *)
Definition execute_env : Env :=
  scripted_env 8 (λ t cq _, match t with
                            | Cpoll_cq _ _ :: Cpoll_cq _ _ :: _ => (0, [])
                            | Cpoll_cq _ _ :: _ => (1, [mk_wc 0 0 7 (htonl (1 * 2 ^ 16)) 44])
                            | _ => (1, [mk_wc 0 0 7 (htonl (7 * 2 ^ 16)) 4])
                            end)
    (λ _, (0, quiet_event)) (λ _, 0) (λ _, 0).

Definition demo_pending : executor := set_futures {[7 := mk_future 5 None]} (demo_executor 1 0 3).

Lemma execute_own_result_witness :
  ∃ e' t' wc, @execute execute_env 3 "resize" demo_input demo_output demo_pending [] = Ok ((true, 44), e', t') ∧
    words t' = [2 ^ 16 + 1] ∧ @received execute_env [] t' wc ∧
    Invocation.finished_invoc_id (word wc) = 1 ∧ 44 = i32 (wc_byte_len wc).
Proof.
  destruct (@execute execute_env 3 "resize" demo_input demo_output demo_pending []) as [[[r e'] t']|] eqn:E;
    [|vm_compute in E; discriminate E].
  assert (r = (true, 44)) as -> by (vm_compute in E; by injection E as <- <- <-).
  destruct (@execute_own_result execute_env 3 "resize" demo_input demo_output demo_pending [] true 44 e' t' 1 E)
    as (Hw & wc & Hr & Hn & _ & Hs); [vm_compute; reflexivity|].
  exists e', t', wc. split; [reflexivity|]. split; [exact Hw|]. split; [exact Hr|]. split; [exact Hn|exact Hs].
Defined.

(** The background thread is woken twice without an event and once to end. *)
Lemma asynchronous_interface_ends_witness :
  @poll_queue ideal_env 0 [(0, false); (0, false); (0, true)] (demo_executor 2 0 3) [] ≠ Fault StillRunning.
Proof.
  apply (@asynchronous_interface_ends ideal_env ltac:(apply Nat.lt_0_succ)).
  apply (@prompt_poll_queue ideal_env 0 0). do 2 apply list_elem_of_further. apply list_elem_of_here.
Defined.

Definition demo_library : result client :=
  (λ r, r.1.1) <$> @client_construct ideal_env unit "10.0.0.3" 10010
    (ClientConnection.mk_device "mlx5" "10.0.0.1" 10000 128 32) tt [].
Definition demo_static : result AllocationRequest :=
  allocation_request (demo_executor 2 0 (-1)) demo_input 1024 1024 0 2 0.

Lemma static_lease_says_goodbye_witness :
  ∃ c req m' u', demo_library = Ok c ∧
    lease_static [ResourceDB.mk_server_data "node" "10.0.0.2" 10006 2 512] c [] =
      Ok (Some ("10.0.0.2"%string, 10006, -1), c, []) ∧
    demo_static = Ok req ∧
    @ExecutorManager._handle_client_message (ExecutorManager.manager_env 0) (Some 0) 99 (λ _ _ _, req)
      ExecutorManager.demo_accounting (mk_wc 0 0 13 0 48) ExecutorManager.demo_client.1
      ExecutorManager.demo_client.2 = Ok (tt, m', u') ∧
    Rdma.p_store (ExecutorManager.m_state m') !! 1 = None.
Proof.
  destruct demo_library as [c|] eqn:Ec; [|vm_compute in Ec; discriminate Ec].
  destruct demo_static as [req|] eqn:Er; [|vm_compute in Er; discriminate Er].
  destruct (@ExecutorManager._handle_client_message (ExecutorManager.manager_env 0) (Some 0) 99 (λ _ _ _, req)
      ExecutorManager.demo_accounting (mk_wc 0 0 13 0 48) ExecutorManager.demo_client.1
      ExecutorManager.demo_client.2) as [[[[] m'] u']|] eqn:E;
    [|vm_compute in Er; injection Er as <-; vm_compute in E; discriminate E].
  destruct (ExecutorManager._clients ExecutorManager.demo_client.1 !! 13) as [cl|] eqn:Hcl;
    [|vm_compute in Hcl; discriminate Hcl].
  assert (ExecutorManager.connection cl = Some 1) as Hconn by (vm_compute in Hcl; by injection Hcl as <-).
  destruct (static_lease_says_goodbye (ExecutorManager.manager_env 0)
    [ResourceDB.mk_server_data "node" "10.0.0.2" 10006 2 512] c [] "10.0.0.2" 10006 (-1) c []
    (demo_executor 2 0 (-1)) demo_input 1024 1024 0 2 0 req (Some 0) 99 (λ _ _ _, req)
    ExecutorManager.demo_accounting (mk_wc 0 0 13 0 48) ExecutorManager.demo_client.1
    ExecutorManager.demo_client.2 tt m' u' cl 1 eq_refl eq_refl Er eq_refl eq_refl Hcl Hconn E) as (_ & _ & Hs).
  exists c, req, m', u'. split; [reflexivity|]. split; [reflexivity|]. split; [reflexivity|]. split; [exact E|exact Hs].
Defined.
End System.
