(* ===== verification/LeasePath.v ===== *)
(** * From a lease to an executor

    A lease passes through every process: the resource manager (ResourceManager.v) opens it, tells the
    executor manager of the node and answers the client; the client library (ClientExecutor.v) puts its
    number into an allocation request; the executor manager (ExecutorManager.v) looks the number up and
    starts an executor.  Here these operations are put together. *)

From S2P Require Import Prelude Verbs Buffer Queue Connection Messages ResourceDB Rdma ResourceManager ExecutorManager ClientConnection ClientExecutor.

Module LeasePath.
Import ExecutorManager.

(** ** The table of leases

    The threads of the executor manager only ever insert: what holds of the table and survives insertions
    holds always. *)

Section Table.
Context `{Env} (wide_shift : option Z) (indeterminate : Z)
  (alloc_requests : trace → Z → Z → AllocationRequest) (accounting_data : trace → Z → Accounting)
  (P : Leases → Prop).

Definition kept (m : manager) : Prop := P (_leases m).

Lemma kept_frames {A} (op : M manager A) : frames _leases op → stable kept op.
Proof using. apply stable_frames. unfold kept. by intros m m' ->. Qed.

Lemma leases_on_rm {A} (op : M ResourceManagerConnection A) : frames _leases (on_rm op).
Proof using. unfold on_rm. auto with rfaas. Qed.

Lemma leases_spawn r x k y : frames _leases (spawn r x k y).
Proof using. apply frames_spawn. Qed.

#[local] Hint Resolve leases_on_rm leases_spawn : rfaas.

Lemma leases_charge e c : frames _leases (charge_allocation e c).
Proof using. unfold charge_allocation. auto with rfaas. Qed.

#[local] Hint Resolve leases_charge : rfaas.

Lemma leases_disable c : frames _leases (disable indeterminate accounting_data c).
Proof using.
  unfold disable. apply frames_bind; [destruct (executor c); auto with rfaas|]. intros c1.
  do 3 (apply frames_bind; [auto with rfaas|]; intros ?).
  apply frames_bind; [destruct (executor c1); auto 20 with rfaas|]. intros c2.
  apply frames_bind; [auto with rfaas|]. intros m.
  apply frames_bind; [destruct (m_rm m); auto with rfaas|]. auto 20 with rfaas.
Qed.

Lemma leases_erase qp : frames _leases (erase_client qp).
Proof using.
  unfold erase_client. apply frames_bind; [auto with rfaas|]. intros m. case_match; auto with rfaas.
Qed.

Lemma leases_respond conn st : frames _leases (respond conn st).
Proof using. unfold respond. auto 20 with rfaas. Qed.

#[local] Hint Resolve leases_disable leases_erase leases_respond : rfaas.

Lemma leases_listen : frames _leases (listen wide_shift).
Proof using.
  unfold listen. apply frames_bind; [auto with rfaas|]. intros ready. destruct (negb ready); [auto with rfaas|].
  apply frames_bind; [auto with rfaas|]. intros [[conn|] status]; [|auto with rfaas].
  destruct status; cbn [handle_event]; unfold enqueue, forget; try (auto 10 with rfaas; fail).
  do 3 (apply frames_bind; [auto with rfaas|]; intros ?).
  destruct (0 <? _); [case_bool_decide|]; auto 20 with rfaas.
Qed.

Lemma leases_handle_op op : frames _leases (handle_op op).
Proof using.
  destruct op; cbn [handle_op _handle_connections]; unfold _handle_disconnections, update_client;
    [| |auto with rfaas].
  - do 2 (apply frames_bind; [auto with rfaas|]; intros ?). cbn zeta. case_match; auto with rfaas.
  - do 3 (apply frames_bind; [auto with rfaas|]; intros ?). case_match; auto with rfaas.
Qed.

Lemma leases_check_executor qp : frames _leases (check_executor indeterminate accounting_data qp).
Proof using.
  unfold check_executor, update_client, check. apply frames_bind; [auto with rfaas|]. intros m.
  destruct (_clients m !! qp) as [c|]; [|auto with rfaas]. destruct (negb _); [auto with rfaas|].
  destruct (executor c); [|auto with rfaas]. apply frames_bind.
  { apply frames_bind; [auto with rfaas|]. intros [[] ?]. auto with rfaas. }
  intros st. case_bool_decide; [auto with rfaas|]. apply frames_bind; [auto with rfaas|]. intros c1.
  apply frames_bind; [case_bool_decide; auto with rfaas|]. auto 20 with rfaas.
Qed.

(** A request inserts a lease of 512 MB. *)
Lemma kept_client_message wc :
  (∀ ls id c, P ls → P (insert_threadsafe (mk_Lease id c 512) ls)) →
  stable kept (_handle_client_message wide_shift indeterminate alloc_requests accounting_data wc).
Proof using.
  intros HP.
  unfold _handle_client_message. apply stable_bind; [apply kept_frames; auto with rfaas|]. intros m.
  case_match; [|apply kept_frames; auto with rfaas]. case_match; [apply kept_frames; auto with rfaas|].
  apply stable_bind; [|intros keep; apply kept_frames; unfold when; case_match; auto with rfaas].
  unfold _process_client, update_client. apply stable_bind.
  { apply kept_frames. case_bool_decide; auto with rfaas. }
  intros _. apply stable_bind; [apply kept_frames; auto with rfaas|]. intros req. cbn zeta.
  destruct (_ <=? _); [|apply kept_frames; auto 10 with rfaas].
  apply stable_bind; [apply stable_modify; intros m'; apply HP|]. intros _.
  apply kept_frames. do 2 (apply frames_bind; [auto with rfaas|]; intros ?).
  case_match; [|auto with rfaas]. unfold Buffer.rkey. auto 30 with rfaas.
Qed.

Lemma kept_res_mgr_message received wc :
  (∀ ls l, P ls → P (insert_threadsafe l ls)) → stable kept (_handle_res_mgr_message received wc).
Proof using.
  intros HP. unfold _handle_res_mgr_message. case_match; [apply kept_frames; auto with rfaas|].
  apply stable_bind; [apply stable_modify; intros m; apply HP|]. intros _. apply kept_frames. auto with rfaas.
Qed.

(** A step of the manager, whatever message of the resource manager its receive buffer holds. *)
Definition em_step (st st' : manager * trace) : Prop :=
  ∃ received, manager_step wide_shift indeterminate alloc_requests accounting_data received st st'.

Lemma kept_steps st st' :
  (∀ ls l, P ls → P (insert_threadsafe l ls)) → rtc em_step st st' → kept st.1 → kept st'.1.
Proof using.
  intros HP Hs Hl. refine (rtc_ind_r (λ st, kept st.1) st _ _ st' Hs); [done|]. clear st' Hs Hl.
  intros x y _ [received Hst] Hx. destruct Hst as [m t m' t' E|m t op q m' t' Hq E|m t wc m' t' E|
    m t qp r m' t' E|m t qp m' t' E|m t wc m' t' E]; cbn in *.
  - eapply kept_frames; [apply leases_listen|exact Hx|exact E].
  - eapply kept_frames; [apply leases_handle_op| |exact E]. exact Hx.
  - eapply kept_client_message; [|exact Hx|exact E]. intros. by apply HP.
  - eapply kept_frames; [apply leases_check_executor|exact Hx|exact E].
  - eapply kept_frames; [apply leases_erase|exact Hx|exact E].
  - by eapply kept_res_mgr_message.
Qed.
End Table.

(** A lease that is known stays as it is. *)
Definition announced (id : Z) (l : Lease) : manager → Prop := kept (λ ls, ls !! id = Some l).

Lemma announced_steps `{Env} wide_shift indeterminate requests accounting id l st st' :
  rtc (em_step wide_shift indeterminate requests accounting) st st' → announced id l st.1 → announced id l st'.1.
Proof.
  apply kept_steps. intros ls l' Hl. unfold insert_threadsafe. destruct (ls !! l_id l') eqn:E; [done|].
  rewrite lookup_insert_ne; [done|congruence].
Qed.

(** A message that announces a lease the node does not know. *)
Lemma message_announces `{Env} received wc m t u m' t' :
  wc_status wc = 0 → _handle_res_mgr_message received wc m t = Ok (u, m', t') →
  let a := received (wc_wr_id wc) in let id := i32 (la_lease_id a) in
  _leases m !! id = None → announced id (mk_Lease id (la_cores a) (la_memory a)) m'.
Proof.
  intros Hst E a id Hn. unfold _handle_res_mgr_message in E. rewrite Hst in E.
  change (nonzero 0) with false in E. cbv iota in E. step_inv E. fold a in E. fold id in E.
  unfold announced, kept. assert (_leases m' = _leases (set_leases (insert_threadsafe
    (mk_Lease id (la_cores a) (la_memory a)) (_leases m)) m)) as ->.
  { bind_inv E as ? m1 t1 E1. run_inv_at E. exact (leases_on_rm _ _ _ _ _ _ E1). }
  unfold insert_threadsafe. cbn. by rewrite Hn, lookup_insert_eq.
Qed.

Lemma request_lease_id e functions max_input max_output hot cores start req :
  ClientExecutor.allocation_request e functions max_input max_output hot cores start = Ok req →
  ar_lease_id req = i32 (ClientExecutor._lease_id e) ∧ ar_cores req = i16 cores.
Proof.
  unfold ClientExecutor.allocation_request. case_bool_decide; [|done]. by intros [= <-].
Qed.

(** ** Theorems *)

(** The number of cores is on both command lines; the memory is on none. *)
Lemma argv_cores addr request exec conn lease :
  ∃ before after, executor_argv addr request exec conn lease =
    before ++ "--fast"%string :: to_string (l_cores lease) :: after.
Proof.
  set (argv := executor_argv _ _ _ _ _). exists (take (if use_docker exec then 26 else 17) argv),
    (drop (if use_docker exec then 28 else 19) argv).
  unfold argv, executor_argv. by destruct (use_docker exec).
Qed.

(** C8. A lease arrives as an executor of its size. A client asks the resource manager for cores and gets a
    lease; the message the manager put into the buffer of the chosen executor manager is delivered to it, and
    that node did not know the number yet; then its threads take any number of steps; then the client
    library's allocation request with the lease's number is handled.  Whatever number of cores the
    allocation request names, the node has the lease with the cores and the memory that were asked for, the
    client's executor has exactly these cores, a child process (if the fork succeeds) is started with this
    number of cores on its command line, and the client is told ALLOCATED. The memory of the lease is only
    recorded: no command line names it. *)
Theorem lease_reaches_executor (rm em : Env) erased lease_requests wcl ps m t ps' m' t' cl lconn lqp l resp d
    wide_shift indeterminate requests accounting received wcr n1 u1 r1 n2 u2 n3 u3
    e functions max_input max_output hot cores start wca r4 n4 u4 cl4 conn qp :
  let lreq := lease_requests t (wc_qp_num wcl) (wc_wr_id wcl) in
  let id := i32 (resp_lease_id resp) in
  let lease := mk_Lease id (i16 (lr_cores lreq)) (i32 (lr_memory lreq)) in
  wc_status wcl = 0 → ResourceManager._clients m !! wc_qp_num wcl = Some cl →
  ResourceManager.connection cl = Some lconn → ResourceManager.the_qps m !! lconn = Some (Some lqp) →
  0 < i16 (lr_cores lreq) →
  @ResourceManager._handle_client_message rm erased lease_requests wcl ps m t = Ok (ps', m', t') →
  ResourceDB.open_lease erased (i16 (lr_cores lreq)) (i32 (lr_memory lreq))
    (ResourceManager.response_data cl) (ResourceManager.m_db m) t = Ok ((Some l, resp), d, t) →
  ResourceManager.m_send_data m' !! l = Some (received (wc_wr_id wcr)) →
  wc_status wcr = 0 → _leases n1 !! id = None →
  @_handle_res_mgr_message em received wcr n1 u1 = Ok (r1, n2, u2) →
  rtc (@em_step em wide_shift indeterminate requests accounting) (n2, u2) (n3, u3) →
  ClientExecutor._lease_id e = resp_lease_id resp → 0 ≤ id →
  ClientExecutor.allocation_request e functions max_input max_output hot cores start =
    Ok (requests u3 (wc_qp_num wca) (wc_wr_id wca)) →
  wc_status wca = 0 → _clients n3 !! wc_qp_num wca = Some cl4 → connection cl4 = Some conn →
  Rdma.qps (m_state n3) !! conn = Some (Some qp) →
  (∀ x, executor cl4 = Some x → Some conn ∉ connections x) →
  @_handle_client_message em wide_shift indeterminate requests accounting wca n3 u3 = Ok (r4, n4, u4) →
  m_status n4 = Some LeaseStatus.ALLOCATED ∧ _leases n4 !! id = Some lease ∧
  ∃ x, _clients n4 = <[wc_qp_num wca := set_executor (Some x) cl4]> (_clients n3) ∧
    pe_cores x = i16 (lr_cores lreq) ∧
    (0 < _pid x → ∃ addr k before after,
       let argv := executor_argv addr (requests u3 (wc_qp_num wca) (wc_wr_id wca)) (s_exec (_settings n3)) k lease in
       Cexecvp argv ∈ u4 ∧ argv = before ++ "--fast"%string :: to_string (i16 (lr_cores lreq)) :: after).
Proof.
  intros lreq id lease Hst Hcl Hlc Hlq Hpos E1 Ho Hsent Hst2 Hnew E2 Hsteps Hid Hnn Ereq Hst4 Hcl4 Hc4 Hq4 Hown E4.
  apply (ResourceManager.lease_request_inv _ _ _ _ _ _ _ _ _ cl lconn lqp) in E1; [|done..].
  destruct E1 as (r & resp' & Ho' & _ & _ & Hr). fold lreq in Ho'. rewrite Ho in Ho'. injection Ho' as <- <- _.
  destruct Hr as [Hsd _]. rewrite Hsent in Hsd. injection Hsd as Hsd.
  apply (message_announces received wcr n1 u1 r1 n2 u2 Hst2) in E2 as Ha.
  - rewrite Hsd in Ha. cbn [la_lease_id la_cores la_memory] in Ha. rewrite swrap_wrap in Ha by lia.
    apply (announced_steps wide_shift indeterminate requests accounting _ _ (n2, u2) (n3, u3) Hsteps) in Ha.
    apply request_lease_id in Ereq as [Hrid _]. rewrite Hid in Hrid.
    assert (i32 (ar_lease_id (requests u3 (wc_qp_num wca) (wc_wr_id wca))) = id) as Hi.
    { rewrite Hrid. apply swrap_small; [lia|]. apply swrap_range. lia. }
    apply (allocation_inv _ _ _ _ _ _ _ _ _ _ cl4 conn qp) in E4; [|done..|by rewrite Hi].
    rewrite Hi in E4. unfold announced, kept in Ha. cbn [fst] in Ha. fold id lreq in Ha.
    destruct E4 as (Hl & Hs & _ & x & addr & data & key & Hcs & Hco & _ & _ & _ & _ & Hx).
    rewrite Ha in Hl, Hco, Hx. cbn in Hl, Hco, Hx. split; [done|]. split; [by rewrite Hl, lookup_insert_eq|].
    exists x. split_and!; [done..|]. intros Hx'%Hx.
    match type of Hx' with Cexecvp (executor_argv ?a ?r ?x ?k ?y) ∈ _ => destruct (argv_cores a r x k y) as (b & f & Eq); exists a, k, b, f end.
    by split.
  - rewrite Hsd. cbn [la_lease_id]. by rewrite swrap_wrap by lia.
Qed.

(** C38. A request that comes before the announcement decides the size of the lease. When a client's
    allocation request names a number the node does not know, a lease of the size the request names is made
    up, and from then on it stays: after any steps, the announcement of the real lease included, every
    allocation request with that number, of any client, gets an executor of the size the first request named,
    with 512 MB. *)
Theorem early_request_decides `{Env} wide_shift indeterminate requests accounting
    wc1 n1 u1 r1 n2 u2 cl1 conn1 qp1 n3 u3 wc2 r2 n4 u4 cl2 conn2 qp2 :
  let first := requests u1 (wc_qp_num wc1) (wc_wr_id wc1) in
  let second := requests u3 (wc_qp_num wc2) (wc_wr_id wc2) in
  let id := i32 (ar_lease_id first) in
  0 ≤ id → _leases n1 !! id = None → i32 (ar_lease_id second) = id →
  wc_status wc1 = 0 → _clients n1 !! wc_qp_num wc1 = Some cl1 → connection cl1 = Some conn1 →
  Rdma.qps (m_state n1) !! conn1 = Some (Some qp1) →
  (∀ x, executor cl1 = Some x → Some conn1 ∉ connections x) →
  _handle_client_message wide_shift indeterminate requests accounting wc1 n1 u1 = Ok (r1, n2, u2) →
  rtc (em_step wide_shift indeterminate requests accounting) (n2, u2) (n3, u3) →
  wc_status wc2 = 0 → _clients n3 !! wc_qp_num wc2 = Some cl2 → connection cl2 = Some conn2 →
  Rdma.qps (m_state n3) !! conn2 = Some (Some qp2) →
  (∀ x, executor cl2 = Some x → Some conn2 ∉ connections x) →
  _handle_client_message wide_shift indeterminate requests accounting wc2 n3 u3 = Ok (r2, n4, u4) →
  _leases n4 !! id = Some (mk_Lease id (i16 (ar_cores first)) 512) ∧
  ∃ x, _clients n4 !! wc_qp_num wc2 = Some (set_executor (Some x) cl2) ∧ pe_cores x = i16 (ar_cores first).
Proof.
  intros first second id Hid Hnew Hsame Hs1 Hc1 Hk1 Hq1 Ho1 E1 Hsteps Hs2 Hc2 Hk2 Hq2 Ho2 E2.
  apply (allocation_inv _ _ _ _ _ _ _ _ _ _ cl1 conn1 qp1) in E1; [|done..].
  destruct E1 as (Hl & _). fold first id in Hl. rewrite Hnew in Hl. cbn [default] in Hl.
  assert (announced id (mk_Lease id (i16 (ar_cores first)) 512) n2) as Ha
    by (unfold announced, kept; by rewrite Hl, lookup_insert_eq).
  apply (announced_steps wide_shift indeterminate requests accounting _ _ (n2, u2) (n3, u3) Hsteps) in Ha.
  unfold announced, kept in Ha. cbn [fst] in Ha.
  apply (allocation_inv _ _ _ _ _ _ _ _ _ _ cl2 conn2 qp2) in E2; [|done..|by fold second; rewrite Hsame].
  fold second in E2. rewrite Hsame, Ha in E2. cbn [default] in E2.
  destruct E2 as (Hl2 & _ & _ & x & _ & _ & _ & Hcs & Hco & _).
  rewrite Hl2, Hcs, !lookup_insert_eq. split; [done|]. by exists x.
Qed.

(** ** Examples *)

(** The client of ResourceManager.v asks for 3 cores; the manager of ExecutorManager.v is told, and its
    client sends a request made by the client library that names 2 cores. *)
Definition demo_announcement : Z → LeaseAllocation := λ _, mk_LeaseAllocation 512 3 0.
Definition demo_told : manager * trace :=
  after (@_handle_res_mgr_message (manager_env 0) demo_announcement (mk_wc 0 0 8 0 12)) demo_client.

Definition demo_request (cores : Z) : AllocationRequest :=
  match ClientExecutor.allocation_request (ClientExecutor.demo_executor 2 0 0) ClientExecutor.demo_input
          1024 1024 0 cores 0 with
  | Ok req => req
  | Fault _ => ClientConnection.goodbye_request
  end.

Abbreviation demo_asks cores :=
  (@_handle_client_message (manager_env 0) (Some 0) 99 (λ _ _ _, demo_request cores) demo_accounting
     (mk_wc 0 0 13 0 48)).

Lemma lease_reaches_executor_witness :
  ∃ n4 u4 x, demo_asks 2 demo_told.1 demo_told.2 = Ok (tt, n4, u4) ∧
    executor <$> _clients n4 !! 13 = Some (Some x) ∧ pe_cores x = 3.
Proof.
  destruct (@ResourceManager._handle_client_message ResourceManager.busy_env Some ResourceManager.one_request
    (mk_wc 0 0 5 0 8) [] ResourceManager.demo_run.1 ResourceManager.demo_run.2) as [[[ps' m'] t']|] eqn:E1;
    [|vm_compute in E1; discriminate E1].
  destruct (ResourceManager._clients ResourceManager.demo_run.1 !! 5) as [cl|] eqn:Hcl;
    [|vm_compute in Hcl; discriminate Hcl].
  assert (ResourceManager.connection cl = Some 1) as Hconn by (vm_compute in Hcl; injection Hcl as <-; reflexivity).
  destruct (ResourceDB.open_lease Some 3 512 (ResourceManager.response_data cl)
    (ResourceManager.m_db ResourceManager.demo_run.1) ResourceManager.demo_run.2)
    as [[[[o resp] d] t1]|] eqn:Ho; [|vm_compute in Hcl; injection Hcl as <-; vm_compute in Ho; discriminate Ho].
  assert (o = Some 0%nat ∧ resp_lease_id resp = 0 ∧ t1 = ResourceManager.demo_run.2) as (-> & Hid & ->).
  { vm_compute in Hcl. injection Hcl as <-. vm_compute in Ho. injection Ho as <- <- _ <-.
    split; [reflexivity|]. split; [reflexivity|vm_compute; reflexivity]. }
  assert (ResourceManager.m_send_data m' !! 0%nat = Some (demo_announcement 0)) as Hsent
    by (vm_compute in E1; injection E1 as _ <- _; reflexivity).
  destruct (@_handle_res_mgr_message (manager_env 0) demo_announcement (mk_wc 0 0 8 0 12)
    demo_client.1 demo_client.2) as [[[[] n2] u2]|] eqn:E2; [|vm_compute in E2; discriminate E2].
  assert (demo_told = (n2, u2)) as Ht by (unfold demo_told, after; by rewrite E2).
  destruct (_clients n2 !! 13) as [cl4|] eqn:Hcl4; [|vm_compute in E2; injection E2 as <- _; vm_compute in Hcl4; discriminate Hcl4].
  assert (connection cl4 = Some 1 ∧ executor cl4 = None ∧
    Rdma.qps (m_state n2) !! 1 = Some (Some (mk_qp 13 70 71 72))) as (Hc4 & Hx4 & Hq4).
  { vm_compute in E2. injection E2 as <- _. vm_compute in Hcl4. injection Hcl4 as <-.
    split; [reflexivity|]. split; [reflexivity|vm_compute; reflexivity]. }
  destruct (demo_asks 2 n2 u2) as [[[[] n4] u4]|] eqn:E4;
    [|vm_compute in E2; injection E2 as <- <-; vm_compute in E4; discriminate E4].
  destruct (lease_reaches_executor ResourceManager.busy_env (manager_env 0) Some ResourceManager.one_request
    (mk_wc 0 0 5 0 8) [] ResourceManager.demo_run.1 ResourceManager.demo_run.2 ps' m' t' cl 1
    (mk_qp 5 70 71 72) 0%nat resp d (Some 0) 99 (λ _ _ _, demo_request 2) demo_accounting demo_announcement
    (mk_wc 0 0 8 0 12) demo_client.1 demo_client.2 tt n2 u2 n2 u2 (ClientExecutor.demo_executor 2 0 0)
    ClientExecutor.demo_input 1024 1024 0 2 0 (mk_wc 0 0 13 0 48) tt n4 u4 cl4 1 (mk_qp 13 70 71 72)
    eq_refl Hcl Hconn ltac:(vm_compute; reflexivity) ltac:(reflexivity) E1 Ho Hsent eq_refl
    ltac:(rewrite Hid; vm_compute; reflexivity) E2 ltac:(apply rtc_refl) ltac:(by rewrite Hid)
    ltac:(by rewrite Hid) ltac:(vm_compute; reflexivity) eq_refl Hcl4 Hc4 Hq4 ltac:(by rewrite Hx4) E4)
    as (_ & _ & x & Hcs & Hco & _).
  exists n4, u4, x. rewrite Ht. split; [exact E4|]. rewrite Hcs.
  split; [exact (f_equal (fmap executor) (lookup_insert_eq _ _ _))|exact Hco].
Defined.

(** The same client asks for 2 cores before the announcement of 3, and again after it. *)
Lemma early_request_decides_witness :
  ∃ n2 u2 n3 u3 n4 u4 x,
    demo_asks 2 demo_client.1 demo_client.2 = Ok (tt, n2, u2) ∧
    @_handle_res_mgr_message (manager_env 0) demo_announcement (mk_wc 0 0 8 0 12) n2 u2 = Ok (tt, n3, u3) ∧
    demo_asks 2 n3 u3 = Ok (tt, n4, u4) ∧
    l_cores <$> _leases n4 !! 0 = Some 2 ∧
    executor <$> _clients n4 !! 13 = Some (Some x) ∧ pe_cores x = 2.
Proof.
  destruct (demo_asks 2 demo_client.1 demo_client.2) as [[[[] n2] u2]|] eqn:E1; [|vm_compute in E1; discriminate E1].
  destruct (@_handle_res_mgr_message (manager_env 0) demo_announcement (mk_wc 0 0 8 0 12) n2 u2)
    as [[[[] n3] u3]|] eqn:E2; [|vm_compute in E1; injection E1 as <- <-; vm_compute in E2; discriminate E2].
  destruct (_clients demo_client.1 !! 13) as [cl1|] eqn:Hcl1; [|vm_compute in Hcl1; discriminate Hcl1].
  assert (connection cl1 = Some 1 ∧ executor cl1 = None) as [Hc1 Hx1]
    by (vm_compute in Hcl1; injection Hcl1 as <-; split; reflexivity).
  destruct (_clients n3 !! 13) as [cl2|] eqn:Hcl2;
    [|vm_compute in E1; injection E1 as <- <-; vm_compute in E2; injection E2 as <- <-;
      vm_compute in Hcl2; discriminate Hcl2].
  destruct (demo_asks 2 n3 u3) as [[[[] n4] u4]|] eqn:E3;
    [|vm_compute in E1; injection E1 as <- <-; vm_compute in E2; injection E2 as <- <-;
      vm_compute in E3; discriminate E3].
  assert (connection cl2 = Some 1 ∧ connections <$> executor cl2 = Some [None; None] ∧
    Rdma.qps (m_state n3) !! 1 = Some (Some (mk_qp 13 70 71 72))) as (Hc2 & Hx2 & Hq2).
  { vm_compute in E1. injection E1 as <- <-. vm_compute in E2. injection E2 as <- <-.
    vm_compute in Hcl2. injection Hcl2 as <-. split; [reflexivity|]. split; vm_compute; reflexivity. }
  destruct (@early_request_decides (manager_env 0) (Some 0) 99 (λ _ _ _, demo_request 2) demo_accounting
    (mk_wc 0 0 13 0 48) demo_client.1 demo_client.2 tt n2 u2 cl1 1 (mk_qp 13 70 71 72) n3 u3
    (mk_wc 0 0 13 0 48) tt n4 u4 cl2 1 (mk_qp 13 70 71 72))
    as (Hl & x & Hcs & Hco); [vm_compute; congruence|vm_compute; reflexivity|reflexivity|reflexivity|exact Hcl1|
      exact Hc1|vm_compute; reflexivity|by rewrite Hx1|exact E1| |reflexivity|exact Hcl2|exact Hc2|exact Hq2| |exact E3|].
  - apply rtc_once. exists demo_announcement. exact (ms_res_mgr _ _ _ _ _ _ _ _ _ _ E2).
  - intros e He. rewrite He in Hx2. injection Hx2 as ->. clear. set_solver.
  - exists n2, u2, n3, u3, n4, u4, x. split; [reflexivity|]. split; [exact E2|]. split; [exact E3|].
    assert (i32 (ar_lease_id (demo_request 2)) = 0 ∧ i16 (ar_cores (demo_request 2)) = 2) as [Hi Hn]
      by (split; vm_compute; reflexivity).
    cbv beta in Hl, Hco. rewrite Hi, Hn in Hl. rewrite Hn in Hco. rewrite Hl. split; [reflexivity|].
    split; [exact (f_equal (fmap executor) Hcs)|exact Hco].
Defined.
End LeasePath.
