(* ===== verification/Archive.v ===== *)
(** * Configuration files

    The lists of devices and of servers and the status of an executor as JSON:
    src/rfaas/{include/rfaas,lib}/{devices,resources}.{hpp,cpp},
    src/rdmalib/{include/rdmalib/server.hpp,lib/server.cpp} and [RemoteBuffer] of
    src/rdmalib/include/rdmalib/buffer.hpp.  The archives are those of cereal, a third-party
    library: they are a parameter, a class with its documented behaviour as laws, and
    [reference_archive] is an instance. *)

From S2P Require Import Prelude Verbs Buffer ResourceDB ClientConnection.

Module Archive.
Import ClientConnection.

(** ** The archives *)

(** The integer types of the fields that are stored. *)
Inductive int_type : Type := I16 | U16 | I32 | U32 | U64.

Definition fits (ty : int_type) (n : Z) : Prop :=
  match ty with
  | I16 => - 2 ^ 15 ≤ n < 2 ^ 15
  | U16 => 0 ≤ n < 2 ^ 16
  | I32 => - 2 ^ 31 ≤ n < 2 ^ 31
  | U32 => 0 ≤ n < 2 ^ 32
  | U64 => 0 ≤ n < 2 ^ 64
  end.

#[global] Instance fits_dec ty n : Decision (fits ty n).
Proof. destruct ty; apply _. Defined.

(** [JSONInputArchive(in)] makes a node of what a stream holds, or throws ([None]); [field name] is the
    value stored under a name, [elements] those of a vector, the others read a value.
    [JSONOutputArchive(out)] writes a node. *)
Class Cereal := {
  stream : Type;
  jnode : Type;
  parse : stream → option jnode;
  print : jnode → stream;
  field : string → jnode → option jnode;
  elements : jnode → option (list jnode);
  get_int : int_type → jnode → option Z;
  get_bool : jnode → option bool;
  get_string : jnode → option string;
  object : list (string * jnode) → jnode;
  vector : list jnode → jnode;
  put_int : int_type → Z → jnode;
  put_bool : bool → jnode;
  put_string : string → jnode;
}.

(** What was written is read back: fields by name, in any order, and a name that was not written is not
    found. *)
Class CerealLaws (cr : Cereal) : Prop := {
  parse_print : ∀ n, parse (print n) = Some n;
  field_object : ∀ fs name, NoDup fs.*1 → field name (object fs) = (list_to_map fs : gmap string jnode) !! name;
  elements_vector : ∀ l, elements (vector l) = Some l;
  get_put_int : ∀ ty n, fits ty n → get_int ty (put_int ty n) = Some n;
  get_put_bool : ∀ b, get_bool (put_bool b) = Some b;
  get_put_string : ∀ s, get_string (put_string s) = Some s;
}.

(** [CEREAL_NVP(x)]: the name is looked up, then the value is read. *)
Definition or_throw {A} (what : string) (o : option A) : result A :=
  match o with Some a => Ok a | None => Fault (Throw what) end.

Section Loading.
Context `{Cereal}.

Definition nvp {A} (read : jnode → result A) (name : string) (n : jnode) : result A :=
  v ← or_throw "JSON Parsing failed - provided NVP not found" (field name n); read v.

Definition load_int (ty : int_type) (n : jnode) : result Z := or_throw "rapidjson internal assertion failure" (get_int ty n).
Definition load_bool (n : jnode) : result bool := or_throw "rapidjson internal assertion failure" (get_bool n).
Definition load_string (n : jnode) : result string := or_throw "rapidjson internal assertion failure" (get_string n).

(** A [std::vector]. *)
Fixpoint load_all {A} (read : jnode → result A) (l : list jnode) : result (list A) :=
  match l with
  | [] => Ok []
  | n :: l => a ← read n; r ← load_all read l; Ok (a :: r)
  end.
Definition load_vector {A} (read : jnode → result A) (n : jnode) : result (list A) :=
  l ← or_throw "rapidjson internal assertion failure" (elements n); load_all read l.

(** The stream of a file that was not opened has nothing to parse. *)
Definition archive_in (s : option stream) : result jnode :=
  or_throw "rapidjson internal assertion failure" (s ≫= parse).

(** ** Devices *)

Definition save_device (d : device_data) : jnode :=
  object [("name", put_string (dev_name d)); ("ip_address", put_string (ip_address d));
          ("port", put_int I32 (dev_port d)); ("max_inline_data", put_int U16 (max_inline_data d));
          ("default_receive_buffer_size", put_int I16 (default_receive_buffer_size d))]%string.

Definition load_device (n : jnode) : result device_data :=
  name ← nvp load_string "name" n;
  ip ← nvp load_string "ip_address" n;
  port ← nvp (load_int I32) "port" n;
  inline ← nvp (load_int U16) "max_inline_data" n;
  size ← nvp (load_int I16) "default_receive_buffer_size" n;
  Ok (mk_device name ip port inline size).

(** [devices::deserialize(in)]: the vector of the new instance. *)
Definition devices_deserialize (s : option stream) : result (list device_data) :=
  n ← archive_in s; nvp (load_vector load_device) "devices" n.

(** ** Servers *)

Definition save_server (s : ResourceDB.server_data) : jnode :=
  object [("node", put_string (ResourceDB.s_node s)); ("port", put_int I32 (ResourceDB.s_port s));
          ("cores", put_int I16 (ResourceDB.s_cores s)); ("memory", put_int I32 (ResourceDB.s_memory s));
          ("address", put_string (ResourceDB.s_address s))]%string.

Definition load_server (n : jnode) : result ResourceDB.server_data :=
  node ← nvp load_string "node" n;
  port ← nvp (load_int I32) "port" n;
  cores ← nvp (load_int I16) "cores" n;
  memory ← nvp (load_int I32) "memory" n;
  address ← nvp load_string "address" n;
  Ok (ResourceDB.mk_server_data node address port cores memory).

(** [servers::read(in)] (and [deserialize], for the shared instance) and [servers::write(out)]. *)
Definition servers_read (s : option stream) : result (list ResourceDB.server_data) :=
  n ← archive_in s; nvp (load_vector load_server) "executors" n.

Definition servers_write (l : list ResourceDB.server_data) : stream :=
  print (object [("executors"%string, vector (map save_server l))]).

(** ** The status of an executor *)

Record ServerStatus := mk_status {
  _buffers : list Buffer.RemoteBuffer; _threads_allocator : Buffer.RemoteBuffer; _address : string; _port : Z }.

(** [ServerStatus(address, port)]; the default constructor has no address and port 0. *)
Definition status_construct (address : string) (port : Z) : ServerStatus :=
  mk_status [] Buffer.remote_default address port.
Definition status_default : ServerStatus := status_construct "" 0.

(** [{mr.address(), mr.rkey(), mr.size()}] *)
Definition remote_of `{Env} {S} (b : Buffer.t) : M S Buffer.RemoteBuffer :=
  a ← Buffer.address b; k ← Buffer.rkey b; mret (Buffer.mk_remote a k (Buffer.size b)).

Definition add_buffer `{Env} (b : Buffer.t) : M ServerStatus unit :=
  r ← remote_of b;
  modify (λ st, mk_status (_buffers st ++ [r]) (_threads_allocator st) (_address st) (_port st)).

Definition set_thread_allocator `{Env} (b : Buffer.t) : M ServerStatus unit :=
  r ← remote_of b;
  modify (λ st, mk_status (_buffers st) r (_address st) (_port st)).

(** [RemoteBuffer::serialize(ar)], in both directions. *)
Definition save_remote (r : Buffer.RemoteBuffer) : jnode :=
  object [("addr", put_int U64 (Buffer.rb_addr r)); ("rkey", put_int U32 (Buffer.rb_rkey r));
          ("size", put_int U32 (Buffer.rb_size r))]%string.
Definition load_remote (n : jnode) : result Buffer.RemoteBuffer :=
  addr ← nvp (load_int U64) "addr" n;
  rkey ← nvp (load_int U32) "rkey" n;
  size ← nvp (load_int U32) "size" n;
  Ok (Buffer.mk_remote addr rkey size).

(** [save(ar)], [load(ar)]. *)
Definition save_status (st : ServerStatus) : list (string * jnode) :=
  [("_address", put_string (_address st)); ("_port", put_int I32 (_port st));
   ("_threads_allocator", save_remote (_threads_allocator st));
   ("_buffers", vector (map save_remote (_buffers st)))]%string.
Definition load_status (n : jnode) : result ServerStatus :=
  address ← nvp load_string "_address" n;
  port ← nvp (load_int I32) "_port" n;
  allocator ← nvp load_remote "_threads_allocator" n;
  buffers ← nvp (load_vector load_remote) "_buffers" n;
  Ok (mk_status buffers allocator address port).

(** An object without a name is stored under [value0]. *)
Definition serialize (st : ServerStatus) : stream :=
  print (object [("value0"%string, object (save_status st))]).
Definition deserialize (s : option stream) : result ServerStatus :=
  n ← archive_in s; nvp load_status "value0" n.
End Loading.

(** ** What is written is read back *)

Ltac distinct_names := cbn; apply (bool_decide_unpack _); vm_compute; exact I.

Section Roundtrips.
Context `{CerealLaws}.

Lemma nvp_object {A} (read : jnode → result A) fs name v :
  NoDup fs.*1 → (name, v) ∈ fs → nvp read name (object fs) = read v.
Proof using All. intros Hn Hv. unfold nvp. by rewrite field_object, (elem_of_list_to_map_1 _ _ v). Qed.

Lemma nvp_missing {A} (read : jnode → result A) fs name :
  NoDup fs.*1 → name ∉ fs.*1 →
  nvp read name (object fs) = Fault (Throw "JSON Parsing failed - provided NVP not found").
Proof using All. intros Hn Hv. unfold nvp. by rewrite field_object, not_elem_of_list_to_map_1. Qed.

Lemma load_put_int ty n : fits ty n → load_int ty (put_int ty n) = Ok n.
Proof using All. intros Hn. unfold load_int. by rewrite get_put_int. Qed.
Lemma load_put_string s : load_string (put_string s) = Ok s.
Proof using All. unfold load_string. by rewrite get_put_string. Qed.
Lemma load_put_bool b : load_bool (put_bool b) = Ok b.
Proof using All. unfold load_bool. by rewrite get_put_bool. Qed.

Lemma load_save_vector {A} (read : jnode → result A) write l :
  (∀ a, a ∈ l → read (write a) = Ok a) → load_vector read (vector (map write l)) = Ok l.
Proof using All.
  intros Ha. unfold load_vector. rewrite elements_vector. cbn [or_throw mbind result_bind].
  induction l as [|a l IH]; cbn [map load_all]; [done|].
  rewrite Ha by constructor. cbn [mbind result_bind]. rewrite IH; [done|]. intros b Hb. apply Ha. by constructor.
Qed.

(** Reading the fields of an object one after the other. *)
Ltac load_field :=
  erewrite nvp_object; [|distinct_names|repeat first [apply list_elem_of_here|apply list_elem_of_further]];
  rewrite ?load_put_string, ?load_put_bool, ?load_put_int by done; cbn [mbind result_bind].

Definition device_fits (d : device_data) : Prop :=
  fits I32 (dev_port d) ∧ fits U16 (max_inline_data d) ∧ fits I16 (default_receive_buffer_size d).

Lemma load_save_device d : device_fits d → load_device (save_device d) = Ok d.
Proof using All. intros (Hp & Hi & Hs). unfold load_device, save_device. do 5 load_field. by destruct d. Qed.

Definition server_fits (s : ResourceDB.server_data) : Prop :=
  fits I32 (ResourceDB.s_port s) ∧ fits I16 (ResourceDB.s_cores s) ∧ fits I32 (ResourceDB.s_memory s).

Lemma load_save_server s : server_fits s → load_server (save_server s) = Ok s.
Proof using All. intros (Hp & Hi & Hs). unfold load_server, save_server. do 5 load_field. by destruct s. Qed.

Lemma read_written l : Forall server_fits l → servers_read (Some (servers_write l)) = Ok l.
Proof using All.
  intros Hl. unfold servers_read, servers_write, archive_in. cbn [mbind option_bind]. rewrite parse_print.
  cbn [or_throw mbind result_bind]. load_field. apply load_save_vector. intros s Hs.
  apply load_save_server. by eapply Forall_forall in Hl.
Qed.

Definition remote_fits (r : Buffer.RemoteBuffer) : Prop :=
  fits U64 (Buffer.rb_addr r) ∧ fits U32 (Buffer.rb_rkey r) ∧ fits U32 (Buffer.rb_size r).

Lemma load_save_remote r : remote_fits r → load_remote (save_remote r) = Ok r.
Proof using All. intros (Hp & Hi & Hs). unfold load_remote, save_remote. do 3 load_field. by destruct r. Qed.

(** The status file of an executor gives its status back. *)
Lemma status_roundtrip st :
  fits I32 (_port st) → remote_fits (_threads_allocator st) → Forall remote_fits (_buffers st) →
  deserialize (Some (serialize st)) = Ok st.
Proof using All.
  intros Hp Ha Hb. unfold deserialize, serialize, archive_in. cbn [mbind option_bind]. rewrite parse_print.
  cbn [or_throw mbind result_bind]. load_field. unfold load_status, save_status. do 2 load_field.
  load_field. rewrite load_save_remote by done. cbn [mbind result_bind]. load_field.
  rewrite load_save_vector; [by destruct st|]. intros r Hr. apply load_save_remote. by eapply Forall_forall in Hb.
Qed.
End Roundtrips.

(** ** A list that lacks a field

    The list of servers of docs/tutorial.md has addresses, ports and cores only. *)

Lemma tutorial_servers_rejected `{CerealLaws} (addr port cores : jnode) (rest : list jnode) :
  servers_read (Some (print (object [("executors"%string,
    vector (object [("port", port); ("cores", cores); ("address", addr)]%string :: rest))]))) =
  Fault (Throw "JSON Parsing failed - provided NVP not found").
Proof.
  unfold servers_read, archive_in. cbn [mbind option_bind]. rewrite parse_print. cbn [or_throw mbind result_bind].
  erewrite nvp_object; [|distinct_names|apply list_elem_of_here]. unfold load_vector. rewrite elements_vector.
  cbn [or_throw mbind result_bind load_all]. unfold load_server.
  rewrite (nvp_missing load_string _ "node"); [done|distinct_names|].
  cbn. apply (bool_decide_unpack _). vm_compute. exact I.
Qed.

(** ** An archive

    Documents are trees; the first of several values under a name counts. *)

Inductive json : Type :=
  | JObject (fs : list (string * json)) | JVector (l : list json) | JInt (n : Z) | JBool (b : bool)
  | JString (s : string).

Definition reference_archive : Cereal := {|
  stream := json; jnode := json; parse := Some; print := λ n, n;
  field := λ name n, match n with JObject fs => (list_to_map fs : gmap string json) !! name | _ => None end;
  elements := λ n, match n with JVector l => Some l | _ => None end;
  get_int := λ ty n, match n with JInt z => if decide (fits ty z) then Some z else None | _ => None end;
  get_bool := λ n, match n with JBool b => Some b | _ => None end;
  get_string := λ n, match n with JString s => Some s | _ => None end;
  object := JObject; vector := JVector; put_int := λ _, JInt; put_bool := JBool; put_string := JString;
|}.

#[global] Instance reference_archive_laws : CerealLaws reference_archive.
Proof. split; try done. intros ty n Hn. cbn [get_int put_int reference_archive]. by rewrite decide_True. Qed.
End Archive.
