(* ===== verification/ResourceStart.v ===== *)
(** * Starting the resource manager

    The command line, the settings and [main] of the resource manager
    (src/server/resource_manager/{opts,settings,cli}.cpp, settings.hpp), the constructor of [Manager],
    [start], [shutdown] and its database file (manager.cpp).  Files are an argument: what the stream of a
    path holds, if it can be opened.  The HTTP endpoint is a third-party library; what is kept of it is
    whether it serves.  [main] is followed until its threads run; [finish] is the rest, after they have
    ended. *)

From S2P Require Import Prelude CommandLine Verbs Messages ResourceDB Rdma ResourceManager ClientConnection Archive.

Module ResourceStart.
Import CommandLine ClientConnection Archive.

(** ** Options *)

Record Options := mk_Options {
  json_config : string; initial_database : string; output_database : string; device_database : string;
  verbose : bool }.

Definition declared : list option_spec :=
  [mk_option "c" "config" false None; mk_option "i" "input-database" false (Some "");
   mk_option "o" "output-database" false (Some ""); mk_option "" "rdma-threads" false None;
   mk_option "" "device-database" false None; mk_option "v" "verbose" true (Some "false");
   mk_option "h" "help" true (Some "false")]%string.

(** [None]: the help was printed, the process exits. *)
Definition opts `{Cxxopts} (argv : list string) : result (option Options) :=
  parsed ← CommandLine.or_throw "options" (cx_parse declared argv);
  let p := parsed.1 in
  if bool_decide (parsed.2 "help"%string ≠ 0%nat) then Ok None else
  json_config ← as_string p "config";
  initial_database ← as_string p "input-database";
  output_database ← as_string p "output-database";
  device_database ← as_string p "device-database";
  verbose ← as_bool p "verbose";
  Ok (Some (mk_Options json_config initial_database output_database device_database verbose)).

(** ** Settings *)

Record Settings := mk_Settings {
  rdma_device : string; rdma_device_port : Z; s_device : device_data; http_network_address : string;
  http_network_port : Z; rdma_threads : Z; rdma_secret : Z; rdma_sleep : bool }.

Section Start.
Context `{Cereal}.

(** [load(ar)], before the device is known. *)
Definition load_settings (n : jnode) : result (device_data → Settings) :=
  rdma_device ← nvp load_string "rdma_device" n;
  rdma_device_port ← nvp (load_int I32) "rdma_device_port" n;
  rdma_threads ← nvp (load_int I32) "rdma-threads" n;
  rdma_secret ← nvp (load_int U32) "rdma-secret" n;
  rdma_sleep ← nvp load_bool "rdma-sleep" n;
  http_network_address ← nvp load_string "http_network_address" n;
  http_network_port ← nvp (load_int U16) "http_network_port" n;
  Ok (λ dev, mk_Settings rdma_device rdma_device_port dev http_network_address http_network_port rdma_threads
               rdma_secret rdma_sleep).

(** The name does not depend on the device. *)
Definition settings_deserialize (devices : list device_data) (s : option stream) : result Settings :=
  n ← archive_in s;
  settings ← nvp load_settings "config" n;
  let name := rdma_device (settings (mk_device "" "" 0 0 0)) in
  dev ← or_throw "Unknown device!" (device name devices);
  Ok (settings dev).

(** ** The process *)

Inductive loop : Type := Listen | ProcessEventsSleep | ProcessClients | ProcessExecutors.

Record process := mk_process {
  p_mgr : ResourceManager.manager; _settings : Settings; _executors_output_path : option string;
  p_http : bool; p_threads : list loop; _shutdown : bool }.

Definition set_mgr (m : ResourceManager.manager) (p : process) : process :=
  mk_process m (_settings p) (_executors_output_path p) (p_http p) (p_threads p) (_shutdown p).
Definition set_http (b : bool) (p : process) : process :=
  mk_process (p_mgr p) (_settings p) (_executors_output_path p) b (p_threads p) (_shutdown p).
Definition set_threads (l : list loop) (p : process) : process :=
  mk_process (p_mgr p) (_settings p) (_executors_output_path p) (p_http p) l (_shutdown p).

Context `{Env}.

Definition on_mgr {A} (op : M ResourceManager.manager A) : M process A := zoom p_mgr set_mgr op.

(** [Manager(settings)] *)
Definition manager_construct (s : Settings) : M unit process :=
  st ← Rdma.passive_construct (ip_address (s_device s)) (rdma_device_port s)
         (default_receive_buffer_size (s_device s)) true (max_inline_data (s_device s));
  mret (mk_process
    (ResourceManager.mk_manager st ResourceDB.empty_db ∅ ∅ 0 [] [] (rdma_secret s) (max_inline_data (s_device s)))
    s None false [] false).

(** [start()], until the threads run. *)
Definition start : M process unit :=
  modify (set_http true) ;;
  on_mgr (ResourceManager.on_state (Rdma.register_shared_queue 1 false)) ;;
  on_mgr (ResourceManager.on_state (Rdma.register_shared_queue 2 false)) ;;
  p ← read;
  modify (set_threads (Listen :: if rdma_sleep (_settings p) then [ProcessEventsSleep]
                                 else [ProcessClients; ProcessExecutors])).

(** [shutdown()], and the handler of SIGINT. *)
Definition shutdown : M process unit :=
  modify (λ p, mk_process (p_mgr p) (_settings p) (_executors_output_path p) false (p_threads p) true).

Definition signal_handler (instance : option process) (t : trace) : result (process * trace) :=
  match instance with
  | None => Fault (AssertFailed "instance")
  | Some p => r ← shutdown p t; Ok (r.1.2, r.2)
  end.

(** [read_database(path)], [set_database_path(name)]. *)
Definition read_database (files : string → option stream) (path : string) : M process unit :=
  servers ← lift (servers_read (files path));
  on_mgr (ResourceManager.on_db (ResourceDB.read_db servers)).

Definition set_database_path (name : string) : M process unit :=
  modify (λ p, mk_process (p_mgr p) (_settings p) (Some name) (p_http p) (p_threads p) (_shutdown p)).

(** [dump_database()]: the file that is written. *)
Definition dump_database : M process (option (string * stream)) :=
  p ← read;
  match _executors_output_path p with
  | None => mret None
  | Some path =>
      servers ← on_mgr (ResourceManager.on_db ResourceDB.write_db);
      mret (Some (path, servers_write servers))
  end.

(** What [main] does with the manager it has constructed. *)
Definition set_up (files : string → option stream) (o : Options) : M process unit :=
  when (negb (bool_decide (initial_database o = ""%string))) (read_database files (initial_database o)) ;;
  when (negb (bool_decide (output_database o = ""%string))) (set_database_path (output_database o)) ;;
  start.

Definition main `{Cxxopts} (files : string → option stream) (argv : list string) : M unit (option process) :=
  o ← lift (opts argv);
  match o with
  | None => mret None
  | Some o =>
      devices ← lift (devices_deserialize (files (device_database o)));
      settings ← lift (settings_deserialize devices (files (json_config o)));
      p ← manager_construct settings;
      p ← on_object p (set_up files o);
      mret (Some p)
  end.

(** The end of [main], when the threads have been joined: the file that is written. *)
Definition finish : M process (option (string * stream)) := dump_database.
End Start.
End ResourceStart.
