(* ===== verification/Admission.v ===== *)
(** * The secret of a running resource manager

    The secret that the resource manager compares with is the one of its settings (ResourceStart.v), in
    every state its threads (ResourceManager.v) can reach. *)

From S2P Require Import Prelude CommandLine Verbs PrivateData Buffer Queue Connection Messages ResourceDB Rdma ResourceManager ClientConnection Archive ResourceStart.

Module Admission.
Import ResourceManager.

Section Secret.
Context `{Env} (erased : nat → option nat)
  (requests : trace → Z → Z → LeaseRequest) (messages : trace → Z → Z → exec_message).

Lemma secret_on_db {A} (op : M ResourceDB.ExecutorDB A) : frames _secret (on_db op).
Proof using. unfold on_db. auto with rfaas. Qed.

Lemma secret_on_executors {A} (op : M ResourceDB.Executors A) : frames _secret (on_executors op).
Proof using. apply secret_on_db. Qed.

#[local] Hint Resolve secret_on_db secret_on_executors : rfaas.

Lemma secret_initialize exec conn : frames _secret (initialize_connection exec conn).
Proof using. unfold initialize_connection, pd. auto 20 with rfaas. Qed.

#[local] Hint Resolve secret_initialize : rfaas.

Lemma secret_handle_event conn status : frames _secret (handle_event conn status).
Proof using.
  unfold handle_event, conn_private, enqueue_executor, enqueue_client. apply frames_bind; [auto with rfaas|].
  intros [key secret]. destruct status; repeat case_match; auto with rfaas;
    (apply frames_bind; [auto with rfaas|]; intros expected; case_match; auto 20 with rfaas).
Qed.

Lemma secret_listen : frames _secret listen_rdma.
Proof using.
  unfold listen_rdma. apply frames_bind; [auto with rfaas|]. intros ready. destruct (negb ready); [auto with rfaas|].
  apply frames_bind; [auto with rfaas|]. intros [[conn|] status]; [apply secret_handle_event|auto with rfaas].
Qed.

Lemma secret_executor_op op : frames _secret (handle_executor_op op).
Proof using.
  destruct op; cbn [handle_executor_op]; unfold _handle_executor_connection, _handle_executor_disconnection;
    auto 10 with rfaas.
Qed.

Lemma secret_client_op op : frames _secret (handle_client_op op).
Proof using.
  destruct op; cbn [handle_client_op]; unfold _handle_client_connection, _handle_client_disconnection, update_client.
  - auto 10 with rfaas.
  - do 3 (apply frames_bind; [auto with rfaas|]; intros ?). case_match; auto with rfaas.
Qed.

Lemma secret_message wc : frames _secret (_handle_message messages wc).
Proof using.
  unfold _handle_message. case_match; [auto with rfaas|]. apply frames_bind; [auto with rfaas|]. intros [l|]; [|auto with rfaas].
  apply frames_bind; [auto with rfaas|]. intros e. apply frames_bind; [case_bool_decide; auto with rfaas|]. intros _.
  apply frames_bind; [by intros ? ? ? ? ? [= _ <- _]|]. intros msg.
  apply frames_bind; [destruct msg; auto with rfaas|]. auto 10 with rfaas.
Qed.

Lemma secret_client_message wc ps : frames _secret (_handle_client_message erased requests wc ps).
Proof using.
  unfold _handle_client_message, update_client. case_match; [auto with rfaas|]. apply frames_bind; [auto with rfaas|].
  intros m. case_match; [|auto with rfaas]. apply frames_bind; [case_bool_decide; auto with rfaas|]. intros _.
  apply frames_bind; [by intros ? ? ? ? ? [= _ <- _]|]. intros req. cbn zeta. case_match; [|auto 10 with rfaas].
  do 2 (apply frames_bind; [auto with rfaas|]; intros ?). case_match. apply frames_bind; [auto with rfaas|]. intros _.
  apply frames_bind; [case_match; auto 10 with rfaas|]. auto 10 with rfaas.
Qed.

Lemma secret_steps st st' :
  rtc (manager_step erased requests messages) st st' → _secret st'.1.1 = _secret st.1.1.
Proof using.
  induction 1 as [|x y z Hst _ IH]; [done|]. rewrite IH. clear IH.
  destruct Hst as [m t o m' t' E|m t o op m' t' E|m t o op m' t' E|m t o wc m' t' _ E|m t o wc ps ps' m' t' _ _ E
    |m t o parse nd rs body r m' t' _ E|m t o servers m' t' _ E]; cbn [fst].
  - exact (secret_listen _ _ _ _ _ E).
  - exact (secret_executor_op _ _ _ _ _ _ E).
  - exact (secret_client_op _ _ _ _ _ _ E).
  - exact (secret_message _ _ _ _ _ _ E).
  - exact (secret_client_message _ _ _ _ _ _ _ E).
  - exact (secret_on_db _ _ _ _ _ _ E).
  - exact (secret_on_db _ _ _ _ _ _ E).
Qed.
End Secret.

(** ** The secret of the settings *)

Section Configured.
Context `{Archive.Cereal, Env}.

Definition configuration (p : ResourceStart.process) : Z * ResourceStart.Settings :=
  (_secret (ResourceStart.p_mgr p), ResourceStart._settings p).

Lemma configured_on_mgr {A} (op : M manager A) : frames _secret op → frames configuration (ResourceStart.on_mgr op).
Proof using.
  intros Ho p t a p' t' E. unfold ResourceStart.on_mgr in E. run_inv_at E. unfold configuration. cbn.
  by rewrite (Ho _ _ _ _ _ E).
Qed.

Lemma configured_start : frames configuration ResourceStart.start.
Proof using.
  unfold ResourceStart.start. apply frames_bind; [auto with rfaas|]. intros _.
  do 2 (apply frames_bind; [apply configured_on_mgr; auto with rfaas|]; intros ?). auto with rfaas.
Qed.

Lemma configured_set_up files o : frames configuration (ResourceStart.set_up files o).
Proof using.
  unfold ResourceStart.set_up, ResourceStart.read_database, ResourceStart.set_database_path, when.
  apply frames_bind.
  - case_match; [|auto with rfaas]. apply frames_bind; [auto with rfaas|]. intros l. apply configured_on_mgr, secret_on_db.
  - intros _. apply frames_bind; [case_match; auto with rfaas|]. intros _. apply configured_start.
Qed.

Lemma main_secret `{CommandLine.Cxxopts} files argv t p t' :
  ResourceStart.main files argv tt t = Ok (Some p, tt, t') →
  _secret (ResourceStart.p_mgr p) = ResourceStart.rdma_secret (ResourceStart._settings p).
Proof using.
  intros E. unfold ResourceStart.main in E. bind_inv E as o s1 t1 E1. run_inv_at E1.
  destruct o as [o|]; [|discriminate E]. bind_inv E as devs s2 t2 E2. run_inv_at E2.
  bind_inv E as st s3 t3 E3. run_inv_at E3. bind_inv E as p0 s4 t4 E4. bind_inv E as p1 s5 t5 E5.
  injection E as -> _ _. apply on_object_Ok in E5 as [E5 _]. apply configured_set_up in E5.
  injection E5 as -> ->. unfold ResourceStart.manager_construct in E4. bind_inv E4 as pa s6 t6 E6. by run_inv_at E4.
Qed.
End Configured.
End Admission.
