(* ===== verification/ExecutorStart.v ===== *)
(** * Starting an executor manager

    The command line, the settings and [main] of the executor manager
    (src/server/executor_manager/{opts,settings,cli}.cpp, settings.hpp), the constructor of [Manager], the
    threads of [start] and [shutdown] (manager.cpp).  As in ResourceStart.v, files are an argument, and
    [main] is followed until its threads run. *)

From S2P Require Import Prelude CommandLine Verbs Buffer Messages Rdma ExecutorManager ClientConnection Archive.

Module ExecutorStart.
Import CommandLine ClientConnection Archive.

(** ** Options *)

Record Options := mk_Options {
  json_config : string; device_database : string; skip_rm : bool; max_funcs : Z; verbose : bool }.

Definition declared : list option_spec :=
  [mk_option "c" "config" false None; mk_option "" "device-database" false None;
   mk_option "" "skip-resource-manager" true (Some "false"); mk_option "" "max-funcs" false (Some "1");
   mk_option "v" "verbose" true (Some "false")]%string.

Definition opts `{Cxxopts} (argv : list string) : result Options :=
  parsed ← CommandLine.or_throw "options" (cx_parse declared argv);
  let p := parsed.1 in
  json_config ← as_string p "config";
  device_database ← as_string p "device-database";
  verbose ← as_bool p "verbose";
  skip_rm ← as_bool p "skip-resource-manager";
  max_funcs ← as_int p "max-funcs";
  Ok (mk_Options json_config device_database skip_rm max_funcs verbose).

(** ** Settings *)

Record Settings := mk_Settings {
  rdma_device : string; rdma_device_port : Z; s_device : device_data; node_name : string; rdma_sleep : bool;
  resource_manager_address : string; resource_manager_port : Z; resource_manager_secret : Z;
  exec : ExecutorManager.ExecutorSettings }.

Section Start.
Context `{Cereal}.

(** [ExecutorSettings::load(ar)]; the two sizes are those of the device. *)
Definition load_executor (n : jnode) : result (device_data → ExecutorManager.ExecutorSettings) :=
  use_docker ← nvp load_bool "use_docker" n;
  repetitions ← nvp (load_int I32) "repetitions" n;
  warmup_iters ← nvp (load_int I32) "warmup_iters" n;
  pin_threads ← nvp load_bool "pin_threads" n;
  Ok (λ dev, ExecutorManager.mk_ExecutorSettings use_docker repetitions warmup_iters
               (default_receive_buffer_size dev) (max_inline_data dev) pin_threads).

(** [Settings::load(ar)], before the device and the settings of the executors are known. *)
Definition load_settings (n : jnode) : result (device_data → ExecutorManager.ExecutorSettings → Settings) :=
  rdma_device ← nvp load_string "rdma_device" n;
  rdma_device_port ← nvp (load_int I32) "rdma_device_port" n;
  node_name ← nvp load_string "node_name" n;
  rdma_sleep ← nvp load_bool "rdma-sleep" n;
  resource_manager_address ← nvp load_string "resource_manager_address" n;
  resource_manager_port ← nvp (load_int I32) "resource_manager_port" n;
  resource_manager_secret ← nvp (load_int I32) "resource_manager_secret" n;
  Ok (λ dev x, mk_Settings rdma_device rdma_device_port dev node_name rdma_sleep resource_manager_address
                 resource_manager_port resource_manager_secret x).

Definition settings_deserialize (devices : list device_data) (s : option stream) : result Settings :=
  n ← archive_in s;
  settings ← nvp load_settings "config" n;
  executor ← nvp load_executor "executor" n;
  let none := mk_device "" "" 0 0 0 in
  dev ← or_throw "Unknown device!" (device (rdma_device (settings none (executor none))) devices);
  Ok (settings dev (executor dev)).

(** What the manager reads of its settings while it runs (ExecutorManager.v). *)
Definition manager_settings (s : Settings) : ExecutorManager.Settings :=
  ExecutorManager.mk_Settings (ip_address (s_device s)) (rdma_device_port s) (node_name s)
    (resource_manager_secret s) (exec s).

(** ** The process *)

(** The threads and the cores they are bound to. *)
Inductive loop : Type := Listen | ProcessEventsSleep | PollRdma.

Record process := mk_process {
  p_mgr : ExecutorManager.manager; _settings : Settings; _max_funcs : Z; p_threads : list (loop * Z);
  _shutdown : bool }.

Definition set_mgr (m : ExecutorManager.manager) (p : process) : process :=
  mk_process m (_settings p) (_max_funcs p) (p_threads p) (_shutdown p).
Definition set_threads (l : list (loop * Z)) (p : process) : process :=
  mk_process (p_mgr p) (_settings p) (_max_funcs p) l (_shutdown p).

Context `{Env}.

Definition on_mgr {A} (op : M ExecutorManager.manager A) : M process A := zoom p_mgr set_mgr op.

(** [Manager(settings, skip_rm, max_funcs)] *)
Definition manager_construct (s : Settings) (skip_rm : bool) (max_funcs : Z) : M unit process :=
  st ← Rdma.passive_construct (ip_address (s_device s)) (rdma_device_port s)
         (default_receive_buffer_size (s_device s)) true 0;
  b ← Buffer.allocate 1 sizeof_LeaseStatus 0;
  rm ← (if skip_rm then mret None else
          r ← ExecutorManager.rm_construct (resource_manager_address s) (resource_manager_port s)
                (default_receive_buffer_size (s_device s));
          mret (Some r));
  mret (mk_process
    (ExecutorManager.mk_manager st [] ∅ rm b None (manager_settings s) skip_rm ∅ ∅) s max_funcs [] false).

(** [_bind_to_core(thread, name, core_index)] of a thread that was just started; [affinity] is what
    [pthread_setaffinity_np] answers. *)
Definition _bind_to_core (affinity : loop → Z) (l : loop) (core_index : Z) : M process unit :=
  expect_zero (affinity l) ;;
  modify (λ p, set_threads (p_threads p ++ [(l, core_index)]) p).

(** [start()], until the threads run; the connection and the memory are set up by
    [ExecutorManager.start]. *)
Definition start (affinity : loop → Z) : M process unit :=
  on_mgr ExecutorManager.start ;;
  _bind_to_core affinity Listen 1 ;;
  p ← read;
  if rdma_sleep (_settings p) then _bind_to_core affinity ProcessEventsSleep 2
  else _bind_to_core affinity PollRdma 2.

Definition shutdown : M process unit :=
  modify (λ p, mk_process (p_mgr p) (_settings p) (_max_funcs p) (p_threads p) true).

Definition signal_handler (instance : option process) (t : trace) : result (process * trace) :=
  match instance with
  | None => Fault (AssertFailed "instance")
  | Some p => r ← shutdown p t; Ok (r.1.2, r.2)
  end.

(** [main]: the exit code of a process that gives up, or the process with its threads; [fork_init] is what
    [ibv_fork_init] answers. *)
Definition main `{Cxxopts} (fork_init : Z) (affinity : loop → Z) (files : string → option stream)
    (argv : list string) : M unit (Z + process) :=
  if nonzero fork_init then mret (inl fork_init) else
  o ← lift (opts argv);
  match files (device_database o) with
  | None => mret (inl 1)
  | Some in_dev =>
      devices ← lift (devices_deserialize (Some in_dev));
      match files (json_config o) with
      | None => mret (inl 1)
      | Some in_cfg =>
          settings ← lift (settings_deserialize devices (Some in_cfg));
          p ← manager_construct settings (skip_rm o) (max_funcs o);
          p ← on_object p (start affinity);
          mret (inr p)
      end
  end.
End Start.
End ExecutorStart.
