(* ===== verification/Deployment.v ===== *)
(** * The processes as they are deployed

    What the managers read from their files (ResourceStart.v, ExecutorStart.v) and how it decides what they
    do with each other (ResourceManager.v, ExecutorManager.v). *)

From S2P Require Import Prelude CommandLine Verbs PrivateData Buffer Queue Connection Messages ResourceDB Rdma ResourceManager ExecutorManager ClientConnection Archive ResourceStart Admission ExecutorStart LeasePath.

Module Deployment.
Import Archive.

(** ** The database of nodes *)

Definition server_of (e : ResourceDB.Executor) : ResourceDB.server_data :=
  ResourceDB.mk_server_data (ResourceDB.node e) (ResourceDB.address e) (ResourceDB.port e) (ResourceDB.cores e)
    (ResourceDB.memory e).

(** The nodes that are known, by the name they are known by. *)
Definition directory (x : ResourceDB.Executors) : gmap string ResourceDB.server_data :=
  omap (λ l, server_of <$> ResourceDB.heap x !! l) (ResourceDB._executors_by_name x).

(** Every node is known by its own name. *)
Definition named (x : ResourceDB.Executors) : Prop :=
  map_Forall (λ k l, ∃ e, ResourceDB.heap x !! l = Some e ∧ ResourceDB.node e = k) (ResourceDB._executors_by_name x).

Definition by_node (l : list ResourceDB.server_data) : gmap string ResourceDB.server_data :=
  list_to_map ((λ s, (ResourceDB.s_node s, s)) <$> l).

(** What [write_db] makes of a list of entries. *)
Definition entries (x : ResourceDB.Executors) (kls : list (string * nat)) : list ResourceDB.server_data :=
  omap (λ kl : string * nat, e ← ResourceDB.heap x !! kl.2; Some (server_of e)) kls.

Lemma entries_named x kls :
  Forall (λ kl, ∃ e, ResourceDB.heap x !! kl.2 = Some e ∧ ResourceDB.node e = kl.1) kls →
  ResourceDB.s_node <$> entries x kls = kls.*1 ∧
  (λ s, (ResourceDB.s_node s, s)) <$> entries x kls =
    omap (λ kl, (kl.1,.) <$> (server_of <$> ResourceDB.heap x !! kl.2)) kls.
Proof.
  induction 1 as [|[k l] kls (e & He & Hk) _ [IH1 IH2]]; [done|]. cbn in He, Hk.
  unfold entries. cbn. rewrite He. cbn. unfold entries in IH1, IH2. by rewrite IH1, IH2, Hk.
Qed.

Lemma written_directory x :
  named x → let l := entries x (map_to_list (ResourceDB._executors_by_name x)) in
  NoDup (ResourceDB.s_node <$> l) ∧ by_node l = directory x.
Proof.
  intros Hn l. destruct (entries_named x (map_to_list (ResourceDB._executors_by_name x))) as [H1 H2].
  { apply Forall_forall. intros [k l'] Hin%elem_of_map_to_list. by apply Hn. }
  fold l in H1, H2. assert (NoDup (ResourceDB.s_node <$> l)) as Hd by (rewrite H1; apply NoDup_fst_map_to_list).
  split; [done|]. unfold by_node. rewrite H2. apply map_eq. intros k. apply option_eq. intros sd.
  rewrite <-elem_of_list_to_map by (rewrite <-H2, <-list_fmap_compose; exact Hd).
  rewrite list_elem_of_omap. unfold directory. rewrite lookup_omap. split.
  - intros ([k' l'] & Hin%elem_of_map_to_list & E). cbn in E. destruct (ResourceDB.heap x !! l') as [e|] eqn:He; [|done].
    cbn in E. injection E as -> <-. rewrite Hin. cbn. by rewrite He.
  - intros E. destruct (ResourceDB._executors_by_name x !! k) as [l'|] eqn:Hl; [|done]. cbn in E.
    exists (k, l'). split; [by apply elem_of_map_to_list|]. cbn. by rewrite E.
Qed.

(** Reading a new name. *)
Lemma add_new `{Env} name ip p c m x t r x' t' :
  ResourceDB.add_executor name ip p c m x t = Ok (r, x', t') → ResourceDB._executors_by_name x !! name = None →
  r = (Some (ResourceDB.next_loc x), true) ∧ ∃ rb sb,
    x' = ResourceDB.mk_Executors
      (<[ResourceDB.next_loc x := ResourceDB.mk_Executor name ip (i32 p) (i16 c) (i32 m) None (i16 c) (i32 m) rb sb]>
        (ResourceDB.heap x)) (S (ResourceDB.next_loc x))
      (<[name := ResourceDB.next_loc x]> (ResourceDB._executors_by_name x)) (ResourceDB._executors_by_conn x).
Proof.
  intros E Hn. unfold ResourceDB.add_executor in E. bind_inv E as l x1 t1 E1.
  apply ResourceDB.make_shared_inv in E1 as (-> & rb & sb & ->). step_inv E.
  cbn [ResourceDB._executors_by_name] in E. rewrite Hn in E. step_inv E. run_inv_at E. split; [done|]. by exists rb, sb.
Qed.


(** A node of the file in the database: known by its name, free, without a connection. *)
Definition offered (x : ResourceDB.Executors) (s : ResourceDB.server_data) (l : nat) : Prop :=
  ResourceDB._executors_by_name x !! ResourceDB.s_node s = Some l ∧
  ∃ e, ResourceDB.heap x !! l = Some e ∧ server_of e = s ∧ ResourceDB._connection e = None ∧
    ResourceDB._free_cores e = ResourceDB.cores e ∧ ResourceDB._free_memory e = ResourceDB.memory e.

(** A database that was read from a file: its nodes, offered in the order of the file. *)
Record read_from (d : ResourceDB.ExecutorDB) (l : list ResourceDB.server_data) : Prop := {
  rf_offered : Forall2 (offered (ResourceDB._executors d)) l (ResourceDB._free_nodes d);
  rf_names : ∀ k, is_Some (ResourceDB._executors_by_name (ResourceDB._executors d) !! k) →
    k ∈ ResourceDB.s_node <$> l;
  rf_fresh : ∀ loc e, ResourceDB.heap (ResourceDB._executors d) !! loc = Some e →
    (loc < ResourceDB.next_loc (ResourceDB._executors d))%nat }.

Lemma read_from_empty : read_from ResourceDB.empty_db [].
Proof. split; cbn; [done|intros k [l E]|intros loc e E]; by rewrite lookup_empty in E. Qed.

Lemma read_one `{Env} d l s t u d' t' :
  read_from d l → server_fits s → ResourceDB.s_node s ∉ ResourceDB.s_node <$> l →
  ResourceDB.read_db [s] d t = Ok (u, d', t') → read_from d' (l ++ [s]).
Proof.
  intros [Ho Hn Hf] (Hp & Hc & Hm) Hnew E. unfold ResourceDB.read_db in E. cbn [for_each] in E.
  bind_inv E as ? d1 t1 E1. run_inv_at E. bind_inv E1 as r d2 t2 E2. unfold ResourceDB.on_executors in E2.
  run_inv_at E2. apply add_new in E2 as (-> & rb & sb & ->).
  2:{ destruct (_ !! ResourceDB.s_node s) eqn:Hs; [|done]. destruct Hnew. apply Hn. by rewrite Hs. }
  run_inv_at E1. rewrite !swrap_small by (done || exact Hp || exact Hc || exact Hm).
  set (x := ResourceDB._executors d) in *. split; cbn.
  - apply Forall2_app.
    + eapply Forall2_impl; [exact Ho|]. intros s' loc (H1 & e & H2 & H3). split; cbn.
      * rewrite lookup_insert_ne; [done|]. intros Hs. destruct Hnew. rewrite Hs. apply Hn. by rewrite H1.
      * exists e. split; [|done]. rewrite lookup_insert_ne; [done|]. intros <-. apply Hf in H2. lia.
    + constructor; [|constructor]. split; cbn; [by rewrite lookup_insert_eq|]. eexists.
      split; [by rewrite lookup_insert_eq|]. by destruct s.
  - intros k [l' Hk]. rewrite fmap_app, elem_of_app. cbn. apply lookup_insert_Some in Hk as [[<- _]|[_ Hk]].
    + right. by apply list_elem_of_singleton.
    + left. apply Hn. by rewrite Hk.
  - intros loc e [[<- _]|[_ He]]%lookup_insert_Some; [lia|]. apply Hf in He. lia.
Qed.

Lemma read_all `{Env} servers d l t u d' t' :
  read_from d l → Forall server_fits servers → NoDup (ResourceDB.s_node <$> (l ++ servers)) →
  ResourceDB.read_db servers d t = Ok (u, d', t') → read_from d' (l ++ servers).
Proof.
  revert d l t. induction servers as [|s servers IH]; intros d l t Hd Hs Hn E.
  { unfold ResourceDB.read_db in E. cbn in E. run_inv_at E. by rewrite app_nil_r. }
  apply Forall_cons in Hs as [Hs Hss]. unfold ResourceDB.read_db in E. cbn [for_each] in E.
  bind_inv E as u1 d1 t1 E1. destruct u1. assert (ResourceDB.read_db [s] d t = Ok (tt, d1, t1)) as E2.
  { unfold ResourceDB.read_db. cbn [for_each]. erewrite bind_run by exact E1. done. }
  apply (read_one _ l) in E2; [|done..|].
  - replace (l ++ s :: servers) with ((l ++ [s]) ++ servers) in Hn |- * by (by rewrite <-app_assoc).
    by eapply IH.
  - rewrite fmap_app, NoDup_app in Hn. destruct Hn as (_ & Hn & _). intros Hin. apply (Hn _ Hin). cbn. constructor.
Qed.

Lemma read_from_directory d l :
  read_from d l → NoDup (ResourceDB.s_node <$> l) → directory (ResourceDB._executors d) = by_node l.
Proof.
  intros [Ho Hn _] Hd. apply map_eq. intros k. apply option_eq. intros s. unfold by_node.
  rewrite <-elem_of_list_to_map by (by rewrite <-list_fmap_compose).
  rewrite list_elem_of_fmap. unfold directory. rewrite lookup_omap.
  assert (∀ s', s' ∈ l → ResourceDB.s_node s' = k →
    (ResourceDB._executors_by_name (ResourceDB._executors d) !! k ≫=
       λ l', server_of <$> ResourceDB.heap (ResourceDB._executors d) !! l') = Some s') as Hs.
  { intros s' (i & Hi)%list_elem_of_lookup <-. destruct (Forall2_lookup_l _ _ _ _ _ Ho Hi) as (loc & _ & H1 & e & H2 & H3 & _).
    rewrite H1. cbn. by rewrite H2, <-H3. }
  split.
  - intros E. assert (is_Some (ResourceDB._executors_by_name (ResourceDB._executors d) !! k)) as Hk
      by (destruct (_ !! k); [by eauto|discriminate E]).
    apply Hn, list_elem_of_fmap in Hk as (s' & Hk & Hin). rewrite (Hs s') in E by done. injection E as <-.
    exists s'. by rewrite Hk.
  - intros (s' & [= -> ->] & Hin). by apply Hs.
Qed.

(** ** The request of an executor manager *)

Lemma start_data_fields secret :
  ∃ d, ExecutorManager.start_data secret = Some d ∧ 0 < d < 2 ^ 32 ∧
    PrivateData.key 8 8 16 d = Some 1 ∧ PrivateData.secret 16 d = Some (u16 secret).
Proof.
  assert (PrivateData.template_ok 8 8 16) as Hok by (unfold PrivateData.template_ok; lia).
  unfold ExecutorManager.start_data. rewrite (PrivateData.set_secret_closed 8 8 16) by done. cbn [mbind option_bind].
  rewrite PrivateData.set_key_closed by done. eexists. split; [done|]. rewrite Z.lor_0_l.
  change (Z.shiftl (wrap 8 1) (8 + 16)) with (2 ^ 24).
  assert (0 ≤ u16 (u32 secret) < 2 ^ 16) as Ha by (by apply wrap_range).
  assert (Z.lor (u16 (u32 secret)) (2 ^ 24) = u16 (u32 secret) + 2 ^ 24) as ->.
  { assert (Z.land (u16 (u32 secret)) (2 ^ 24) = 0) as Hl.
    { rewrite <-(land_wrap 16), <-Z.land_assoc by lia. change (Z.land (Z.ones 16) (2 ^ 24)) with 0. apply Z.land_0_r. }
    by rewrite <-Z.lxor_lor, Z.add_nocarry_lxor. }
  split; [lia|]. rewrite PrivateData.key_closed, (PrivateData.secret_closed 8 8 16) by done.
  rewrite Z.shiftr_div_pow2 by lia. unfold wrap in *. change (8 + 16) with 24.
  split; f_equal.
  - assert (((secret `mod` 2 ^ 32) `mod` 2 ^ 16 + 2 ^ 24) `div` 2 ^ 24 = 1) as ->; [|done].
    symmetry. apply (Z.div_unique _ _ 1 ((secret `mod` 2 ^ 32) `mod` 2 ^ 16)); lia.
  - change (2 ^ 24) with (2 ^ 8 * 2 ^ 16). rewrite Z.mod_add, Z.mod_mod by lia. apply Z.mod_mod_divide.
    by exists (2 ^ 16).
Qed.

Section Growth.
Context `{Env}.

Abbreviation grows op := (emits (λ _, True) op).

(** A call stays in the trace. *)
Lemma stays {S A} (op : M S A) c s t a s' t' : grows op → op s t = Ok (a, s', t') → c ∈ t → c ∈ t'.
Proof using. intros Ho E Hc. apply Ho in E as (u & -> & _). apply elem_of_app. by right. Qed.

Lemma grows_destroy : grows Connection.destroy.
Proof using. exact (ExecutorManager.emits_all _ _ ExecutorManager.silent_close). Qed.

Lemma grows_reset_conn : grows Rdma.reset_conn.
Proof using.
  unfold Rdma.reset_conn. apply emits_bind; [auto with rfaas|]. intros a.
  destruct (Rdma._conn a); [|auto with rfaas]. apply emits_zoom, grows_destroy.
Qed.

Lemma connect_calls secret a t b a' t' :
  Rdma.connect secret a t = Ok (b, a', t') → secret ≠ 0 → ∃ id, Cconnect id (Some (u32 secret)) ∈ t'.
Proof using.
  intros E Hs. unfold Rdma.connect in E. apply Z.eqb_neq in Hs. assert (nonzero secret = true) as Hn
    by (unfold nonzero; by rewrite Hs). rewrite Hn in E. unfold when in E.
  bind_inv E as u1 a1 t1 E1. step_inv E. bind_inv E as id a2 t2 E2.
  unfold Rdma.conn_id in E2. step_inv E2. bind_inv E2 as c a3 t3 E3. run_inv_at E3. run_inv_at E2.
  step_inv E. cbn [Rdma.conn_param Rdma.set_param] in E. bind_inv E as data a4 t4 E4. run_inv_at E4.
  injection E4 as <-. exists id. bind_inv E as r a5 t5 E5. run_inv_at E5.
  match type of E with ?op _ _ = _ => refine (stays op _ _ _ _ _ _ _ E (list_elem_of_here _ _)) end.
  apply emits_bind; [auto with rfaas|]. intros _. case_match; [|auto with rfaas].
  apply emits_bind; [apply grows_reset_conn|]. auto with rfaas.
Qed.

Lemma grows_initialize b stride : grows (Queue.initialize b stride).
Proof using.
  unfold Queue.initialize. apply emits_bind; [auto with rfaas|]. intros q.
  destruct (Queue._queue_pair q); [|auto with rfaas]. apply emits_bind.
  - unfold Queue.initialize_batched_recv, Buffer.sge, Buffer.address, Buffer.lkey, Buffer.with_mr.
    case_match; apply ExecutorManager.emits_for_each; auto 20 with rfaas.
  - intros _. apply emits_bind; [auto with rfaas|]. intros _.
    apply emits_bind; [apply (ExecutorManager.emits_all _ _ Rdma.silent_refill)|auto with rfaas].
Qed.

Lemma grows_register {S} b pd access : grows (Buffer.on_buffer b (Buffer.register_memory pd access) : M S Buffer.t).
Proof using.
  intros s t a s' t' E. unfold Buffer.on_buffer in E.
  destruct (Buffer.register_memory pd access b t) as [[[u b'] t1]|] eqn:Em; [|done]. injection E as _ _ <-.
  assert (grows (Buffer.register_memory pd access)) as Hg
    by (unfold Buffer.register_memory, expect_nonnull; auto 10 with rfaas).
  by apply Hg in Em.
Qed.

Lemma rm_connect_calls node d r t b r' t' :
  ExecutorManager.rm_connect node d r t = Ok (b, r', t') → d ≠ 0 → ∃ id, Cconnect id (Some (u32 d)) ∈ t'.
Proof using.
  intros E Hd. unfold ExecutorManager.rm_connect in E. bind_inv E as ok r1 t1 E1. run_inv_at E1.
  apply connect_calls in E1 as [id Hid]; [|done]. exists id.
  match type of E with ?op _ _ = _ => refine (stays op _ _ _ _ _ _ _ E Hid) end.
  case_match; [auto with rfaas|]. apply emits_bind; [auto with rfaas|]. intros b0.
  apply emits_bind; [apply ExecutorManager.grows_on_rm_conn; unfold Connection.receive_wcs; apply emits_zoom, grows_initialize|].
  intros _. apply emits_bind; [auto with rfaas|]. intros _.
  apply emits_bind; [apply ExecutorManager.grows_rm_send|auto with rfaas].
Qed.

(** [start] asks the resource manager for a connection. *)
Lemma start_calls m t u m' t' :
  ExecutorManager.start m t = Ok (u, m', t') → ExecutorManager._skip_rm m = false →
  ∃ id d, ExecutorManager.start_data (ExecutorManager.s_resource_manager_secret (ExecutorManager._settings m)) = Some d ∧
    Cconnect id (Some d) ∈ t'.
Proof using.
  intros E Hs. unfold ExecutorManager.start in E. step_inv E. rewrite Hs in E. cbn [negb when] in E.
  bind_inv E as u1 m1 t1 E1. bind_inv E1 as d m2 t2 E2. run_inv_at E2. apply from_opt_Ok in E2.
  destruct (start_data_fields (ExecutorManager.s_resource_manager_secret (ExecutorManager._settings m)))
    as (d' & Hd & Hr & _). rewrite Hd in E2. injection E2 as ->.
  bind_inv E1 as ok m3 t3 E3. unfold ExecutorManager.on_rm in E3. step_inv E3. bind_inv E3 as r m4 t4 E4. run_inv_at E4.
  run_inv_at E3. apply rm_connect_calls in E3 as [id Hid]; [|lia]. rewrite wrap_small in Hid by lia.
  exists id, d. split; [done|]. assert (Cconnect id (Some d) ∈ t1) as Hin.
  { unfold expect_true, expect_nonzero in E1. by run_inv_at E1. }
  match type of E with ?op _ _ = _ => refine (stays op _ _ _ _ _ _ _ E Hin) end.
  unfold ExecutorManager.on_state, Rdma.register_shared_queue, ExecutorManager.pd. cbv zeta.
  apply emits_bind; [apply emits_zoom; auto 20 with rfaas|]. intros _. apply emits_bind; [auto with rfaas|]. intros p.
  apply emits_bind; [apply grows_register|auto with rfaas].
Qed.

(** What the threads never change. *)
Definition constants (m : ExecutorManager.manager) : ExecutorManager.Settings * bool :=
  (ExecutorManager._settings m, ExecutorManager._skip_rm m).

Lemma constants_start : frames constants ExecutorManager.start.
Proof using.
  unfold ExecutorManager.start, ExecutorManager.on_rm, ExecutorManager.on_state, ExecutorManager.pd, expect_true,
    expect_nonzero, when.
  apply frames_bind; [auto with rfaas|]. intros m. apply frames_bind; [case_match; auto 20 with rfaas|]. auto 20 with rfaas.
Qed.

(** The threads that [start] leaves behind, and what it asks for. *)
Lemma process_start_inv affinity p t u q t' :
  ExecutorStart.start affinity p t = Ok (u, q, t') →
  ExecutorStart._settings q = ExecutorStart._settings p ∧
  constants (ExecutorStart.p_mgr q) = constants (ExecutorStart.p_mgr p) ∧
  ExecutorStart.p_threads q = ExecutorStart.p_threads p ++
    [(ExecutorStart.Listen, 1);
     (if ExecutorStart.rdma_sleep (ExecutorStart._settings p) then ExecutorStart.ProcessEventsSleep
      else ExecutorStart.PollRdma, 2)] ∧
  ExecutorManager.start (ExecutorStart.p_mgr p) t = Ok (tt, ExecutorStart.p_mgr q, t').
Proof using.
  intros E. unfold ExecutorStart.start in E. bind_inv E as u1 p1 t1 E1. unfold ExecutorStart.on_mgr in E1.
  run_inv_at E1. bind_inv E as u2 p2 t2 E2. step_inv E.
  assert (∀ l core p t u p' t', ExecutorStart._bind_to_core affinity l core p t = Ok (u, p', t') →
    t' = t ∧ p' = ExecutorStart.set_threads (ExecutorStart.p_threads p ++ [(l, core)]) p) as Hb.
  { clear. intros l core p t u p' t' E. unfold ExecutorStart._bind_to_core, expect_zero in E.
    bind_inv E as ? ? ? E1. run_inv_at E1. by run_inv_at E. }
  apply Hb in E2 as [-> ->]. pose proof (constants_start _ _ _ _ _ E1) as Hc. destruct u1.
  cbn [ExecutorStart._settings ExecutorStart.set_threads ExecutorStart.set_mgr] in E.
  destruct (ExecutorStart.rdma_sleep _); apply Hb in E as [-> ->]; cbn; rewrite <-app_assoc; done.
Qed.

Lemma main_inv `{CommandLine.Cxxopts, Cereal} fork_init affinity files argv t q t' :
  ExecutorStart.main fork_init affinity files argv tt t = Ok (inr q, tt, t') →
  ∃ m t1, ExecutorManager._settings m = ExecutorStart.manager_settings (ExecutorStart._settings q) ∧
    ExecutorManager._leases m = ∅ ∧ ExecutorManager._clients m = ∅ ∧ ExecutorManager.m_queue m = [] ∧
    constants (ExecutorStart.p_mgr q) = constants m ∧
    ExecutorStart.p_threads q = [(ExecutorStart.Listen, 1);
     (if ExecutorStart.rdma_sleep (ExecutorStart._settings q) then ExecutorStart.ProcessEventsSleep
      else ExecutorStart.PollRdma, 2)] ∧
    ExecutorManager.start m t1 = Ok (tt, ExecutorStart.p_mgr q, t').
Proof using.
  intros E. unfold ExecutorStart.main in E. destruct (nonzero fork_init); [discriminate E|].
  bind_inv E as o s1 t1 E1. run_inv_at E1. destruct (files _); [|discriminate E].
  bind_inv E as devs s2 t2 E2. run_inv_at E2. destruct (files _); [|discriminate E].
  bind_inv E as st s3 t3 E3. run_inv_at E3. bind_inv E as p s4 t4 E4. bind_inv E as p1 s5 t5 E5.
  injection E as <- _ <-. apply on_object_Ok in E5 as [E5 _].
  apply process_start_inv in E5 as (Hs & Hc & Ht & E5).
  unfold ExecutorStart.manager_construct in E4. bind_inv E4 as pa s6 t6 E6. bind_inv E4 as b s7 t7 E7.
  bind_inv E4 as rm s8 t8 E8. run_inv_at E4. cbn in Hs, Hc, Ht, E5.
  eexists _, _. split_and!; [..|exact E5]; cbn; rewrite ?Hs; done.
Qed.
End Growth.

(** ** The threads of an executor manager

    The steps of each thread: the listener; the thread that polls clients, which also looks at the
    executors; the thread that sleeps until a client or the resource manager sends something. *)

Section Threads.
Context `{Env} (wide_shift : option Z) (indeterminate : Z)
  (requests : trace → Z → Z → AllocationRequest) (accounting : trace → Z → ExecutorManager.Accounting).

Inductive thread_step : ExecutorStart.loop → ExecutorManager.manager * trace → ExecutorManager.manager * trace → Prop :=
  | ts_listen m t m' t' :
      ExecutorManager.listen wide_shift m t = Ok (tt, m', t') → thread_step ExecutorStart.Listen (m, t) (m', t')
  | ts_dequeue l m t op q m' t' :
      l ≠ ExecutorStart.Listen → ExecutorManager.m_queue m = op :: q →
      ExecutorManager.handle_op op (ExecutorManager.set_queue q m) t = Ok (tt, m', t') → thread_step l (m, t) (m', t')
  | ts_client l m t wc m' t' :
      l ≠ ExecutorStart.Listen →
      ExecutorManager._handle_client_message wide_shift indeterminate requests accounting wc m t = Ok (tt, m', t') →
      thread_step l (m, t) (m', t')
  | ts_check m t qp r m' t' :
      ExecutorManager.check_executor indeterminate accounting qp m t = Ok (r, m', t') →
      thread_step ExecutorStart.PollRdma (m, t) (m', t')
  | ts_remove m t qp m' t' :
      ExecutorManager.erase_client qp m t = Ok (tt, m', t') → thread_step ExecutorStart.PollRdma (m, t) (m', t')
  | ts_res_mgr received m t wc m' t' :
      ExecutorManager._handle_res_mgr_message received wc m t = Ok (tt, m', t') →
      thread_step ExecutorStart.ProcessEventsSleep (m, t) (m', t').

(** A step of one of the threads of the process. *)
Definition process_step (q : ExecutorStart.process) (st st' : ExecutorManager.manager * trace) : Prop :=
  ∃ l core, (l, core) ∈ ExecutorStart.p_threads q ∧ thread_step l st st'.

(** Leases that requests of clients made up. *)
Definition made_up (ls : ExecutorManager.Leases) : Prop := map_Forall (λ _ l, ExecutorManager.l_memory l = 512) ls.

Lemma made_up_insert ls id c : made_up ls → made_up (ExecutorManager.insert_threadsafe (ExecutorManager.mk_Lease id c 512) ls).
Proof using.
  intros Hl. unfold ExecutorManager.insert_threadsafe. cbn. destruct (ls !! id); [done|]. by apply map_Forall_insert_2.
Qed.

Lemma made_up_step l st st' :
  l ≠ ExecutorStart.ProcessEventsSleep → thread_step l st st' → LeasePath.kept made_up st.1 → LeasePath.kept made_up st'.1.
Proof using.
  intros Hl Hst Hm. destruct Hst as [m t m' t' E|l m t op q m' t' _ _ E|l m t wc m' t' _ E|m t qp r m' t' E|
    m t qp m' t' E|received m t wc m' t' E]; cbn [fst] in *.
  - eapply LeasePath.kept_frames; [apply LeasePath.leases_listen|exact Hm|exact E].
  - eapply LeasePath.kept_frames; [apply LeasePath.leases_handle_op| |exact E]. exact Hm.
  - eapply LeasePath.kept_client_message; [|exact Hm|exact E]. apply made_up_insert.
  - eapply LeasePath.kept_frames; [apply LeasePath.leases_check_executor|exact Hm|exact E].
  - eapply LeasePath.kept_frames; [apply LeasePath.leases_erase|exact Hm|exact E].
  - done.
Qed.
End Threads.

Lemma start_leases `{Env} : frames ExecutorManager._leases ExecutorManager.start.
Proof.
  unfold ExecutorManager.start, ExecutorManager.on_rm, ExecutorManager.on_state, ExecutorManager.pd, expect_true,
    expect_nonzero, when.
  apply frames_bind; [auto with rfaas|]. intros m. apply frames_bind; [case_match; auto 20 with rfaas|]. auto 20 with rfaas.
Qed.

Abbreviation nodes p := (ResourceDB._executors (ResourceManager.m_db (ResourceStart.p_mgr p))).

(** ** Theorems *)

(** C19. The database survives a restart. When every node is known by its own name and its numbers fit their
    types, the file that the resource manager writes at its end, read by a new manager, gives a database
    that knows the same nodes under the same names with the same addresses, ports, cores and memory; each
    of them is offered again, with all of its cores and memory and without a connection. *)
Theorem database_survives_restart (cr : Cereal) `{Env} p t path s p' t' files q u q' u' :
  CerealLaws cr → named (nodes p) → map_Forall (λ _, server_fits) (directory (nodes p)) →
  ResourceStart.dump_database p t = Ok (Some (path, s), p', t') → files path = Some s →
  ResourceManager.m_db (ResourceStart.p_mgr q) = ResourceDB.empty_db →
  ResourceStart.read_database files path q u = Ok (tt, q', u') →
  directory (nodes q') = directory (nodes p) ∧
  ∀ name sd, directory (nodes p) !! name = Some sd →
    ∃ l, l ∈ ResourceDB._free_nodes (ResourceManager.m_db (ResourceStart.p_mgr q')) ∧ offered (nodes q') sd l.
Proof.
  intros laws Hn Hfit E1 Hf Hq E2. unfold ResourceStart.dump_database in E1. step_inv E1.
  destruct (ResourceStart._executors_output_path p) as [path'|]; [|discriminate E1].
  bind_inv E1 as l p1 t1 E3. injection E1 as -> <- _ _.
  unfold ResourceStart.on_mgr, ResourceManager.on_db, ResourceDB.write_db in E3. do 2 run_inv_at E3.
  step_inv E3. run_inv_at E3. set (x := nodes p) in *.
  change (omap _ _) with (entries x (map_to_list (ResourceDB._executors_by_name x))) in Hf.
  destruct (written_directory x Hn) as [Hd Hb]. set (l := entries _ _) in *.
  assert (Forall server_fits l) as Hl.
  { apply Forall_forall. intros sd Hin. apply (Hfit (ResourceDB.s_node sd)). rewrite <-Hb. unfold by_node.
    apply elem_of_list_to_map; [by rewrite <-list_fmap_compose|]. apply list_elem_of_fmap. by exists sd. }
  unfold ResourceStart.read_database in E2. rewrite Hf in E2. bind_inv E2 as l' q1 u1 E4. run_inv_at E4.
  rewrite read_written in E4 by done. injection E4 as <-.
  unfold ResourceStart.on_mgr, ResourceManager.on_db in E2. do 2 run_inv_at E2. rewrite Hq in E2.
  pose proof (read_all l _ [] _ _ _ _ read_from_empty Hl Hd E2) as Hr. cbn [app] in Hr. cbn.
  split; [by rewrite <-Hb; apply read_from_directory|]. intros name sd Hsd. rewrite <-Hb in Hsd.
  apply elem_of_list_to_map, list_elem_of_fmap in Hsd as (? & [= _ <-] & Hin); [|by rewrite <-list_fmap_compose].
  apply list_elem_of_lookup in Hin as [i Hi].
  destruct (Forall2_lookup_l _ _ _ _ _ (rf_offered _ _ Hr) Hi) as (loc & Hloc & Ho).
  exists loc. split; [by eapply list_elem_of_lookup_2|done].
Qed.

(** C17. Managers meet by their configurations. For a resource manager and an executor manager that were
    started from their command lines and files: the connection that the executor manager asks for carries
    private data with which, in every state the resource manager's threads have reached, the request is
    accepted and an executor is queued for that connection, if the low 16 bits of the secret in the executor
    manager's file are the secret in the resource manager's file; otherwise the request is rejected and
    nothing else happens. *)
Theorem configured_managers_meet (rm em : Env) (cx : CommandLine.Cxxopts) (cr : Cereal)
    files1 argv1 t1 p t1' fork_init affinity files2 argv2 t2 q t2' erased requests messages m t o conn c cid :
  @ResourceStart.main cr rm cx files1 argv1 tt t1 = Ok (Some p, tt, t1') →
  @ExecutorStart.main cr em cx fork_init affinity files2 argv2 tt t2 = Ok (inr q, tt, t2') →
  ExecutorManager._skip_rm (ExecutorStart.p_mgr q) = false →
  rtc (@ResourceManager.manager_step rm erased requests messages) (ResourceStart.p_mgr p, t1', ∅) (m, t, o) →
  Rdma.p_store (ResourceManager.m_state m) !! conn = Some c → Connection._id c = Some cid →
  let sent := u16 (ExecutorStart.resource_manager_secret (ExecutorStart._settings q)) in
  let expected := ResourceStart.rdma_secret (ResourceStart._settings p) in
  ∃ id d, Cconnect id (Some d) ∈ t2' ∧
  (Connection.private_data c = d →
   (sent ≠ expected →
    @ResourceManager.handle_event rm conn Connection.REQUESTED m t = Ok (tt, m, Creject cid :: t)) ∧
   (sent = expected → ∀ m' t', @ResourceManager.handle_event rm conn Connection.REQUESTED m t = Ok (tt, m', t') →
    ∃ exec e t0, t' = Caccept cid :: t0 ∧
      ResourceManager._executor_queue m' = ResourceManager._executor_queue m ++ [ResourceManager.ExecConnect exec] ∧
      ResourceDB.heap (ResourceDB._executors (ResourceManager.m_db m')) !! exec = Some e ∧
      ResourceDB._connection e = Some conn)).
Proof.
  intros E1 E2 Hskip Hsteps Hc Hid sent expected. apply Admission.main_secret in E1.
  apply (Admission.secret_steps erased requests messages) in Hsteps. cbn [fst] in Hsteps. rewrite E1 in Hsteps.
  apply main_inv in E2 as (m0 & u0 & Hset & _ & _ & _ & Hcon & _ & E2). apply (f_equal snd) in Hcon. cbn in Hcon.
  apply start_calls in E2 as (id & d & Hd & Hin); [|congruence]. rewrite Hset in Hd. cbn in Hd.
  destruct (start_data_fields (ExecutorStart.resource_manager_secret (ExecutorStart._settings q)))
    as (d' & Hd' & _ & Hkey & Hsec). rewrite Hd in Hd'. injection Hd' as <-.
  exists id, d. split; [done|]. intros <-.
  destruct (@ResourceManager.admission_inv rm m t conn c cid 1 sent Hc Hid Hkey Hsec) as (Hrej & Hacc & _).
  rewrite Hsteps in Hrej, Hacc. split; [by apply Hrej|]. intros Heq m' t' E.
  destruct (Hacc eq_refl Heq m' t' E) as (exec & e & t0 & Ht & Hq & _ & He & Hce & _). by exists exec, e, t0.
Qed.

(** C39. A polling executor manager never reads its leases. When the settings do not ask for sleeping, the
    process has a thread for connections and one for clients, and none for the resource manager: in every
    state its threads can reach, every lease it knows was made up from a client's request, with 512 MB,
    whatever the resource manager has announced. *)
Theorem polling_never_reads_leases `{Env} (cx : CommandLine.Cxxopts) (cr : Cereal) fork_init affinity files argv t q t'
    wide_shift indeterminate requests accounting st :
  ExecutorStart.main fork_init affinity files argv tt t = Ok (inr q, tt, t') →
  ExecutorStart.rdma_sleep (ExecutorStart._settings q) = false →
  rtc (process_step wide_shift indeterminate requests accounting q) (ExecutorStart.p_mgr q, t') st →
  map_Forall (λ _ l, ExecutorManager.l_memory l = 512) (ExecutorManager._leases st.1).
Proof.
  intros E Hs Hsteps. apply main_inv in E as (m0 & t1 & _ & Hl & _ & _ & _ & Ht & E). rewrite Hs in Ht.
  apply start_leases in E. rewrite Hl in E.
  refine (rtc_ind_r (λ st, LeasePath.kept made_up st.1) (ExecutorStart.p_mgr q, t') _ _ st Hsteps).
  - unfold LeasePath.kept, made_up. cbn [fst]. rewrite E. apply map_Forall_empty.
  - intros x y _ (l & core & Hin & Hst) Hx. eapply made_up_step; [|exact Hst|exact Hx]. intros ->.
    rewrite Ht in Hin. apply elem_of_cons in Hin as [Hin|Hin]; [discriminate Hin|].
    apply list_elem_of_singleton in Hin. discriminate Hin.
Qed.

(** ** Examples *)

Definition demo_devices : json :=
  JObject [("devices", JVector [@save_device reference_archive (ClientConnection.mk_device "mlx5" "10.0.0.1" 0 128 32)])]%string.

Definition demo_rm_config (secret : Z) : json :=
  JObject [("config", JObject [("rdma_device", JString "mlx5"); ("rdma_device_port", JInt 10000);
    ("rdma-threads", JInt 1); ("rdma-secret", JInt secret); ("rdma-sleep", JBool true);
    ("http_network_address", JString "0.0.0.0"); ("http_network_port", JInt 5000)])]%string.

(** The settings of src/executor_manager.json, with a secret. *)
Definition demo_em_config (secret : Z) : json :=
  JObject [("config", JObject [("rdma_device", JString "mlx5"); ("node_name", JString "node1");
    ("rdma-sleep", JBool false); ("rdma_device_port", JInt 10006); ("resource_manager_address", JString "10.0.0.1");
    ("resource_manager_port", JInt 10000); ("resource_manager_secret", JInt secret)]);
   ("executor", JObject [("use_docker", JBool false); ("repetitions", JInt 100); ("warmup_iters", JInt 0);
    ("pin_threads", JBool true)])]%string.

Definition demo_files (rm_secret em_secret : Z) (path : string) : option json :=
  if bool_decide (path = "devices.json"%string) then Some demo_devices
  else if bool_decide (path = "rm.json"%string) then Some (demo_rm_config rm_secret)
  else if bool_decide (path = "em.json"%string) then Some (demo_em_config em_secret)
  else if bool_decide (path = "db.json"%string) then
    Some (@servers_write reference_archive [ResourceDB.demo_server])
  else None.

Definition rm_line : list string :=
  ["resource_manager"; "-c"; "rm.json"; "--device-database"; "devices.json"; "-i"; "db.json"; "-o"; "out.json"]%string.
Definition em_line : list string :=
  ["executor_manager"; "-c"; "em.json"; "--device-database"; "devices.json"]%string.

Definition demo_rm (env : Env) : result (option ResourceStart.process * unit * trace) :=
  @ResourceStart.main reference_archive env CommandLine.reference_parser (demo_files 77 77) rm_line tt [].
Definition demo_em : result ((Z + ExecutorStart.process) * unit * trace) :=
  @ExecutorStart.main reference_archive (ExecutorManager.manager_env 0) CommandLine.reference_parser 0 (λ _, 0)
    (demo_files 77 77) em_line tt [].

(** The database of one node is written and read back. *)
Lemma database_survives_restart_witness :
  ∃ p t s q u, @demo_rm ideal_env = Ok (Some p, tt, t) ∧
    @ResourceStart.dump_database reference_archive p t = Ok (Some ("out.json"%string, s), p, t) ∧
    @ResourceStart.read_database reference_archive ideal_env (λ _, Some s) "out.json"
      (ResourceStart.set_mgr (ResourceManager.set_db ResourceDB.empty_db (ResourceStart.p_mgr p)) p) [] = Ok (tt, q, u) ∧
    directory (nodes q) !! "node1"%string = Some ResourceDB.demo_server.
Proof.
  destruct (@demo_rm ideal_env) as [[[[p|] []] t]|] eqn:E; [|vm_compute in E; discriminate E..].
  destruct (@ResourceStart.dump_database reference_archive p t) as [[[[[path s]|] p'] t']|] eqn:E1;
    [|vm_compute in E; injection E as <- <-; vm_compute in E1; discriminate E1..].
  set (q0 := ResourceStart.set_mgr (ResourceManager.set_db ResourceDB.empty_db (ResourceStart.p_mgr p)) p).
  destruct (@ResourceStart.read_database reference_archive ideal_env (λ _, Some s) "out.json" q0 [])
    as [[[[] q] u]|] eqn:E2.
  2:{ vm_compute in E. injection E as <- <-. vm_compute in E1. injection E1 as <- <- <- <-.
      vm_compute in E2. discriminate E2. }
  assert (path = "out.json"%string ∧ p' = p ∧ t' = t) as (-> & -> & ->).
  { vm_compute in E. injection E as <- <-. vm_compute in E1. injection E1 as <- <- <- <-. split_and!; reflexivity. }
  assert (named (nodes p) ∧ directory (nodes p) = {["node1"%string := ResourceDB.demo_server]}) as [Hn Hd].
  { vm_compute in E. injection E as <- <-. split; [|vm_compute; reflexivity]. unfold named.
    match goal with |- map_Forall _ ?by_name => assert (by_name = {["node1"%string := 0%nat]}) as -> by (vm_compute; reflexivity) end.
    apply map_Forall_singleton. eexists. split; [vm_compute; reflexivity|reflexivity]. }
  destruct (@database_survives_restart reference_archive ideal_env p t "out.json" s p t (λ _, Some s) q0 [] q u
    reference_archive_laws Hn) as [Hq _];
    [rewrite Hd; apply map_Forall_singleton; split_and!; vm_compute; split; congruence|exact E1|reflexivity|reflexivity|exact E2|].
  exists p, t, s, q, u. split; [reflexivity|]. split; [exact E1|]. split; [exact E2|]. rewrite Hq, Hd. reflexivity.
Defined.

(** A node that registered before it was added is written without its name. *)
Example self_registered_written_unnamed :
  match (ResourceDB.demo_register ;; ResourceDB.write_db) ResourceDB.empty_db [] with
  | Ok (l, _, _) => l = [ResourceDB.mk_server_data "" "" (-1) (-1) (-1)]
  | Fault _ => False
  end.
Proof. vm_compute. reflexivity. Qed.

(** The listener of the resource manager got the request; asked again, it accepts it again. *)
Lemma configured_managers_meet_witness :
  ∃ p t1 m t q t2 m' t' t0 id, @demo_rm (ExecutorManager.manager_env (2 ^ 24 + 77)) = Ok (Some p, tt, t1) ∧
    demo_em = Ok (inr q, tt, t2) ∧ Cconnect id (Some (2 ^ 24 + 77)) ∈ t2 ∧
    @ResourceManager.listen_rdma (ExecutorManager.manager_env (2 ^ 24 + 77)) (ResourceStart.p_mgr p) t1 = Ok (tt, m, t) ∧
    @ResourceManager.handle_event (ExecutorManager.manager_env (2 ^ 24 + 77)) 1 Connection.REQUESTED m t = Ok (tt, m', t') ∧
    ∃ cid, t' = Caccept cid :: t0.
Proof.
  set (env := ExecutorManager.manager_env (2 ^ 24 + 77)).
  destruct (@demo_rm env) as [[[[p|] []] t1]|] eqn:E1; [|vm_compute in E1; discriminate E1..].
  destruct demo_em as [[[[|q] []] t2]|] eqn:E2; [vm_compute in E2; discriminate E2| |vm_compute in E2; discriminate E2].
  destruct (@ResourceManager.listen_rdma env (ResourceStart.p_mgr p) t1) as [[[[] m] t]|] eqn:E3;
    [|vm_compute in E1; injection E1 as <- <-; vm_compute in E3; discriminate E3].
  destruct (@ResourceManager.handle_event env 1 Connection.REQUESTED m t) as [[[[] m'] t']|] eqn:E4.
  2:{ vm_compute in E1. injection E1 as <- <-. vm_compute in E3. injection E3 as <- <-. vm_compute in E4. discriminate E4. }
  destruct (Rdma.p_store (ResourceManager.m_state m) !! 1) as [c|] eqn:Hc.
  2:{ vm_compute in E1. injection E1 as <- <-. vm_compute in E3. injection E3 as <- <-. vm_compute in Hc. discriminate Hc. }
  destruct (Connection._id c) as [cid|] eqn:Hid.
  2:{ vm_compute in E1. injection E1 as <- <-. vm_compute in E3. injection E3 as <- <-. vm_compute in Hc.
      injection Hc as <-. vm_compute in Hid. discriminate Hid. }
  assert (Connection.private_data c = 2 ^ 24 + 77) as Hp.
  { vm_compute in E1. injection E1 as <- <-. vm_compute in E3. injection E3 as <- <-. vm_compute in Hc.
    injection Hc as <-. vm_compute. reflexivity. }
  assert (ExecutorManager._skip_rm (ExecutorStart.p_mgr q) = false ∧
    ExecutorStart.resource_manager_secret (ExecutorStart._settings q) = 77) as [Hs Hs2]
    by (vm_compute in E2; injection E2 as <- <-; split; reflexivity).
  assert (ResourceStart.rdma_secret (ResourceStart._settings p) = 77) as Hs1
    by (vm_compute in E1; injection E1 as <- <-; reflexivity).
  destruct (configured_managers_meet env (ExecutorManager.manager_env 0) CommandLine.reference_parser reference_archive
    (demo_files 77 77) rm_line [] p t1 0 (λ _, 0) (demo_files 77 77) em_line [] q t2 Some ResourceManager.one_request
    ResourceManager.register_node1 m t ∅ 1 c cid E1 E2 Hs) as (id & d & Hin & Hd); [|exact Hc|exact Hid|].
  { apply rtc_once. by apply ResourceManager.ms_listen. }
  assert (d = 2 ^ 24 + 77) as ->.
  { vm_compute in E2. injection E2 as <- <-. vm_compute in Hin. clear -Hin. set_solver. }
  destruct (Hd Hp) as [_ Ha]. destruct (Ha ltac:(rewrite Hs1, Hs2; reflexivity) m' t' E4) as (exec & e & t0 & Ht & _).
  exists p, t1, m, t, q, t2, m', t', t0, id. split; [reflexivity|]. split; [reflexivity|]. split; [exact Hin|].
  split; [exact E3|]. split; [exact E4|]. by exists cid.
Defined.

(** A client asks for 2 cores; its lease has 512 MB. *)
Lemma polling_never_reads_leases_witness :
  ∃ q t m t', demo_em = Ok (inr q, tt, t) ∧
    rtc (@process_step (ExecutorManager.manager_env 0) (Some 0) 99 ExecutorManager.demo_requests
      ExecutorManager.demo_accounting q) (ExecutorStart.p_mgr q, t) (m, t') ∧
    ExecutorManager.l_memory <$> ExecutorManager._leases m !! 4 = Some 512.
Proof.
  destruct demo_em as [[[[|q] []] t]|] eqn:E; [vm_compute in E; discriminate E| |vm_compute in E; discriminate E].
  assert (ExecutorStart.rdma_sleep (ExecutorStart._settings q) = false) as Hs
    by (vm_compute in E; injection E as <- <-; reflexivity).
  destruct (@ExecutorManager.listen (ExecutorManager.manager_env 0) (Some 0) (ExecutorStart.p_mgr q) t)
    as [[[[] m1] t1]|] eqn:E1; [|vm_compute in E; injection E as <- <-; vm_compute in E1; discriminate E1].
  destruct (ExecutorManager.m_queue m1) as [|op ops] eqn:Hq.
  { vm_compute in E. injection E as <- <-. vm_compute in E1. injection E1 as <- <-. vm_compute in Hq. discriminate Hq. }
  destruct (@ExecutorManager.handle_op (ExecutorManager.manager_env 0) op (ExecutorManager.set_queue ops m1) t1)
    as [[[[] m2] t2]|] eqn:E2.
  2:{ vm_compute in E. injection E as <- <-. vm_compute in E1. injection E1 as <- <-. vm_compute in Hq.
      injection Hq as <- <-. vm_compute in E2. discriminate E2. }
  destruct (@ExecutorManager._handle_client_message (ExecutorManager.manager_env 0) (Some 0) 99
    ExecutorManager.demo_requests ExecutorManager.demo_accounting (mk_wc 0 0 23 0 48) m2 t2) as [[[[] m3] t3]|] eqn:E3.
  2:{ vm_compute in E. injection E as <- <-. vm_compute in E1. injection E1 as <- <-. vm_compute in Hq.
      injection Hq as <- <-. vm_compute in E2. injection E2 as <- <-. vm_compute in E3. discriminate E3. }
  assert (is_Some (ExecutorManager._leases m3 !! 4) ∧
    ExecutorStart.p_threads q = [(ExecutorStart.Listen, 1); (ExecutorStart.PollRdma, 2)]) as [[l Hl] Ht].
  { vm_compute in E. injection E as <- <-. split; [|reflexivity]. vm_compute in E1. injection E1 as <- <-. vm_compute in Hq.
    injection Hq as <- <-. vm_compute in E2. injection E2 as <- <-. vm_compute in E3. injection E3 as <- _.
    eexists. vm_compute. reflexivity. }
  assert (rtc (@process_step (ExecutorManager.manager_env 0) (Some 0) 99 ExecutorManager.demo_requests
      ExecutorManager.demo_accounting q) (ExecutorStart.p_mgr q, t) (m3, t3)) as Hsteps.
  { eapply rtc_l; [|eapply rtc_l; [|apply rtc_once]]; unfold process_step; rewrite Ht.
    - exists ExecutorStart.Listen, 1. split; [by constructor|]. by apply ts_listen.
    - exists ExecutorStart.PollRdma, 2. split; [by repeat constructor|]. by eapply ts_dequeue.
    - exists ExecutorStart.PollRdma, 2. split; [by repeat constructor|]. by eapply ts_client. }
  exists q, t, m3, t3. split; [reflexivity|]. split; [exact Hsteps|]. rewrite Hl. cbn [fmap option_fmap option_map]. f_equal.
  exact (@polling_never_reads_leases (ExecutorManager.manager_env 0) CommandLine.reference_parser reference_archive
    0 (λ _, 0) (demo_files 77 77) em_line [] q t (Some 0) 99 ExecutorManager.demo_requests
    ExecutorManager.demo_accounting (m3, t3) E Hs Hsteps 4 l Hl).
Defined.
End Deployment.
