(* ===== verification/Symbols.v ===== *)
(** * The functions of a library

    How the client (src/rfaas/lib/executor.cpp, [load_library]) and the executor
    (src/server/executor/functions.cpp, [extract_symbols]) find the names of the functions of a loaded
    library: both walk its dynamic section and its symbol table.  The memory of the process is an argument,
    a byte per mapped address; the dynamic section is the list of its entries.  The loops are the same in
    both places. *)

From S2P Require Import Prelude Verbs Buffer Messages Rdma Invocation ExecutorThread ClientExecutor.

Module Symbols.

(** elf.h *)
Definition DT_NULL : Z := 0.
Definition DT_STRTAB : Z := 5.
Definition DT_SYMTAB : Z := 6.
Definition DT_SYMENT : Z := 11.
Definition STT_FUNC : Z := 2.
Definition ELF64_ST_TYPE (info : Z) : Z := Z.land info 0xf.
Definition sizeof_Elf64_Sym : Z := 24.

Section Code.
Context (mem : Z → option Z).

Definition byte_at (a : Z) : result Z := from_opt "address not mapped" (mem a).

(** The members of the symbol at an address. *)
Definition st_name (sym : Z) : result Z :=
  b0 ← byte_at sym; b1 ← byte_at (sym + 1); b2 ← byte_at (sym + 2); b3 ← byte_at (sym + 3);
  Ok (b0 + 2 ^ 8 * b1 + 2 ^ 16 * b2 + 2 ^ 24 * b3).
Definition st_info (sym : Z) : result Z := byte_at (sym + 4).

(** The string at an address, of less than [fuel] characters. *)
Fixpoint string_at (fuel : nat) (a : Z) : result string :=
  match fuel with
  | O => Fault StillRunning
  | S fuel =>
      c ← byte_at a;
      if c =? 0 then Ok EmptyString
      else s ← string_at fuel (a + 1); Ok (String (Ascii.ascii_of_N (Z.to_N c)) s)
  end.

(** What the first loop finds. *)
Record tables := mk_tables { symtab : Z; strtab : Z; symentries : Z }.

Fixpoint scan_sections (sections : list (Z * Z)) (d : tables) : result tables :=
  match sections with
  | [] => Fault (Undefined "end of the dynamic section")
  | (d_tag, d_un) :: sections =>
      if d_tag =? DT_NULL then Ok d else
      scan_sections sections
        (mk_tables (if d_tag =? DT_SYMTAB then d_un else symtab d)
                   (if d_tag =? DT_STRTAB then d_un else strtab d)
                   (if d_tag =? DT_SYMENT then i32 d_un else symentries d))
  end.

(** The body of the second loop, for [n] symbols from address [sym] on. *)
Fixpoint function_names (fuel n : nat) (strtab sym : Z) : result (list string) :=
  match n with
  | O => Ok []
  | S n =>
      info ← st_info sym;
      names ← (if ELF64_ST_TYPE info =? STT_FUNC then
                 off ← st_name sym; s ← string_at fuel (strtab + off); Ok [s]
               else Ok []);
      rest ← function_names fuel n strtab (sym + sizeof_Elf64_Sym);
      Ok (names ++ rest)
  end.

(** Both loops: the names in the order of the table. *)
Definition symbols (fuel : nat) (sections : list (Z * Z)) : result (list string) :=
  d ← scan_sections sections (mk_tables 0 0 0);
  let size := i32 (strtab d - symtab d) in
  if symentries d =? 0 then Fault (Undefined "division by zero") else
  function_names fuel (Z.to_nat (Z.quot size (symentries d))) (strtab d) (symtab d).

(** [extract_symbols(library, names)] *)
Definition extract_symbols (fuel : nat) (sections : list (Z * Z)) (names : list string) : result (list string) :=
  l ← symbols fuel sections; Ok (Invocation.sort_names (names ++ l)).
End Code.

(** ** A library in memory *)

(** A symbol: the offset of its name, its type and binding, the other members. *)
Record entry := mk_entry { e_name : Z; e_info : Z; e_rest : list Z }.

Definition entry_bytes (e : entry) : list Z :=
  [e_name e `mod` 2 ^ 8; e_name e `div` 2 ^ 8 `mod` 2 ^ 8; e_name e `div` 2 ^ 16 `mod` 2 ^ 8; e_name e `div` 2 ^ 24 `mod` 2 ^ 8;
   e_info e] ++ e_rest e.

Definition entry_ok (e : entry) : Prop := 0 ≤ e_name e < 2 ^ 32 ∧ length (e_rest e) = 19%nat.

(** The symbol table, and the string table right behind it. *)
Definition image (es : list entry) (strs : list Z) : list Z := (es ≫= entry_bytes) ++ strs.

Definition loaded (base : Z) (bytes : list Z) (mem : Z → option Z) : Prop :=
  ∀ (i : nat) b, bytes !! i = Some b → mem (base + Z.of_nat i) = Some b.

Definition codes (s : string) : list Z := (λ c, Z.of_N (Ascii.N_of_ascii c)) <$> String.list_ascii_of_string s.

(** The name of a symbol in the string table. *)
Definition named (strs : list Z) (e : entry) (s : string) : Prop :=
  Forall (λ c, c ≠ 0) (codes s) ∧ ∃ rest, drop (Z.to_nat (e_name e)) strs = codes s ++ 0 :: rest.

Definition is_function (e : entry) : bool := ELF64_ST_TYPE (e_info e) =? STT_FUNC.

Definition functions (es : list entry) (names : list string) : list string :=
  (filter (λ p, is_function p.1) (zip es names)).*2.

(** ** Reading it *)

Lemma little_endian n : 0 ≤ n < 2 ^ 32 →
  n `mod` 2 ^ 8 + 2 ^ 8 * (n `div` 2 ^ 8 `mod` 2 ^ 8) + 2 ^ 16 * (n `div` 2 ^ 16 `mod` 2 ^ 8) +
  2 ^ 24 * (n `div` 2 ^ 24 `mod` 2 ^ 8) = n.
Proof.
  intros Hn. change (2 ^ 24) with (2 ^ 8 * 2 ^ 8 * 2 ^ 8). change (2 ^ 16) with (2 ^ 8 * 2 ^ 8).
  rewrite <-!Z.div_div by lia. set (a := n `div` 2 ^ 8). set (b := a `div` 2 ^ 8). set (c := b `div` 2 ^ 8).
  pose proof (Z.div_mod n (2 ^ 8) ltac:(lia)) as H. pose proof (Z.div_mod a (2 ^ 8) ltac:(lia)) as H0.
  pose proof (Z.div_mod b (2 ^ 8) ltac:(lia)) as H1. fold b in H0. fold c in H1. fold a in H.
  rewrite (Z.mod_small c); [lia|]. unfold c, b, a. rewrite !Z.div_div by lia.
  split; [apply Z.div_pos; lia|]. apply Z.div_lt_upper_bound; lia.
Qed.

Section Reading.
Context (mem : Z → option Z).

Lemma loaded_app base l l' : loaded base (l ++ l') mem → loaded base l mem ∧ loaded (base + Z.of_nat (length l)) l' mem.
Proof using.
  intros Hl. split; intros i b Hi.
  - apply Hl. by apply lookup_app_l_Some.
  - replace (base + Z.of_nat (length l) + Z.of_nat i) with (base + Z.of_nat (length l + i)) by lia.
    apply Hl. rewrite lookup_app_r by lia. by replace (length l + i - length l)%nat with i by lia.
Qed.

Lemma byte_loaded base l i b : loaded base l mem → l !! i = Some b → byte_at mem (base + Z.of_nat i) = Ok b.
Proof using. intros Hl Hi. unfold byte_at. by rewrite (Hl i b Hi). Qed.

Lemma string_loaded s : ∀ fuel a rest, (String.length s < fuel)%nat → Forall (λ c, c ≠ 0) (codes s) →
  loaded a (codes s ++ 0 :: rest) mem → string_at mem fuel a = Ok s.
Proof using.
  induction s as [|c s IH]; intros [|fuel] a rest Hf Hz Hl; try (cbn in Hf; lia); cbn [string_at].
  - pose proof (byte_loaded _ _ 0 0 Hl eq_refl) as Hb. rewrite Z.add_0_r in Hb. by rewrite Hb.
  - pose proof (byte_loaded _ _ 0 _ Hl eq_refl) as Hb. rewrite Z.add_0_r in Hb. rewrite Hb. cbn [mbind result_bind].
    cbn in Hz. apply Forall_cons in Hz as [Hc Hz]. rewrite (proj2 (Z.eqb_neq _ _) Hc).
    change (codes (String c s) ++ 0 :: rest) with ([Z.of_N (Ascii.N_of_ascii c)] ++ codes s ++ 0 :: rest) in Hl.
    apply loaded_app in Hl as [_ Hl]. cbn [length] in Hl. rewrite (IH fuel (a + 1) rest); [|cbn in Hf; lia|done|exact Hl].
    cbn [mbind result_bind]. by rewrite N2Z.id, Ascii.ascii_N_embedding.
Qed.

Lemma entry_loaded sym e : entry_ok e → loaded sym (entry_bytes e) mem → st_info mem sym = Ok (e_info e) ∧ st_name mem sym = Ok (e_name e).
Proof using.
  intros [Hn _] Hl. split.
  - exact (byte_loaded _ _ 4 _ Hl eq_refl).
  - unfold st_name. pose proof (byte_loaded _ _ 0 _ Hl eq_refl) as B0. rewrite Z.add_0_r in B0. rewrite B0. cbn [mbind result_bind].
    rewrite (byte_loaded _ _ 1 _ Hl eq_refl : byte_at mem (sym + 1) = _). cbn [mbind result_bind].
    rewrite (byte_loaded _ _ 2 _ Hl eq_refl : byte_at mem (sym + 2) = _). cbn [mbind result_bind].
    rewrite (byte_loaded _ _ 3 _ Hl eq_refl : byte_at mem (sym + 3) = _). cbn [mbind result_bind].
    f_equal. by apply little_endian.
Qed.

Lemma entry_length e : entry_ok e → length (entry_bytes e) = 24%nat.
Proof using. intros [_ Hr]. cbn. by rewrite Hr. Qed.

Lemma names_loaded fuel strtab strs es : ∀ names sym,
  Forall entry_ok es → Forall2 (named strs) es names → Forall (λ s, (String.length s < fuel)%nat) names →
  loaded sym (es ≫= entry_bytes) mem → loaded strtab strs mem →
  function_names mem fuel (length es) strtab sym = Ok (functions es names).
Proof using.
  induction es as [|e es IH]; intros names sym Hok Hn Hf Hl Hs; [by inversion Hn|].
  apply Forall_cons in Hok as [He Hok]. apply Forall2_cons_inv_l in Hn as (s & ns & Hname & Hn & ->).
  apply Forall_cons in Hf as [Hfs Hf]. cbn [length function_names]. change ((e :: es) ≫= entry_bytes) with (entry_bytes e ++ (es ≫= entry_bytes)) in Hl. apply loaded_app in Hl as [Hl1 Hl2].
  destruct (entry_loaded sym e He Hl1) as [Hinfo Hoff]. rewrite Hinfo. cbn [mbind result_bind].
  rewrite entry_length in Hl2 by done. change (Z.of_nat 24) with sizeof_Elf64_Sym in Hl2.
  rewrite (IH ns (sym + sizeof_Elf64_Sym) Hok Hn Hf Hl2 Hs). unfold functions. cbn [zip zip_with].
  fold (is_function e). destruct (is_function e) eqn:Hfun.
  - rewrite Hoff. cbn [mbind result_bind]. destruct Hname as [Hz (rest & Hd)].
    assert (loaded (strtab + e_name e) (codes s ++ 0 :: rest) mem) as Hstr.
    { destruct He as [Hr _]. rewrite <-Hd. intros i b Hi. rewrite lookup_drop in Hi. apply Hs in Hi.
      by replace (strtab + e_name e + Z.of_nat i) with (strtab + Z.of_nat (Z.to_nat (e_name e) + i)) by lia. }
    rewrite (string_loaded s fuel _ rest Hfs Hz Hstr). cbn [mbind result_bind].
    by rewrite filter_cons_True by (cbn [fst]; rewrite Hfun; exact I).
  - cbn [mbind result_bind]. by rewrite filter_cons_False by (cbn [fst]; rewrite Hfun; exact id).
Qed.
End Reading.

Lemma image_length es : Forall entry_ok es → length (es ≫= entry_bytes) = (24 * length es)%nat.
Proof. induction 1 as [|e es He _ IH]; [done|]. cbn [mbind list_bind]. rewrite length_app, IH, entry_length by done. cbn. lia. Qed.

(** Both loops on a loaded library. *)
Lemma symbols_loaded mem fuel sections base es strs names :
  scan_sections sections (mk_tables 0 0 0) = Ok (mk_tables base (base + 24 * Z.of_nat (length es)) 24) →
  24 * Z.of_nat (length es) < 2 ^ 31 → Forall entry_ok es → Forall2 (named strs) es names →
  Forall (λ s, (String.length s < fuel)%nat) names → loaded base (image es strs) mem →
  symbols mem fuel sections = Ok (functions es names).
Proof.
  intros Hsec Hsize Hok Hn Hf Hl. unfold symbols. rewrite Hsec. cbn [mbind result_bind symtab strtab symentries].
  replace (base + 24 * Z.of_nat (length es) - base) with (24 * Z.of_nat (length es)) by lia.
  rewrite swrap_small by lia. change (24 =? 0) with false. cbv iota.
  rewrite (Z.mul_comm 24 (Z.of_nat _)) at 1. rewrite Z.quot_mul, Nat2Z.id by lia. apply loaded_app in Hl as [Hl1 Hl2].
  rewrite image_length in Hl2 by done.
  replace (base + Z.of_nat (24 * length es)) with (base + 24 * Z.of_nat (length es)) in Hl2 by lia.
  by apply (names_loaded mem fuel _ strs).
Qed.

(** ** The two processes *)

(** A process that has the library: its memory, its dynamic section, and where the symbol table is. *)
Record process := mk_process { p_mem : Z → option Z; p_sections : list (Z * Z); p_base : Z }.

(** The dynamic section gives the two tables and the size of a symbol, the memory holds the tables. *)
Definition opened (es : list entry) (strs : list Z) (p : process) : Prop :=
  scan_sections (p_sections p) (mk_tables 0 0 0) =
    Ok (mk_tables (p_base p) (p_base p + 24 * Z.of_nat (length es)) 24) ∧
  loaded (p_base p) (image es strs) (p_mem p).

(** A library: its names are in the string table, and its size fits an int. *)
Record library (fuel : nat) (es : list entry) (strs : list Z) (names : list string) : Prop := {
  library_size : 24 * Z.of_nat (length es) < 2 ^ 31;
  library_entries : Forall entry_ok es;
  library_named : Forall2 (named strs) es names;
  library_fuel : Forall (λ s, (String.length s < fuel)%nat) names }.

Lemma symbols_opened fuel es strs names p :
  library fuel es strs names → opened es strs p → symbols (p_mem p) fuel (p_sections p) = Ok (functions es names).
Proof. intros [Hs He Hn Hf] [Hd Hl]. by eapply symbols_loaded. Qed.

Lemma load_library_names `{Env} len l e t b e' t' :
  ClientExecutor.load_library len l e t = Ok (b, e', t') → ClientExecutor._func_names e' = Invocation.sort_names l.
Proof.
  intros E. unfold ClientExecutor.load_library in E. bind_inv E as b0 e0 t0 E0. step_inv E. bind_inv E as b1 e1 t1 E1.
  bind_inv E as x e2 t2 E2. run_inv_at E2. by run_inv_at E.
Qed.

(** C18. The client and the executor number the functions of a library alike. For a library whose string table
    directly follows its symbol table, the layout both loops rely on to find their end: wherever the two
    processes have mapped it, the symbol loops of [load_library] and of [extract_symbols] read the same
    names, those of the symbols of function type; for every one of these names the client finds an index, and
    the table of the executor, made from its own copy, has this name there. *)
Theorem function_numbers_agree `{Env} fuel es strs names client executor len e t b e' t' l p size :
  library fuel es strs names → opened es strs client → opened es strs executor →
  symbols (p_mem client) fuel (p_sections client) = Ok l →
  ClientExecutor.load_library len l e t = Ok (b, e', t') →
  l = functions es names ∧
  ∃ l', symbols (p_mem executor) fuel (p_sections executor) = Ok l' ∧
    let f := ExecutorThread.process_library l' (ExecutorThread.mk_Functions p size [] []) in
    extract_symbols (p_mem executor) fuel (p_sections executor) [] = Ok (ExecutorThread._names f) ∧
    ∀ fname, fname ∈ functions es names →
      ∃ idx, Invocation.func_index fname (ClientExecutor._func_names e') = Some idx ∧
        znth (ExecutorThread._names f) idx = Some fname.
Proof.
  intros Hlib Hc He Hl E. rewrite (symbols_opened _ _ _ _ _ Hlib Hc) in Hl. injection Hl as <-. split; [done|].
  exists (functions es names). unfold extract_symbols. rewrite (symbols_opened _ _ _ _ _ Hlib He).
  cbn zeta. split_and!; [done..|]. cbn [ExecutorThread.process_library ExecutorThread._names app].
  intros fname Hin. rewrite (load_library_names _ _ _ _ _ _ _ E).
  destruct (Invocation.func_index_lookup fname (Invocation.sort_names (functions es names))) as (i & Hi & Hn).
  { unfold Invocation.sort_names. by rewrite (merge_sort_Permutation String.le). }
  exists (Z.of_nat i). split; [done|]. unfold znth. rewrite bool_decide_eq_true_2 by lia. by rewrite Nat2Z.id.
Qed.

(** The bytes at a base, and nothing else. *)
Definition placed (base : Z) (bytes : list Z) (a : Z) : option Z :=
  if base <=? a then bytes !! Z.to_nat (a - base) else None.

Lemma loaded_placed base bytes : loaded base bytes (placed base bytes).
Proof.
  intros i b Hi. unfold placed. rewrite (proj2 (Z.leb_le _ _)) by lia.
  by replace (Z.to_nat (base + Z.of_nat i - base)) with i by lia.
Qed.

(** Two functions, and an object between them. *)
Definition demo_strings : list Z := 0 :: codes "resize" ++ 0 :: codes "table" ++ 0 :: codes "empty" ++ [0].
Definition demo_entries : list entry :=
  [mk_entry 0 0 (replicate 19 0); mk_entry 1 0x12 (replicate 19 1); mk_entry 8 0x11 (replicate 19 2);
   mk_entry 14 0x12 (replicate 19 3)].
Definition demo_names : list string := ["" ; "resize"; "table"; "empty"]%string.
Definition demo_process (base : Z) : process :=
  mk_process (placed base (image demo_entries demo_strings))
    [(1, 77); (DT_STRTAB, base + 96); (DT_SYMTAB, base); (10, 20); (DT_SYMENT, 24); (DT_NULL, 0)] base.

Lemma demo_opened base : opened demo_entries demo_strings (demo_process base).
Proof. split; [done|]. apply loaded_placed. Qed.

Lemma demo_is_library : library 16 demo_entries demo_strings demo_names.
Proof.
  split; [done| | |].
  - apply (bool_decide_unpack (Forall (λ e, 0 ≤ e_name e < 2 ^ 32 ∧ length (e_rest e) = 19%nat) demo_entries)). by vm_compute.
  - repeat apply Forall2_cons_2; [..|constructor].
    all: split; [apply (bool_decide_unpack (Forall (λ c, c ≠ 0) _)); by vm_compute|by eexists].
  - apply (bool_decide_unpack (Forall (λ s, (String.length s < 16)%nat) demo_names)). by vm_compute.
Qed.

Lemma function_numbers_agree_witness :
  ∃ b e' t' idx,
    @ClientExecutor.load_library ideal_env 512 ["resize"; "empty"] (ClientExecutor.demo_executor 1 0 3) [] = Ok (b, e', t') ∧
    Invocation.func_index "resize" (ClientExecutor._func_names e') = Some idx ∧
    znth (ExecutorThread._names (ExecutorThread.process_library ["resize"; "empty"]
      (ExecutorThread.mk_Functions 4096 512 [] []))) idx = Some "resize"%string.
Proof.
  destruct (@ClientExecutor.load_library ideal_env 512 ["resize"; "empty"] (ClientExecutor.demo_executor 1 0 3) [])
    as [[[b e'] t']|] eqn:E; [|vm_compute in E; discriminate E].
  destruct (@function_numbers_agree ideal_env 16 demo_entries demo_strings demo_names (demo_process 0x7000) (demo_process 0x55000)
              512 (ClientExecutor.demo_executor 1 0 3) [] b e' t' ["resize"; "empty"] 4096 512 demo_is_library
              (demo_opened 0x7000) (demo_opened 0x55000) ltac:(vm_compute; reflexivity) E) as (_ & l' & Hl & _ & Hf).
  destruct (Hf "resize"%string) as (idx & Hi & Hz); [apply list_elem_of_here|].
  exists b, e', t', idx. split; [reflexivity|]. split; [exact Hi|].
  vm_compute in Hl. injection Hl as <-. exact Hz.
Defined.
End Symbols.
