(* ===== verification/Atomics.v ===== *)
(** * Programs of atomic accesses, and their interleavings

    The lock-free code of src/server/common/readerwriterqueue.h and src/server/atomicops.h is a sequence of
    accesses to memory that two threads share.  A program [prog S A] is such a sequence: each [Act]
    is one access, a function from the memory to the new memory and the value read, or a fault.  A
    configuration runs two threads, each with the calls it still has to make, one access at a time
    in any order, and logs the calls and their results.

    Accesses are sequentially consistent: [fence] and [compiler_fence] order nothing that is not ordered
    already.  The code asks for less (relaxed accesses and acquire and release fences), so what
    is proved here does not show that the fences are enough on hardware that reorders.

    The second half is a rely/guarantee logic: [wp who p Q] says that thread [who] can run [p] to its end,
    without a fault, whatever the other thread does in between among the steps it is allowed
    ([acts]), keeping an invariant on memory and auxiliary state; [protocol_sound] turns the
    proofs about the calls of the two threads into a property of every reachable configuration. *)
From S2P Require Import Prelude.

Module Atomics.

(** ** Programs *)

Inductive prog (S A : Type) : Type :=
  | Ret (a : A)
  | Act (B : Type) (f : S → result (S * B)) (k : B → prog S A)
  | Wait (B : Type) (f : S → option (S * B)) (k : B → prog S A).
Arguments Ret {S A} a.
Arguments Act {S A B} f k.
Arguments Wait {S A B} f k.

Fixpoint prog_bind_ {S A B} (k : A → prog S B) (p : prog S A) : prog S B :=
  match p with
  | Ret a => k a
  | Act f k' => Act f (λ b, prog_bind_ k (k' b))
  | Wait f k' => Wait f (λ b, prog_bind_ k (k' b))
  end.

#[global] Instance prog_ret {S} : MRet (prog S) := λ A, Ret.
#[global] Instance prog_bind {S} : MBind (prog S) := λ A B, prog_bind_.

(** One access that reads, or that writes. *)
Definition load {S B} (g : S → B) : prog S B := Act (λ s, Ok (s, g s)) Ret.
Definition store {S} (g : S → S) : prog S unit := Act (λ s, Ok (g s, tt)) Ret.
Definition access {S B} (f : S → result (S * B)) : prog S B := Act f Ret.
Definition fail {S A} (e : fault) : prog S A := Act (B := A) (λ _, Fault e) Ret.
(** An access that the thread waits for: it is made when the memory allows it. *)
Definition await {S B} (f : S → option (S * B)) : prog S B := Wait f Ret.
Definition assert {S} (b : bool) (what : string) : prog S unit :=
  if b then Ret tt else fail (AssertFailed what).

(** A program on a part of the memory. *)
Fixpoint zoom {S S' A} (get : S' → S) (put : S → S' → S') (p : prog S A) : prog S' A :=
  match p with
  | Ret a => Ret a
  | Act f k => Act (λ s', match f (get s') with
                          | Ok (s, b) => Ok (put s s', b)
                          | Fault e => Fault e
                          end) (λ b, zoom get put (k b))
  | Wait f k => Wait (λ s', match f (get s') with
                            | Some (s, b) => Some (put s s', b)
                            | None => None
                            end) (λ b, zoom get put (k b))
  end.

(** The whole program with nothing in between. *)
Fixpoint run {S A} (p : prog S A) (s : S) : result (S * A) :=
  match p with
  | Ret a => Ok (s, a)
  | Act f k => match f s with
               | Ok (s', b) => run (k b) s'
               | Fault e => Fault e
               end
  | Wait f k => match f s with
                | Some (s', b) => run (k b) s'
                | None => Fault StillRunning
                end
  end.

(** One access of a program; [None] when it has returned, or has to wait. *)
Definition advance {S A} (p : prog S A) (s : S) : option (result (S * prog S A)) :=
  match p with
  | Ret _ => None
  | Act f k => Some (match f s with
                     | Ok (s', b) => Ok (s', k b)
                     | Fault e => Fault e
                     end)
  | Wait f k => match f s with
                | Some (s', b) => Some (Ok (s', k b))
                | None => None
                end
  end.

Lemma run_bind {S A B} (p : prog S A) (k : A → prog S B) s :
  run (p ≫= k) s = run p s ≫= λ '(s', a), run (k a) s'.
Proof.
  revert s. induction p as [a|C f k' IH|C f k' IH]; intros s; cbn [mbind prog_bind prog_bind_ run]; [done|..];
    (destruct (f s) as [[s' b]|]; [apply IH|done]).
Qed.

(** ** Memory orders *)

Inductive memory_order : Type :=
  | memory_order_relaxed | memory_order_acquire | memory_order_release | memory_order_acq_rel
  | memory_order_seq_cst.
Definition memory_order_sync : memory_order := memory_order_seq_cst.

Definition compiler_fence {S} (order : memory_order) : prog S unit := Ret tt.
Definition fence {S} (order : memory_order) : prog S unit := Ret tt.

(** [weak_atomic] on a [w]-bit signed integer: the previous value is returned. *)
Definition fetch_add {S} (w : Z) (get : S → Z) (put : Z → S → S) (increment : Z) : prog S Z :=
  Act (λ s, Ok (put (swrap w (get s + increment)) s, get s)) Ret.
Definition fetch_add_acquire {S} := @fetch_add S.
Definition fetch_add_release {S} := @fetch_add S.

(** At most [n] accesses, whatever the accesses find, and nothing to wait for. *)
Fixpoint bounded {S A} (n : nat) (p : prog S A) {struct p} : Prop :=
  match p with
  | Ret _ => True
  | Act f k => match n with O => False | S n => ∀ b, bounded n (k b) end
  | Wait f k => False
  end.

Lemma bounded_mono {S A} n m (p : prog S A) : (n ≤ m)%nat → bounded n p → bounded m p.
Proof.
  revert n m. induction p as [a|B f k IH|B f k IH]; intros n m Hle; [done| |done].
  destruct n as [|n], m as [|m]; cbn; [done|done|lia|]. intros H b. apply (IH b n); [lia|done].
Qed.

Lemma bounded_bind {S A B} n m (p : prog S A) (k : A → prog S B) :
  bounded n p → (∀ a, bounded m (k a)) → bounded (n + m) (p ≫= k).
Proof.
  intros Hp Hk. revert n Hp. induction p as [a|C f k' IH|C f k' IH]; intros n Hp; [| |done].
  - apply (bounded_mono m); [lia|apply Hk].
  - destruct n as [|n]; [done|]. intros b. apply IH, Hp.
Qed.

Lemma bounded_zoom {S S' A} (get : S' → S) (put : S → S' → S') n (p : prog S A) : bounded n p → bounded n (zoom get put p).
Proof.
  revert n. induction p as [a|B f k IH|B f k IH]; intros n; [done| |done]. destruct n as [|n]; [done|].
  intros H b. by apply IH.
Qed.

(** ** Two threads *)

Section Interleave.
Context {S Call Res : Type} (impl : Call → prog S Res).

Inductive event : Type :=
  | Called (who : bool) (c : Call)
  | Returned (who : bool) (c : Call) (r : Res).

Definition by_whom (e : event) : bool :=
  match e with Called w _ => w | Returned w _ _ => w end.

Record thread : Type := mk_thread {
  running : option (Call * prog S Res);
  todo : list Call
}.

Record config : Type := mk_config {
  shared : S;
  producer : thread;
  consumer : thread;
  log : list event
}.

Definition thread_of (who : bool) (c : config) : thread :=
  if who then producer c else consumer c.
Definition set_thread (who : bool) (s : S) (t : thread) (es : list event) (c : config) : config :=
  if who then mk_config s t (consumer c) (log c ++ es)
  else mk_config s (producer c) t (log c ++ es).

(** Thread [true] is the producer, thread [false] the consumer. *)
Inductive step : config → config → Prop :=
  | step_call who c call calls :
      thread_of who c = mk_thread None (call :: calls) →
      step c (set_thread who (shared c) (mk_thread (Some (call, impl call)) calls) [Called who call] c)
  | step_act who c call p p' calls s' :
      thread_of who c = mk_thread (Some (call, p)) calls →
      advance p (shared c) = Some (Ok (s', p')) →
      step c (set_thread who s' (mk_thread (Some (call, p')) calls) [] c)
  | step_return who c call r calls :
      thread_of who c = mk_thread (Some (call, Ret r)) calls →
      step c (set_thread who (shared c) (mk_thread None calls) [Returned who call r] c).

(** The next access of a thread faults. *)
Definition faults (who : bool) (c : config) (e : fault) : Prop :=
  ∃ call p calls, thread_of who c = mk_thread (Some (call, p)) calls ∧
    advance p (shared c) = Some (Fault e).

Definition start (s : S) (ps cs : list Call) : config :=
  mk_config s (mk_thread None ps) (mk_thread None cs) [].

(** The thread is in a call and has to wait. *)
Definition blocked (who : bool) (c : config) : Prop :=
  ∃ call B f k calls, thread_of who c = mk_thread (Some (call, Wait (B := B) f k)) calls ∧ f (shared c) = None.

Definition is_blocked (who : bool) (c : config) : bool :=
  match running (thread_of who c) with
  | Some (_, Wait f k) => match f (shared c) with Some _ => false | None => true end
  | _ => false
  end.

Lemma is_blocked_ok who c : is_blocked who c = true → blocked who c.
Proof.
  unfold is_blocked. destruct (thread_of who c) as [[[call []]|] calls] eqn:Et; cbn; [done|done| |done].
  destruct (f (shared c)) eqn:Ef; [done|]. intros _. by eexists call, _, _, _, calls.
Qed.

(** The configuration after the given turns; a thread that has nothing to do, or has to wait, skips its turn. *)
Definition turn (who : bool) (c : config) : result config :=
  match thread_of who c with
  | mk_thread None [] => Ok c
  | mk_thread None (call :: calls) =>
      Ok (set_thread who (shared c) (mk_thread (Some (call, impl call)) calls) [Called who call] c)
  | mk_thread (Some (call, p)) calls =>
      match p with
      | Ret r => Ok (set_thread who (shared c) (mk_thread None calls) [Returned who call r] c)
      | Act f k => match f (shared c) with
                   | Ok (s', b) => Ok (set_thread who s' (mk_thread (Some (call, k b)) calls) [] c)
                   | Fault e => Fault e
                   end
      | Wait f k => match f (shared c) with
                    | Some (s', b) => Ok (set_thread who s' (mk_thread (Some (call, k b)) calls) [] c)
                    | None => Ok c
                    end
      end
  end.

Fixpoint turns (schedule : list bool) (c : config) : result config :=
  match schedule with
  | [] => Ok c
  | who :: schedule => c' ← turn who c; turns schedule c'
  end.

Lemma turn_steps who c c' : turn who c = Ok c' → rtc step c c'.
Proof.
  unfold turn. destruct (thread_of who c) as [[[call p]|] calls] eqn:Et.
  - destruct p as [r|B f k|B f k]; intros E.
    + injection E as <-. apply rtc_once. by eapply step_return.
    + destruct (f (shared c)) as [[s' b]|] eqn:Ef; [|done]. injection E as <-.
      apply rtc_once. eapply step_act; [done|]. cbn. by rewrite Ef.
    + destruct (f (shared c)) as [[s' b]|] eqn:Ef; injection E as <-; [|done].
      apply rtc_once. eapply step_act; [done|]. cbn. by rewrite Ef.
  - destruct calls; intros E; injection E as <-; [done|]. apply rtc_once. by eapply step_call.
Qed.

Lemma turns_steps schedule c c' : turns schedule c = Ok c' → rtc step c c'.
Proof.
  revert c. induction schedule as [|who schedule IH]; cbn [turns]; intros c E.
  { injection E as <-. done. }
  inv_ok. etrans; [by eapply turn_steps|by apply IH].
Qed.

End Interleave.
Arguments event : clear implicits.
Arguments thread : clear implicits.
Arguments config : clear implicits.

(** ** Rely and guarantee *)

(** No thread ever waits. *)
Definition never {S X : Type} (who : bool) (s : S) (x : X) : Prop := False.

Section Logic.
Context {S X : Type}.
Context (inv : S → X → Prop).
Context (acts : bool → S → X → S → X → Prop).
(** What is known when a thread has to wait. *)
Context (waits : bool → S → X → Prop).

Fixpoint wp {A} (who : bool) (p : prog S A) (Q : A → S → X → Prop) (s : S) (x : X) : Prop :=
  ∀ s1 x1, inv s1 x1 → acts (negb who) s x s1 x1 →
  match p with
  | Ret a => Q a s1 x1
  | Act f k => ∃ s2 b x2, f s1 = Ok (s2, b) ∧ inv s2 x2 ∧ acts who s1 x1 s2 x2 ∧ wp who (k b) Q s2 x2
  | Wait f k => match f s1 with
                | Some (s2, b) => ∃ x2, inv s2 x2 ∧ acts who s1 x1 s2 x2 ∧ wp who (k b) Q s2 x2
                | None => waits who s1 x1
                end
  end.

(** What the other thread cannot make false. *)
Definition unharmed (who : bool) (P : S → X → Prop) : Prop :=
  ∀ s x s1 x1, inv s x → inv s1 x1 → acts (negb who) s x s1 x1 → P s x → P s1 x1.

Context (acts_refl : ∀ who s x, inv s x → acts who s x s x).
Context (acts_trans : ∀ who s1 x1 s2 x2 s3 x3,
  acts who s1 x1 s2 x2 → acts who s2 x2 s3 x3 → acts who s1 x1 s3 x3).

Lemma wp_later {A} who (p : prog S A) Q s x s1 x1 :
  wp who p Q s x → acts (negb who) s x s1 x1 → wp who p Q s1 x1.
Proof. destruct p; intros H Ha s2 x2 Hi Hr; apply H; eauto. Qed.

Lemma wp_later_all {A} who (p : prog S A) Q s x :
  (∀ s1 x1, inv s1 x1 → acts (negb who) s x s1 x1 → wp who p Q s1 x1) → wp who p Q s x.
Proof. destruct p; intros H s1 x1 Hi Hr; apply (H s1 x1 Hi Hr); auto. Qed.

Lemma wp_mono {A} who (p : prog S A) (Q Q' : A → S → X → Prop) s x :
  (∀ a s1 x1, inv s1 x1 → Q a s1 x1 → Q' a s1 x1) → wp who p Q s x → wp who p Q' s x.
Proof.
  intros HQ. revert s x. induction p as [a|B f k IH|B f k IH]; intros s x H s1 x1 Hi Hr.
  - by apply HQ, H.
  - destruct (H s1 x1 Hi Hr) as (s2 & b & x2 & ? & ? & ? & ?). exists s2, b, x2. eauto.
  - specialize (H s1 x1 Hi Hr). cbn in H |- *. destruct (f s1) as [[s2 b]|]; [|done].
    destruct H as (x2 & ? & ? & ?). exists x2. eauto.
Qed.

Lemma wp_bind {A B} who (p : prog S A) (k : A → prog S B) Q s x :
  wp who p (λ a s1 x1, wp who (k a) Q s1 x1) s x → wp who (p ≫= k) Q s x.
Proof.
  revert s x. induction p as [a|C f k' IH|C f k' IH]; intros s x H.
  - by apply wp_later_all.
  - intros s1 x1 Hi Hr. destruct (H s1 x1 Hi Hr) as (s2 & b & x2 & ? & ? & ? & ?).
    exists s2, b, x2. cbn. eauto.
  - intros s1 x1 Hi Hr. specialize (H s1 x1 Hi Hr). cbn in H |- *. destruct (f s1) as [[s2 b]|]; [|done].
    destruct H as (x2 & ? & ? & ?). exists x2. eauto.
Qed.

Lemma wp_ret {A} who (a : A) (Q : A → S → X → Prop) s x :
  inv s x → unharmed who (Q a) → Q a s x → wp who (Ret a) Q s x.
Proof. intros Hi Hu HQ s1 x1 Hi1 Hr. exact (Hu s x s1 x1 Hi Hi1 Hr HQ). Qed.

(** An access, given what is known before it and survives the other thread. *)
Lemma wp_act {A B} who (P : S → X → Prop) (f : S → result (S * B)) (k : B → prog S A) Q s x :
  inv s x → P s x → unharmed who P →
  (∀ s1 x1, inv s1 x1 → P s1 x1 →
    ∃ s2 b x2, f s1 = Ok (s2, b) ∧ inv s2 x2 ∧ acts who s1 x1 s2 x2 ∧ wp who (k b) Q s2 x2) →
  wp who (Act f k) Q s x.
Proof. intros Hi HP Hu H s1 x1 Hi1 Hr. apply H; [done|]. exact (Hu s x s1 x1 Hi Hi1 Hr HP). Qed.

Lemma wp_load {A B} who (P : S → X → Prop) (g : S → B) (k : B → prog S A) Q s x :
  inv s x → P s x → unharmed who P →
  (∀ s1 x1, inv s1 x1 → P s1 x1 → wp who (k (g s1)) Q s1 x1) →
  wp who (Act (λ s, Ok (s, g s)) k) Q s x.
Proof.
  intros Hi HP Hu H. eapply wp_act; [done..|]. intros s1 x1 Hi1 HP1.
  exists s1, (g s1), x1. eauto 10.
Qed.

(** Alone, a program that the logic accepts and that does not wait ends, and ends well. *)
Lemma wp_run {A} who n (p : prog S A) Q s x :
  inv s x → bounded n p → wp who p Q s x →
  ∃ s1 a x1, run p s = Ok (s1, a) ∧ inv s1 x1 ∧ acts who s x s1 x1 ∧ Q a s1 x1.
Proof.
  revert n s x. induction p as [a|B f k IH|B f k IH]; intros n s x Hi Hn H; [| |done].
  - exists s, a, x. cbn. eauto 10.
  - destruct (H s x Hi ltac:(eauto)) as (s2 & b & x2 & Ef & Hi2 & Ha & Hk). destruct n as [|n]; [done|].
    destruct (IH b n s2 x2 Hi2 (Hn b) Hk) as (s3 & a & x3 & Er & Hi3 & Ha3 & HQ).
    exists s3, a, x3. cbn [run]. rewrite Ef. eauto 10.
Qed.

End Logic.

(** Sequences on a part of the memory. *)
Lemma wp_zoom_bind {S S' X A B} inv acts waits (get : S' → S) (put : S → S' → S') who (p : prog S A) (k : A → prog S B) Q s (x : X) :
  wp inv acts waits who (zoom get put p ≫= λ a, zoom get put (k a)) Q s x →
  wp inv acts waits who (zoom get put (p ≫= k)) Q s x.
Proof.
  revert s x. induction p as [a|C f k' IH|C f k' IH]; intros s x H; [done|..]; intros s1 x1 Hi1 Ha1;
    specialize (H s1 x1 Hi1 Ha1); cbn in H |- *.
  - destruct H as (s2 & b & x2 & ? & ? & ? & ?). exists s2, b, x2. split_and!; try done. by apply IH.
  - destruct (f (get s1)) as [[s2 b]|]; [|done]. destruct H as (x2 & ? & ? & ?). exists x2. split_and!; try done. by apply IH.
Qed.

(** ** A program on a part of the memory

    The rest, [t] with auxiliary state [y], is left alone, and what is known of it is kept. *)
Section Zoom.
Context {S S' X Y : Type} (get : S' → S) (put : S → S' → S').
Context (get_put : ∀ s s', get (put s s') = s).
Context (inv : S → X → Prop) (acts : bool → S → X → S → X → Prop) (waits : bool → S → X → Prop).
Context (inv' : S' → X * Y → Prop) (acts' : bool → S' → X * Y → S' → X * Y → Prop) (waits' : bool → S' → X * Y → Prop).
Context (who : bool).
Context (inv_get : ∀ s a, inv' s a → inv (get s) a.1).
Context (acts_get : ∀ s a s1 a1, acts' (negb who) s a s1 a1 → acts (negb who) (get s) a.1 (get s1) a1.1).
Context (step_put : ∀ s a s1 x1, inv' s a → inv s1 x1 → acts who (get s) a.1 s1 x1 →
  inv' (put s1 s) (x1, a.2) ∧ acts' who s a (put s1 s) (x1, a.2)).
Context (waits_get : ∀ s a, waits who (get s) a.1 → waits' who s a).

Lemma wp_zoom {A} (F : S' → X * Y → Prop) (p : prog S A) Q s x y :
  (∀ s a s1 a1, inv' s a → inv' s1 a1 → acts' (negb who) s a s1 a1 → F s a → F s1 a1) →
  (∀ s a s1 x1, F s a → F (put s1 s) (x1, a.2)) →
  F s (x, y) → inv' s (x, y) → wp inv acts waits who p Q (get s) x →
  wp inv' acts' waits' who (zoom get put p) (λ r s1 a1, Q r (get s1) a1.1 ∧ F s1 a1) s (x, y).
Proof.
  intros HF HFput. revert s x y. induction p as [a|B f k IH|B f k IH]; intros s x y Hf Hi Hw s1 [x1 y1] Hi1 Ha;
    pose proof (HF _ _ _ _ Hi Hi1 Ha Hf) as Hf1; pose proof (acts_get _ _ _ _ Ha) as Ha1;
    pose proof (inv_get _ _ Hi1) as Hi1'; specialize (Hw (get s1) x1 Hi1' Ha1); cbn in Hw |- *.
  - done.
  - destruct Hw as (s2 & b & x2 & -> & Hi2 & Ha2 & Hk). destruct (step_put s1 (x1, y1) s2 x2 Hi1 Hi2 Ha2) as [Hi2' Ha2'].
    eexists _, b, (x2, y1). split_and!; [done..|]. apply IH; [|done|by rewrite get_put].
    exact (HFput s1 (x1, y1) s2 x2 Hf1).
  - destruct (f (get s1)) as [[s2 b]|]; [|by apply waits_get].
    destruct Hw as (x2 & Hi2 & Ha2 & Hk). destruct (step_put s1 (x1, y1) s2 x2 Hi1 Hi2 Ha2) as [Hi2' Ha2'].
    exists (x2, y1). split_and!; [done..|]. apply IH; [|done|by rewrite get_put].
    exact (HFput s1 (x1, y1) s2 x2 Hf1).
Qed.

End Zoom.

(** ** Protocols

    What the calls of the two threads are proved to do, call by call: [global] relates the log to the
    auxiliary state at all times, [idle] holds of a thread that is between calls, [post] when a call
    that was made after the events [l] is about to return.  [limit] bounds the logs that are considered. *)
Class Protocol {S X Call Res} (impl : Call → prog S Res) (inv : S → X → Prop)
    (acts : bool → S → X → S → X → Prop) (waits : bool → S → X → Prop)
    (allowed : bool → Call → Prop) (limit : list (event Call Res) → Prop)
    (global : list (event Call Res) → S → X → Prop)
    (idle : bool → list (event Call Res) → S → X → Prop)
    (post : bool → Call → list (event Call Res) → Res → S → X → Prop) : Prop := {
  p_refl who s x : inv s x → acts who s x s x;
  p_trans who s1 x1 s2 x2 s3 x3 : acts who s1 x1 s2 x2 → acts who s2 x2 s3 x3 → acts who s1 x1 s3 x3;
  p_global who l s x s1 x1 : inv s x → inv s1 x1 → acts who s x s1 x1 → global l s x → global l s1 x1;
  p_idle who l s x s1 x1 : inv s x → inv s1 x1 → acts (negb who) s x s1 x1 → idle who l s x → idle who l s1 x1;
  p_idle_event who l e s x : by_whom e = negb who → idle who l s x → idle who (l ++ [e]) s x;
  p_limit l l' : limit (l ++ l') → limit l;
  p_called who l c s x : global l s x → global (l ++ [Called who c]) s x;
  p_call who c l s x : allowed who c → limit (l ++ [Called who c]) → inv s x → global l s x → idle who l s x →
    wp inv acts waits who (impl c) (post who c l) s x;
  p_return who c l l' r s x : Forall (λ e, by_whom e = negb who) l' →
    global (l ++ Called who c :: l') s x → post who c l r s x →
    global ((l ++ Called who c :: l') ++ [Returned who c r]) s x ∧
    idle who ((l ++ Called who c :: l') ++ [Returned who c r]) s x
}.

Section Sound.
Context {S X Call Res : Type} {impl : Call → prog S Res} {inv : S → X → Prop}
  {acts : bool → S → X → S → X → Prop} {waits : bool → S → X → Prop} {allowed : bool → Call → Prop}
  {limit : list (event Call Res) → Prop}
  {global : list (event Call Res) → S → X → Prop}
  {idle : bool → list (event Call Res) → S → X → Prop}
  {post : bool → Call → list (event Call Res) → Res → S → X → Prop}
  `{!Protocol impl inv acts waits allowed limit global idle post}.

Definition thread_ok (who : bool) (l : list (event Call Res)) (t : thread S Call Res) (s : S) (x : X) : Prop :=
  Forall (allowed who) (todo t) ∧
  match running t with
  | None => idle who l s x
  | Some (c, p) => ∃ l1 l2, l = l1 ++ Called who c :: l2 ∧ Forall (λ e, by_whom e = negb who) l2 ∧
      wp inv acts waits who p (post who c l1) s x
  end.

Definition config_ok (c : config S Call Res) : Prop :=
  ∃ x, inv (shared c) x ∧ global (log c) (shared c) x ∧
    ∀ who, thread_ok who (log c) (thread_of who c) (shared c) x.

(** The other thread's steps and events do not harm a thread. *)
Lemma thread_ok_other who l t s x s1 x1 es :
  inv s x → inv s1 x1 → acts (negb who) s x s1 x1 → Forall (λ e, by_whom e = negb who) es →
  (length es ≤ 1)%nat → thread_ok who l t s x → thread_ok who (l ++ es) t s1 x1.
Proof.
  intros Hi Hi1 Ha Hes Hlen [Hto Hr]. split; [done|]. destruct (running t) as [[c p]|].
  - destruct Hr as (l1 & l2 & -> & Hl2 & Hwp). exists l1, (l2 ++ es). split_and!.
    + by rewrite <-app_assoc.
    + by apply Forall_app.
    + eapply wp_later; [|done..]. apply p_trans.
  - assert (idle who l s1 x1) by exact (p_idle _ _ _ _ _ _ Hi Hi1 Ha Hr).
    destruct es as [|e [|]]; cbn in Hlen; [by rewrite app_nil_r| |lia].
    apply p_idle_event; [|done]. by inversion Hes.
Qed.

Lemma thread_of_set who s t es (c : config S Call Res) :
  thread_of who (set_thread who s t es c) = t ∧
  thread_of (negb who) (set_thread who s t es c) = thread_of (negb who) c ∧
  shared (set_thread who s t es c) = s ∧ log (set_thread who s t es c) = log c ++ es.
Proof. by destruct who. Qed.

(** A step of one thread, given what it does to its own part. *)
Lemma config_ok_set who s t es c x x1 :
  inv (shared c) x → thread_ok (negb who) (log c) (thread_of (negb who) c) (shared c) x →
  inv s x1 → acts who (shared c) x s x1 → Forall (λ e, by_whom e = who) es → (length es ≤ 1)%nat →
  global (log c ++ es) s x1 → thread_ok who (log c ++ es) t s x1 →
  config_ok (set_thread who s t es c).
Proof.
  intros Hi Ho Hi1 Ha Hes Hlen Hg Ht. exists x1.
  destruct (thread_of_set who s t es c) as (E1 & E2 & -> & ->). split_and!; [done..|].
  intros w. destruct (decide (w = who)) as [->|Hw]; [by rewrite E1|].
  assert (w = negb who) as -> by (by destruct w, who). rewrite E2.
  eapply thread_ok_other; [..|done]; rewrite ?negb_involutive; done.
Qed.

Lemma step_log c c' : step impl c c' → log c `prefix_of` log c'.
Proof. intros Hs. inversion Hs as [[]|[]|[]]; cbn; (by apply prefix_app_r) || by rewrite app_nil_r. Qed.

Lemma config_ok_step c c' : config_ok c → step impl c c' → limit (log c') → config_ok c'.
Proof.
  intros (x & Hi & Hg & Hth) Hs Hlim. inversion Hs as
    [who ? call calls Et|who ? call p p' calls s' Et Ead|who ? call r calls Et]; subst;
    pose proof (Hth who) as [Hto Hr]; rewrite Et in Hto, Hr; cbn [todo running] in Hto, Hr.
  - apply Forall_cons in Hto as [Hc Hto].
    eapply config_ok_set; [done|done|done|by apply p_refl|by repeat constructor|done|by apply p_called|].
    split; [done|]. exists (log c), []. split_and!; [done|constructor|]. cbn.
    apply p_call; try done. by destruct who.
  - destruct Hr as (l1 & l2 & El & Hl2 & Hwp).
    assert (∃ x2, inv s' x2 ∧ acts who (shared c) x s' x2 ∧ wp inv acts waits who p' (post who call l1) s' x2)
      as (x2 & Hi2 & Ha & Hk).
    { destruct p as [?|B f k|B f k]; [done|..]; cbn in Ead.
      - destruct (Hwp (shared c) x Hi (p_refl _ _ _ Hi)) as (s2 & b & x2 & Ef & Hi2 & Ha & Hk). rewrite Ef in Ead. simplify_eq. eauto.
      - pose proof (Hwp (shared c) x Hi (p_refl _ _ _ Hi)) as H. cbn in H. destruct (f (shared c)) as [[s2 b]|]; [|done].
        destruct H as (x2 & ? & ? & ?). simplify_eq. eauto. }
    eapply config_ok_set; [done|done|done|done|constructor|cbn; lia|..].
    + rewrite app_nil_r. exact (p_global _ _ _ _ _ _ Hi Hi2 Ha Hg).
    + split; [done|]. rewrite app_nil_r. cbn. eauto 10.
  - destruct Hr as (l1 & l2 & El & Hl2 & Hwp).
    pose proof (Hwp (shared c) x Hi (p_refl _ _ _ Hi)) as Hp. rewrite El in Hg.
    destruct (p_return _ _ _ _ _ _ _ Hl2 Hg Hp) as [Hg' Hid]. rewrite <-El in Hg', Hid.
    eapply config_ok_set; [done|done|done|by apply p_refl|by repeat constructor|done|done|]. by split.
Qed.

Lemma config_ok_reachable c c' : config_ok c → rtc (step impl) c c' → limit (log c') → config_ok c'.
Proof.
  intros H Hr. pattern c'. revert c' Hr. apply rtc_ind_r; [done|]. intros c1 c2 Hr Hs IH Hlim.
  eapply config_ok_step; [|done..]. apply IH. destruct (step_log _ _ Hs) as [l El]. rewrite El in Hlim. by eapply p_limit.
Qed.

Lemma config_ok_start s x ps cs :
  inv s x → global [] s x → (∀ who, idle who [] s x) →
  Forall (allowed true) ps → Forall (allowed false) cs → config_ok (start s ps cs).
Proof.
  intros Hi Hg Hid Hp Hc. exists x. split_and!; [done..|]. intros []; (split; [done|apply Hid]).
Qed.

Lemma config_ok_no_fault c who e : config_ok c → ¬ faults who c e.
Proof.
  intros (x & Hi & _ & Hth) (call & p & calls & Et & Ead).
  destruct (Hth who) as [_ Hr]. rewrite Et in Hr. destruct Hr as (l1 & l2 & _ & _ & Hwp).
  destruct p as [?|B f k|B f k]; cbn in Ead; [done| |by destruct (f (shared c)) as [[]|]].
  destruct (Hwp (shared c) x Hi (p_refl _ _ _ Hi)) as (s2 & b & x2 & Ef & _).
  by rewrite Ef in Ead.
Qed.

(** A thread that has to wait. *)
Lemma config_ok_blocked c who : config_ok c → blocked who c →
  ∃ x, inv (shared c) x ∧ global (log c) (shared c) x ∧ waits who (shared c) x ∧
    ∀ who, thread_ok who (log c) (thread_of who c) (shared c) x.
Proof.
  intros (x & Hi & Hg & Hth) (call & B & f & k & calls & Et & Ef). exists x. split_and!; try done.
  destruct (Hth who) as [_ Hr]. rewrite Et in Hr. destruct Hr as (l1 & l2 & _ & _ & Hwp).
  pose proof (Hwp (shared c) x Hi (p_refl _ _ _ Hi)) as H. cbn in H. by rewrite Ef in H.
Qed.

(** Turns do not fault. *)
Lemma turns_ok schedule c : (∀ l, limit l) → config_ok c → ∃ c', turns impl schedule c = Ok c' ∧ config_ok c'.
Proof.
  intros Hlim. revert c. induction schedule as [|who schedule IH]; intros c Hc; [by exists c|].
  assert (∃ c1, turn impl who c = Ok c1) as [c1 E1].
  { unfold turn. destruct (thread_of who c) as [[[call p]|] [|cl calls]] eqn:Et; try (by eexists);
      (destruct p as [r|B f k|B f k]; [by eexists| |destruct (f (shared c)) as [[]|]; by eexists]);
      (destruct (f (shared c)) as [[s' b]|e] eqn:Ef; [by eexists|]);
      destruct (config_ok_no_fault c who e Hc); (eexists call, _, _; split; [exact Et|]; cbn; by rewrite Ef). }
  destruct (IH c1) as (c' & E & Hc'); [by eapply config_ok_reachable; [|by eapply turn_steps|]|].
  exists c'. cbn [turns]. by rewrite E1.
Qed.

End Sound.

(** ** Wait-freedom *)

(** The calls of a thread are bounded: what it still has to do of the running one is. *)
Definition thread_bounded {S Call Res} (ok : Call → Prop) (t : thread S Call Res) : Prop :=
  Forall ok (todo t) ∧ match running t with Some (_, p) => ∃ n, bounded n p | None => True end.

Lemma thread_bounded_reachable {S Call Res} (impl : Call → prog S Res) N (ok : Call → Prop) who c c' :
  (∀ call, ok call → bounded N (impl call)) → rtc (step impl) c c' →
  thread_bounded ok (thread_of who c) → thread_bounded ok (thread_of who c').
Proof.
  intros HN. induction 1 as [|c c1 c' Hs _ IH]; [done|]. intros Ht. apply IH. clear IH c'.
  inversion Hs as [w ? call calls Et|w ? call p p' calls s' Et Ead|w ? call r calls Et]; subst;
    (destruct (decide (w = who)) as [->|Hw]; [rewrite Et in Ht|by destruct w, who]); destruct Ht as [Hto Hr]; cbn in Hto, Hr.
  - apply Forall_cons in Hto as [Hc Hto]. destruct who; (split; [done|]); cbn; eauto.
  - destruct Hr as [n Hn]. destruct p as [?|B f k|B f k]; cbn in Ead; [done| |done]. destruct n as [|n]; [done|].
    destruct (f (shared c)) as [[s2 b]|]; [|done]. simplify_eq. destruct who; (split; [done|]); cbn; eauto.
  - by destruct who.
Qed.

Section WaitFree.
Context {S Call Res : Type} (impl : Call → prog S Res) (N : nat) (impl_bounded : ∀ c, bounded N (impl c)).

(** The thread needs at most [m] more turns. *)
Definition within (m : nat) (t : thread S Call Res) : Prop :=
  match running t with
  | None => (length (todo t) * (N + 2) ≤ m)%nat
  | Some (_, p) => ∃ j, bounded j p ∧ (j + 1 + length (todo t) * (N + 2) ≤ m)%nat
  end.

Lemma within_mono n m t : within n t → (n ≤ m)%nat → within m t.
Proof. unfold within. destruct (running t) as [[c p]|]; [intros (j & ? & ?) ?; exists j; split; [done|lia]|lia]. Qed.

Lemma turn_within who c c' m : turn impl who c = Ok c' →
  within m (thread_of who c) → within (pred m) (thread_of who c').
Proof.
  unfold turn. destruct (thread_of who c) as [[[call p]|] calls] eqn:Et; cbn [within running todo].
  - intros E (j & Hj & Hm). destruct p as [r|B f k|B f k]; [| |done].
    + injection E as <-. destruct (thread_of_set who (shared c) (mk_thread None calls) [Returned who call r] c)
        as [-> _]. cbn. lia.
    + destruct (f (shared c)) as [[s' b]|]; [|done]. injection E as <-. destruct j as [|j]; [done|].
      destruct (thread_of_set who s' (mk_thread (Some (call, k b)) calls) [] c) as [-> _].
      exists j. split; [apply Hj|]. cbn. lia.
  - destruct calls as [|call calls]; intros E Hm; injection E as <-; [cbn; rewrite Et; cbn; lia|].
    destruct (thread_of_set who (shared c) (mk_thread (Some (call, impl call)) calls) [Called who call] c) as [-> _].
    exists N. split; [apply impl_bounded|]. cbn in Hm |- *. lia.
Qed.

Lemma turn_other who c c' : turn impl (negb who) c = Ok c' → thread_of who c' = thread_of who c.
Proof.
  unfold turn. destruct (thread_of (negb who) c) as [[[call p]|] [|cl calls]]; intros E;
    try (destruct p as [r|B f k|B f k]; [|destruct (f (shared c)) as [[s' b]|]; [|done]|destruct (f (shared c)) as [[s' b]|]]);
    injection E as <-; by destruct who.
Qed.

(** Enough turns finish all the calls of a thread. *)
Lemma turns_within schedule who c c' m : turns impl schedule c = Ok c' → within m (thread_of who c) →
  within (m - length (filter (λ w, w = who) schedule)) (thread_of who c').
Proof.
  revert c m. induction schedule as [|w schedule IH]; cbn [turns]; intros c m E Hm.
  { injection E as <-. by rewrite Nat.sub_0_r. }
  inv_ok. rewrite filter_cons. case_decide as Ew.
  - subst w. cbn [length]. replace (m - Datatypes.S (length (filter (λ w, w = who) schedule)))%nat
      with (pred m - length (filter (λ w, w = who) schedule))%nat by lia.
    eapply IH; [done|]. by eapply turn_within.
  - assert (w = negb who) as -> by (by destruct w, who). eapply IH; [done|]. by erewrite turn_other.
Qed.

Lemma within_0 t : within 0 t → t = mk_thread None [].
Proof.
  destruct t as [[[c p]|] [|call calls]]; cbn; [intros (j & _ & ?); lia|intros (j & _ & ?); lia|done|lia].
Qed.

End WaitFree.
End Atomics.
