(* ===== verification/ReaderWriterQueue.v ===== *)
(** * The queue between two threads

    src/server/common/readerwriterqueue.h: a queue for one producer and one consumer.  Elements live in
    blocks, each a ring of slots with a [front] and a [tail] index; the blocks form a ring through [next],
    elements are added to [tailBlock] and taken from [frontBlock].  Each operation is a program of
    atomic accesses (Atomics.v): reading or writing one field, constructing, reading or destroying the
    object of one slot.

    A [Block*] is the number of the allocation, 0 for [nullptr]; the memory of a block after its header is
    the map [slots] of the objects that are alive, so that reading a slot without object, or constructing
    over one, is undefined.  [malloc] answers the addresses of the allocations, 0 when there is no
    memory.  The theorems are in QueueProtocol.v and QueueBounds.v. *)
From S2P Require Import Prelude Atomics.

Module ReaderWriterQueue.
Import Atomics.

(** [x |= x >> n] for the powers of two below the width. *)
Definition smear (x n : Z) : Z := Z.lor x (Z.shiftr x n).

Definition ceilToPow2 (x : Z) : Z :=
  let x := u64 (x - 1) in
  let x := smear x 1 in
  let x := smear x 2 in
  let x := smear x 4 in
  let x := smear x (Z.shiftl 1 3) in
  let x := smear x (Z.shiftl 2 3) in
  let x := smear x (Z.shiftl 4 3) in
  u64 (x + 1).

Definition align_for (alignment ptr : Z) : Z :=
  u64 (ptr + Z.rem (alignment - Z.rem ptr alignment) alignment).

Section Queue.
Context {T : Type}.

Abbreviation ptr := nat.
Definition nullptr : ptr := 0%nat.

Record Block : Type := mk_Block {
  front : Z;
  localTail : Z;
  tail : Z;
  localFront : Z;
  next : ptr;
  data : Z;
  sizeMask : Z;
  rawThis : Z;
  slots : gmap Z T
}.

Definition set_front (v : Z) (b : Block) : Block :=
  mk_Block v (localTail b) (tail b) (localFront b) (next b) (data b) (sizeMask b) (rawThis b) (slots b).
Definition set_localTail (v : Z) (b : Block) : Block :=
  mk_Block (front b) v (tail b) (localFront b) (next b) (data b) (sizeMask b) (rawThis b) (slots b).
Definition set_tail (v : Z) (b : Block) : Block :=
  mk_Block (front b) (localTail b) v (localFront b) (next b) (data b) (sizeMask b) (rawThis b) (slots b).
Definition set_localFront (v : Z) (b : Block) : Block :=
  mk_Block (front b) (localTail b) (tail b) v (next b) (data b) (sizeMask b) (rawThis b) (slots b).
Definition set_next (v : ptr) (b : Block) : Block :=
  mk_Block (front b) (localTail b) (tail b) (localFront b) v (data b) (sizeMask b) (rawThis b) (slots b).
Definition set_slots (v : gmap Z T) (b : Block) : Block :=
  mk_Block (front b) (localTail b) (tail b) (localFront b) (next b) (data b) (sizeMask b) (rawThis b) v.

(** [Block(_size, _rawThis, _data)]. *)
Definition new_Block (size raw d : Z) : Block :=
  mk_Block 0 0 0 0 nullptr d (u64 (size - 1)) raw ∅.

(** The object, and the memory it lives in. *)
Record Queue : Type := mk_Queue {
  frontBlock : ptr;
  tailBlock : ptr;
  largestBlockSize : Z;
  enqueuing : bool;
  dequeuing : bool;
  heap : gmap ptr Block;
  allocations : nat
}.

Definition set_frontBlock (v : ptr) (q : Queue) : Queue :=
  mk_Queue v (tailBlock q) (largestBlockSize q) (enqueuing q) (dequeuing q) (heap q) (allocations q).
Definition set_tailBlock (v : ptr) (q : Queue) : Queue :=
  mk_Queue (frontBlock q) v (largestBlockSize q) (enqueuing q) (dequeuing q) (heap q) (allocations q).
Definition set_largestBlockSize (v : Z) (q : Queue) : Queue :=
  mk_Queue (frontBlock q) (tailBlock q) v (enqueuing q) (dequeuing q) (heap q) (allocations q).
Definition set_enqueuing (v : bool) (q : Queue) : Queue :=
  mk_Queue (frontBlock q) (tailBlock q) (largestBlockSize q) v (dequeuing q) (heap q) (allocations q).
Definition set_dequeuing (v : bool) (q : Queue) : Queue :=
  mk_Queue (frontBlock q) (tailBlock q) (largestBlockSize q) (enqueuing q) v (heap q) (allocations q).
Definition set_heap (v : gmap ptr Block) (q : Queue) : Queue :=
  mk_Queue (frontBlock q) (tailBlock q) (largestBlockSize q) (enqueuing q) (dequeuing q) v (allocations q).
Definition set_allocations (v : nat) (q : Queue) : Queue :=
  mk_Queue (frontBlock q) (tailBlock q) (largestBlockSize q) (enqueuing q) (dequeuing q) (heap q) v.

(** [b->field]: reading and writing a field through a pointer. *)
Definition deref {A} (b : ptr) (f : Block → result (Block * A)) : prog Queue A :=
  access (λ q, match heap q !! b with
               | Some blk => match f blk with
                             | Ok (blk', a) => Ok (set_heap (<[b := blk']> (heap q)) q, a)
                             | Fault e => Fault e
                             end
               | None => Fault (Undefined "Block")
               end).
Definition get {A} (b : ptr) (g : Block → A) : prog Queue A :=
  access (λ q, match heap q !! b with
               | Some blk => Ok (q, g blk)
               | None => Fault (Undefined "Block")
               end).
Definition put (b : ptr) (g : Block → Block) : prog Queue unit := deref b (λ blk, Ok (g blk, tt)).

(** [new (b->data + i * sizeof(T)) T(x)], [*element], [element->~T()]. *)
Definition construct (b : ptr) (i : Z) (x : T) : prog Queue unit :=
  deref b (λ blk,
    if bool_decide (0 ≤ i ≤ sizeMask blk)
    then match slots blk !! i with
         | None => Ok (set_slots (<[i := x]> (slots blk)) blk, tt)
         | Some _ => Fault (Undefined "object constructed over another")
         end
    else Fault (Undefined "slot out of range")).
Definition read (b : ptr) (i : Z) : prog Queue T :=
  access (λ q, match heap q !! b with
               | Some blk => match slots blk !! i with
                             | Some x => Ok (q, x)
                             | None => Fault (Undefined "slot without object")
                             end
               | None => Fault (Undefined "Block")
               end).
Definition destroy (b : ptr) (i : Z) : prog Queue unit :=
  deref b (λ blk, match slots blk !! i with
                  | Some _ => Ok (set_slots (delete i (slots blk)) blk, tt)
                  | None => Fault (Undefined "slot without object")
                  end).

(** [ReentrantGuard] around the body of an operation. *)
Definition reentrant {A} (inSection : Queue → bool) (set_inSection : bool → Queue → Queue)
    (body : prog Queue A) : prog Queue A :=
  busy ← load inSection;
  assert (negb busy) "Concurrent (or re-entrant) enqueue or dequeue operation detected" ;;
  store (set_inSection true) ;;
  r ← body;
  store (set_inSection false) ;;
  mret r.

(** ** Memory *)

(** The sizes and alignments of [T] and of [Block]. *)
Record layout : Type := mk_layout {
  sizeof_T : Z; alignof_T : Z; sizeof_Block : Z; alignof_Block : Z
}.

Section Code.
Context (MAX_BLOCK_SIZE : Z) (lay : layout) (malloc : nat → Z → Z).

Definition block_bytes (capacity : Z) : Z :=
  let size := u64 (sizeof_Block lay + alignof_Block lay - 1) in
  u64 (size + u64 (u64 (u64 (sizeof_T lay * capacity) + alignof_T lay) - 1)).

Definition make_block (capacity : Z) : prog Queue ptr :=
  access (λ q,
    let size := block_bytes capacity in
    let n := S (allocations q) in
    let newBlockRaw := malloc (allocations q) size in
    if newBlockRaw =? 0 then Ok (set_allocations n q, nullptr)
    else
      let newBlockAligned := align_for (alignof_Block lay) newBlockRaw in
      let newBlockData := align_for (alignof_T lay) (u64 (newBlockAligned + sizeof_Block lay)) in
      Ok (set_heap (<[n := new_Block capacity newBlockRaw newBlockData]> (heap q)) (set_allocations n q), n)).

(** ** Operations of the producer *)

Inductive AllocationMode : Type := CanAlloc | CannotAlloc.

Definition inner_enqueue_ (canAlloc : AllocationMode) (element : T) : prog Queue bool :=
  tailBlock_ ← load tailBlock;
  blockFront ← get tailBlock_ localFront;
  blockTail ← get tailBlock_ tail;
  mask ← get tailBlock_ sizeMask;
  let nextBlockTail := Z.land (u64 (blockTail + 1)) mask in
  room ← (if bool_decide (nextBlockTail ≠ blockFront) then mret true
          else f ← get tailBlock_ front;
               put tailBlock_ (set_localFront f) ;;
               mret (bool_decide (nextBlockTail ≠ f)));
  if (room : bool) then
    fence memory_order_acquire ;;
    construct tailBlock_ blockTail element ;;
    fence memory_order_release ;;
    put tailBlock_ (set_tail nextBlockTail) ;;
    mret true
  else
    fence memory_order_acquire ;;
    following ← get tailBlock_ next;
    head ← load frontBlock;
    if bool_decide (following ≠ head) then
      fence memory_order_acquire ;;
      tailBlockNext ← get tailBlock_ next;
      nextBlockFront ← get tailBlockNext front;
      put tailBlockNext (set_localFront nextBlockFront) ;;
      nextBlockTail ← get tailBlockNext tail;
      fence memory_order_acquire ;;
      assert (nextBlockFront =? nextBlockTail) "nextBlockFront == nextBlockTail" ;;
      put tailBlockNext (set_localFront nextBlockFront) ;;
      construct tailBlockNext nextBlockTail element ;;
      mask ← get tailBlockNext sizeMask;
      put tailBlockNext (set_tail (Z.land (u64 (nextBlockTail + 1)) mask)) ;;
      fence memory_order_release ;;
      store (set_tailBlock tailBlockNext) ;;
      mret true
    else match canAlloc with
    | CanAlloc =>
        largest ← load largestBlockSize;
        let newBlockSize := if largest >=? MAX_BLOCK_SIZE then largest else u64 (largest * 2) in
        newBlock ← make_block newBlockSize;
        if bool_decide (newBlock = nullptr) then mret false
        else
          store (set_largestBlockSize newBlockSize) ;;
          construct newBlock 0 element ;;
          f ← get newBlock front;
          assert (f =? 0) "newBlock->front == 0" ;;
          put newBlock (set_localTail 1) ;;
          put newBlock (set_tail 1) ;;
          following ← get tailBlock_ next;
          put newBlock (set_next following) ;;
          put tailBlock_ (set_next newBlock) ;;
          fence memory_order_release ;;
          store (set_tailBlock newBlock) ;;
          mret true
    | CannotAlloc => mret false
    end.

Definition inner_enqueue (canAlloc : AllocationMode) (element : T) : prog Queue bool :=
  reentrant enqueuing set_enqueuing (inner_enqueue_ canAlloc element).

Definition try_enqueue (element : T) : prog Queue bool := inner_enqueue CannotAlloc element.
Definition try_emplace (element : T) : prog Queue bool := inner_enqueue CannotAlloc element.
Definition enqueue (element : T) : prog Queue bool := inner_enqueue CanAlloc element.
Definition emplace (element : T) : prog Queue bool := inner_enqueue CanAlloc element.

(** ** Operations of the consumer *)

(** [blockFront != blockTail || blockFront != (frontBlock_->localTail = frontBlock_->tail.load())]. *)
Definition front_has_element (frontBlock_ : ptr) (blockFront blockTail : Z) : prog Queue bool :=
  if bool_decide (blockFront ≠ blockTail) then mret true
  else t ← get frontBlock_ tail;
       put frontBlock_ (set_localTail t) ;;
       mret (bool_decide (blockFront ≠ t)).

(** The label [non_empty_front_block] of [try_dequeue]. *)
Definition dequeue_from (frontBlock_ : ptr) (blockFront : Z) : prog Queue (option T) :=
  result ← read frontBlock_ blockFront;
  destroy frontBlock_ blockFront ;;
  mask ← get frontBlock_ sizeMask;
  let blockFront := Z.land (u64 (blockFront + 1)) mask in
  fence memory_order_release ;;
  put frontBlock_ (set_front blockFront) ;;
  mret (Some result).

Definition try_dequeue_ : prog Queue (option T) :=
  frontBlock_ ← load frontBlock;
  blockTail ← get frontBlock_ localTail;
  blockFront ← get frontBlock_ front;
  found ← front_has_element frontBlock_ blockFront blockTail;
  if (found : bool) then
    fence memory_order_acquire ;;
    dequeue_from frontBlock_ blockFront
  else
    tl ← load tailBlock;
    if bool_decide (frontBlock_ ≠ tl) then
      fence memory_order_acquire ;;
      frontBlock_ ← load frontBlock;
      blockTail ← get frontBlock_ tail;
      put frontBlock_ (set_localTail blockTail) ;;
      blockFront ← get frontBlock_ front;
      fence memory_order_acquire ;;
      if bool_decide (blockFront ≠ blockTail) then dequeue_from frontBlock_ blockFront
      else
        nextBlock ← get frontBlock_ next;
        nextBlockFront ← get nextBlock front;
        nextBlockTail ← get nextBlock tail;
        put nextBlock (set_localTail nextBlockTail) ;;
        fence memory_order_acquire ;;
        assert (negb (nextBlockFront =? nextBlockTail)) "nextBlockFront != nextBlockTail" ;;
        fence memory_order_release ;;
        store (set_frontBlock nextBlock) ;;
        compiler_fence memory_order_release ;;
        dequeue_from nextBlock nextBlockFront
    else mret None.

Definition try_dequeue : prog Queue (option T) := reentrant dequeuing set_dequeuing try_dequeue_.

(** A [T*] is the block and the slot. *)
Definition peek_ : prog Queue (option (ptr * Z)) :=
  frontBlock_ ← load frontBlock;
  blockTail ← get frontBlock_ localTail;
  blockFront ← get frontBlock_ front;
  found ← front_has_element frontBlock_ blockFront blockTail;
  if (found : bool) then
    fence memory_order_acquire ;;
    mret (Some (frontBlock_, blockFront))
  else
    tl ← load tailBlock;
    if bool_decide (frontBlock_ ≠ tl) then
      fence memory_order_acquire ;;
      frontBlock_ ← load frontBlock;
      blockTail ← get frontBlock_ tail;
      put frontBlock_ (set_localTail blockTail) ;;
      blockFront ← get frontBlock_ front;
      fence memory_order_acquire ;;
      if bool_decide (blockFront ≠ blockTail) then mret (Some (frontBlock_, blockFront))
      else
        nextBlock ← get frontBlock_ next;
        nextBlockFront ← get nextBlock front;
        fence memory_order_acquire ;;
        t ← get nextBlock tail;
        assert (negb (nextBlockFront =? t)) "nextBlockFront != nextBlock->tail.load()" ;;
        mret (Some (nextBlock, nextBlockFront))
    else mret None.

Definition peek : prog Queue (option (ptr * Z)) := reentrant dequeuing set_dequeuing peek_.

(** The label [non_empty_front_block] of [pop]. *)
Definition pop_from (frontBlock_ : ptr) (blockFront : Z) : prog Queue bool :=
  destroy frontBlock_ blockFront ;;
  mask ← get frontBlock_ sizeMask;
  let blockFront := Z.land (u64 (blockFront + 1)) mask in
  fence memory_order_release ;;
  put frontBlock_ (set_front blockFront) ;;
  mret true.

Definition pop_ : prog Queue bool :=
  frontBlock_ ← load frontBlock;
  blockTail ← get frontBlock_ localTail;
  blockFront ← get frontBlock_ front;
  found ← front_has_element frontBlock_ blockFront blockTail;
  if (found : bool) then
    fence memory_order_acquire ;;
    pop_from frontBlock_ blockFront
  else
    tl ← load tailBlock;
    if bool_decide (frontBlock_ ≠ tl) then
      fence memory_order_acquire ;;
      frontBlock_ ← load frontBlock;
      blockTail ← get frontBlock_ tail;
      put frontBlock_ (set_localTail blockTail) ;;
      blockFront ← get frontBlock_ front;
      fence memory_order_acquire ;;
      if bool_decide (blockFront ≠ blockTail) then pop_from frontBlock_ blockFront
      else
        nextBlock ← get frontBlock_ next;
        nextBlockFront ← get nextBlock front;
        nextBlockTail ← get nextBlock tail;
        put nextBlock (set_localTail nextBlockTail) ;;
        fence memory_order_acquire ;;
        assert (negb (nextBlockFront =? nextBlockTail)) "nextBlockFront != nextBlockTail" ;;
        fence memory_order_release ;;
        store (set_frontBlock nextBlock) ;;
        compiler_fence memory_order_release ;;
        pop_from nextBlock nextBlockFront
    else mret false.

Definition pop : prog Queue bool := reentrant dequeuing set_dequeuing pop_.

(** ** Operations of both *)

(** A [do ... while (block != frontBlock_)] around the ring, for at most [fuel] blocks. *)
Fixpoint around {A} (fuel : nat) (frontBlock_ block : ptr) (acc : A)
    (body : ptr → A → prog Queue (A * ptr)) : prog Queue A :=
  match fuel with
  | O => fail StillRunning
  | S fuel =>
      '(acc, block) ← body block acc;
      if bool_decide (block ≠ frontBlock_) then around fuel frontBlock_ block acc body else mret acc
  end.

Definition size_approx (fuel : nat) : prog Queue Z :=
  frontBlock_ ← load frontBlock;
  around fuel frontBlock_ frontBlock_ 0 (λ block result,
    fence memory_order_acquire ;;
    blockFront ← get block front;
    blockTail ← get block tail;
    mask ← get block sizeMask;
    block ← get block next;
    mret (u64 (result + Z.land (u64 (blockTail - blockFront)) mask), block)).

Definition max_capacity (fuel : nat) : prog Queue Z :=
  frontBlock_ ← load frontBlock;
  around fuel frontBlock_ frontBlock_ 0 (λ block result,
    fence memory_order_acquire ;;
    mask ← get block sizeMask;
    block ← get block next;
    mret (u64 (result + mask), block)).

(** ** Construction and destruction *)

Definition check_block (block : ptr) : prog Queue unit :=
  if bool_decide (block = nullptr) then fail (Throw "bad_alloc") else mret tt.

(** The chain of [initialBlockCount] blocks; returns [firstBlock]. *)
Fixpoint chain (n : nat) (firstBlock lastBlock : ptr) : prog Queue ptr :=
  match n with
  | O => mret firstBlock
  | S n =>
      size ← load largestBlockSize;
      block ← make_block size;
      check_block block ;;
      firstBlock ← (if bool_decide (firstBlock = nullptr) then mret block
                    else put lastBlock (set_next block) ;; mret firstBlock);
      put block (set_next firstBlock) ;;
      chain n firstBlock block
  end.

Definition construct_queue (size : Z) : prog Queue unit :=
  store (set_enqueuing false) ;;
  store (set_dequeuing false) ;;
  assert (MAX_BLOCK_SIZE =? ceilToPow2 MAX_BLOCK_SIZE) "MAX_BLOCK_SIZE must be a power of 2" ;;
  assert (2 <=? MAX_BLOCK_SIZE) "MAX_BLOCK_SIZE must be at least 2" ;;
  store (set_largestBlockSize (ceilToPow2 (u64 (size + 1)))) ;;
  largest ← load largestBlockSize;
  firstBlock ← (
    if largest >? u64 (MAX_BLOCK_SIZE * 2) then
      let initialBlockCount := u64 (size + u64 (MAX_BLOCK_SIZE * 2) - 3) / (MAX_BLOCK_SIZE - 1) in
      store (set_largestBlockSize MAX_BLOCK_SIZE) ;;
      chain (Z.to_nat initialBlockCount) nullptr nullptr
    else
      firstBlock ← make_block largest;
      check_block firstBlock ;;
      put firstBlock (set_next firstBlock) ;;
      mret firstBlock);
  store (set_frontBlock firstBlock) ;;
  store (set_tailBlock firstBlock) ;;
  fence memory_order_sync.

(** The move constructor: [other] gets a block of its own; returns the new object.  The two objects share
    the memory. *)
Definition move_construct : prog Queue (ptr * ptr * Z) :=
  f ← load frontBlock;
  t ← load tailBlock;
  l ← load largestBlockSize;
  store (set_largestBlockSize 32) ;;
  size ← load largestBlockSize;
  b ← make_block size;
  check_block b ;;
  put b (set_next b) ;;
  store (set_frontBlock b) ;;
  store (set_tailBlock b) ;;
  mret (f, t, l).

(** [operator=(ReaderWriterQueue&&)]: the fields of the two objects are exchanged. *)
Definition move_assign (this other : Queue) : Queue * Queue :=
  (set_largestBlockSize (largestBlockSize other)
     (set_tailBlock (tailBlock other) (set_frontBlock (frontBlock other) this)),
   set_largestBlockSize (largestBlockSize this)
     (set_tailBlock (tailBlock this) (set_frontBlock (frontBlock this) other))).

(** The objects that are left in a block, from [i] to [blockTail]. *)
Fixpoint destroy_elements (fuel : nat) (block : ptr) (i blockTail : Z) : prog Queue unit :=
  if bool_decide (i = blockTail) then mret tt
  else match fuel with
       | O => fail StillRunning
       | S fuel =>
           destroy block i ;;
           mask ← get block sizeMask;
           destroy_elements fuel block (Z.land (u64 (i + 1)) mask) blockTail
       end.

(** [std::free(rawBlock)]: no pointer to the block may be used any more. *)
Definition free_block (block : ptr) : prog Queue unit :=
  access (λ q, match heap q !! block with
               | Some _ => Ok (set_heap (delete block (heap q)) q, tt)
               | None => Fault (Undefined "free")
               end).

(** The body of the destructor's loop: the objects of a block, then its memory. *)
Definition destroy_block (per_block : nat) (block : ptr) : prog Queue (unit * ptr) :=
  nextBlock ← get block next;
  blockFront ← get block front;
  blockTail ← get block tail;
  destroy_elements per_block block blockFront blockTail ;;
  rawBlock ← get block rawThis;
  free_block block ;;
  mret (tt, nextBlock).

(** [fuel] bounds the blocks, [per_block] the objects of one. *)
Definition destruct_queue (fuel per_block : nat) : prog Queue unit :=
  fence memory_order_sync ;;
  frontBlock_ ← load frontBlock;
  around fuel frontBlock_ frontBlock_ tt (λ block _, destroy_block per_block block).

End Code.

(** ** What the queue contains *)

(** The elements of a block from [front] to [tail]. *)
Definition block_elements (blk : Block) : list T :=
  omap (λ i, slots blk !! ((front blk + i) `mod` (sizeMask blk + 1)))
    (seqZ 0 ((tail blk - front blk) `mod` (sizeMask blk + 1))).

(** Block after block, from [b] up to the tail block. *)
Fixpoint elements_from (fuel : nat) (q : Queue) (b : ptr) : list T :=
  match fuel, heap q !! b with
  | S fuel, Some blk =>
      block_elements blk ++
      (if bool_decide (b = tailBlock q) then [] else elements_from fuel q (next blk))
  | _, _ => []
  end.

Definition contents (q : Queue) : list T := elements_from (size (heap q)) q (frontBlock q).

(** Memory before the constructor. *)
Definition no_queue : Queue := mk_Queue nullptr nullptr 0 false false ∅ 0.

End Queue.
Arguments Block : clear implicits.
Arguments Queue : clear implicits.
End ReaderWriterQueue.
