(* ===== verification/QueueProtocol.v ===== *)
(** * Correctness of the queue between two threads

    The proof that ReaderWriterQueue.v is a first-in first-out queue whatever the interleaving of its
    producer and its consumer.  Each index of a block is related to a counter that only grows, the index
    being the counter modulo the size of the block ([Counters]); [Aux] adds the order of the blocks and
    what each thread is in the middle of.  [inv] is the invariant, [acts] what each of the threads may
    change. *)
From S2P Require Import Prelude Atomics ReaderWriterQueue.

Module QueueProtocol.
Import Atomics ReaderWriterQueue.

(** ** Indices modulo a power of two *)

Lemma land_next k i : 0 ≤ k < 64 → 0 ≤ i < 2 ^ k →
  Z.land (u64 (i + 1)) (2 ^ k - 1) = (i + 1) `mod` 2 ^ k.
Proof.
  intros Hk Hi. assert (2 ^ k < 2 ^ 64) by (apply Z.pow_lt_mono_r; lia).
  rewrite wrap_small by lia. replace (2 ^ k - 1) with (Z.ones k) by (rewrite Z.ones_equiv; lia).
  apply Z.land_ones. lia.
Qed.

Lemma mod_succ a n : 0 < n → (a `mod` n + 1) `mod` n = (a + 1) `mod` n.
Proof. intros. apply Zplus_mod_idemp_l. Qed.

(** Two counters less than a turn apart with the same index are equal. *)
Lemma mod_same a b n : 0 < n → a ≤ b < a + n → a `mod` n = b `mod` n → a = b.
Proof.
  intros Hn Hab E. pose proof (Z.div_mod a n). pose proof (Z.div_mod b n).
  assert (b - a = n * (b `div` n - a `div` n)) by lia.
  pose proof (Z.div_le_mono a b n). assert (b `div` n - a `div` n < 1) by nia. nia.
Qed.

Lemma mod_turn a n : 0 < n → (a + n) `mod` n = a `mod` n.
Proof. intros. rewrite <-(Z.mul_1_l n) at 1. apply Z_mod_plus_full. Qed.

(** Every slot belongs to one counter of a turn. *)
Lemma mod_cover f i n : 0 < n → 0 ≤ i < n → ∃ j, f ≤ j < f + n ∧ j `mod` n = i.
Proof.
  intros Hn Hi. exists (f + (i - f) `mod` n). split.
  - pose proof (Z.mod_pos_bound (i - f) n). lia.
  - rewrite Zplus_mod_idemp_r. replace (f + (i - f)) with i by lia. by apply Z.mod_small.
Qed.

Section Protocol.
Context {T : Type}.
Implicit Types (blk : Block T) (q s : Queue T).
Abbreviation ptr := nat.

(** ** One block

    The counters behind [localFront], [front], [localTail] and [tail], and the elements from [front] to
    [tail]. *)
Record Counters : Type := mk_Counters { c_lf : Z; c_f : Z; c_lt : Z; c_t : Z; elems : list T }.

(** [taken]: the consumer has destroyed the first element and not yet moved [front]; [placed]: the producer
    may have constructed the next element and not yet moved [tail]. *)
Record block_ok blk (c : Counters) (taken placed : bool) : Prop := {
  b_size : ∃ k, 1 ≤ k < 64 ∧ sizeMask blk = 2 ^ k - 1;
  b_order : c_lf c ≤ c_f c ≤ c_lt c ∧ c_lt c ≤ c_t c;
  b_room : c_t c - c_lf c ≤ sizeMask blk;
  b_count : c_t c = c_f c + Z.of_nat (length (elems c));
  b_localFront : localFront blk = c_lf c `mod` (sizeMask blk + 1);
  b_front : front blk = c_f c `mod` (sizeMask blk + 1);
  b_localTail : localTail blk = c_lt c `mod` (sizeMask blk + 1);
  b_tail : tail blk = c_t c `mod` (sizeMask blk + 1);
  b_taken : taken = true → elems c ≠ [];
  b_range i v : slots blk !! i = Some v → 0 ≤ i ≤ sizeMask blk;
  b_slots j : c_f c ≤ j < c_f c + (sizeMask blk + 1) →
    (taken = true → j ≠ c_f c) → (placed = true → j ≠ c_t c) →
    slots blk !! (j `mod` (sizeMask blk + 1)) = elems c !! Z.to_nat (j - c_f c)
}.

Lemma mask_pos blk c tk pl : block_ok blk c tk pl → 0 < sizeMask blk.
Proof.
  intros [[k [? ->]]]. assert (2 ^ 1 ≤ 2 ^ k) by (apply Z.pow_le_mono_r; lia). lia.
Qed.

Lemma next_index blk c tk pl a : block_ok blk c tk pl →
  Z.land (u64 (a `mod` (sizeMask blk + 1) + 1)) (sizeMask blk) = (a + 1) `mod` (sizeMask blk + 1).
Proof.
  intros H. destruct (b_size _ _ _ _ H) as (k & Hk & E). rewrite E.
  replace (2 ^ k - 1 + 1) with (2 ^ k) by lia.
  rewrite land_next by (lia || (apply Z.mod_pos_bound; lia)). apply mod_succ. lia.
Qed.

Lemma block_ok_localTail blk c tk pl l : block_ok blk c tk pl → c_f c ≤ l ≤ c_t c →
  block_ok (set_localTail (l `mod` (sizeMask blk + 1)) blk)
    (mk_Counters (c_lf c) (c_f c) l (c_t c) (elems c)) tk pl.
Proof. intros [] Hl. constructor; cbn in *; try done; lia. Qed.

Lemma block_ok_localFront blk c tk pl l : block_ok blk c tk pl →
  l ≤ c_f c → c_t c - l ≤ sizeMask blk →
  block_ok (set_localFront (l `mod` (sizeMask blk + 1)) blk)
    (mk_Counters l (c_f c) (c_lt c) (c_t c) (elems c)) tk pl.
Proof. intros [] Hl. constructor; cbn in *; try done; lia. Qed.

Lemma block_ok_next blk c tk pl n : block_ok blk c tk pl → block_ok (set_next n blk) c tk pl.
Proof. intros []. by constructor. Qed.

(** The slot at [tail] is free. *)
Lemma tail_slot_free blk c tk : block_ok blk c tk false → slots blk !! tail blk = None.
Proof.
  intros H. rewrite (b_tail _ _ _ _ H). pose proof (b_order _ _ _ _ H). pose proof (b_room _ _ _ _ H).
  pose proof (b_count _ _ _ _ H) as Hc.
  rewrite (b_slots _ _ _ _ H); [apply lookup_ge_None; lia|lia| |done].
  intros Hne%(b_taken _ _ _ _ H). destruct (elems c); cbn in *; [done|lia].
Qed.

(** The slot at [front] holds the first element. *)
Lemma front_slot_full blk c pl v vs : block_ok blk c false pl → elems c = v :: vs →
  slots blk !! front blk = Some v.
Proof.
  intros H E. rewrite (b_front _ _ _ _ H). pose proof (mask_pos _ _ _ _ H).
  pose proof (b_count _ _ _ _ H) as Hc. rewrite E in Hc. cbn in Hc.
  rewrite (b_slots _ _ _ _ H); [|lia|done|lia]. by rewrite E, Z.sub_diag.
Qed.

Lemma tail_in_range blk c tk pl : block_ok blk c tk pl → 0 ≤ tail blk ≤ sizeMask blk.
Proof.
  intros H. rewrite (b_tail _ _ _ _ H). pose proof (mask_pos _ _ _ _ H).
  pose proof (Z.mod_pos_bound (c_t c) (sizeMask blk + 1)). lia.
Qed.

(** Another counter of the turn that starts at [front] has another index. *)
Lemma other_slot f j j' n : 0 < n → f ≤ j < f + n → f ≤ j' < f + n → j ≠ j' → j `mod` n ≠ j' `mod` n.
Proof.
  intros Hn Hj Hj' Hne E. apply Hne.
  destruct (Z.le_ge_cases j j'); [apply (mod_same j j' n)|symmetry; apply (mod_same j' j n)]; lia || done.
Qed.

Lemma block_ok_construct blk c tk v : block_ok blk c tk false →
  block_ok (set_slots (<[tail blk := v]> (slots blk)) blk) c tk true.
Proof.
  intros H. pose proof (mask_pos _ _ _ _ H). pose proof (tail_in_range _ _ _ _ H) as Ht.
  pose proof (b_tail _ _ _ _ H) as Et. pose proof (b_order _ _ _ _ H). pose proof (b_room _ _ _ _ H).
  destruct H. constructor; cbn in *; try done.
  - intros i v' [[<- _]|[_ Hi]]%lookup_insert_Some; [done|eauto].
  - intros j Hj Ha Hb. specialize (Hb eq_refl). rewrite lookup_insert_ne; [by apply b_slots0|].
    rewrite Et. apply (other_slot (c_f c)); lia.
Qed.

Lemma block_ok_tail blk c tk v : block_ok blk c tk true → slots blk !! tail blk = Some v →
  c_t c + 1 - c_lf c ≤ sizeMask blk →
  block_ok (set_tail ((c_t c + 1) `mod` (sizeMask blk + 1)) blk)
    (mk_Counters (c_lf c) (c_f c) (c_lt c) (c_t c + 1) (elems c ++ [v])) tk false.
Proof.
  intros H Hv Hroom. destruct H. constructor; cbn in *; try done; try lia.
  - rewrite length_app. cbn. lia.
  - intros Htk E. by apply app_nil in E as [_ [=]].
  - intros j Hj H1 _. destruct (decide (j = c_t c)) as [->|Hne].
    + rewrite <-b_tail0, Hv, lookup_app_r by lia.
      by replace (Z.to_nat (c_t c - c_f c) - length (elems c))%nat with 0%nat by lia.
    + rewrite b_slots0 by (done || lia). destruct (decide (j < c_t c)).
      * by rewrite lookup_app_l by lia.
      * rewrite !lookup_ge_None_2; [done|rewrite length_app; cbn; lia|lia].
Qed.

Lemma block_ok_destroy blk c pl : block_ok blk c false pl → elems c ≠ [] →
  block_ok (set_slots (delete (front blk) (slots blk)) blk) c true pl.
Proof.
  intros H Hne. pose proof (mask_pos _ _ _ _ H). pose proof (b_front _ _ _ _ H) as Ef.
  destruct H. constructor; cbn in *; try done.
  - intros i v' [_ Hi]%lookup_delete_Some. eauto.
  - intros j Hj Ha Hb. specialize (Ha eq_refl). rewrite lookup_delete_ne; [by apply b_slots0|].
    rewrite Ef. apply (other_slot (c_f c)); lia.
Qed.

Lemma block_ok_front blk c pl v vs : block_ok blk c true pl → slots blk !! front blk = None →
  elems c = v :: vs → c_f c < c_lt c →
  block_ok (set_front ((c_f c + 1) `mod` (sizeMask blk + 1)) blk)
    (mk_Counters (c_lf c) (c_f c + 1) (c_lt c) (c_t c) vs) false pl.
Proof.
  intros H Hno E Hlt. pose proof (mask_pos _ _ _ _ H). destruct H. rewrite E in b_count0.
  cbn [length] in b_count0. constructor; cbn in *; try done; try lia.
  intros j Hj _ H2. destruct (decide (j = c_f c + (sizeMask blk + 1))) as [->|Hne].
  - rewrite mod_turn, <-b_front0, Hno by lia. symmetry. apply lookup_ge_None. lia.
  - rewrite b_slots0 by (done || lia). rewrite E.
    by replace (Z.to_nat (j - c_f c)) with (S (Z.to_nat (j - (c_f c + 1)))) by lia.
Qed.

(** ** The queue

    [ring]: the blocks in the order of [next], from the front block; [tpos]: the place of the tail block;
    [placed]: the block in which the producer is constructing an element; [staged]: what the block
    after the tail block contains while the producer is about to move to it; [taken]: the first element
    is destroyed and [front] not yet moved; [enqueued], [dequeued]: all that went in and out. *)
Record Aux : Type := mk_Aux {
  ring : list ptr;
  tpos : nat;
  cnt : gmap ptr Counters;
  placed : option ptr;
  staged : list T;
  taken : bool;
  enqueued : list T;
  dequeued : list T
}.

Definition elems_of (x : Aux) (b : ptr) : list T := from_option elems [] (cnt x !! b).

(** The elements of the queue, in order. *)
Definition live (x : Aux) : list T := mjoin (elems_of x <$> take (S (tpos x)) (ring x)).

(** What holds of the block at place [i] of the ring. *)
Record place_ok q (x : Aux) (i : nat) (b : ptr) blk (c : Counters) : Prop := {
  p_heap : heap q !! b = Some blk;
  p_cnt : cnt x !! b = Some c;
  p_next : ring x !! (S i `mod` length (ring x))%nat = Some (next blk);
  p_block : block_ok blk c (bool_decide (i = 0%nat) && taken x) (bool_decide (placed x = Some b));
  p_between : (0 < i ≤ tpos x)%nat → elems c ≠ [];
  p_staged : i = S (tpos x) → elems c = staged x;
  p_beyond : (S (tpos x) < i)%nat → elems c = []
}.

Record inv q (x : Aux) : Prop := {
  i_nodup : NoDup (ring x);
  i_front : ring x !! 0%nat = Some (frontBlock q);
  i_tail : ring x !! tpos x = Some (tailBlock q);
  i_place i b : ring x !! i = Some b → ∃ blk c, place_ok q x i b blk c;
  i_heap b : is_Some (heap q !! b) → (0 < b ≤ allocations q)%nat;
  i_staged : (S (tpos x) < length (ring x))%nat ∨ staged x = [];
  i_largest : ∃ k, 1 ≤ k < 64 ∧ largestBlockSize q = 2 ^ k;
  i_history : enqueued x = dequeued x ++ live x
}.

(** What the producer changes. *)
Record p_acts q x q' x' : Prop := {
  pa_front : frontBlock q' = frontBlock q;
  pa_dequeuing : dequeuing q' = dequeuing q;
  pa_taken : taken x' = taken x;
  pa_dequeued : dequeued x' = dequeued x;
  pa_enqueued : enqueued x `prefix_of` enqueued x';
  pa_ring b : b ∈ ring x → b ∈ ring x';
  pa_block b blk : b ∈ ring x → heap q !! b = Some blk → ∃ blk', heap q' !! b = Some blk' ∧
    front blk' = front blk ∧ localTail blk' = localTail blk ∧ sizeMask blk' = sizeMask blk ∧
    (elems_of x b ≠ [] → slots blk' !! front blk = slots blk !! front blk);
  pa_cnt b c : b ∈ ring x → cnt x !! b = Some c → ∃ c', cnt x' !! b = Some c' ∧
    c_f c' = c_f c ∧ c_lt c' = c_lt c ∧ c_t c ≤ c_t c' ∧ elems c `prefix_of` elems c';
  pa_ahead : (0 < tpos x)%nat → (0 < tpos x')%nat ∧ ring x' !! 1%nat = ring x !! 1%nat ∧
    elems_of x' (frontBlock q) = elems_of x (frontBlock q)
}.

(** What the consumer changes. *)
Record c_acts q x q' x' : Prop := {
  ca_tail : tailBlock q' = tailBlock q;
  ca_largest : largestBlockSize q' = largestBlockSize q;
  ca_enqueuing : enqueuing q' = enqueuing q;
  ca_allocations : allocations q' = allocations q;
  ca_placed : placed x' = placed x;
  ca_staged : staged x' = staged x;
  ca_enqueued : enqueued x' = enqueued x;
  ca_dequeued : dequeued x `prefix_of` dequeued x';
  ca_ring b : b ∈ ring x ↔ b ∈ ring x';
  ca_after n : ring x !! S (tpos x) = Some n → ring x' !! S (tpos x') = Some n;
  ca_block b blk : heap q !! b = Some blk → ∃ blk', heap q' !! b = Some blk' ∧
    tail blk' = tail blk ∧ localFront blk' = localFront blk ∧ next blk' = next blk ∧
    sizeMask blk' = sizeMask blk ∧ slots blk' !! tail blk = slots blk !! tail blk ∧
    (b ∉ ring x → blk' = blk);
  ca_cnt b c : cnt x !! b = Some c → ∃ c', cnt x' !! b = Some c' ∧
    c_lf c' = c_lf c ∧ c_t c' = c_t c ∧ c_f c ≤ c_f c'
}.

Definition acts (who : bool) : Queue T → Aux → Queue T → Aux → Prop := if who then p_acts else c_acts.

Lemma elems_of_prefix q x q' x' b : p_acts q x q' x' → b ∈ ring x → elems_of x b ≠ [] →
  elems_of x' b ≠ [].
Proof.
  intros H Hb. unfold elems_of. destruct (cnt x !! b) as [c|] eqn:Hc; [|done].
  destruct (pa_cnt _ _ _ _ H b c Hb Hc) as (c' & -> & _ & _ & _ & [l El]). cbn. rewrite El.
  intros Hne [? _]%app_nil. done.
Qed.

Lemma acts_refl who q x : inv q x → acts who q x q x.
Proof.
  intros _. destruct who; constructor; intros; try done; try (eexists; split_and!; [eassumption|done..]).
Qed.

Lemma p_acts_trans q1 x1 q2 x2 q3 x3 : p_acts q1 x1 q2 x2 → p_acts q2 x2 q3 x3 → p_acts q1 x1 q3 x3.
Proof.
  intros H1 H2. pose proof (λ b, elems_of_prefix _ _ _ _ b H1) as Hp. destruct H1, H2.
  constructor; try congruence; try (by etrans); eauto.
  - intros b blk Hb Hh. destruct (pa_block0 b blk Hb Hh) as (blk2 & Hh2 & Hf & Hl & Hm & Hs).
    destruct (pa_block1 b blk2 (pa_ring0 _ Hb) Hh2) as (blk3 & Hh3 & Hf' & Hl' & Hm' & Hs').
    exists blk3. split_and!; [done|congruence..|]. intros Hne. rewrite <-Hs, <-Hf by done.
    apply Hs'. by apply Hp.
  - intros b c Hb Hc. destruct (pa_cnt0 b c Hb Hc) as (c2 & Hc2 & Hf & Hl & Ht & He).
    destruct (pa_cnt1 b c2 (pa_ring0 _ Hb) Hc2) as (c3 & Hc3 & Hf' & Hl' & Ht' & He').
    exists c3. split_and!; [done|congruence..|lia|by etrans].
  - intros Hpos. destruct (pa_ahead0 Hpos) as (Hpos2 & Hr & He).
    destruct (pa_ahead1 Hpos2) as (Hpos3 & Hr' & He'). split_and!; [done|congruence|].
    rewrite <-He, <-pa_front0. exact He'.
Qed.

Lemma c_acts_trans q1 x1 q2 x2 q3 x3 : c_acts q1 x1 q2 x2 → c_acts q2 x2 q3 x3 → c_acts q1 x1 q3 x3.
Proof.
  intros [] []. constructor; try congruence; try (by etrans); eauto.
  - intros b. by rewrite ca_ring0.
  - intros b blk Hh. destruct (ca_block0 b blk Hh) as (blk2 & Hh2 & Ht & Hl & Hn & Hm & Hs & Ho).
    destruct (ca_block1 b blk2 Hh2) as (blk3 & Hh3 & Ht' & Hl' & Hn' & Hm' & Hs' & Ho').
    exists blk3. split_and!; [done|congruence..|]. intros Hb. rewrite Ho', Ho; [done..|].
    by rewrite <-ca_ring0.
  - intros b c Hc. destruct (ca_cnt0 b c Hc) as (c2 & Hc2 & Hf & Hl & Ht).
    destruct (ca_cnt1 b c2 Hc2) as (c3 & Hc3 & Hf' & Hl' & Ht').
    exists c3. split_and!; [done|congruence..|lia].
Qed.

Lemma acts_trans who q1 x1 q2 x2 q3 x3 :
  acts who q1 x1 q2 x2 → acts who q2 x2 q3 x3 → acts who q1 x1 q3 x3.
Proof. destruct who; [apply p_acts_trans|apply c_acts_trans]. Qed.

(** ** The elements in order *)

Lemma live_ext x x' : ring x' = ring x → tpos x' = tpos x →
  (∀ i b, (i ≤ tpos x)%nat → ring x !! i = Some b → elems_of x' b = elems_of x b) → live x' = live x.
Proof.
  intros Er Et He. unfold live. rewrite Er, Et. f_equal.
  apply list_fmap_ext. intros i b [Hb Hi]%lookup_take_Some. apply (He i); [lia|done].
Qed.

(** All but the tail block, then the tail block. *)
Lemma live_last x b : ring x !! tpos x = Some b →
  live x = mjoin (elems_of x <$> take (tpos x) (ring x)) ++ elems_of x b.
Proof.
  intros Hb. unfold live. rewrite (take_S_r _ _ _ Hb), fmap_app, join_app. cbn. by rewrite app_nil_r.
Qed.

(** The front block, then the others. *)
Lemma live_first x b : ring x !! 0%nat = Some b →
  live x = elems_of x b ++ mjoin (elems_of x <$> take (tpos x) (drop 1 (ring x))).
Proof. intros Hb. unfold live. destruct (ring x) as [|b' l]; [done|]. by simplify_eq/=. Qed.

Lemma elems_of_cnt x b c : cnt x !! b = Some c → elems_of x b = elems c.
Proof. unfold elems_of. by intros ->. Qed.

Lemma elems_of_insert x x' b c b' : cnt x' = <[b := c]> (cnt x) →
  elems_of x' b' = if decide (b' = b) then elems c else elems_of x b'.
Proof.
  intros E. unfold elems_of. rewrite E. case_decide as Hb; [by rewrite Hb, lookup_insert_eq|].
  by rewrite lookup_insert_ne.
Qed.

Lemma live_same x x' b c c' : ring x' = ring x → tpos x' = tpos x → cnt x !! b = Some c →
  cnt x' = <[b := c']> (cnt x) → elems c' = elems c → live x' = live x.
Proof.
  intros Er Et Hc Ec He. apply live_ext; [done..|]. intros i b' _ _.
  rewrite (elems_of_insert _ _ _ _ _ Ec). case_decide; [|done]. subst. by rewrite (elems_of_cnt _ _ c).
Qed.

Lemma live_beyond x x' i b c' : NoDup (ring x) → ring x' = ring x → tpos x' = tpos x →
  ring x !! i = Some b → (tpos x < i)%nat → cnt x' = <[b := c']> (cnt x) → live x' = live x.
Proof.
  intros Hn Er Et Hb Hi Ec. apply live_ext; [done..|]. intros j b' Hj Hb'.
  rewrite (elems_of_insert _ _ _ _ _ Ec). case_decide; [|done]. subst.
  pose proof (NoDup_lookup _ _ _ _ Hn Hb Hb'). lia.
Qed.

Lemma live_push x x' b c c' v : NoDup (ring x) → ring x' = ring x → tpos x' = tpos x →
  ring x !! tpos x = Some b → cnt x !! b = Some c → cnt x' = <[b := c']> (cnt x) →
  elems c' = elems c ++ [v] → live x' = live x ++ [v].
Proof.
  intros Hn Er Et Hb Hc Ec He. rewrite (live_last x b), (live_last x' b) by (by rewrite ?Er, ?Et).
  rewrite Er, Et, <-app_assoc. f_equal.
  - f_equal. apply list_fmap_ext. intros j b' [Hb' Hj]%lookup_take_Some.
    rewrite (elems_of_insert _ _ _ _ _ Ec). case_decide; [|done]. subst.
    pose proof (NoDup_lookup _ _ _ _ Hn Hb Hb'). lia.
  - rewrite (elems_of_insert _ _ _ _ _ Ec), decide_True, (elems_of_cnt _ _ c) by done. done.
Qed.

Lemma live_pop x x' b c c' v : NoDup (ring x) → ring x' = ring x → tpos x' = tpos x →
  ring x !! 0%nat = Some b → cnt x !! b = Some c → cnt x' = <[b := c']> (cnt x) →
  elems c = v :: elems c' → live x = v :: live x'.
Proof.
  intros Hn Er Et Hb Hc Ec He. rewrite (live_first x b), (live_first x' b) by (by rewrite ?Er).
  rewrite (elems_of_insert _ _ _ _ _ Ec), decide_True, (elems_of_cnt _ _ c), He by done.
  cbn. rewrite Er, Et. do 3 f_equal. apply list_fmap_ext. intros j b' [Hb' Hj]%lookup_take_Some.
  rewrite lookup_drop in Hb'. rewrite (elems_of_insert _ _ _ _ _ Ec). case_decide; [|done]. subst.
  pose proof (NoDup_lookup _ _ _ _ Hn Hb Hb'). lia.
Qed.

(** ** Writing to one block of the ring *)

Lemma inv_update q x i b blk c blk' c' x' :
  inv q x → ring x !! i = Some b → place_ok q x i b blk c → next blk' = next blk →
  ring x' = ring x → tpos x' = tpos x → cnt x' = <[b := c']> (cnt x) →
  (taken x' = taken x ∨ i = 0%nat) →
  (∀ b', b' ≠ b → bool_decide (placed x' = Some b') = bool_decide (placed x = Some b')) →
  (staged x' = staged x ∨ i = S (tpos x)) →
  block_ok blk' c' (bool_decide (i = 0%nat) && taken x') (bool_decide (placed x' = Some b)) →
  ((0 < i ≤ tpos x)%nat → elems c' ≠ []) → (i = S (tpos x) → elems c' = staged x') →
  ((S (tpos x) < i)%nat → elems c' = []) →
  enqueued x' = dequeued x' ++ live x' →
  inv (set_heap (<[b := blk']> (heap q)) q) x'.
Proof.
  intros Hi Hb Hp Hn Er Et Ec Htk Hpl Hst Hbo H1 H2 H3 Hh. pose proof (i_nodup _ _ Hi) as Hnd.
  constructor; cbn; rewrite ?Er, ?Et; try apply Hi; [|intros b'| |done].
  - intros j b' Hb'. destruct (decide (b' = b)) as [->|Hne].
    + assert (j = i) as -> by (by eapply NoDup_lookup). exists blk', c'.
      constructor; rewrite ?Er, ?Et; cbn; [by rewrite lookup_insert_eq|by rewrite Ec, lookup_insert_eq| |done..].
      rewrite Hn. apply Hp.
    + assert (j ≠ i) by congruence. destruct (i_place _ _ Hi j b' Hb') as (blk1 & c1 & []).
      exists blk1, c1. constructor; rewrite ?Er, ?Et; cbn;
        [by rewrite lookup_insert_ne|by rewrite Ec, lookup_insert_ne|done| |done| |done].
      * rewrite Hpl by done. replace (bool_decide (j = 0%nat) && taken x')
          with (bool_decide (j = 0%nat) && taken x); [done|].
        destruct Htk as [->| ->]; [done|]. by rewrite bool_decide_eq_false_2.
      * intros Hj. destruct Hst as [->| ->]; [by apply p_staged0|done].
  - intros [blk1 Hb1]. destruct (decide (b' = b)) as [->|Hne].
    + eapply i_heap; [done|]. rewrite (p_heap _ _ _ _ _ _ Hp). by eexists.
    + rewrite lookup_insert_ne in Hb1 by done. by eapply i_heap; [|eexists].
  - destruct Hst as [->| ->]; [apply Hi|]. left. by eapply lookup_lt_Some.
Qed.

Lemma p_acts_update q x i b blk c blk' c' x' :
  inv q x → ring x !! i = Some b → place_ok q x i b blk c →
  ring x' = ring x → tpos x' = tpos x → cnt x' = <[b := c']> (cnt x) →
  taken x' = taken x → dequeued x' = dequeued x → enqueued x `prefix_of` enqueued x' →
  front blk' = front blk → localTail blk' = localTail blk → sizeMask blk' = sizeMask blk →
  (elems c ≠ [] → slots blk' !! front blk = slots blk !! front blk) →
  c_f c' = c_f c → c_lt c' = c_lt c → c_t c ≤ c_t c' → elems c `prefix_of` elems c' →
  ((0 < tpos x)%nat → i = 0%nat → elems c' = elems c) →
  p_acts q x (set_heap (<[b := blk']> (heap q)) q) x'.
Proof.
  intros Hi Hb Hp Er Et Ec Htk Hd He Hf Hl Hm Hs Hcf Hclt Hct Hce H0.
  pose proof (p_heap _ _ _ _ _ _ Hp) as Hh. pose proof (p_cnt _ _ _ _ _ _ Hp) as Hc.
  constructor; cbn; rewrite ?Er, ?Et, ?Ec; try done.
  - intros b' blk1 _ Hb1. destruct (decide (b' = b)) as [->|Hne].
    + simplify_eq. exists blk'. rewrite lookup_insert_eq, (elems_of_cnt _ _ c) by done. by split_and!.
    + exists blk1. rewrite lookup_insert_ne by done. by split_and!.
  - intros b' c1 _ Hc1. destruct (decide (b' = b)) as [->|Hne].
    + simplify_eq. exists c'. rewrite lookup_insert_eq. by split_and!.
    + exists c1. rewrite lookup_insert_ne by done. by split_and!.
  - intros Hpos. split_and!; [done..|]. rewrite (elems_of_insert _ _ _ _ _ Ec).
    case_decide as E; [|done]. rewrite E, (elems_of_cnt _ _ c) by done. apply H0; [done|].
    pose proof (i_front _ _ Hi) as Hf0. rewrite E in Hf0.
    symmetry. by eapply NoDup_lookup; [apply (i_nodup _ _ Hi)|..].
Qed.

Lemma c_acts_update q x i b blk c blk' c' x' :
  inv q x → ring x !! i = Some b → place_ok q x i b blk c →
  ring x' = ring x → tpos x' = tpos x → cnt x' = <[b := c']> (cnt x) →
  placed x' = placed x → staged x' = staged x → enqueued x' = enqueued x →
  dequeued x `prefix_of` dequeued x' →
  tail blk' = tail blk → localFront blk' = localFront blk → next blk' = next blk →
  sizeMask blk' = sizeMask blk → slots blk' !! tail blk = slots blk !! tail blk →
  c_lf c' = c_lf c → c_t c' = c_t c → c_f c ≤ c_f c' →
  c_acts q x (set_heap (<[b := blk']> (heap q)) q) x'.
Proof.
  intros Hi Hb Hp Er Et Ec Hpl Hst He Hd Ht Hl Hn Hm Hs Hlf Hct Hcf.
  pose proof (p_heap _ _ _ _ _ _ Hp) as Hh. pose proof (p_cnt _ _ _ _ _ _ Hp) as Hc.
  constructor; cbn; rewrite ?Er, ?Et, ?Ec; try done.
  - intros b' blk1 Hb1. destruct (decide (b' = b)) as [->|Hne].
    + simplify_eq. exists blk'. rewrite lookup_insert_eq. split_and!; [done..|].
      intros []. by eapply list_elem_of_lookup_2.
    + exists blk1. rewrite lookup_insert_ne by done. by split_and!.
  - intros b' c1 Hc1. destruct (decide (b' = b)) as [->|Hne].
    + simplify_eq. exists c'. rewrite lookup_insert_eq. by split_and!.
    + exists c1. rewrite lookup_insert_ne by done. by split_and!.
Qed.

(** ** The steps of the producer *)

Lemma put_localFront q x i b blk c l :
  inv q x → ring x !! i = Some b → place_ok q x i b blk c → l ≤ c_f c → c_t c - l ≤ sizeMask blk →
  let c' := mk_Counters l (c_f c) (c_lt c) (c_t c) (elems c) in
  let q' := set_heap (<[b := set_localFront (l `mod` (sizeMask blk + 1)) blk]> (heap q)) q in
  let x' := mk_Aux (ring x) (tpos x) (<[b := c']> (cnt x)) (placed x) (staged x) (taken x)
              (enqueued x) (dequeued x) in
  inv q' x' ∧ p_acts q x q' x'.
Proof.
  intros Hi Hb Hp Hl1 Hl2 c' q' x'. split.
  - eapply (inv_update q x i b blk c _ c'); eauto; try apply Hp.
    + by apply block_ok_localFront; [apply Hp|..].
    + change (enqueued x = dequeued x ++ live x').
      rewrite (live_same x x' b c c'); try done; [apply Hi|apply Hp].
  - eapply (p_acts_update q x i b blk c _ c'); eauto; done.
Qed.

(** Reading [front] while [tail] is elsewhere. *)
Lemma front_tail_differ blk c tk pl : block_ok blk c tk pl → elems c ≠ [] → front blk ≠ tail blk.
Proof.
  intros H Hne. pose proof (mask_pos _ _ _ _ H). pose proof (b_order _ _ _ _ H).
  pose proof (b_room _ _ _ _ H). pose proof (b_count _ _ _ _ H).
  assert (0 < length (elems c))%nat by (destruct (elems c); [done|cbn; lia]).
  rewrite (b_front _ _ _ _ H), (b_tail _ _ _ _ H). apply (other_slot (c_f c)); lia.
Qed.

Lemma construct_tail q x i b blk c v :
  inv q x → ring x !! i = Some b → place_ok q x i b blk c → placed x = None →
  let q' := set_heap (<[b := set_slots (<[tail blk := v]> (slots blk)) blk]> (heap q)) q in
  let x' := mk_Aux (ring x) (tpos x) (<[b := c]> (cnt x)) (Some b) (staged x) (taken x)
              (enqueued x) (dequeued x) in
  inv q' x' ∧ p_acts q x q' x'.
Proof.
  intros Hi Hb Hp Hpl q' x'. split.
  - eapply (inv_update q x i b blk c _ c); eauto; try apply Hp; cbn.
    + intros b' Hne. rewrite Hpl, !bool_decide_eq_false_2; congruence.
    + rewrite (bool_decide_eq_true_2 (Some b = Some b)) by done.
      apply block_ok_construct. pose proof (p_block _ _ _ _ _ _ Hp) as Hbo. rewrite Hpl in Hbo. apply Hbo.
    + change (enqueued x = dequeued x ++ live x').
      rewrite (live_same x x' b c c); try done; [apply Hi|apply Hp].
  - eapply (p_acts_update q x i b blk c _ c); eauto; try done; cbn.
    intros Hne. rewrite lookup_insert_ne; [done|]. apply not_eq_sym.
    eapply front_tail_differ; [apply Hp|done].
Qed.

(** [tail] of the tail block moves: the element is in the queue. *)
Lemma publish_tail q x b blk c v :
  inv q x → ring x !! tpos x = Some b → place_ok q x (tpos x) b blk c → placed x = Some b →
  slots blk !! tail blk = Some v → c_t c + 1 - c_lf c ≤ sizeMask blk →
  let c' := mk_Counters (c_lf c) (c_f c) (c_lt c) (c_t c + 1) (elems c ++ [v]) in
  let q' := set_heap (<[b := set_tail ((c_t c + 1) `mod` (sizeMask blk + 1)) blk]> (heap q)) q in
  let x' := mk_Aux (ring x) (tpos x) (<[b := c']> (cnt x)) None (staged x) (taken x)
              (enqueued x ++ [v]) (dequeued x) in
  inv q' x' ∧ p_acts q x q' x'.
Proof.
  intros Hi Hb Hp Hpl Hv Hroom c' q' x'. pose proof (p_block _ _ _ _ _ _ Hp) as Hbo.
  rewrite Hpl, (bool_decide_eq_true_2 (Some b = Some b)) in Hbo by done. split.
  - eapply (inv_update q x (tpos x) b blk c _ c'); eauto; cbn; try lia.
    + intros b' Hne. rewrite Hpl, !bool_decide_eq_false_2; congruence.
    + by apply block_ok_tail.
    + intros _ [_ [=]]%app_nil.
    + change (enqueued x ++ [v] = dequeued x ++ live x').
      rewrite (live_push x x' b c c' v); try done; [|apply Hi|apply Hp].
      by rewrite (i_history _ _ Hi), app_assoc.
  - eapply (p_acts_update q x (tpos x) b blk c _ c'); eauto; cbn; try done; [by apply prefix_app_r|lia|by apply prefix_app_r|lia].
Qed.

(** [tail] of the block after the tail block moves: the element waits for [tailBlock]. *)
Lemma stage_tail q x b blk c v :
  inv q x → ring x !! S (tpos x) = Some b → place_ok q x (S (tpos x)) b blk c → placed x = Some b →
  staged x = [] → slots blk !! tail blk = Some v → c_t c + 1 - c_lf c ≤ sizeMask blk →
  let c' := mk_Counters (c_lf c) (c_f c) (c_lt c) (c_t c + 1) (elems c ++ [v]) in
  let q' := set_heap (<[b := set_tail ((c_t c + 1) `mod` (sizeMask blk + 1)) blk]> (heap q)) q in
  let x' := mk_Aux (ring x) (tpos x) (<[b := c']> (cnt x)) None [v] (taken x) (enqueued x) (dequeued x) in
  inv q' x' ∧ p_acts q x q' x'.
Proof.
  intros Hi Hb Hp Hpl Hst Hv Hroom c' q' x'. pose proof (p_block _ _ _ _ _ _ Hp) as Hbo.
  rewrite Hpl, (bool_decide_eq_true_2 (Some b = Some b)) in Hbo by done.
  assert (elems c = []) as Ee by (rewrite <-Hst; by apply Hp). split.
  - eapply (inv_update q x (S (tpos x)) b blk c _ c'); eauto; cbn; try lia.
    + intros b' Hne. rewrite Hpl, !bool_decide_eq_false_2; congruence.
    + by apply (block_ok_tail _ c).
    + by rewrite Ee.
    + change (enqueued x = dequeued x ++ live x').
      rewrite (live_beyond x x' (S (tpos x)) b c'); try done; [apply Hi|apply Hi|lia].
  - eapply (p_acts_update q x (S (tpos x)) b blk c _ c'); eauto; cbn; try done; [lia|by apply prefix_app_r].
Qed.

(** [tailBlock] moves: the staged element is in the queue. *)
Lemma publish_block q x n v :
  inv q x → ring x !! S (tpos x) = Some n → staged x = [v] → placed x = None →
  let q' := set_tailBlock n q in
  let x' := mk_Aux (ring x) (S (tpos x)) (cnt x) None [] (taken x) (enqueued x ++ [v]) (dequeued x) in
  inv q' x' ∧ p_acts q x q' x'.
Proof.
  intros Hi Hn Hst Hpl q' x'. split.
  - constructor; cbn; try apply Hi; try done.
    + intros i b Hb. destruct (i_place _ _ Hi i b Hb) as (blk & c & []). exists blk, c.
      constructor; cbn; try done; [by rewrite Hpl in p_block0| | |].
      * intros Hr. destruct (decide (i = S (tpos x))) as [E|E]; [rewrite p_staged0, Hst by done; done|].
        apply p_between0. lia.
      * intros ->. apply p_beyond0. lia.
      * intros Hr. apply p_beyond0. lia.
    + by right.
    + change (enqueued x ++ [v] = dequeued x ++ live x').
      rewrite (live_last x' n) by done. cbn [ring tpos x']. change (elems_of x') with (elems_of x).
      rewrite (i_history _ _ Hi), <-app_assoc. f_equal. f_equal.
      destruct (i_place _ _ Hi _ _ Hn) as (blk & c & Hp).
      rewrite (elems_of_cnt _ _ c) by apply Hp. rewrite <-Hst. symmetry. by apply Hp.
  - constructor; cbn; try done; [by apply prefix_app_r|..].
    + intros b blk _ Hb. by exists blk.
    + intros b c _ Hc. by exists c.
    + intros _. split_and!; [lia|done..].
Qed.

(** Memory outside the ring belongs to the producer. *)
Lemma inv_outside q x b blk n :
  inv q x → b ∉ ring x → (0 < b ≤ n)%nat → (allocations q ≤ n)%nat →
  inv (set_heap (<[b := blk]> (heap q)) (set_allocations n q)) x.
Proof.
  intros Hi Hb Hn1 Hn2. constructor; cbn; try apply Hi.
  - intros i b' Hb'. assert (b' ≠ b) by (intros ->; apply Hb; by eapply list_elem_of_lookup_2).
    destruct (i_place _ _ Hi i b' Hb') as (blk' & c & []). exists blk', c. constructor; try done.
    cbn. by rewrite lookup_insert_ne.
  - intros b'. rewrite lookup_insert_is_Some. intros [<-|[_ Hs]]; [lia|].
    pose proof (i_heap _ _ Hi _ Hs). lia.
Qed.

Lemma p_acts_outside q x b blk n : b ∉ ring x →
  p_acts q x (set_heap (<[b := blk]> (heap q)) (set_allocations n q)) x.
Proof.
  intros Hb. constructor; cbn; try done.
  - intros b' blk' Hb' Hh. exists blk'. rewrite lookup_insert_ne by (by intros ->). by split_and!.
  - intros b' c _ Hc. by exists c.
Qed.

Lemma fresh_outside q x : inv q x → S (allocations q) ∉ ring x.
Proof.
  intros Hi [i Hb]%list_elem_of_lookup. destruct (i_place _ _ Hi i _ Hb) as (blk & c & Hp).
  pose proof (i_heap _ _ Hi _ (mk_is_Some _ _ (p_heap _ _ _ _ _ _ Hp))). lia.
Qed.

(** The ring with a block added after the tail block. *)
Definition insert_after (n : nat) (b : ptr) (l : list ptr) : list ptr := take (S n) l ++ b :: drop (S n) l.

Lemma insert_after_le n b l i : (i ≤ n)%nat → (n < length l)%nat → insert_after n b l !! i = l !! i.
Proof.
  intros Hi Hn. unfold insert_after. rewrite lookup_app_l by (rewrite length_take; lia).
  by apply lookup_take_lt; lia.
Qed.
Lemma insert_after_new n b l : (n < length l)%nat → insert_after n b l !! S n = Some b.
Proof.
  intros Hn. unfold insert_after. rewrite lookup_app_r; rewrite length_take; [|lia].
  by replace (S n - S n `min` length l)%nat with 0%nat by lia.
Qed.
Lemma insert_after_gt n b l i : (n < i)%nat → (n < length l)%nat → insert_after n b l !! S i = l !! i.
Proof.
  intros Hi Hn. unfold insert_after. rewrite lookup_app_r; rewrite length_take; [|lia].
  replace (S i - S n `min` length l)%nat with (S (i - S n))%nat by lia.
  cbn [lookup list_lookup]. change (drop (S n) l !! (i - S n)%nat = l !! i). rewrite lookup_drop. f_equal. lia.
Qed.
Lemma length_insert_after n b l : (n < length l)%nat → length (insert_after n b l) = S (length l).
Proof. intros. unfold insert_after. rewrite length_app, length_take. cbn [length]. rewrite length_drop. lia. Qed.
Lemma elem_of_insert_after n b l b' : b' ∈ insert_after n b l ↔ b' = b ∨ b' ∈ l.
Proof.
  unfold insert_after. rewrite <-(take_drop (S n) l) at 3. rewrite !elem_of_app, elem_of_cons. tauto.
Qed.
Lemma NoDup_insert_after n b l : NoDup l → b ∉ l → NoDup (insert_after n b l).
Proof.
  intros Hn Hb. unfold insert_after. rewrite <-Permutation_middle, take_drop. by constructor.
Qed.

(** Successors in the ring, with the block added. *)
Lemma insert_after_next n b l i o : (n < length l)%nat → (i < length l)%nat → i ≠ n →
  l !! (S i `mod` length l)%nat = o →
  insert_after n b l !! (S (if decide (i < n)%nat then i else S i) `mod` length (insert_after n b l))%nat = o.
Proof.
  intros Hn Hi Hne Ho. rewrite length_insert_after by done. case_decide.
  - rewrite Nat.mod_small in Ho by lia. rewrite Nat.mod_small by lia.
    by rewrite insert_after_le by lia.
  - destruct (decide (S i = length l)) as [E|E].
    + rewrite E, Nat.Div0.mod_same in Ho. rewrite E, Nat.Div0.mod_same. by rewrite insert_after_le by lia.
    + rewrite Nat.mod_small in Ho by lia. rewrite Nat.mod_small by lia.
      by rewrite insert_after_gt by lia.
Qed.

Lemma insert_after_next_new n b l o : (n < length l)%nat →
  l !! (S n `mod` length l)%nat = o →
  insert_after n b l !! (S (S n) `mod` length (insert_after n b l))%nat = o.
Proof.
  intros Hn Ho. rewrite length_insert_after by done. destruct (decide (S n = length l)) as [E|E].
  - rewrite E, Nat.Div0.mod_same in Ho. rewrite E, Nat.Div0.mod_same. by rewrite insert_after_le by lia.
  - rewrite Nat.mod_small in Ho by lia. rewrite Nat.mod_small by lia. by rewrite insert_after_gt by lia.
Qed.

Lemma insert_after_inv n b l i b' : (n < length l)%nat → insert_after n b l !! i = Some b' →
  (i = S n ∧ b' = b) ∨ ∃ j, l !! j = Some b' ∧ i = if decide (j ≤ n)%nat then j else S j.
Proof.
  intros Hn Hb. destruct (decide (i ≤ n)%nat) as [Hi|Hi].
  - right. exists i. rewrite insert_after_le in Hb by lia. by rewrite decide_True.
  - destruct (decide (i = S n)) as [->|Hne].
    + left. rewrite insert_after_new in Hb by done. by simplify_eq.
    + right. exists (pred i). destruct i as [|i]; [lia|]. rewrite insert_after_gt in Hb by lia. cbn.
      by rewrite decide_False by lia.
Qed.

(** ** Linking a new block after the tail block *)
Section Link.
Context q (x : Aux) (b : ptr) blk (c : Counters) (nb : ptr) (nblk : Block T) (v : T).
Context (Hi : inv q x) (Hb : ring x !! tpos x = Some b) (Hp : place_ok q x (tpos x) b blk c).
Context (Hnb : nb ∉ ring x) (Hnh : heap q !! nb = Some nblk).
Context (Hst : staged x = []) (Hpl : placed x = None) (Hnx : next nblk = next blk).
Context (Hnbo : block_ok nblk (mk_Counters 0 0 1 1 [v]) false false).

Let q' := set_heap (<[b := set_next nb blk]> (heap q)) q.
Let x' := mk_Aux (insert_after (tpos x) nb (ring x)) (tpos x) (<[nb := mk_Counters 0 0 1 1 [v]]> (cnt x))
            None [v] (taken x) (enqueued x) (dequeued x).

Lemma link_other j b' : ring x !! j = Some b' → b' ≠ nb.
Proof. intros Hb' ->. apply Hnb. by eapply list_elem_of_lookup_2. Qed.

Lemma link_elems b' : b' ≠ nb → elems_of x' b' = elems_of x b'.
Proof. intros Hne. unfold elems_of, x'. cbn. by rewrite lookup_insert_ne. Qed.

Lemma link_length : (tpos x < length (ring x))%nat.
Proof. by eapply lookup_lt_Some. Qed.

Lemma link_place_new : place_ok q' x' (S (tpos x)) nb nblk (mk_Counters 0 0 1 1 [v]).
Proof.
  pose proof link_length. constructor; cbn [q' x' ring tpos cnt placed staged taken set_heap heap elems];
    [| | | |done|done|lia].
  - by rewrite lookup_insert_ne by (by eapply link_other).
  - by rewrite lookup_insert_eq.
  - rewrite Hnx. apply insert_after_next_new; [done|]. apply Hp.
  - by rewrite bool_decide_eq_false_2.
Qed.

Lemma link_place_tail : place_ok q' x' (tpos x) b (set_next nb blk) c.
Proof.
  pose proof link_length. pose proof (link_other _ _ Hb).
  constructor; cbn [q' x' ring tpos cnt placed staged taken set_heap heap next set_next];
    [by rewrite lookup_insert_eq| | | |apply Hp|lia|lia].
  - rewrite lookup_insert_ne by done. apply Hp.
  - rewrite length_insert_after, Nat.mod_small, insert_after_new by lia. done.
  - apply block_ok_next. pose proof (p_block _ _ _ _ _ _ Hp) as Hbo. by rewrite Hpl in Hbo.
Qed.

Lemma link_place_other j b' blk' c' : ring x !! j = Some b' → j ≠ tpos x →
  place_ok q x j b' blk' c' →
  place_ok q' x' (if decide (j ≤ tpos x)%nat then j else S j) b' blk' c'.
Proof.
  intros Hj Hne Hp'. pose proof link_length. pose proof (link_other _ _ Hj).
  pose proof (lookup_lt_Some _ _ _ Hj).
  assert (b' ≠ b) by (intros ->; apply Hne; by eapply NoDup_lookup; [apply Hi|..]).
  constructor; cbn [q' x' ring tpos cnt placed staged taken set_heap heap].
  - rewrite lookup_insert_ne by done. apply Hp'.
  - rewrite lookup_insert_ne by done. apply Hp'.
  - replace (if decide (j ≤ tpos x)%nat then j else S j) with (if decide (j < tpos x)%nat then j else S j)
      by (repeat case_decide; lia).
    apply insert_after_next; [done..|]. apply Hp'.
  - pose proof (p_block _ _ _ _ _ _ Hp') as Hbo. rewrite Hpl in Hbo.
    replace (bool_decide (_ = 0%nat)) with (bool_decide (j = 0%nat)); [done|].
    apply bool_decide_ext. destruct (decide (j ≤ tpos x)%nat); lia.
  - intros Hr. apply (p_between _ _ _ _ _ _ Hp'). case_decide; lia.
  - intros Hr. exfalso. case_decide; lia.
  - intros Hr. case_decide; [lia|]. destruct (decide (j = S (tpos x))) as [E|E].
    + rewrite <-Hst. by apply (p_staged _ _ _ _ _ _ Hp').
    + apply (p_beyond _ _ _ _ _ _ Hp'). lia.
Qed.

Lemma link_live : live x' = live x.
Proof.
  pose proof link_length. unfold live. f_equal.
  assert (take (S (tpos x')) (ring x') = take (S (tpos x)) (ring x)) as ->.
  { unfold x', insert_after. cbn [ring tpos]. rewrite take_app_le by (rewrite length_take; lia).
    by rewrite take_take, Nat.min_id. }
  apply list_fmap_ext. intros j b' [Hb' _]%lookup_take_Some. by eapply link_elems, link_other.
Qed.

Lemma link_inv : inv q' x'.
Proof.
  pose proof link_length as Hlen. constructor; cbn [q' x' ring tpos cnt placed staged taken enqueued
    dequeued set_heap heap frontBlock tailBlock allocations largestBlockSize]; try apply Hi.
  - apply NoDup_insert_after; [apply Hi|done].
  - rewrite insert_after_le by lia. apply Hi.
  - rewrite insert_after_le by lia. apply Hi.
  - intros i b' [[-> ->]|(j & Hj & ->)]%insert_after_inv; [by eauto using link_place_new| |done].
    destruct (decide (j = tpos x)) as [->|Hne].
    + assert (b' = b) as -> by congruence. rewrite decide_True by lia. eauto using link_place_tail.
    + destruct (i_place _ _ Hi j b' Hj) as (blk' & c' & Hp'). eauto using link_place_other.
  - intros b' [blk' Hb']. eapply i_heap; [done|]. destruct (decide (b' = b)) as [->|Hne].
    + rewrite (p_heap _ _ _ _ _ _ Hp). by eexists.
    + rewrite lookup_insert_ne in Hb' by done. by eexists.
  - left. rewrite length_insert_after by done. lia.
  - fold x'. rewrite link_live. apply Hi.
Qed.

Lemma link_acts : p_acts q x q' x'.
Proof.
  pose proof link_length as Hlen. constructor; cbn [q' x' ring tpos cnt placed staged taken enqueued
    dequeued set_heap heap frontBlock dequeuing]; try done.
  - intros b' Hb'. apply elem_of_insert_after. by right.
  - intros b' blk' _ Hh. destruct (decide (b' = b)) as [->|Hne].
    + rewrite lookup_insert_eq. pose proof (p_heap _ _ _ _ _ _ Hp).
      assert (blk' = blk) as -> by congruence. by exists (set_next nb blk).
    + rewrite lookup_insert_ne by done. by exists blk'.
  - intros b' c' Hb' Hc'. exists c'. rewrite lookup_insert_ne by (intros ->; done). by split_and!.
  - intros Hpos. split_and!; [done|by rewrite insert_after_le by lia|].
    apply link_elems. eapply link_other, Hi.
Qed.
Lemma link_block : inv q' x' ∧ p_acts q x q' x'.
Proof. split; [exact link_inv|exact link_acts]. Qed.
End Link.

(** ** The steps of the consumer *)

Lemma put_localTail q x i b blk c l :
  inv q x → ring x !! i = Some b → place_ok q x i b blk c → c_f c ≤ l ≤ c_t c →
  let c' := mk_Counters (c_lf c) (c_f c) l (c_t c) (elems c) in
  let q' := set_heap (<[b := set_localTail (l `mod` (sizeMask blk + 1)) blk]> (heap q)) q in
  let x' := mk_Aux (ring x) (tpos x) (<[b := c']> (cnt x)) (placed x) (staged x) (taken x)
              (enqueued x) (dequeued x) in
  inv q' x' ∧ c_acts q x q' x'.
Proof.
  intros Hi Hb Hp Hl c' q' x'. split.
  - eapply (inv_update q x i b blk c _ c'); eauto; try apply Hp.
    + by apply block_ok_localTail; [apply Hp|..].
    + change (enqueued x = dequeued x ++ live x').
      rewrite (live_same x x' b c c'); try done; [apply Hi|apply Hp].
  - eapply (c_acts_update q x i b blk c _ c'); eauto; done.
Qed.

Lemma destroy_front q x b blk c :
  inv q x → ring x !! 0%nat = Some b → place_ok q x 0 b blk c → taken x = false → elems c ≠ [] →
  let q' := set_heap (<[b := set_slots (delete (front blk) (slots blk)) blk]> (heap q)) q in
  let x' := mk_Aux (ring x) (tpos x) (<[b := c]> (cnt x)) (placed x) (staged x) true
              (enqueued x) (dequeued x) in
  inv q' x' ∧ c_acts q x q' x'.
Proof.
  intros Hi Hb Hp Htk Hne q' x'. pose proof (p_block _ _ _ _ _ _ Hp) as Hbo. rewrite Htk in Hbo. split.
  - eapply (inv_update q x 0 b blk c _ c); eauto; try apply Hp; cbn.
    + by apply block_ok_destroy.
    + change (enqueued x = dequeued x ++ live x').
      rewrite (live_same x x' b c c); try done; [apply Hi|apply Hp].
  - eapply (c_acts_update q x 0 b blk c _ c); eauto; try done; cbn.
    rewrite lookup_delete_ne; [done|]. eapply front_tail_differ; [apply Hp|done].
Qed.

(** [front] moves: the element is out of the queue. *)
Lemma retire_front q x b blk c v vs :
  inv q x → ring x !! 0%nat = Some b → place_ok q x 0 b blk c → taken x = true →
  slots blk !! front blk = None → elems c = v :: vs → c_f c < c_lt c →
  let c' := mk_Counters (c_lf c) (c_f c + 1) (c_lt c) (c_t c) vs in
  let q' := set_heap (<[b := set_front ((c_f c + 1) `mod` (sizeMask blk + 1)) blk]> (heap q)) q in
  let x' := mk_Aux (ring x) (tpos x) (<[b := c']> (cnt x)) (placed x) (staged x) false
              (enqueued x) (dequeued x ++ [v]) in
  inv q' x' ∧ c_acts q x q' x'.
Proof.
  intros Hi Hb Hp Htk Hno He Hlt c' q' x'. pose proof (p_block _ _ _ _ _ _ Hp) as Hbo.
  rewrite Htk in Hbo. split.
  - eapply (inv_update q x 0 b blk c _ c'); eauto; try apply Hp; cbn; try lia.
    + by eapply block_ok_front.
    + change (enqueued x = (dequeued x ++ [v]) ++ live x').
      rewrite (i_history _ _ Hi), (live_pop x x' b c c' v); try done; [|apply Hi|apply Hp].
      by rewrite <-app_assoc.
  - eapply (c_acts_update q x 0 b blk c _ c'); eauto; cbn; try done; [by apply prefix_app_r|lia].
Qed.

(** ** The front block moves on: the ring turns *)
Section Advance.
Context q (x : Aux) (b n : ptr) (rest : list ptr).
Context (Hi : inv q x) (Er : ring x = b :: rest) (Hpos : (0 < tpos x)%nat) (Hn : rest !! 0%nat = Some n).
Context (Htk : taken x = false) (Hdr : elems_of x b = []).

Let q' := set_frontBlock n q.
Let x' := mk_Aux (rest ++ [b]) (pred (tpos x)) (cnt x) (placed x) (staged x) (taken x)
            (enqueued x) (dequeued x).

Lemma advance_length : (tpos x ≤ length rest)%nat.
Proof. pose proof (lookup_lt_Some _ _ _ (i_tail _ _ Hi)) as H. rewrite Er in H. cbn in H. lia. Qed.

Lemma advance_lookup i : (i < length rest)%nat → (rest ++ [b]) !! i = ring x !! S i.
Proof. intros Hl. rewrite Er. cbn. by apply lookup_app_l. Qed.

(** The place of a block before and after. *)
Lemma advance_place i b' blk c : (rest ++ [b]) !! i = Some b' → place_ok q x (S i `mod` length (ring x)) b' blk c →
  place_ok q' x' i b' blk c.
Proof.
  intros Hb' Hp. pose proof advance_length. pose proof (lookup_lt_Some _ _ _ Hb') as Hl.
  rewrite length_app in Hl. cbn in Hl.
  assert (length (ring x) = S (length rest)) as El by (by rewrite Er).
  assert (ring x' !! (S i `mod` length (ring x'))%nat = Some (next blk)) as Hnx.
  { rewrite <-(p_next _ _ _ _ _ _ Hp). unfold x'. cbn [ring]. rewrite length_app, El. cbn [length].
    rewrite Nat.add_1_r. destruct (decide (S i = S (length rest))) as [E|E].
    - rewrite E, Nat.Div0.mod_same. rewrite Er, Nat.mod_small by lia. rewrite lookup_app_l by lia. done.
    - rewrite (Nat.mod_small (S i)) by lia. destruct (decide (S i = length rest)) as [E'|E'].
      + rewrite E', Nat.Div0.mod_same, Er, lookup_app_r, Nat.sub_diag by lia. done.
      + rewrite advance_lookup, Nat.mod_small by lia. done. }
  destruct Hp. rewrite El in *.
  assert (bool_decide (i = 0%nat) && taken x = false) as Etk by (rewrite Htk; apply andb_false_r).
  rewrite Htk, andb_false_r in p_block0.
  constructor; cbn [q' x' heap set_frontBlock cnt ring tpos taken placed staged]; try done;
    [by rewrite Etk|..]; destruct (decide (S i = S (length rest))) as [E|E].
  - intros Hr. exfalso. lia.
  - intros Hr. rewrite Nat.mod_small in p_between0 by lia. apply p_between0. lia.
  - intros Hr. rewrite E, Nat.Div0.mod_same in *.
    assert (b' = b) as ->. { rewrite lookup_app_r in Hb' by lia.
      replace (i - length rest)%nat with 0%nat in Hb' by lia. by simplify_eq/=. }
    rewrite (elems_of_cnt _ _ c) in Hdr by done. rewrite Hdr.
    destruct (i_staged _ _ Hi) as [Hs|Hs]; [rewrite El in Hs; lia|done].
  - intros Hr. rewrite Nat.mod_small in p_staged0 by lia. apply p_staged0. lia.
  - intros Hr. assert (b' = b) as ->. { rewrite lookup_app_r in Hb' by lia.
      replace (i - length rest)%nat with 0%nat in Hb' by lia. by simplify_eq/=. }
    by rewrite (elems_of_cnt _ _ c) in Hdr by done.
  - intros Hr. rewrite Nat.mod_small in p_beyond0 by lia. apply p_beyond0. lia.
Qed.

Lemma advance_ring i b' : (rest ++ [b]) !! i = Some b' → ring x !! (S i `mod` length (ring x))%nat = Some b'.
Proof.
  intros Hb'. pose proof (lookup_lt_Some _ _ _ Hb') as Hl. rewrite length_app in Hl. cbn in Hl.
  assert (length (ring x) = S (length rest)) as -> by (by rewrite Er).
  destruct (decide (i = length rest)) as [->|Hne].
  - rewrite Nat.Div0.mod_same, Er. by rewrite lookup_app_r, Nat.sub_diag in Hb' by lia.
  - rewrite Nat.mod_small by lia. rewrite <-advance_lookup by lia. done.
Qed.

Lemma advance_live : live x' = live x.
Proof.
  pose proof advance_length. rewrite (live_first x b) by (by rewrite Er). rewrite Hdr. cbn [app].
  unfold live. rewrite Er. cbn [drop]. unfold x'. cbn [ring tpos].
  replace (S (pred (tpos x))) with (tpos x) by lia. by rewrite take_app_le by lia.
Qed.

Lemma advance_inv : inv q' x'.
Proof.
  pose proof advance_length. pose proof (i_nodup _ _ Hi) as Hnd. rewrite Er in Hnd.
  constructor; cbn [q' x' ring tpos cnt placed staged taken enqueued dequeued set_frontBlock heap
    frontBlock tailBlock allocations largestBlockSize]; try apply Hi.
  - by rewrite <-Permutation_cons_append.
  - rewrite lookup_app_l; [done|]. by eapply lookup_lt_Some.
  - rewrite advance_lookup by lia. replace (S (pred (tpos x))) with (tpos x) by lia. apply Hi.
  - intros i b' Hb'. destruct (i_place _ _ Hi _ _ (advance_ring _ _ Hb')) as (blk & c & Hp).
    eauto using advance_place.
  - destruct (i_staged _ _ Hi) as [Hs|Hs]; [|by right]. left. rewrite Er in Hs. cbn in Hs.
    rewrite length_app. cbn. lia.
  - fold x'. rewrite advance_live. apply Hi.
Qed.

Lemma advance_acts : c_acts q x q' x'.
Proof.
  pose proof advance_length. constructor; cbn [q' x' ring tpos cnt placed staged taken enqueued dequeued
    set_frontBlock heap frontBlock tailBlock allocations largestBlockSize enqueuing]; try done.
  - intros b'. rewrite Er, elem_of_app, elem_of_cons, list_elem_of_singleton. tauto.
  - intros m Hm. replace (S (pred (tpos x))) with (tpos x) by lia.
    pose proof (lookup_lt_Some _ _ _ Hm) as Hl. rewrite Er in Hl. cbn in Hl.
    by rewrite advance_lookup by lia.
  - intros b' blk Hb'. by exists blk.
  - intros b' c Hc. by exists c.
Qed.
Lemma advance_front : inv q' x' ∧ c_acts q x q' x'.
Proof. split; [exact advance_inv|exact advance_acts]. Qed.
End Advance.

(** ** The producer *)

(** The fields of a block that only the producer writes. *)
Definition p_owned {A} (g : Block T → A) : Prop := ∀ blk blk',
  tail blk' = tail blk → localFront blk' = localFront blk → next blk' = next blk →
  sizeMask blk' = sizeMask blk → g blk' = g blk.

(** What the producer knows of a block, and of its counters, stays while the consumer runs. *)
Record p_same blk (c : Counters) blk' (c' : Counters) : Prop := {
  ps_tail : tail blk' = tail blk;
  ps_next : next blk' = next blk;
  ps_mask : sizeMask blk' = sizeMask blk;
  ps_lf : c_lf c' = c_lf c;
  ps_t : c_t c' = c_t c;
  ps_f : c_f c ≤ c_f c'
}.

Lemma own_tail : p_owned tail.
Proof. by intros ??. Qed.
Lemma own_next : p_owned next.
Proof. by intros ??. Qed.
Lemma own_mask : p_owned sizeMask.
Proof. by intros ??. Qed.
Lemma own_localFront : p_owned localFront.
Proof. by intros ??. Qed.

Lemma p_same_trans blk1 c1 blk2 c2 blk3 c3 :
  p_same blk1 c1 blk2 c2 → p_same blk2 c2 blk3 c3 → p_same blk1 c1 blk3 c3.
Proof. intros [] []. constructor; first [congruence|lia]. Qed.

(** The tail block ([d = 0]) or the block after it ([d = 1]). *)
Definition tracked (d : nat) (b : ptr) blk (c : Counters) q (x : Aux) : Prop :=
  (d ≤ 1)%nat ∧ ring x !! (d + tpos x)%nat = Some b ∧ place_ok q x (d + tpos x) b blk c.

Lemma tracked_later d b blk c q x q' x' :
  c_acts q x q' x' → inv q x → inv q' x' → tracked d b blk c q x →
  ∃ blk' c', tracked d b blk' c' q' x' ∧ p_same blk c blk' c' ∧
    slots blk' !! tail blk = slots blk !! tail blk.
Proof.
  intros Ha Hi Hi' (Hd & Hb & Hp).
  assert (ring x' !! (d + tpos x')%nat = Some b) as Hb'.
  { destruct d as [|[|]]; [|by apply Ha|lia]. cbn in *.
    rewrite (i_tail _ _ Hi'), (ca_tail _ _ _ _ Ha), <-(i_tail _ _ Hi). done. }
  destruct (i_place _ _ Hi' _ _ Hb') as (blk' & c' & Hp'). exists blk', c'.
  destruct (ca_block _ _ _ _ Ha b blk (p_heap _ _ _ _ _ _ Hp)) as (blk1 & Eb & ? & ? & ? & ? & ? & _).
  destruct (ca_cnt _ _ _ _ Ha b c (p_cnt _ _ _ _ _ _ Hp)) as (c1 & Ec & ? & ? & ?).
  rewrite (p_heap _ _ _ _ _ _ Hp') in Eb. rewrite (p_cnt _ _ _ _ _ _ Hp') in Ec. simplify_eq.
  by split_and!.
Qed.

Lemma tracked_tail q x : inv q x → ∃ blk c, tracked 0 (tailBlock q) blk c q x.
Proof.
  intros Hi. destruct (i_place _ _ Hi _ _ (i_tail _ _ Hi)) as (blk & c & Hp).
  exists blk, c. split_and!; [lia|apply Hi|done].
Qed.

Lemma tracked_intro d b blk c q x : inv q x → (d ≤ 1)%nat → ring x !! (d + tpos x)%nat = Some b →
  heap q !! b = Some blk → cnt x !! b = Some c → tracked d b blk c q x.
Proof.
  intros Hi Hd Hb Hh Hc. split_and!; [done..|].
  destruct (i_place _ _ Hi _ _ Hb) as (blk' & c' & Hp).
  pose proof (p_heap _ _ _ _ _ _ Hp). pose proof (p_cnt _ _ _ _ _ _ Hp). by simplify_eq.
Qed.

(** Between the steps of a call: nothing half done. *)
Record ready (p : option ptr) (st es : list T) q (x : Aux) : Prop := {
  r_placed : placed x = p;
  r_staged : staged x = st;
  r_enqueued : enqueued x = es;
  r_enqueuing : enqueuing q = true
}.

Lemma ready_later p st es q x q' x' : c_acts q x q' x' → ready p st es q x → ready p st es q' x'.
Proof. intros [] []. constructor; congruence. Qed.

Lemma c_acts_refl q x : c_acts q x q x.
Proof. constructor; intros; try done; try (eexists; split_and!; [eassumption|done..]). Qed.
Lemma p_acts_refl q x : p_acts q x q x.
Proof. constructor; intros; try done; try (eexists; split_and!; [eassumption|done..]). Qed.

(** Reading what the producer owns gives what was there at the last write. *)
Lemma wp_get_own {A B} (b : ptr) (g : Block T → B) (k : B → prog (Queue T) A) Q q0 x0 blk0 q x :
  p_owned g → heap q0 !! b = Some blk0 → c_acts q0 x0 q x →
  (∀ q1 x1, inv q1 x1 → c_acts q0 x0 q1 x1 → wp inv acts never true (k (g blk0)) Q q1 x1) →
  wp inv acts never true (get b g ≫= k) Q q x.
Proof.
  intros Hg Hb Ha H q1 x1 Hi Hr. pose proof (c_acts_trans _ _ _ _ _ _ Ha Hr) as Ha1.
  destruct (ca_block _ _ _ _ Ha1 _ _ Hb) as (blk1 & Hb1 & ? & ? & ? & ? & _).
  exists q1, (g blk0), x1. rewrite Hb1, (Hg blk0 blk1) by done. split_and!; [done..| |eauto].
  by apply acts_refl.
Qed.

Lemma wp_load_own {A B} (g : Queue T → B) (k : B → prog (Queue T) A) Q q0 x0 q x :
  (∀ q1 x1, c_acts q0 x0 q1 x1 → g q1 = g q0) → c_acts q0 x0 q x →
  (∀ q1 x1, inv q1 x1 → c_acts q0 x0 q1 x1 → wp inv acts never true (k (g q0)) Q q1 x1) →
  wp inv acts never true (load g ≫= k) Q q x.
Proof.
  intros Hg Ha H q1 x1 Hi Hr. pose proof (c_acts_trans _ _ _ _ _ _ Ha Hr) as Ha1.
  exists q1, (g q0), x1. rewrite (Hg q1 x1) by done. split_and!; [done..| |eauto]. by apply acts_refl.
Qed.

(** Reading what the consumer owns. *)
Lemma wp_get_other {A B} (b : ptr) (g : Block T → B) (k : B → prog (Queue T) A) Q q0 x0 q x :
  is_Some (heap q0 !! b) → c_acts q0 x0 q x →
  (∀ q1 x1 blk1, inv q1 x1 → c_acts q0 x0 q1 x1 → heap q1 !! b = Some blk1 →
    wp inv acts never true (k (g blk1)) Q q1 x1) →
  wp inv acts never true (get b g ≫= k) Q q x.
Proof.
  intros [blk0 Hb] Ha H q1 x1 Hi Hr. pose proof (c_acts_trans _ _ _ _ _ _ Ha Hr) as Ha1.
  destruct (ca_block _ _ _ _ Ha1 _ _ Hb) as (blk1 & Hb1 & _).
  exists q1, (g blk1), x1. rewrite Hb1. split_and!; [done..| |eauto]. by apply acts_refl.
Qed.

Lemma wp_load_other {A B} (g : Queue T → B) (k : B → prog (Queue T) A) Q q0 x0 q x :
  c_acts q0 x0 q x →
  (∀ q1 x1, inv q1 x1 → c_acts q0 x0 q1 x1 → wp inv acts never true (k (g q1)) Q q1 x1) →
  wp inv acts never true (load g ≫= k) Q q x.
Proof.
  intros Ha H q1 x1 Hi Hr. pose proof (c_acts_trans _ _ _ _ _ _ Ha Hr) as Ha1.
  exists q1, (g q1), x1. split_and!; [done..| |by apply H]. by apply acts_refl.
Qed.

(** A step of the producer. *)
Lemma wp_p_step {A B} (f : Queue T → result (Queue T * B)) (k : B → prog (Queue T) A) Q q0 x0 q x :
  c_acts q0 x0 q x →
  (∀ q1 x1, inv q1 x1 → c_acts q0 x0 q1 x1 → ∃ q2 b x2, f q1 = Ok (q2, b) ∧ inv q2 x2 ∧ p_acts q1 x1 q2 x2 ∧
    wp inv acts never true (k b) Q q2 x2) →
  wp inv acts never true (access f ≫= k) Q q x.
Proof.
  intros Ha H q1 x1 Hi Hr. destruct (H q1 x1 Hi (c_acts_trans _ _ _ _ _ _ Ha Hr)) as (q2 & b & x2 & ? & ? & ? & ?).
  exists q2, b, x2. done.
Qed.

(** [new (location) T(v)] in the slot at [tail]. *)
Lemma wp_construct {A} d b blk c st es v (k : unit → prog (Queue T) A) Q q x :
  inv q x → ready None st es q x → tracked d b blk c q x →
  (∀ q1 x1 blk1 c1, inv q1 x1 → ready (Some b) st es q1 x1 → tracked d b blk1 c1 q1 x1 →
    p_same blk c blk1 c1 → slots blk1 !! tail blk1 = Some v → wp inv acts never true (k tt) Q q1 x1) →
  wp inv acts never true (construct b (tail blk) v ≫= k) Q q x.
Proof.
  intros Hi Hr Ht Hk. apply (wp_p_step _ _ _ q x); [apply c_acts_refl|]. intros q1 x1 Hi1 Ha1.
  destruct (tracked_later _ _ _ _ _ _ _ _ Ha1 Hi Hi1 Ht) as (blk1 & c1 & (Hd & Hb1 & Hp1) & Hs & _).
  destruct (ready_later _ _ _ _ _ _ _ Ha1 Hr) as [Rp Rs Re Rq].
  destruct (construct_tail q1 x1 _ b blk1 c1 v Hi1 Hb1 Hp1 Rp) as [Hi2 Ha2].
  eexists _, tt, _. split_and!; [|exact Hi2|exact Ha2|].
  { rewrite (p_heap _ _ _ _ _ _ Hp1), <-(ps_tail _ _ _ _ Hs).
    rewrite bool_decide_eq_true_2 by (by eapply tail_in_range, Hp1).
    pose proof (p_block _ _ _ _ _ _ Hp1) as Hbo. rewrite Rp in Hbo.
    by rewrite (tail_slot_free _ _ _ Hbo). }
  eapply Hk; [done|by constructor|apply tracked_intro; [done..|apply lookup_insert_eq|apply lookup_insert_eq]| |].
  - by destruct Hs.
  - apply lookup_insert_eq.
Qed.

(** [localFront = f], where [f] was read before. *)
Lemma wp_put_localFront {A} d b blk c p st es l (k : unit → prog (Queue T) A) Q q x :
  inv q x → ready p st es q x → tracked d b blk c q x → l ≤ c_f c → c_t c - l ≤ sizeMask blk →
  (∀ q1 x1 blk1 c1, inv q1 x1 → ready p st es q1 x1 → tracked d b blk1 c1 q1 x1 →
    tail blk1 = tail blk → next blk1 = next blk → sizeMask blk1 = sizeMask blk →
    c_t c1 = c_t c → c_lf c1 = l → wp inv acts never true (k tt) Q q1 x1) →
  wp inv acts never true (put b (set_localFront (l `mod` (sizeMask blk + 1))) ≫= k) Q q x.
Proof.
  intros Hi Hr Ht Hl1 Hl2 Hk. apply (wp_p_step _ _ _ q x); [apply c_acts_refl|]. intros q1 x1 Hi1 Ha1.
  destruct (tracked_later _ _ _ _ _ _ _ _ Ha1 Hi Hi1 Ht) as (blk1 & c1 & (Hd & Hb1 & Hp1) & [] & _).
  destruct (ready_later _ _ _ _ _ _ _ Ha1 Hr) as [Rp Rs Re Rq].
  destruct (put_localFront q1 x1 _ b blk1 c1 l Hi1 Hb1 Hp1) as [Hi2 Ha2]; [lia|lia|].
  eexists _, tt, _. split_and!; [|exact Hi2|exact Ha2|].
  { rewrite (p_heap _ _ _ _ _ _ Hp1), <-ps_mask0. done. }
  eapply Hk; [done|by constructor|apply tracked_intro; [done..|apply lookup_insert_eq|apply lookup_insert_eq]|done..].
Qed.

(** [tailBlock_->tail = nextBlockTail]. *)
Lemma wp_publish_tail {A} b blk c es v (k : unit → prog (Queue T) A) Q q x :
  inv q x → ready (Some b) [] es q x → tracked 0 b blk c q x → slots blk !! tail blk = Some v →
  c_t c + 1 - c_lf c ≤ sizeMask blk →
  (∀ q1 x1, inv q1 x1 → ready None [] (es ++ [v]) q1 x1 → wp inv acts never true (k tt) Q q1 x1) →
  wp inv acts never true (put b (set_tail ((c_t c + 1) `mod` (sizeMask blk + 1))) ≫= k) Q q x.
Proof.
  intros Hi Hr Ht Hv Hroom Hk. apply (wp_p_step _ _ _ q x); [apply c_acts_refl|]. intros q1 x1 Hi1 Ha1.
  destruct (tracked_later _ _ _ _ _ _ _ _ Ha1 Hi Hi1 Ht) as (blk1 & c1 & (Hd & Hb1 & Hp1) & [] & Hsl).
  destruct (ready_later _ _ _ _ _ _ _ Ha1 Hr) as [Rp Rs Re Rq].
  destruct (publish_tail q1 x1 b blk1 c1 v Hi1 Hb1 Hp1 Rp) as [Hi2 Ha2]; [congruence|lia|].
  eexists _, tt, _. split_and!; [|exact Hi2|exact Ha2|].
  { rewrite (p_heap _ _ _ _ _ _ Hp1), <-ps_mask0, <-ps_t0. done. }
  apply Hk; [done|]. constructor; cbn; congruence.
Qed.

(** [tailBlockNext->tail = ...]. *)
Lemma wp_stage_tail {A} b blk c es v (k : unit → prog (Queue T) A) Q q x :
  inv q x → ready (Some b) [] es q x → tracked 1 b blk c q x → slots blk !! tail blk = Some v →
  c_t c + 1 - c_lf c ≤ sizeMask blk →
  (∀ q1 x1, inv q1 x1 → ready None [v] es q1 x1 → ring x1 !! S (tpos x1) = Some b →
    wp inv acts never true (k tt) Q q1 x1) →
  wp inv acts never true (put b (set_tail ((c_t c + 1) `mod` (sizeMask blk + 1))) ≫= k) Q q x.
Proof.
  intros Hi Hr Ht Hv Hroom Hk. apply (wp_p_step _ _ _ q x); [apply c_acts_refl|]. intros q1 x1 Hi1 Ha1.
  destruct (tracked_later _ _ _ _ _ _ _ _ Ha1 Hi Hi1 Ht) as (blk1 & c1 & (Hd & Hb1 & Hp1) & [] & Hsl).
  destruct (ready_later _ _ _ _ _ _ _ Ha1 Hr) as [Rp Rs Re Rq].
  destruct (stage_tail q1 x1 b blk1 c1 v Hi1 Hb1 Hp1 Rp Rs) as [Hi2 Ha2]; [congruence|lia|].
  eexists _, tt, _. split_and!; [|exact Hi2|exact Ha2|].
  { rewrite (p_heap _ _ _ _ _ _ Hp1), <-ps_mask0, <-ps_t0. done. }
  apply Hk; [done| |done]. constructor; cbn; congruence.
Qed.

(** [tailBlock = b]. *)
Lemma wp_publish_block b es v Q q x :
  inv q x → ready None [v] es q x → ring x !! S (tpos x) = Some b →
  (∀ q1 x1, inv q1 x1 → ready None [] (es ++ [v]) q1 x1 → Q true q1 x1) →
  wp inv acts never true (store (set_tailBlock b) ;; mret true) Q q x.
Proof.
  intros Hi Hr Hb Hk q1 x1 Hi1 Ha1. cbn in Ha1.
  destruct (ready_later _ _ _ _ _ _ _ Ha1 Hr) as [Rp Rs Re Rq].
  destruct (publish_block q1 x1 b v Hi1 (ca_after _ _ _ _ Ha1 _ Hb) Rs Rp) as [Hi2 Ha2].
  eexists _, tt, _. split_and!; [done|exact Hi2|exact Ha2|].
  intros q3 x3 Hi3 Ha3. apply Hk; [done|]. eapply ready_later; [done|].
  constructor; cbn; congruence.
Qed.

(** The operation is about to return with the element in the queue. *)
Definition stored (es : list T) (v : T) (r : bool) q (x : Aux) : Prop :=
  r = true ∧ ready None [] (es ++ [v]) q x.

(** There is room in the tail block. *)
Lemma wp_fast es v b blk c q x :
  inv q x → ready None [] es q x → tracked 0 b blk c q x → c_t c + 1 - c_lf c ≤ sizeMask blk →
  wp inv acts never true
    (construct b (tail blk) v ;; put b (set_tail ((c_t c + 1) `mod` (sizeMask blk + 1))) ;; mret true)
    (stored es v) q x.
Proof.
  intros Hi Hr Ht Hroom. eapply wp_construct; [done..|]. intros q1 x1 blk1 c1 Hi1 Hr1 Ht1 [] Hv.
  rewrite <-ps_t0, <-ps_mask0. eapply wp_publish_tail; [done..|lia|]. intros q2 x2 Hi2 Hr2.
  apply wp_ret; [done| |done]. intros q5 x5 q6 x6 _ _ Ha [? ?]. split; [done|]. by eapply ready_later.
Qed.

Lemma tracked_staged b blk c q x : tracked 1 b blk c q x → staged x = [] → c_f c = c_t c.
Proof.
  intros (_ & _ & Hp) Hs. pose proof (b_count _ _ _ _ (p_block _ _ _ _ _ _ Hp)) as Hc.
  rewrite (p_staged _ _ _ _ _ _ Hp), Hs in Hc by done. cbn in Hc. lia.
Qed.

(** The element goes into the block after the tail block, which becomes the tail block. *)
Lemma wp_stage es v b blk c q x :
  inv q x → ready None [] es q x → tracked 1 b blk c q x → c_t c + 1 - c_lf c ≤ sizeMask blk →
  wp inv acts never true
    (construct b (tail blk) v ;;
     mask ← get b sizeMask;
     put b (set_tail (Z.land (u64 (tail blk + 1)) mask)) ;;
     fence memory_order_release ;;
     store (set_tailBlock b) ;;
     mret true)
    (stored es v) q x.
Proof.
  intros Hi Hr Ht Hroom. eapply wp_construct; [done..|]. intros q5 x5 blk5 c5 Hi5 Hr5 Ht5 Hs5 Hv5.
  eapply (wp_get_own b sizeMask _ _ q5 x5); [apply own_mask|apply Ht5|apply c_acts_refl|].
  intros q6 x6 Hi6 Ha6.
  destruct (tracked_later _ _ _ _ _ _ _ _ Ha6 Hi5 Hi6 Ht5) as (blk6 & c6 & Ht6 & Hs6 & Hsl6).
  pose proof (ready_later _ _ _ _ _ _ _ Ha6 Hr5) as Hr6.
  pose proof Ht6 as (_ & _ & Hp6). pose proof (p_block _ _ _ _ _ _ Hp6) as Hbo6.
  rewrite <-(ps_mask _ _ _ _ Hs6), <-(ps_tail _ _ _ _ Hs5), <-(ps_tail _ _ _ _ Hs6),
    (b_tail _ _ _ _ Hbo6), (next_index _ _ _ _ _ Hbo6).
  eapply wp_stage_tail; [done|done|done| | |].
  - by rewrite (ps_tail _ _ _ _ Hs6), Hsl6.
  - destruct Hs5, Hs6. lia.
  - intros q7 x7 Hi7 Hr7 Hb7. by eapply wp_publish_block; [..|by split].
Qed.

(** The tail block is full and the block after it is free. *)
Lemma wp_next_block es v b q x :
  inv q x → ready None [] es q x → ring x !! S (tpos x) = Some b →
  wp inv acts never true
    (nextBlockFront ← get b front;
     put b (set_localFront nextBlockFront) ;;
     nextBlockTail ← get b tail;
     fence memory_order_acquire ;;
     assert (nextBlockFront =? nextBlockTail) "nextBlockFront == nextBlockTail" ;;
     put b (set_localFront nextBlockFront) ;;
     construct b nextBlockTail v ;;
     mask ← get b sizeMask;
     put b (set_tail (Z.land (u64 (nextBlockTail + 1)) mask)) ;;
     fence memory_order_release ;;
     store (set_tailBlock b) ;;
     mret true)
    (stored es v) q x.
Proof.
  intros Hi Hr Hb. destruct (i_place _ _ Hi _ _ Hb) as (blk & c & Hp).
  eapply (wp_get_other b front _ _ q x); [by rewrite (p_heap _ _ _ _ _ _ Hp)|apply c_acts_refl|].
  intros q1 x1 blk1 Hi1 Ha1 Hh1. pose proof (ready_later _ _ _ _ _ _ _ Ha1 Hr) as Hr1.
  destruct (i_place _ _ Hi1 _ _ (ca_after _ _ _ _ Ha1 _ Hb)) as (blk1' & c1 & Hp1).
  pose proof (p_heap _ _ _ _ _ _ Hp1). simplify_eq.
  assert (tracked 1 b blk1 c1 q1 x1) as Ht1 by (split_and!; [lia|by apply Ha1|done]).
  pose proof (p_block _ _ _ _ _ _ Hp1) as Hbo1. pose proof (mask_pos _ _ _ _ Hbo1).
  pose proof (tracked_staged _ _ _ _ _ Ht1 (r_staged _ _ _ _ _ Hr1)) as Eft.
  rewrite (b_front _ _ _ _ Hbo1). eapply wp_put_localFront; [done|done|done|lia|lia|].
  intros q2 x2 blk2 c2 Hi2 Hr2 Ht2 Et2 _ Em2 Ect2 Elf2.
  eapply (wp_get_own b tail _ _ q2 x2); [apply own_tail|apply Ht2|apply c_acts_refl|]. intros q3 x3 Hi3 Ha3.
  destruct (tracked_later _ _ _ _ _ _ _ _ Ha3 Hi2 Hi3 Ht2) as (blk3 & c3 & Ht3 & [] & _).
  pose proof (ready_later _ _ _ _ _ _ _ Ha3 Hr2) as Hr3.
  pose proof (tracked_staged _ _ _ _ _ Ht3 (r_staged _ _ _ _ _ Hr3)) as Eft3.
  rewrite Et2, (b_tail _ _ _ _ Hbo1), Eft, Z.eqb_refl. cbn [assert].
  rewrite <-Em2, <-ps_mask0. eapply wp_put_localFront; [done|done|done|lia|lia|].
  intros q4 x4 blk4 c4 Hi4 Hr4 Ht4 Et4 _ Em4 Ect4 Elf4.
  assert (c_t c1 `mod` (sizeMask blk3 + 1) = tail blk4) as ->.
  { rewrite Et4, ps_tail0, Et2, (b_tail _ _ _ _ Hbo1), ps_mask0, Em2. done. }
  eapply wp_stage; [done..|lia].
Qed.

(** Writing the fields that are not in the invariant. *)
Lemma inv_fields q x e d n l : inv q x → (allocations q ≤ n)%nat → (∃ k, 1 ≤ k < 64 ∧ l = 2 ^ k) →
  inv (mk_Queue (frontBlock q) (tailBlock q) l e d (heap q) n) x.
Proof.
  intros Hi Hn Hl. constructor; try apply Hi; [|intros b Hb; pose proof (i_heap _ _ Hi b Hb); cbn; lia|done].
  intros i b Hb. destruct (i_place _ _ Hi i b Hb) as (blk & c & []). by exists blk, c.
Qed.

Lemma p_acts_fields q x e n l :
  p_acts q x (mk_Queue (frontBlock q) (tailBlock q) l e (dequeuing q) (heap q) n) x.
Proof. constructor; cbn; intros; try done; eexists; split_and!; (eassumption || done). Qed.

Lemma c_acts_fields q x d :
  c_acts q x (mk_Queue (frontBlock q) (tailBlock q) (largestBlockSize q) (enqueuing q) d (heap q) (allocations q)) x.
Proof. constructor; cbn; intros; try done; eexists; split_and!; (eassumption || done). Qed.

(** A block that is not linked yet belongs to the producer. *)
Definition unlinked (b : ptr) blk q (x : Aux) : Prop := b ∉ ring x ∧ heap q !! b = Some blk.

Lemma unlinked_later b blk q x q' x' : c_acts q x q' x' → unlinked b blk q x → unlinked b blk q' x'.
Proof.
  intros Ha [Hb Hh]. destruct (ca_block _ _ _ _ Ha b blk Hh) as (blk' & Hh' & _ & _ & _ & _ & _ & He).
  split; [by rewrite <-(ca_ring _ _ _ _ Ha)|]. by rewrite He in Hh'.
Qed.

(** The tail block keeps its successor while the producer works elsewhere. *)
Definition tail_next (b n : ptr) q (x : Aux) : Prop := ∃ blk c, tracked 0 b blk c q x ∧ next blk = n.

Lemma tail_next_later b n q x q' x' : c_acts q x q' x' → inv q x → inv q' x' →
  tail_next b n q x → tail_next b n q' x'.
Proof.
  intros Ha Hi Hi' (blk & c & Ht & En).
  destruct (tracked_later _ _ _ _ _ _ _ _ Ha Hi Hi' Ht) as (blk' & c' & Ht' & [] & _).
  exists blk', c'. split; [done|congruence].
Qed.

Lemma tail_next_outside b n q x nb nblk m : nb ∉ ring x →
  inv (set_heap (<[nb := nblk]> (heap q)) (set_allocations m q)) x → tail_next b n q x →
  tail_next b n (set_heap (<[nb := nblk]> (heap q)) (set_allocations m q)) x.
Proof.
  intros Hnb Hi (blk & c & (Hd & Hb & Hp) & En). exists blk, c. split; [|done].
  apply tracked_intro; [done..| |apply Hp]. cbn. rewrite lookup_insert_ne; [apply Hp|].
  intros ->. apply Hnb. by eapply list_elem_of_lookup_2.
Qed.

Lemma wp_unlinked {A B} nb nblk nblk' (a : B) f b n st es (k : B → prog (Queue T) A) Q q x :
  inv q x → ready None st es q x → tail_next b n q x → unlinked nb nblk q x → f nblk = Ok (nblk', a) →
  (∀ q1 x1, inv q1 x1 → ready None st es q1 x1 → tail_next b n q1 x1 → unlinked nb nblk' q1 x1 →
    wp inv acts never true (k a) Q q1 x1) →
  wp inv acts never true (deref nb f ≫= k) Q q x.
Proof.
  intros Hi Hr Ht Hu Hf Hk. apply (wp_p_step _ _ _ q x); [apply c_acts_refl|]. intros q1 x1 Hi1 Ha1.
  destruct (unlinked_later _ _ _ _ _ _ Ha1 Hu) as [Hnb Hh].
  pose proof (ready_later _ _ _ _ _ _ _ Ha1 Hr) as [].
  pose proof (i_heap _ _ Hi1 nb (mk_is_Some _ _ Hh)).
  pose proof (inv_outside q1 x1 nb nblk' (allocations q1) Hi1 Hnb ltac:(lia) ltac:(lia)) as Hi2.
  exists (set_heap (<[nb := nblk']> (heap q1)) (set_allocations (allocations q1) q1)), a, x1.
  rewrite Hh, Hf. split_and!; [done|done|by apply p_acts_outside|].
  apply Hk; [done|by constructor| |split; [done|apply lookup_insert_eq]].
  apply tail_next_outside; [done..|]. by eapply tail_next_later.
Qed.

Section Enqueue.
Context (MAX_BLOCK_SIZE : Z) (lay : layout) (malloc : nat → Z → Z).

Lemma wp_make_block {A} size b n es (k : ptr → prog (Queue T) A) Q q x :
  inv q x → ready None [] es q x → tail_next b n q x →
  (∀ q1 x1 m, inv q1 x1 → ready None [] es q1 x1 → malloc m (block_bytes lay size) = 0 →
    wp inv acts never true (k nullptr) Q q1 x1) →
  (∀ q1 x1 nb raw d, inv q1 x1 → ready None [] es q1 x1 → tail_next b n q1 x1 →
    unlinked nb (new_Block size raw d) q1 x1 → nb ≠ nullptr → wp inv acts never true (k nb) Q q1 x1) →
  wp inv acts never true (make_block lay malloc size ≫= k) Q q x.
Proof.
  intros Hi Hr Ht Hnull Hok. apply (wp_p_step _ _ _ q x); [apply c_acts_refl|]. intros q1 x1 Hi1 Ha1.
  pose proof (ready_later _ _ _ _ _ _ _ Ha1 Hr) as []. cbv zeta.
  set (raw := malloc (allocations q1) (block_bytes lay size)). destruct (Z.eqb_spec raw 0) as [Eraw|_].
  - eexists _, _, x1. split_and!; [done|apply inv_fields; [done|lia|apply Hi1]|apply p_acts_fields|].
    eapply Hnull; [|by constructor|exact Eraw]. apply inv_fields; [done|lia|apply Hi1].
  - set (d := align_for (alignof_T lay) _). pose proof (fresh_outside _ _ Hi1) as Hnb.
    pose proof (inv_outside q1 x1 _ (new_Block size raw d) (S (allocations q1)) Hi1 Hnb ltac:(lia) ltac:(lia)) as Hi2.
    eexists _, _, x1. split_and!; [done|exact Hi2|by apply p_acts_outside|].
    eapply Hok; [done|by constructor| |split; [done|apply lookup_insert_eq]|done].
    apply tail_next_outside; [done..|]. by eapply tail_next_later.
Qed.

(** The block with its first element, about to be linked. *)
Lemma block_ok_new k size raw d n v : 1 ≤ k < 64 → size = 2 ^ k →
  block_ok (set_next n (set_tail 1 (set_localTail 1
    (set_slots (<[0 := v]> (slots (new_Block size raw d))) (new_Block size raw d)))))
    (mk_Counters 0 0 1 1 [v]) false false.
Proof.
  intros Hk ->. assert (2 ^ 1 ≤ 2 ^ k) by (apply Z.pow_le_mono_r; lia).
  assert (2 ^ k < 2 ^ 64) by (apply Z.pow_lt_mono_r; lia).
  constructor; cbn; rewrite ?(wrap_small 64 (2 ^ k - 1)) by lia; try lia; try done.
  - by exists k.
  - by rewrite Z.mod_small by lia.
  - by rewrite Z.mod_small by lia.
  - intros i w [[<- _]|[_ Hw]]%lookup_insert_Some; [lia|]. by rewrite lookup_empty in Hw.
  - intros j Hj _ _. replace (2 ^ k - 1 + 1) with (2 ^ k) in * by lia. rewrite Z.mod_small by lia.
    destruct (decide (j = 0)) as [->|Hne]; [by rewrite lookup_insert_eq|].
    rewrite lookup_insert_ne, lookup_empty by done. symmetry. apply lookup_ge_None. cbn. lia.
Qed.

Lemma wp_link_block {A} nb nblk b n es v (k : unit → prog (Queue T) A) Q q x :
  inv q x → ready None [] es q x → tail_next b n q x → unlinked nb nblk q x → next nblk = n →
  block_ok nblk (mk_Counters 0 0 1 1 [v]) false false →
  (∀ q1 x1, inv q1 x1 → ready None [v] es q1 x1 → ring x1 !! S (tpos x1) = Some nb →
    wp inv acts never true (k tt) Q q1 x1) →
  wp inv acts never true (put b (set_next nb) ≫= k) Q q x.
Proof.
  intros Hi Hr Ht Hu Hn Hbo Hk. apply (wp_p_step _ _ _ q x); [apply c_acts_refl|]. intros q1 x1 Hi1 Ha1.
  destruct (unlinked_later _ _ _ _ _ _ Ha1 Hu) as [Hnb Hh].
  pose proof (ready_later _ _ _ _ _ _ _ Ha1 Hr) as [].
  destruct (tail_next_later _ _ _ _ _ _ Ha1 Hi Hi1 Ht) as (blk & c & (_ & Hb & Hp) & En). cbn in Hb, Hp.
  assert (next nblk = next blk) as Hnx by congruence.
  destruct (link_block q1 x1 b blk c nb nblk v Hi1 Hb Hp Hnb Hh r_staged0 r_placed0 Hnx Hbo) as [Hi2 Ha2].
  eexists _, tt, _. split_and!; [|exact Hi2|exact Ha2|].
  { by rewrite (p_heap _ _ _ _ _ _ Hp). }
  eapply Hk; [done|by constructor|]. cbn. apply insert_after_new. by eapply lookup_lt_Some.
Qed.

Lemma wp_get_unlinked {A B} nb nblk b n es (g : Block T → B) (k : B → prog (Queue T) A) Q q x :
  inv q x → ready None [] es q x → tail_next b n q x → unlinked nb nblk q x →
  (∀ q1 x1, inv q1 x1 → ready None [] es q1 x1 → tail_next b n q1 x1 → unlinked nb nblk q1 x1 →
    wp inv acts never true (k (g nblk)) Q q1 x1) →
  wp inv acts never true (get nb g ≫= k) Q q x.
Proof.
  intros Hi Hr Ht Hu Hk q1 x1 Hi1 Ha1. destruct (unlinked_later _ _ _ _ _ _ Ha1 Hu) as [Hnb Hh].
  eexists q1, (g nblk), x1. rewrite Hh. split_and!; [done|done|by apply acts_refl|].
  apply Hk; [done|by eapply ready_later|by eapply tail_next_later|done].
Qed.

Lemma wp_get_tail_next {A} nb nblk b n es (k : ptr → prog (Queue T) A) Q q x :
  inv q x → ready None [] es q x → tail_next b n q x → unlinked nb nblk q x →
  (∀ q1 x1, inv q1 x1 → ready None [] es q1 x1 → tail_next b n q1 x1 → unlinked nb nblk q1 x1 →
    wp inv acts never true (k n) Q q1 x1) →
  wp inv acts never true (get b next ≫= k) Q q x.
Proof.
  intros Hi Hr Ht Hu Hk q1 x1 Hi1 Ha1.
  pose proof (tail_next_later _ _ _ _ _ _ Ha1 Hi Hi1 Ht) as Ht1. pose proof Ht1 as (blk & c & (_ & _ & Hp) & En).
  eexists q1, n, x1. rewrite (p_heap _ _ _ _ _ _ Hp), En. split_and!; [done|done|by apply acts_refl|].
  apply Hk; [done|by eapply ready_later|done|by eapply unlinked_later].
Qed.

(** A new block with the element. *)
Lemma wp_fill_new_block k size raw d nb b n es v q x :
  1 ≤ k < 64 → size = 2 ^ k →
  inv q x → ready None [] es q x → tail_next b n q x → unlinked nb (new_Block size raw d) q x →
  wp inv acts never true
    (construct nb 0 v ;;
     f ← get nb front;
     assert (f =? 0) "newBlock->front == 0" ;;
     put nb (set_localTail 1) ;;
     put nb (set_tail 1) ;;
     following ← get b next;
     put nb (set_next following) ;;
     put b (set_next nb) ;;
     fence memory_order_release ;;
     store (set_tailBlock nb) ;;
     mret true)
    (stored es v) q x.
Proof.
  intros Hk Hsz Hi Hr Ht Hu. eapply wp_unlinked; [done..| |].
  { cbn. rewrite bool_decide_eq_true_2; [done|]. rewrite Hsz.
    assert (2 ^ k < 2 ^ 64) by (apply Z.pow_lt_mono_r; lia).
    pose proof (Z.pow_pos_nonneg 2 k). rewrite wrap_small; lia. }
  clear q x Hi Hr Ht Hu. intros q x Hi Hr Ht Hu. eapply wp_get_unlinked; [done..|].
  clear q x Hi Hr Ht Hu. intros q x Hi Hr Ht Hu. cbn [assert front set_slots new_Block Z.eqb].
  eapply wp_unlinked; [done..|]. clear q x Hi Hr Ht Hu. intros q x Hi Hr Ht Hu.
  eapply wp_unlinked; [done..|]. clear q x Hi Hr Ht Hu. intros q x Hi Hr Ht Hu.
  eapply wp_get_tail_next; [done..|]. clear q x Hi Hr Ht Hu. intros q x Hi Hr Ht Hu.
  eapply wp_unlinked; [done..|]. clear q x Hi Hr Ht Hu. intros q x Hi Hr Ht Hu.
  eapply wp_link_block; [done..|by eapply block_ok_new|]. intros q1 x1 Hi1 Hr1 Hb1.
  by eapply wp_publish_block; [..|by split].
Qed.

(** An operation that may allocate only gives up when [malloc] does. *)
Definition refused (canAlloc : AllocationMode) : Prop :=
  canAlloc = CannotAlloc ∨ ∃ m size, malloc m (block_bytes lay size) = 0.

Definition enqueue_post canAlloc (es : list T) (v : T) (r : bool) q (x : Aux) : Prop :=
  stored es v r q x ∨ r = false ∧ ready None [] es q x ∧ refused canAlloc.

Lemma wp_give_up canAlloc es v q x : inv q x → ready None [] es q x → refused canAlloc →
  wp inv acts never true (mret false) (enqueue_post canAlloc es v) q x.
Proof.
  intros Hi Hr Hm q1 x1 Hi1 Ha1. right. split_and!; [done|by eapply ready_later|done].
Qed.

Lemma wp_stored canAlloc es v (p : prog (Queue T) bool) q x :
  wp inv acts never true p (stored es v) q x → wp inv acts never true p (enqueue_post canAlloc es v) q x.
Proof. apply wp_mono. intros a q1 x1 _ H. by left. Qed.

Context (HMAX : ∃ m, 1 ≤ m < 64 ∧ MAX_BLOCK_SIZE = 2 ^ m).

Lemma new_size_pow2 largest : (∃ k, 1 ≤ k < 64 ∧ largest = 2 ^ k) →
  ∃ k, 1 ≤ k < 64 ∧ (if largest >=? MAX_BLOCK_SIZE then largest else u64 (largest * 2)) = 2 ^ k.
Proof.
  intros (k & Hk & ->). destruct HMAX as (m & Hm & ->). destruct (Z.geb_spec (2 ^ k) (2 ^ m)) as [|Hlt].
  - by exists k.
  - apply Z.pow_lt_mono_r_iff in Hlt; [|lia..]. exists (k + 1). split; [lia|].
    assert (2 ^ (k + 1) < 2 ^ 64) by (apply Z.pow_lt_mono_r; lia).
    rewrite Z.pow_add_r in * by lia. rewrite wrap_small; lia.
Qed.

Lemma wp_new_block b n es v q x :
  inv q x → ready None [] es q x → tail_next b n q x →
  wp inv acts never true
    (largest ← load largestBlockSize;
     let newBlockSize := if largest >=? MAX_BLOCK_SIZE then largest else u64 (largest * 2) in
     newBlock ← make_block lay malloc newBlockSize;
     if bool_decide (newBlock = nullptr) then mret false
     else
       store (set_largestBlockSize newBlockSize) ;;
       construct newBlock 0 v ;;
       f ← get newBlock front;
       assert (f =? 0) "newBlock->front == 0" ;;
       put newBlock (set_localTail 1) ;;
       put newBlock (set_tail 1) ;;
       following ← get b next;
       put newBlock (set_next following) ;;
       put b (set_next newBlock) ;;
       fence memory_order_release ;;
       store (set_tailBlock newBlock) ;;
       mret true)
    (enqueue_post CanAlloc es v) q x.
Proof.
  intros Hi Hr Ht. eapply (wp_load_own _ _ _ q x); [intros ?? []; done|apply c_acts_refl|].
  intros q1 x1 Hi1 Ha1. cbv zeta. destruct (new_size_pow2 _ (i_largest _ _ Hi)) as (k & Hk & Ek).
  set (size := if largestBlockSize q >=? MAX_BLOCK_SIZE then largestBlockSize q
               else u64 (largestBlockSize q * 2)) in *.
  eapply wp_make_block; [done|by eapply ready_later|by eapply tail_next_later|..].
  - intros q2 x2 m Hi2 Hr2 Hm. rewrite bool_decide_eq_true_2 by done.
    apply wp_give_up; [done..|]. right. eauto.
  - intros q2 x2 nb raw d Hi2 Hr2 Ht2 Hu2 Hnb. rewrite bool_decide_eq_false_2 by done.
    intros q3 x3 Hi3 Ha3. cbn in Ha3. pose proof (ready_later _ _ _ _ _ _ _ Ha3 Hr2) as [].
    pose proof (inv_fields q3 x3 (enqueuing q3) (dequeuing q3) (allocations q3) size Hi3 ltac:(lia)
      ltac:(by exists k)) as Hi4.
    eexists _, tt, x3. split_and!; [done|exact Hi4|apply p_acts_fields|].
    apply wp_stored. eapply wp_fill_new_block; [done|done|done|by constructor| |].
    + destruct (tail_next_later _ _ _ _ _ _ Ha3 Hi2 Hi3 Ht2) as (blk & c & (? & ? & Hp) & ?).
      exists blk, c. split; [|done]. by apply tracked_intro; [..|apply Hp|apply Hp].
    + by apply (unlinked_later _ _ _ _ _ _ Ha3 Hu2).
Qed.

(** The comparisons of indices tell whether the block is full. *)
Lemma index_differs blk c tk pl l : block_ok blk c tk pl → c_t c - l ≤ sizeMask blk → l ≤ c_t c →
  (c_t c + 1) `mod` (sizeMask blk + 1) ≠ l `mod` (sizeMask blk + 1) → c_t c + 1 - l ≤ sizeMask blk.
Proof.
  intros H Hl1 Hl2 Hne. destruct (decide (c_t c + 1 - l = sizeMask blk + 1)) as [E|E]; [|lia].
  destruct Hne. replace (c_t c + 1) with (l + (sizeMask blk + 1)) by lia.
  apply mod_turn. pose proof (mask_pos _ _ _ _ H). lia.
Qed.

(** When the successor of the tail block is not the front block, it is the next place of the ring. *)
Lemma tail_has_next b blk c q x : inv q x → tracked 0 b blk c q x → next blk ≠ frontBlock q →
  ring x !! S (tpos x) = Some (next blk).
Proof.
  intros Hi (_ & Hb & Hp) Hne. cbn in Hb, Hp. pose proof (p_next _ _ _ _ _ _ Hp) as En.
  pose proof (lookup_lt_Some _ _ _ Hb) as Hlen.
  destruct (decide (S (tpos x) = length (ring x))) as [E|E]; [|by rewrite Nat.mod_small in En by lia].
  rewrite E, Nat.Div0.mod_same, (i_front _ _ Hi) in En. congruence.
Qed.

(** The tail block is full. *)
Lemma wp_slow canAlloc es v b blk c q x :
  inv q x → ready None [] es q x → tracked 0 b blk c q x →
  wp inv acts never true
    (following ← get b next;
     head ← load frontBlock;
     if bool_decide (following ≠ head) then
       fence memory_order_acquire ;;
       tailBlockNext ← get b next;
       nextBlockFront ← get tailBlockNext front;
       put tailBlockNext (set_localFront nextBlockFront) ;;
       nextBlockTail ← get tailBlockNext tail;
       fence memory_order_acquire ;;
       assert (nextBlockFront =? nextBlockTail) "nextBlockFront == nextBlockTail" ;;
       put tailBlockNext (set_localFront nextBlockFront) ;;
       construct tailBlockNext nextBlockTail v ;;
       mask ← get tailBlockNext sizeMask;
       put tailBlockNext (set_tail (Z.land (u64 (nextBlockTail + 1)) mask)) ;;
       fence memory_order_release ;;
       store (set_tailBlock tailBlockNext) ;;
       mret true
     else match canAlloc with
     | CanAlloc =>
         largest ← load largestBlockSize;
         let newBlockSize := if largest >=? MAX_BLOCK_SIZE then largest else u64 (largest * 2) in
         newBlock ← make_block lay malloc newBlockSize;
         if bool_decide (newBlock = nullptr) then mret false
         else
           store (set_largestBlockSize newBlockSize) ;;
           construct newBlock 0 v ;;
           f ← get newBlock front;
           assert (f =? 0) "newBlock->front == 0" ;;
           put newBlock (set_localTail 1) ;;
           put newBlock (set_tail 1) ;;
           following ← get b next;
           put newBlock (set_next following) ;;
           put b (set_next newBlock) ;;
           fence memory_order_release ;;
           store (set_tailBlock newBlock) ;;
           mret true
     | CannotAlloc => mret false
     end)
    (enqueue_post canAlloc es v) q x.
Proof.
  intros Hi Hr Ht. pose proof Ht as (_ & _ & Hp).
  eapply (wp_get_own b next _ _ q x); [apply own_next|apply Ht|apply c_acts_refl|]. intros q1 x1 _ Ha1.
  eapply (wp_load_other _ _ _ q x); [done|]. clear q1 x1 Ha1. intros q2 x2 Hi2 Ha.
  pose proof (ready_later _ _ _ _ _ _ _ Ha Hr) as Hr2.
  destruct (tracked_later _ _ _ _ _ _ _ _ Ha Hi Hi2 Ht) as (blk2 & c2 & Ht2 & Hs & _).
  case_bool_decide as Hne.
  - apply wp_stored. pose proof (tail_has_next _ _ _ _ _ Hi2 Ht2 ltac:(by rewrite (ps_next _ _ _ _ Hs))) as Hn2.
    eapply (wp_get_own b next _ _ q2 x2); [apply own_next|apply Ht2|apply c_acts_refl|]. intros q3 x3 Hi3 Ha3.
    apply wp_next_block; [done|by eapply ready_later|by apply Ha3].
  - destruct canAlloc; [|apply wp_give_up; [done..|by left]].
    eapply wp_new_block; [done..|]. by exists blk2, c2.
Qed.

(** Looking for room in the tail block: the cached [front] first, then the current one. *)
Definition room_post es (b : ptr) blk (c : Counters) (room : bool) q (x : Aux) : Prop :=
  ready None [] es q x ∧ ∃ blk1 c1, tracked 0 b blk1 c1 q x ∧ tail blk1 = tail blk ∧
    sizeMask blk1 = sizeMask blk ∧ c_t c1 = c_t c ∧ (room = true → c_t c1 + 1 - c_lf c1 ≤ sizeMask blk1).

Lemma room_post_unharmed es b blk c r : unharmed inv acts true (room_post es b blk c r).
Proof.
  intros q x q1 x1 Hi Hi1 Ha (Hr & blk1 & c1 & Ht & ? & ? & ? & Hroom). cbn in Ha.
  destruct (tracked_later _ _ _ _ _ _ _ _ Ha Hi Hi1 Ht) as (blk2 & c2 & Ht2 & [] & _).
  split; [by eapply ready_later|]. exists blk2, c2. split_and!; [done|congruence..|].
  intros Hr'. specialize (Hroom Hr'). lia.
Qed.

Lemma wp_room es b blk c q0 x0 q x :
  inv q0 x0 → ready None [] es q0 x0 → tracked 0 b blk c q0 x0 → inv q x → c_acts q0 x0 q x →
  wp inv acts never true
    (if bool_decide ((c_t c + 1) `mod` (sizeMask blk + 1) ≠ localFront blk) then mret true
     else f ← get b front;
          put b (set_localFront f) ;;
          mret (bool_decide ((c_t c + 1) `mod` (sizeMask blk + 1) ≠ f)))
    (room_post es b blk c) q x.
Proof.
  intros Hi0 Hr0 Ht0 Hi Ha. pose proof Ht0 as (_ & _ & Hp0).
  case_bool_decide as Hne; pose proof (p_block _ _ _ _ _ _ Hp0) as Hbo;
    pose proof (b_order _ _ _ _ Hbo) as Hord; pose proof (b_room _ _ _ _ Hbo) as Hrm.
  - apply wp_ret; [done|apply room_post_unharmed|].
    destruct (tracked_later _ _ _ _ _ _ _ _ Ha Hi0 Hi Ht0) as (blk2 & c2 & Ht2 & [] & _).
    split; [by eapply ready_later|]. exists blk2, c2. split_and!; [done..|]. intros _.
    rewrite (b_localFront _ _ _ _ Hbo) in Hne.
    pose proof (index_differs _ _ _ _ (c_lf c) Hbo ltac:(lia) ltac:(lia) Hne). lia.
  - eapply (wp_get_other b front _ _ q0 x0); [by rewrite (p_heap _ _ _ _ _ _ Hp0)|done|].
    intros q1 x1 blk1' Hi1 Ha1 Hh1.
    destruct (tracked_later _ _ _ _ _ _ _ _ Ha1 Hi0 Hi1 Ht0) as (blk1 & c1 & Ht1 & [] & _).
    pose proof Ht1 as (_ & _ & Hp1). pose proof (p_heap _ _ _ _ _ _ Hp1). simplify_eq.
    pose proof (p_block _ _ _ _ _ _ Hp1) as Hbo1. pose proof (b_order _ _ _ _ Hbo1). pose proof (b_room _ _ _ _ Hbo1).
    rewrite (b_front _ _ _ _ Hbo1).
    eapply wp_put_localFront; [done|by eapply ready_later|done|lia|lia|].
    intros q2 x2 blk2 c2 Hi2 Hr2 Ht2 Et _ Em Ect Elf. apply wp_ret; [done|apply room_post_unharmed|].
    split; [done|]. exists blk2, c2. split_and!; [done|congruence..|]. intros Hd%bool_decide_eq_true.
    rewrite <-ps_t0, <-ps_mask0 in Hd.
    pose proof (index_differs _ _ _ _ (c_f c1) Hbo1 ltac:(lia) ltac:(lia) Hd). lia.
Qed.

Lemma wp_inner_enqueue_ canAlloc es v q x :
  inv q x → ready None [] es q x →
  wp inv acts never true (inner_enqueue_ MAX_BLOCK_SIZE lay malloc canAlloc v) (enqueue_post canAlloc es v) q x.
Proof.
  intros Hi Hr. destruct (tracked_tail q x Hi) as (blk & c & Ht).
  set (b := tailBlock q) in *. unfold inner_enqueue_.
  eapply (wp_load_own _ _ _ q x); [intros ?? []; done|apply c_acts_refl|]. intros q1 x1 _ Ha1. fold b.
  eapply (wp_get_own b localFront _ _ q x); [apply own_localFront|apply Ht|exact Ha1|].
  clear q1 x1 Ha1. intros q1 x1 _ Ha1.
  eapply (wp_get_own b tail _ _ q x); [apply own_tail|apply Ht|exact Ha1|].
  clear q1 x1 Ha1. intros q1 x1 _ Ha1.
  eapply (wp_get_own b sizeMask _ _ q x); [apply own_mask|apply Ht|exact Ha1|].
  clear q1 x1 Ha1. intros q1 x1 Hi1 Ha1. cbv zeta.
  pose proof Ht as (_ & _ & Hp). pose proof (p_block _ _ _ _ _ _ Hp) as Hbo.
  assert (Z.land (u64 (tail blk + 1)) (sizeMask blk) = (c_t c + 1) `mod` (sizeMask blk + 1)) as ->.
  { rewrite (b_tail _ _ _ _ Hbo). by eapply next_index. }
  apply wp_bind; [apply acts_refl|].
  eapply wp_mono; [|by eapply (wp_room es b blk c q x)].
  intros room q2 x2 Hi2 (Hr2 & blk2 & c2 & Ht2 & Et & Em & Ect & Hroom). cbn beta. destruct room.
  - rewrite <-Et, <-Em, <-Ect. apply wp_stored. eapply wp_fast; [done..|]. by apply Hroom.
  - by eapply wp_slow.
Qed.

(** The whole operation, with its guard. *)
Definition p_idle_ (es : list T) q (x : Aux) : Prop :=
  placed x = None ∧ staged x = [] ∧ enqueued x = es ∧ enqueuing q = false.

Definition p_done canAlloc (es : list T) (v : T) (r : bool) q (x : Aux) : Prop :=
  p_idle_ (if r then es ++ [v] else es) q x ∧ (r = false → refused canAlloc).

Lemma wp_inner_enqueue canAlloc es v q x :
  inv q x → p_idle_ es q x →
  wp inv acts never true (inner_enqueue MAX_BLOCK_SIZE lay malloc canAlloc v) (p_done canAlloc es v) q x.
Proof.
  intros Hi (Hpl & Hst & He & Hq). unfold inner_enqueue, reentrant.
  eapply (wp_load_own _ _ _ q x); [intros ?? []; done|apply c_acts_refl|]. intros q1 x1 _ Ha1.
  rewrite Hq. cbn [negb assert]. intros q2 x2 Hi2 Ha2. pose proof (c_acts_trans _ _ _ _ _ _ Ha1 Ha2) as Ha.
  pose proof (inv_fields q2 x2 true (dequeuing q2) (allocations q2) _ Hi2 ltac:(lia) (i_largest _ _ Hi2)) as Hi3.
  eexists _, tt, x2. split_and!; [done|exact Hi3|apply p_acts_fields|].
  apply wp_bind; [apply acts_refl|].
  eapply wp_mono; [|apply (wp_inner_enqueue_ canAlloc es v); [done|]].
  2:{ destruct Ha. constructor; cbn; congruence. }
  intros r q4 x4 Hi4 Hp4 q5 x5 Hi5 Ha5.
  assert (ready None [] (if r then es ++ [v] else es) q5 x5 ∧ (r = false → refused canAlloc)) as [[] Hrf].
  { cbn in Ha5. destruct Hp4 as [[-> Hr4]|(-> & Hr4 & ?)]; (split; [by eapply ready_later|done]). }
  eexists _, tt, x5. split_and!; [done| |apply p_acts_fields|].
  { apply inv_fields; [done|lia|apply Hi5]. }
  intros q6 x6 _ Ha6. cbn in Ha6. destruct Ha6. split; [|done]. split_and!; cbn in *; congruence.
Qed.

End Enqueue.

End Protocol.
Arguments Counters : clear implicits.
Arguments Aux : clear implicits.
End QueueProtocol.
