(* ===== verification/QueueConsumer.v ===== *)
(** * The consumer of the queue

    [try_dequeue], [pop] and [peek] of ReaderWriterQueue.v, proved against the steps that the producer may
    take in between (QueueProtocol.v). *)
From S2P Require Import Prelude Atomics ReaderWriterQueue QueueProtocol.

Module QueueConsumer.
Import Atomics ReaderWriterQueue QueueProtocol.

Section Consumer.
Context {T : Type}.
Implicit Types (blk : Block T) (q : Queue T) (x : Aux T) (c : Counters T).
Abbreviation ptr := nat.

(** What the consumer knows of a block of the ring stays while the producer runs. *)
Record c_same blk c blk' c' : Prop := {
  cs_front : front blk' = front blk;
  cs_localTail : localTail blk' = localTail blk;
  cs_mask : sizeMask blk' = sizeMask blk;
  cs_f : c_f c' = c_f c;
  cs_lt : c_lt c' = c_lt c;
  cs_t : c_t c ≤ c_t c';
  cs_elems : elems c `prefix_of` elems c';
  cs_slot : elems c ≠ [] → slots blk' !! front blk = slots blk !! front blk
}.

(** The block at place [i] of the ring, for the front block or the one after it. *)
Definition seen_at (i : nat) (b : ptr) blk c q x : Prop :=
  (i = 0 ∨ i = 1 ∧ 0 < tpos x)%nat ∧ ring x !! i = Some b ∧ place_ok q x i b blk c.

Lemma seen_at_intro i b blk c q x : inv q x → (i = 0 ∨ i = 1 ∧ 0 < tpos x)%nat → ring x !! i = Some b →
  heap q !! b = Some blk → cnt x !! b = Some c → seen_at i b blk c q x.
Proof.
  intros Hi Hd Hb Hh Hc. split_and!; [done..|].
  destruct (i_place _ _ Hi _ _ Hb) as (blk' & c' & Hp).
  pose proof (p_heap _ _ _ _ _ _ Hp). pose proof (p_cnt _ _ _ _ _ _ Hp). by simplify_eq.
Qed.

Lemma seen_later i b blk c q x q' x' :
  p_acts q x q' x' → inv q x → inv q' x' → seen_at i b blk c q x →
  ∃ blk' c', seen_at i b blk' c' q' x' ∧ c_same blk c blk' c'.
Proof.
  intros Ha Hi Hi' (Hd & Hb & Hp).
  assert ((i = 0 ∨ i = 1 ∧ 0 < tpos x')%nat ∧ ring x' !! i = Some b) as [Hd' Hb'].
  { destruct Hd as [->|[-> Hpos]].
    - split; [by left|]. rewrite (i_front _ _ Hi'), (pa_front _ _ _ _ Ha), <-(i_front _ _ Hi). done.
    - destruct (pa_ahead _ _ _ _ Ha Hpos) as (? & -> & _). split; [by right|done]. }
  destruct (i_place _ _ Hi' _ _ Hb') as (blk' & c' & Hp'). exists blk', c'. split; [done|].
  assert (b ∈ ring x) as Hin by (by eapply list_elem_of_lookup_2).
  destruct (pa_block _ _ _ _ Ha b blk Hin (p_heap _ _ _ _ _ _ Hp)) as (blk1 & Eb & ? & ? & ? & Hs).
  destruct (pa_cnt _ _ _ _ Ha b c Hin (p_cnt _ _ _ _ _ _ Hp)) as (c1 & Ec & ? & ? & ? & ?).
  rewrite (elems_of_cnt _ _ _ (p_cnt _ _ _ _ _ _ Hp)) in Hs.
  rewrite (p_heap _ _ _ _ _ _ Hp') in Eb. rewrite (p_cnt _ _ _ _ _ _ Hp') in Ec. by simplify_eq.
Qed.

Lemma seen_front q x : inv q x → ∃ blk c, seen_at 0 (frontBlock q) blk c q x.
Proof.
  intros Hi. destruct (i_place _ _ Hi _ _ (i_front _ _ Hi)) as (blk & c & Hp).
  exists blk, c. split_and!; [by left|apply Hi|done].
Qed.

(** Inside a call of the consumer, with [ds] dequeued before it. *)
Record c_ready (tk : bool) (ds : list T) q x : Prop := {
  cr_taken : taken x = tk;
  cr_dequeued : dequeued x = ds;
  cr_dequeuing : dequeuing q = true
}.

Lemma c_ready_later tk ds q x q' x' : p_acts q x q' x' → c_ready tk ds q x → c_ready tk ds q' x'.
Proof. intros [] []. constructor; congruence. Qed.

(** Steps of the consumer. *)
Lemma wp_c_step {A B} (f : Queue T → result (Queue T * B)) (k : B → prog (Queue T) A) Q q x :
  (∀ q1 x1, inv q1 x1 → p_acts q x q1 x1 → ∃ q2 b x2, f q1 = Ok (q2, b) ∧ inv q2 x2 ∧ c_acts q1 x1 q2 x2 ∧
    wp inv acts never false (k b) Q q2 x2) →
  wp inv acts never false (access f ≫= k) Q q x.
Proof. intros H q1 x1 Hi Hr. destruct (H q1 x1 Hi Hr) as (q2 & b & x2 & ? & ? & ? & ?). by exists q2, b, x2. Qed.

Lemma wp_c_load {A B} (g : Queue T → B) (k : B → prog (Queue T) A) Q q x :
  (∀ q1 x1, inv q1 x1 → p_acts q x q1 x1 → wp inv acts never false (k (g q1)) Q q1 x1) →
  wp inv acts never false (load g ≫= k) Q q x.
Proof.
  intros H q1 x1 Hi Hr. exists q1, (g q1), x1. split_and!; [done..|by apply acts_refl|by apply H].
Qed.

Lemma wp_c_get {A B} i b blk c (g : Block T → B) (k : B → prog (Queue T) A) Q q x :
  inv q x → seen_at i b blk c q x →
  (∀ q1 x1 blk1 c1, inv q1 x1 → p_acts q x q1 x1 → seen_at i b blk1 c1 q1 x1 → c_same blk c blk1 c1 →
    wp inv acts never false (k (g blk1)) Q q1 x1) →
  wp inv acts never false (get b g ≫= k) Q q x.
Proof.
  intros Hi Hs Hk q1 x1 Hi1 Ha1. destruct (seen_later _ _ _ _ _ _ _ _ Ha1 Hi Hi1 Hs) as (blk1 & c1 & Hs1 & Hsame).
  exists q1, (g blk1), x1. pose proof Hs1 as (_ & _ & Hp1). rewrite (p_heap _ _ _ _ _ _ Hp1).
  split_and!; [done..|by apply acts_refl|by eapply Hk].
Qed.

(** Facts about the elements and the order of the blocks, which survive the producer and the consumer's own
    bookkeeping. *)
Definition same_elements q x q' x' : Prop :=
  frontBlock q' = frontBlock q ∧ ring x' = ring x ∧ tpos x' = tpos x ∧ enqueued x' = enqueued x ∧
  ∀ b, elems_of x' b = elems_of x b.

Record kept (K : Queue T → Aux T → Prop) : Prop := {
  k_producer q x q' x' : inv q x → inv q' x' → p_acts q x q' x' → K q x → K q' x';
  k_consumer q x q' x' : same_elements q x q' x' → K q x → K q' x'
}.

Lemma kept_and K1 K2 : kept K1 → kept K2 → kept (λ q x, K1 q x ∧ K2 q x).
Proof. intros [] []. split; naive_solver. Qed.

(** [st] was enqueued before. *)
Definition offered (st : list T) q x : Prop := st `prefix_of` enqueued x.
(** The tail block is not the front block. *)
Definition ahead q x : Prop := (0 < tpos x)%nat.
(** Nor has the front block any element left. *)
Definition drained q x : Prop := (0 < tpos x)%nat ∧ elems_of x (frontBlock q) = [].

Lemma kept_offered st : kept (offered st).
Proof.
  split; unfold offered.
  - intros q x q' x' _ _ Ha H. etrans; [done|apply Ha].
  - by intros q x q' x' (_ & _ & _ & -> & _).
Qed.
Lemma kept_ahead : kept ahead.
Proof.
  split; unfold ahead.
  - intros q x q' x' _ _ Ha H. by apply (pa_ahead _ _ _ _ Ha H).
  - by intros q x q' x' (_ & _ & -> & _).
Qed.
Lemma kept_drained : kept drained.
Proof.
  split; unfold drained.
  - intros q x q' x' _ _ Ha [H He]. destruct (pa_ahead _ _ _ _ Ha H) as (? & _ & E).
    split; [done|]. by rewrite (pa_front _ _ _ _ Ha), E.
  - intros q x q' x' (-> & _ & -> & _ & E). by rewrite E.
Qed.
Lemma kept_frontBlock b : kept (λ q _, frontBlock q = b).
Proof.
  split; [intros q x q' x' _ _ Ha H; by rewrite (pa_front _ _ _ _ Ha)|by intros q x q' x' [-> _]].
Qed.
Lemma kept_or (P : Prop) K : kept K → kept (λ q x, K q x ∨ P).
Proof. intros []. split; naive_solver. Qed.

(** [localTail = t], where [t] was read before. *)
Lemma wp_put_localTail {A} K i b blk c tk ds l (k : unit → prog (Queue T) A) Q q x :
  kept K → inv q x → c_ready tk ds q x → K q x → seen_at i b blk c q x → c_f c ≤ l ≤ c_t c →
  (∀ q1 x1 blk1 c1, inv q1 x1 → c_ready tk ds q1 x1 → K q1 x1 → seen_at i b blk1 c1 q1 x1 →
    front blk1 = front blk → c_f c1 = c_f c → c_lt c1 = l → elems c `prefix_of` elems c1 →
    wp inv acts never false (k tt) Q q1 x1) →
  wp inv acts never false (put b (set_localTail (l `mod` (sizeMask blk + 1))) ≫= k) Q q x.
Proof.
  intros HK Hi Hr Hx Hs Hl Hk. apply wp_c_step. intros q1 x1 Hi1 Ha1.
  destruct (seen_later _ _ _ _ _ _ _ _ Ha1 Hi Hi1 Hs) as (blk1 & c1 & (Hd1 & Hb1 & Hp1) & []).
  pose proof (c_ready_later _ _ _ _ _ _ Ha1 Hr) as [].
  destruct (put_localTail q1 x1 i b blk1 c1 l Hi1 Hb1 Hp1) as [Hi2 Ha2]; [lia|].
  eexists _, tt, _. split_and!; [|exact Hi2|exact Ha2|].
  { rewrite (p_heap _ _ _ _ _ _ Hp1), <-cs_mask0. done. }
  eapply Hk; [done|by constructor| |apply seen_at_intro; [done..|apply lookup_insert_eq|apply lookup_insert_eq]|done..].
  eapply (k_consumer _ HK q1 x1); [|by eapply (k_producer _ HK q x)]. split_and!; [done..|].
  intros b'. unfold elems_of at 1. cbn [cnt]. destruct (decide (b' = b)) as [->|Hne].
  - rewrite lookup_insert_eq. symmetry. exact (elems_of_cnt _ _ c1 (p_cnt _ _ _ _ _ _ Hp1)).
  - by rewrite lookup_insert_ne.
Qed.

(** Taking the first element out of the front block. *)
Definition took (ds : list T) (v : T) q x : Prop := c_ready false (ds ++ [v]) q x.

Lemma wp_destroy {A} b blk c ds (k : unit → prog (Queue T) A) Q q x :
  inv q x → c_ready false ds q x → seen_at 0 b blk c q x → elems c ≠ [] →
  (∀ q1 x1 blk1 c1, inv q1 x1 → c_ready true ds q1 x1 → seen_at 0 b blk1 c1 q1 x1 →
    front blk1 = front blk → c_f c1 = c_f c → c_lt c1 = c_lt c → elems c `prefix_of` elems c1 →
    slots blk1 !! front blk1 = None →
    wp inv acts never false (k tt) Q q1 x1) →
  wp inv acts never false (destroy b (front blk) ≫= k) Q q x.
Proof.
  intros Hi Hr Hs Hne Hk. apply wp_c_step. intros q1 x1 Hi1 Ha1.
  destruct (seen_later _ _ _ _ _ _ _ _ Ha1 Hi Hi1 Hs) as (blk1 & c1 & (Hd1 & Hb1 & Hp1) & []).
  pose proof (c_ready_later _ _ _ _ _ _ Ha1 Hr) as [].
  destruct (elems c) as [|v vs] eqn:Ec; [done|]. destruct cs_elems0 as [l El].
  destruct (destroy_front q1 x1 b blk1 c1 Hi1 Hb1 Hp1 cr_taken0) as [Hi2 Ha2]; [by rewrite El|].
  eexists _, tt, _. split_and!; [|exact Hi2|exact Ha2|].
  { rewrite (p_heap _ _ _ _ _ _ Hp1), <-cs_front0. pose proof (p_block _ _ _ _ _ _ Hp1) as Hbo.
    rewrite cr_taken0 in Hbo. by rewrite (front_slot_full _ _ _ v (vs ++ l) Hbo). }
  eapply Hk; [done|by constructor|apply seen_at_intro; [done..|apply lookup_insert_eq|apply lookup_insert_eq]|done..| |].
  - rewrite El. by apply prefix_app_r.
  - apply lookup_delete_eq.
Qed.

Lemma wp_retire {A} b blk c v ds (r : A) Q q x :
  inv q x → c_ready true ds q x → seen_at 0 b blk c q x → [v] `prefix_of` elems c → c_f c < c_lt c →
  slots blk !! front blk = None →
  (∀ q1 x1, inv q1 x1 → took ds v q1 x1 → Q r q1 x1) →
  wp inv acts never false
    (mask ← get b sizeMask;
     fence memory_order_release ;;
     put b (set_front (Z.land (u64 (front blk + 1)) mask)) ;;
     mret r) Q q x.
Proof.
  intros Hi Hr Hs Hv Hlt Hno Hk.
  assert (elems c ≠ []) as Hne by (destruct Hv as [? ->]; done).
  eapply wp_c_get; [done..|]. intros q1 x1 blk1 c1 Hi1 Ha1 Hs1 Hsame1.
  apply wp_c_step. intros q2 x2 Hi2 Ha2. pose proof (p_acts_trans _ _ _ _ _ _ Ha1 Ha2) as Ha.
  destruct (seen_later _ _ _ _ _ _ _ _ Ha Hi Hi2 Hs) as (blk2 & c2 & (Hd2 & Hb2 & Hp2) & []).
  destruct (c_ready_later _ _ _ _ _ _ Ha Hr). pose proof (p_block _ _ _ _ _ _ Hp2) as Hbo.
  destruct Hv as [l El]. destruct cs_elems0 as [l' El'].
  destruct (retire_front q2 x2 b blk2 c2 v (l ++ l') Hi2 Hb2 Hp2) as [Hi3 Ha3];
    [done|by rewrite cs_front0, cs_slot0|by rewrite El', El|lia|].
  eexists _, tt, _. split_and!; [|exact Hi3|exact Ha3|].
  { rewrite (p_heap _ _ _ _ _ _ Hp2), (cs_mask _ _ _ _ Hsame1), <-cs_mask0, <-cs_front0.
    by rewrite (b_front _ _ _ _ Hbo), (next_index _ _ _ _ _ Hbo). }
  intros q4 x4 Hi4 Ha4. apply Hk; [done|]. eapply c_ready_later; [exact Ha4|].
  constructor; cbn; congruence.
Qed.

(** The label [non_empty_front_block]. *)
Lemma wp_dequeue_from b blk c ds Q q x :
  inv q x → c_ready false ds q x → seen_at 0 b blk c q x → c_f c < c_lt c →
  (∀ v q1 x1, inv q1 x1 → took ds v q1 x1 → Q (Some v) q1 x1) →
  wp inv acts never false (dequeue_from b (front blk)) Q q x.
Proof.
  intros Hi Hr Hs Hlt Hk. apply wp_c_step. intros q1 x1 Hi1 Ha1.
  destruct (seen_later _ _ _ _ _ _ _ _ Ha1 Hi Hi1 Hs) as (blk1 & c1 & Hs1 & []).
  pose proof Hs1 as (_ & _ & Hp1). pose proof (c_ready_later _ _ _ _ _ _ Ha1 Hr) as Hr1.
  pose proof (p_block _ _ _ _ _ _ Hp1) as Hbo. pose proof (b_order _ _ _ _ Hbo). pose proof (b_count _ _ _ _ Hbo).
  destruct (elems c1) as [|v vs] eqn:Ev; [cbn in *; lia|].
  exists q1, v, x1. split_and!; [|done|by apply (acts_refl false)|].
  { rewrite (p_heap _ _ _ _ _ _ Hp1), <-cs_front0. rewrite (cr_taken _ _ _ _ Hr1) in Hbo.
    by rewrite (front_slot_full _ _ _ v vs Hbo). }
  rewrite <-cs_front0. eapply wp_destroy; [done..|by rewrite Ev|].
  intros q2 x2 blk2 c2 Hi2 Hr2 Hs2 Ef Ecf Eclt Hpre Hno. rewrite <-Ef.
  eapply (wp_retire b blk2 c2 v ds); [done..| |lia|done|by intros; apply Hk].
  etrans; [|exact Hpre]. rewrite Ev. by exists vs.
Qed.

Lemma wp_pop_from b blk c ds Q q x :
  inv q x → c_ready false ds q x → seen_at 0 b blk c q x → c_f c < c_lt c →
  (∀ v q1 x1, inv q1 x1 → took ds v q1 x1 → Q true q1 x1) →
  wp inv acts never false (pop_from b (front blk)) Q q x.
Proof.
  intros Hi Hr Hs Hlt Hk. pose proof Hs as (_ & _ & Hp). pose proof (p_block _ _ _ _ _ _ Hp) as Hbo.
  pose proof (b_order _ _ _ _ Hbo). pose proof (b_count _ _ _ _ Hbo).
  destruct (elems c) as [|v vs] eqn:Ev; [cbn in *; lia|].
  eapply wp_destroy; [done..|by rewrite Ev|].
  intros q2 x2 blk2 c2 Hi2 Hr2 Hs2 Ef Ecf Eclt Hpre Hno. rewrite <-Ef.
  eapply (wp_retire b blk2 c2 v ds); [done..| |lia|done|by intros; eapply Hk].
  etrans; [|exact Hpre]. rewrite Ev. by exists vs.
Qed.

(** ** Looking at the front block *)

Lemma kept_true : kept (λ _ _, True).
Proof. by split. Qed.

Lemma elems_empty blk c tk pl : block_ok blk c tk pl → elems c = [] ↔ c_f c = c_t c.
Proof. intros H. pose proof (b_count _ _ _ _ H). destruct (elems c); cbn in *; split; (done || lia). Qed.

(** An empty front block that is the tail block: the queue is empty. *)
Lemma empty_front b blk c ds st q x : inv q x → seen_at 0 b blk c q x → c_ready false ds q x →
  offered st q x → elems c = [] → ahead q x ∨ st `prefix_of` ds.
Proof.
  intros Hi (_ & Hb & Hp) [] Ho He. destruct (decide (tpos x = 0%nat)) as [E|E]; [right|left; unfold ahead; lia].
  unfold offered in Ho. rewrite (i_history _ _ Hi), (live_first x b Hb), E in Ho.
  rewrite (elems_of_cnt _ _ c), He, take_0 in Ho by apply Hp. cbn in Ho. rewrite app_nil_r in Ho. congruence.
Qed.

Definition looked b blk ds st (found : bool) q x : Prop :=
  c_ready false ds q x ∧ ∃ blk1 c1, seen_at 0 b blk1 c1 q x ∧ front blk1 = front blk ∧
    if found then c_f c1 < c_lt c1 else ahead q x ∨ st `prefix_of` ds.

Lemma looked_unharmed b blk ds st r : unharmed inv acts false (looked b blk ds st r).
Proof.
  intros q x q1 x1 Hi Hi1 Ha (Hr & blk1 & c1 & Hs & Ef & Hc). cbn in Ha.
  destruct (seen_later _ _ _ _ _ _ _ _ Ha Hi Hi1 Hs) as (blk2 & c2 & Hs2 & []).
  split; [by eapply c_ready_later|]. exists blk2, c2. split_and!; [done|congruence|].
  destruct r; [lia|]. eapply (k_producer _ (kept_or _ _ kept_ahead)); [exact Hi|done..].
Qed.

Lemma wp_front_has_element b blk c ds st q x :
  inv q x → c_ready false ds q x → offered st q x → seen_at 0 b blk c q x →
  wp inv acts never false (front_has_element b (front blk) (localTail blk)) (looked b blk ds st) q x.
Proof.
  intros Hi Hr Ho Hs. pose proof Hs as (_ & _ & Hp). unfold front_has_element.
  case_bool_decide as Hne; pose proof (p_block _ _ _ _ _ _ Hp) as Hbo; pose proof (b_order _ _ _ _ Hbo).
  - apply wp_ret; [done|apply looked_unharmed|]. split; [done|]. exists blk, c. split_and!; [done..|].
    rewrite (b_front _ _ _ _ Hbo), (b_localTail _ _ _ _ Hbo) in Hne.
    destruct (decide (c_f c = c_lt c)) as [E|E]; [by rewrite E in Hne|lia].
  - eapply wp_c_get; [done..|]. intros q1 x1 blk1 c1 Hi1 Ha1 Hs1 Hsame1. pose proof Hs1 as (_ & _ & Hp1).
    pose proof (c_ready_later _ _ _ _ _ _ Ha1 Hr) as Hr1.
    pose proof (k_producer _ (kept_offered st) _ _ _ _ Hi Hi1 Ha1 Ho) as Ho1.
    pose proof (p_block _ _ _ _ _ _ Hp1) as Hbo1. pose proof (b_order _ _ _ _ Hbo1).
    pose proof (elems_empty _ _ _ _ Hbo1) as He. rewrite <-(cs_front _ _ _ _ Hsame1).
    destruct (decide (elems c1 = [])) as [E|E].
    + pose proof (empty_front _ _ _ _ _ _ _ Hi1 Hs1 Hr1 Ho1 E) as HK.
      rewrite (b_tail _ _ _ _ Hbo1).
      eapply (wp_put_localTail _ 0 b blk1 c1); [apply (kept_or (st `prefix_of` ds) _ kept_ahead)|done..|lia|].
      intros q2 x2 blk2 c2 Hi2 Hr2 HK2 Hs2 Ef2 _ _ _. apply wp_ret; [done|apply looked_unharmed|].
      split; [done|]. exists blk2, c2. split_and!; [done|by rewrite Ef2, (cs_front _ _ _ _ Hsame1)|].
      rewrite bool_decide_eq_false_2; [done|]. rewrite (b_front _ _ _ _ Hbo1).
      apply He in E. rewrite E. by intros [].
    + pose proof (front_tail_differ _ _ _ _ Hbo1 E) as Hd.
      assert (c_f c1 < c_t c1) by (assert (c_f c1 ≠ c_t c1) by tauto; lia).
      rewrite (b_tail _ _ _ _ Hbo1) in Hd |- *.
      eapply (wp_put_localTail _ 0 b blk1 c1); [apply kept_true|done..|lia|].
      intros q2 x2 blk2 c2 Hi2 Hr2 _ Hs2 Ef2 Ecf2 Elt2 _. apply wp_ret; [done|apply looked_unharmed|].
      split; [done|]. exists blk2, c2. split_and!; [done|by rewrite Ef2, (cs_front _ _ _ _ Hsame1)|].
      rewrite bool_decide_eq_true_2 by done. lia.
Qed.

(** ** Moving to the next block *)

Lemma wp_advance {A} b n ds (k : unit → prog (Queue T) A) blk c Q q x :
  inv q x → c_ready false ds q x → drained q x → b = frontBlock q → seen_at 1 n blk c q x → c_f c < c_lt c →
  (∀ q1 x1 blk1 c1, inv q1 x1 → c_ready false ds q1 x1 → seen_at 0 n blk1 c1 q1 x1 →
    front blk1 = front blk → c_f c1 < c_lt c1 → wp inv acts never false (k tt) Q q1 x1) →
  wp inv acts never false (store (set_frontBlock n) ≫= k) Q q x.
Proof.
  intros Hi Hr Hdr -> Hs Hlt Hk q1 x1 Hi1 Ha1. cbn in Ha1.
  destruct (seen_later _ _ _ _ _ _ _ _ Ha1 Hi Hi1 Hs) as (blk1 & c1 & (Hd1 & Hb1 & Hp1) & []).
  pose proof (c_ready_later _ _ _ _ _ _ Ha1 Hr) as Hr1.
  destruct (k_producer _ kept_drained _ _ _ _ Hi Hi1 Ha1 Hdr) as [Hpos He].
  pose proof (i_front _ _ Hi1) as Hf. destruct (ring x1) as [|b rest] eqn:Er; [done|].
  cbn in Hf, Hb1. injection Hf as ->.
  destruct (advance_front q1 x1 (frontBlock q1) n rest Hi1 Er Hpos Hb1 (cr_taken _ _ _ _ Hr1) He) as [Hi2 Ha2].
  eexists _, tt, _. split_and!; [done|exact Hi2|exact Ha2|]. destruct Hr1.
  apply (Hk _ _ blk1 c1); [exact Hi2|by constructor| |done|lia].
  apply seen_at_intro; [exact Hi2|by left| |apply Hp1|apply Hp1].
  cbn. rewrite lookup_app_l; [done|]. by eapply lookup_lt_Some.
Qed.

(** What the three operations have in common: [found] is called with the front block and the index of its
    first element, [move] when the front block is empty and another one is ahead. *)
Definition find_front {A} (found : ptr → Z → prog (Queue T) A) (move : ptr → prog (Queue T) A) (none : A)
    : prog (Queue T) A :=
  frontBlock_ ← load frontBlock;
  blockTail ← get frontBlock_ localTail;
  blockFront ← get frontBlock_ front;
  has ← front_has_element frontBlock_ blockFront blockTail;
  if (has : bool) then found frontBlock_ blockFront
  else
    tl ← load tailBlock;
    if bool_decide (frontBlock_ ≠ tl) then
      frontBlock_ ← load frontBlock;
      blockTail ← get frontBlock_ tail;
      put frontBlock_ (set_localTail blockTail) ;;
      blockFront ← get frontBlock_ front;
      if bool_decide (blockFront ≠ blockTail) then found frontBlock_ blockFront else move frontBlock_
    else mret none.

(** [try_dequeue] and [pop] advance to the next block. *)
Definition move_on {A} (found : ptr → Z → prog (Queue T) A) (frontBlock_ : ptr) : prog (Queue T) A :=
  nextBlock ← get frontBlock_ next;
  nextBlockFront ← get nextBlock front;
  nextBlockTail ← get nextBlock tail;
  put nextBlock (set_localTail nextBlockTail) ;;
  assert (negb (nextBlockFront =? nextBlockTail)) "nextBlockFront != nextBlockTail" ;;
  store (set_frontBlock nextBlock) ;;
  found nextBlock nextBlockFront.

(** [peek] only looks at it. *)
Definition look_on (frontBlock_ : ptr) : prog (Queue T) (option (ptr * Z)) :=
  nextBlock ← get frontBlock_ next;
  nextBlockFront ← get nextBlock front;
  t ← get nextBlock tail;
  assert (negb (nextBlockFront =? t)) "nextBlockFront != nextBlock->tail.load()" ;;
  mret (Some (nextBlock, nextBlockFront)).

Lemma try_dequeue_find : try_dequeue_ = find_front dequeue_from (move_on dequeue_from) None.
Proof. reflexivity. Qed.
Lemma pop_find : pop_ (T := T) = find_front pop_from (move_on pop_from) false.
Proof. reflexivity. Qed.
Lemma peek_find : peek_ (T := T) = find_front (λ b i, mret (Some (b, i))) look_on None.
Proof. reflexivity. Qed.

(** The successor of a front block that is not the tail block. *)
Lemma front_next b blk c q x : inv q x → ahead q x → seen_at 0 b blk c q x →
  ∃ nblk nc, seen_at 1 (next blk) nblk nc q x ∧ elems nc ≠ [].
Proof.
  intros Hi Ha (_ & Hb & Hp). unfold ahead in Ha. pose proof (lookup_lt_Some _ _ _ (i_tail _ _ Hi)).
  pose proof (p_next _ _ _ _ _ _ Hp) as Hn. rewrite Nat.mod_small in Hn by lia.
  destruct (i_place _ _ Hi _ _ Hn) as (nblk & nc & Hp1). exists nblk, nc.
  split; [split_and!; [by right|done..]|]. apply (p_between _ _ _ _ _ _ Hp1). lia.
Qed.

(** The front block is drained and another block is ahead. *)
Lemma wp_move_on {A} b blk c ds (found : ptr → Z → prog (Queue T) A) Q q x :
  inv q x → c_ready false ds q x → drained q x → b = frontBlock q → seen_at 0 b blk c q x →
  (∀ b' blk' c' q1 x1, inv q1 x1 → c_ready false ds q1 x1 → seen_at 0 b' blk' c' q1 x1 → c_f c' < c_lt c' →
    wp inv acts never false (found b' (front blk')) Q q1 x1) →
  wp inv acts never false (move_on found b) Q q x.
Proof.
  intros Hi Hr Hdr Eb Hs Hk. eapply wp_c_get; [done..|]. intros q1 x1 blk1 c1 Hi1 Ha1 Hs1 _.
  pose proof (c_ready_later _ _ _ _ _ _ Ha1 Hr) as Hr1.
  pose proof (k_producer _ kept_drained _ _ _ _ Hi Hi1 Ha1 Hdr) as Hdr1.
  destruct (front_next _ _ _ _ _ Hi1 (proj1 Hdr1) Hs1) as (nblk & nc & Hn1 & Hne1).
  eapply wp_c_get; [done..|]. intros q2 x2 blk2 c2 Hi2 Ha2 Hn2 Hsame2.
  eapply wp_c_get; [done..|]. intros q3 x3 blk3 c3 Hi3 Ha3 Hn3 Hsame3.
  pose proof (p_acts_trans _ _ _ _ _ _ Ha2 Ha3) as Ha13.
  pose proof (c_ready_later _ _ _ _ _ _ Ha13 Hr1) as Hr3.
  pose proof (k_producer _ kept_drained _ _ _ _ Hi1 Hi3 Ha13 Hdr1) as Hdr3.
  pose proof Hn3 as (_ & _ & Hp3). pose proof (p_block _ _ _ _ _ _ Hp3) as Hbo3.
  assert (elems c3 ≠ []) as Hne3.
  { destruct (cs_elems _ _ _ _ Hsame2) as [l2 El2], (cs_elems _ _ _ _ Hsame3) as [l3 El3].
    rewrite El3, El2. destruct (elems nc); done. }
  pose proof (front_tail_differ _ _ _ _ Hbo3 Hne3) as Hd. pose proof (b_order _ _ _ _ Hbo3).
  assert (c_f c3 ≠ c_t c3) by (by rewrite <-(elems_empty _ _ _ _ Hbo3)).
  rewrite <-(cs_front _ _ _ _ Hsame3). apply Z.eqb_neq in Hd. rewrite Hd. cbn [negb assert].
  rewrite (b_tail _ _ _ _ Hbo3). eapply (wp_put_localTail _ 1 _ blk3 c3); [apply kept_drained|done..|lia|].
  intros q4 x4 blk4 c4 Hi4 Hr4 Hdr4 Hn4 Ef4 Ecf4 Elt4 _.
  eapply wp_advance; [done..|lia|]. intros q5 x5 blk5 c5 Hi5 Hr5 Hs5 Ef5 Hlt5.
  rewrite <-Ef4, <-Ef5. by eapply Hk.
Qed.

(** The second look, after the tail block turned out to be another one. *)
Lemma wp_second_look {A} ds (found : ptr → Z → prog (Queue T) A) move Q q x :
  inv q x → c_ready false ds q x → ahead q x →
  (∀ b' blk' c' q1 x1, inv q1 x1 → c_ready false ds q1 x1 → seen_at 0 b' blk' c' q1 x1 → c_f c' < c_lt c' →
    wp inv acts never false (found b' (front blk')) Q q1 x1) →
  (∀ b' blk' c' q1 x1, inv q1 x1 → c_ready false ds q1 x1 → drained q1 x1 → b' = frontBlock q1 →
    seen_at 0 b' blk' c' q1 x1 → wp inv acts never false (move b') Q q1 x1) →
  wp inv acts never false
    (frontBlock_ ← load frontBlock;
     blockTail ← get frontBlock_ tail;
     put frontBlock_ (set_localTail blockTail) ;;
     blockFront ← get frontBlock_ front;
     if bool_decide (blockFront ≠ blockTail) then found frontBlock_ blockFront else move frontBlock_) Q q x.
Proof.
  intros Hi Hr Hah Hk Hm. apply wp_c_load. intros q1 x1 Hi1 Ha1.
  destruct (seen_front _ _ Hi1) as (blk1 & c1 & Hs1). pose proof (c_ready_later _ _ _ _ _ _ Ha1 Hr) as Hr1.
  pose proof (k_producer _ kept_ahead _ _ _ _ Hi Hi1 Ha1 Hah) as Hah1.
  eapply wp_c_get; [done..|]. intros q2 x2 blk2 c2 Hi2 Ha2 Hs2 Hsame2.
  pose proof (c_ready_later _ _ _ _ _ _ Ha2 Hr1) as Hr2.
  pose proof (k_producer _ kept_ahead _ _ _ _ Hi1 Hi2 Ha2 Hah1) as Hah2.
  pose proof Hs2 as (_ & Hb2 & Hp2). pose proof (p_block _ _ _ _ _ _ Hp2) as Hbo2. pose proof (b_order _ _ _ _ Hbo2).
  pose proof (elems_empty _ _ _ _ Hbo2) as He2. rewrite (b_tail _ _ _ _ Hbo2).
  assert (frontBlock q2 = frontBlock q1) as Efb by apply Ha2.
  destruct (decide (elems c2 = [])) as [E|E].
  - assert (drained q2 x2) as Hdr2.
    { split; [done|]. rewrite Efb, (elems_of_cnt _ _ c2); [done|apply Hp2]. }
    eapply (wp_put_localTail (λ q x, drained q x ∧ frontBlock q = frontBlock q1) 0 _ blk2 c2);
      [apply kept_and; [apply kept_drained|apply kept_frontBlock]|done|done|done|done|lia|].
    intros q3 x3 blk3 c3 Hi3 Hr3 [Hdr3 Ef3] Hs3 Efr3 _ _ _.
    eapply wp_c_get; [done..|]. intros q4 x4 blk4 c4 Hi4 Ha4 Hs4 Hsame4.
    rewrite bool_decide_eq_false_2.
    + eapply Hm; [done|by eapply c_ready_later|exact (k_producer _ kept_drained _ _ _ _ Hi3 Hi4 Ha4 Hdr3)| |done].
      rewrite (pa_front _ _ _ _ Ha4). done.
    + rewrite (cs_front _ _ _ _ Hsame4), Efr3, (b_front _ _ _ _ Hbo2). apply He2 in E. rewrite E. by intros [].
  - pose proof (front_tail_differ _ _ _ _ Hbo2 E) as Hd. assert (c_f c2 ≠ c_t c2) by tauto.
    eapply (wp_put_localTail _ 0 _ blk2 c2); [apply kept_true|done..|lia|].
    intros q3 x3 blk3 c3 Hi3 Hr3 _ Hs3 Efr3 Ecf3 Elt3 _.
    eapply wp_c_get; [done..|]. intros q4 x4 blk4 c4 Hi4 Ha4 Hs4 [].
    rewrite bool_decide_eq_true_2.
    + eapply Hk; [done|by eapply c_ready_later|done|lia].
    + by rewrite cs_front0, Efr3, <-(b_tail _ _ _ _ Hbo2).
Qed.

Lemma wp_find_front {A} ds st (found : ptr → Z → prog (Queue T) A) move (none : A) Q q x :
  inv q x → c_ready false ds q x → offered st q x →
  (∀ b' blk' c' q1 x1, inv q1 x1 → c_ready false ds q1 x1 → seen_at 0 b' blk' c' q1 x1 → c_f c' < c_lt c' →
    wp inv acts never false (found b' (front blk')) Q q1 x1) →
  (∀ b' blk' c' q1 x1, inv q1 x1 → c_ready false ds q1 x1 → drained q1 x1 → b' = frontBlock q1 →
    seen_at 0 b' blk' c' q1 x1 → wp inv acts never false (move b') Q q1 x1) →
  (∀ q1 x1, inv q1 x1 → c_ready false ds q1 x1 → st `prefix_of` ds → Q none q1 x1) →
  wp inv acts never false (find_front found move none) Q q x.
Proof.
  intros Hi Hr Ho Hk Hm Hn. apply wp_c_load. intros q1 x1 Hi1 Ha1.
  destruct (seen_front _ _ Hi1) as (blk1 & c1 & Hs1). set (b := frontBlock q1) in *.
  eapply wp_c_get; [done..|]. intros q2 x2 blk2 c2 Hi2 Ha2 Hs2 Hsame2.
  eapply wp_c_get; [done..|]. intros q3 x3 blk3 c3 Hi3 Ha3 Hs3 Hsame3.
  pose proof (p_acts_trans _ _ _ _ _ _ Ha1 (p_acts_trans _ _ _ _ _ _ Ha2 Ha3)) as Ha.
  pose proof (c_ready_later _ _ _ _ _ _ Ha Hr) as Hr3.
  pose proof (k_producer _ (kept_offered st) _ _ _ _ Hi Hi3 Ha Ho) as Ho3.
  rewrite <-(cs_localTail _ _ _ _ Hsame3). apply wp_bind; [apply acts_refl|].
  eapply wp_mono; [|by eapply wp_front_has_element].
  intros has q4 x4 Hi4 (Hr4 & blk4 & c4 & Hs4 & Ef4 & Hl4). cbn beta. rewrite <-Ef4. destruct has; [by eapply Hk|].
  apply wp_c_load. intros q5 x5 Hi5 Ha5. pose proof (c_ready_later _ _ _ _ _ _ Ha5 Hr4) as Hr5.
  pose proof (k_producer _ (kept_or _ _ kept_ahead) _ _ _ _ Hi4 Hi5 Ha5 Hl4) as Hl5.
  destruct (seen_later _ _ _ _ _ _ _ _ Ha5 Hi4 Hi5 Hs4) as (blk5 & c5 & (_ & Hb5 & _) & _).
  case_bool_decide as Hne.
  - apply (wp_second_look ds); [done..| |done|done]. unfold ahead. destruct (tpos x5) as [|t] eqn:Et; [|lia].
    exfalso. apply Hne. pose proof (i_tail _ _ Hi5) as Ht. rewrite Et in Ht. congruence.
  - intros q6 x6 Hi6 Ha6. cbn in Ha6. apply Hn; [done|by eapply c_ready_later|].
    destruct Hl5 as [Hah|]; [|done]. unfold ahead in Hah. exfalso.
    pose proof (i_tail _ _ Hi5) as Ht. assert (b = tailBlock q5) as Eb by (by destruct (decide (b = tailBlock q5))).
    rewrite Eb in Hb5. pose proof (NoDup_lookup _ _ _ _ (i_nodup _ _ Hi5) Hb5 Ht). lia.
Qed.

(** ** Whole operations *)

(** Between two calls of the consumer. *)
Definition c_idle (ds : list T) q x : Prop := taken x = false ∧ dequeued x = ds ∧ dequeuing q = false.

Lemma wp_consumer_call {A} ds st (body : prog (Queue T) A) (R : A → list T → Queue T → Aux T → Prop) q x :
  (∀ r ds', unharmed inv acts false (R r ds')) →
  (∀ r ds' q x, R r ds' q x → R r ds' (set_dequeuing false q) x) →
  (∀ q x, inv q x → c_ready false ds q x → offered st q x →
    wp inv acts never false body (λ r q1 x1, ∃ ds', c_ready false ds' q1 x1 ∧ R r ds' q1 x1) q x) →
  inv q x → c_idle ds q x → offered st q x →
  wp inv acts never false (reentrant dequeuing set_dequeuing body)
    (λ r q1 x1, ∃ ds', c_idle ds' q1 x1 ∧ R r ds' q1 x1) q x.
Proof.
  intros HR HR' Hbody Hi (Htk & Hds & Hdq) Ho. unfold reentrant.
  apply wp_c_load. intros q1 x1 Hi1 Ha1. rewrite (pa_dequeuing _ _ _ _ Ha1), Hdq. cbn [negb assert].
  intros q2 x2 Hi2 Ha2. cbn in Ha2. pose proof (p_acts_trans _ _ _ _ _ _ Ha1 Ha2) as Ha.
  pose proof (inv_fields q2 x2 (enqueuing q2) true (allocations q2) _ Hi2 ltac:(lia) (i_largest _ _ Hi2)) as Hi3.
  eexists _, tt, x2. split_and!; [done|exact Hi3|apply c_acts_fields|].
  apply wp_bind; [apply acts_refl|]. eapply wp_mono; [|apply Hbody; [exact Hi3|..]].
  2:{ destruct Ha. constructor; cbn; congruence. }
  2:{ unfold offered. etrans; [exact Ho|apply Ha]. }
  intros r q4 x4 Hi4 (ds' & Hr4 & HR4) q5 x5 Hi5 Ha5. cbn in Ha5.
  pose proof (c_ready_later _ _ _ _ _ _ Ha5 Hr4) as [].
  pose proof (HR r ds' _ _ _ _ Hi4 Hi5 Ha5 HR4) as HR5.
  pose proof (inv_fields q5 x5 (enqueuing q5) false (allocations q5) _ Hi5 ltac:(lia) (i_largest _ _ Hi5)) as Hi6.
  eexists _, tt, x5. split_and!; [done|exact Hi6|apply c_acts_fields|].
  intros q7 x7 Hi7 Ha7. cbn in Ha7. exists ds'. split.
  - destruct Ha7. split_and!; cbn in *; congruence.
  - eapply (HR r ds' (set_dequeuing false q5) x5); [exact Hi6|exact Hi7|exact Ha7|]. by apply HR'.
Qed.

Definition dequeued_one (ds st : list T) (r : option T) (ds' : list T) (q : Queue T) (x : Aux T) : Prop :=
  match r with Some v => ds' = ds ++ [v] | None => ds' = ds ∧ st `prefix_of` ds end.

Lemma wp_try_dequeue ds st q x : inv q x → c_idle ds q x → offered st q x →
  wp inv acts never false try_dequeue (λ r q1 x1, ∃ ds', c_idle ds' q1 x1 ∧ dequeued_one ds st r ds' q1 x1) q x.
Proof.
  apply wp_consumer_call; [by intros ???????? _|by intros|]. clear q x. intros q x Hi Hr Ho. rewrite try_dequeue_find.
  assert (∀ b blk c q1 x1, inv q1 x1 → c_ready false ds q1 x1 → seen_at 0 b blk c q1 x1 → c_f c < c_lt c →
    wp inv acts never false (dequeue_from b (front blk))
      (λ r q1 x1, ∃ ds', c_ready false ds' q1 x1 ∧ dequeued_one ds st r ds' q1 x1) q1 x1) as Hf.
  { intros b blk c q1 x1 Hi1 Hr1 Hs Hlt. eapply wp_dequeue_from; [done..|]. intros v q2 x2 _ Ht. by exists (ds ++ [v]). }
  eapply wp_find_front; [done|done|done|done| |].
  - intros b blk c q1 x1 Hi1 Hr1 Hdr Eb Hs. by eapply wp_move_on.
  - intros q1 x1 _ Hr1 Hp. by exists ds.
Qed.

Definition popped_one (ds st : list T) (r : bool) (ds' : list T) (q : Queue T) (x : Aux T) : Prop :=
  if r then ∃ v, ds' = ds ++ [v] else ds' = ds ∧ st `prefix_of` ds.

Lemma wp_pop ds st q x : inv q x → c_idle ds q x → offered st q x →
  wp inv acts never false pop (λ r q1 x1, ∃ ds', c_idle ds' q1 x1 ∧ popped_one ds st r ds' q1 x1) q x.
Proof.
  apply wp_consumer_call; [by intros ???????? _|by intros|]. clear q x. intros q x Hi Hr Ho. rewrite pop_find.
  assert (∀ b blk c q1 x1, inv q1 x1 → c_ready false ds q1 x1 → seen_at 0 b blk c q1 x1 → c_f c < c_lt c →
    wp inv acts never false (pop_from b (front blk))
      (λ r q1 x1, ∃ ds', c_ready false ds' q1 x1 ∧ popped_one ds st r ds' q1 x1) q1 x1) as Hf.
  { intros b blk c q1 x1 Hi1 Hr1 Hs Hlt. eapply wp_pop_from; [done..|].
    intros v q2 x2 _ Ht. exists (ds ++ [v]). split; [done|]. by exists v. }
  eapply wp_find_front; [done|done|done|done| |].
  - intros b blk c q1 x1 Hi1 Hr1 Hdr Eb Hs. by eapply wp_move_on.
  - intros q1 x1 _ Hr1 Hp. by exists ds.
Qed.

(** A pointer to the first element. *)
Definition points (p : ptr * Z) q x : Prop :=
  ∃ i blk c, seen_at i p.1 blk c q x ∧ p.2 = front blk ∧ elems c ≠ [] ∧ (i = 1%nat → drained q x).

Lemma points_unharmed p : unharmed inv acts false (points p).
Proof.
  intros q x q1 x1 Hi Hi1 Ha (i & blk & c & Hs & Ep & Hne & Hd). cbn in Ha.
  destruct (seen_later _ _ _ _ _ _ _ _ Ha Hi Hi1 Hs) as (blk1 & c1 & Hs1 & []).
  exists i, blk1, c1. split_and!; [done|congruence| |].
  - destruct cs_elems0 as [l ->]. by destruct (elems c).
  - intros E. exact (k_producer _ kept_drained _ _ _ _ Hi Hi1 Ha (Hd E)).
Qed.

(** The object behind it is the next one to be dequeued. *)
Lemma points_value p ds q x : inv q x → taken x = false → dequeued x = ds → points p q x →
  ∃ v, (∃ blk, heap q !! p.1 = Some blk ∧ slots blk !! p.2 = Some v) ∧ ds ++ [v] `prefix_of` enqueued x.
Proof.
  intros Hi Htk Hds (i & blk & c & (Hd & Hb & Hp) & -> & Hne & Hdr).
  pose proof (p_block _ _ _ _ _ _ Hp) as Hbo. rewrite Htk, andb_false_r in Hbo.
  destruct (elems c) as [|v vs] eqn:Ev; [done|]. exists v.
  split; [exists blk; split; [apply Hp|by eapply front_slot_full]|].
  rewrite (i_history _ _ Hi), Hds. apply prefix_app.
  pose proof (elems_of_cnt _ _ _ (p_cnt _ _ _ _ _ _ Hp)) as He. rewrite Ev in He.
  destruct Hd as [->|[-> Hpos]].
  - rewrite (live_first x _ Hb), He. cbn. apply prefix_cons, prefix_nil.
  - destruct (Hdr eq_refl) as [_ Hdr']. rewrite (live_first x _ (i_front _ _ Hi)), Hdr'. cbn [app].
    destruct (ring x) as [|b0 [|b1 rest]]; [done..|]. cbn in Hb. injection Hb as ->. cbn [drop].
    destruct (tpos x) as [|t]; [lia|]. cbn. rewrite He. cbn. apply prefix_cons, prefix_nil.
Qed.

Definition peeked (ds st : list T) (r : option (ptr * Z)) (ds' : list T) q x : Prop :=
  ds' = ds ∧ match r with Some p => points p q x | None => st `prefix_of` ds end.

Lemma peeked_unharmed ds st r ds' : unharmed inv acts false (peeked ds st r ds').
Proof.
  intros q x q1 x1 Hi Hi1 Ha [-> Hp]. split; [done|]. destruct r; [|done].
  exact (points_unharmed _ _ _ _ _ Hi Hi1 Ha Hp).
Qed.

(** The end of [peek] when the front block is drained. *)
Lemma wp_look_on b blk c ds st q x :
  inv q x → c_ready false ds q x → drained q x → seen_at 0 b blk c q x →
  wp inv acts never false (look_on b)
    (λ r q1 x1, ∃ ds', c_ready false ds' q1 x1 ∧ peeked ds st r ds' q1 x1) q x.
Proof.
  intros Hi Hr Hdr Hs. eapply wp_c_get; [done..|]. intros q1 x1 blk1 c1 Hi1 Ha1 Hs1 _.
  pose proof (k_producer _ kept_drained _ _ _ _ Hi Hi1 Ha1 Hdr) as Hdr1.
  destruct (front_next _ _ _ _ _ Hi1 (proj1 Hdr1) Hs1) as (nblk & nc & Hn1 & Hne1).
  eapply wp_c_get; [done..|]. intros q2 x2 blk2 c2 Hi2 Ha2 Hn2 Hsame2.
  eapply wp_c_get; [done..|]. intros q3 x3 blk3 c3 Hi3 Ha3 Hn3 Hsame3.
  pose proof (p_acts_trans _ _ _ _ _ _ Ha2 Ha3) as Ha13.
  pose proof (c_ready_later _ _ _ _ _ _ (p_acts_trans _ _ _ _ _ _ Ha1 Ha13) Hr) as Hr3.
  pose proof (k_producer _ kept_drained _ _ _ _ Hi1 Hi3 Ha13 Hdr1) as Hdr3.
  pose proof Hn3 as (_ & _ & Hp3). pose proof (p_block _ _ _ _ _ _ Hp3) as Hbo3.
  assert (elems c3 ≠ []) as Hne3.
  { destruct (cs_elems _ _ _ _ Hsame2) as [l2 El2], (cs_elems _ _ _ _ Hsame3) as [l3 El3].
    rewrite El3, El2. destruct (elems nc); done. }
  pose proof (front_tail_differ _ _ _ _ Hbo3 Hne3) as Hd. rewrite <-(cs_front _ _ _ _ Hsame3).
  apply Z.eqb_neq in Hd. rewrite Hd. cbn [negb assert]. intros q4 x4 Hi4 Ha4. cbn in Ha4.
  exists ds. split; [by eapply c_ready_later|].
  eapply (peeked_unharmed ds st (Some (_, _)) ds); [exact Hi3|exact Hi4|exact Ha4|]. split; [done|].
  by exists 1%nat, blk3, c3.
Qed.

Lemma points_front b blk c q x : seen_at 0 b blk c q x → c_f c < c_lt c → points (b, front blk) q x.
Proof.
  intros Hs Hlt. exists 0%nat, blk, c. split_and!; [done..| |done]. pose proof Hs as (_ & _ & Hp).
  pose proof (p_block _ _ _ _ _ _ Hp) as Hbo. pose proof (b_order _ _ _ _ Hbo).
  rewrite (elems_empty _ _ _ _ Hbo). lia.
Qed.

Lemma wp_peek_found b blk c ds st q x : inv q x → c_ready false ds q x → seen_at 0 b blk c q x → c_f c < c_lt c →
  wp inv acts never false (mret (Some (b, front blk)))
    (λ r q1 x1, ∃ ds', c_ready false ds' q1 x1 ∧ peeked ds st r ds' q1 x1) q x.
Proof.
  intros Hi Hr Hs Hlt q1 x1 Hi1 Ha1. cbn in Ha1. exists ds. split; [by eapply c_ready_later|].
  eapply (peeked_unharmed ds st (Some (_, _)) ds); [exact Hi|exact Hi1|exact Ha1|]. split; [done|].
  by eapply points_front.
Qed.

Lemma wp_peek ds st q x : inv q x → c_idle ds q x → offered st q x →
  wp inv acts never false peek (λ r q1 x1, ∃ ds', c_idle ds' q1 x1 ∧ peeked ds st r ds' q1 x1) q x.
Proof.
  apply wp_consumer_call; [apply peeked_unharmed| |].
  - intros r ds' q1 x1 [-> Hp]. split; [done|]. destruct r as [p|]; [|done].
    destruct Hp as (i & blk & c & (Hd & Hb & []) & ? & ? & ?). exists i, blk, c. by split_and!.
  - clear q x. intros q x Hi Hr Ho. rewrite peek_find. eapply wp_find_front; [done|done|done| | |].
    + intros. by eapply wp_peek_found.
    + intros. by eapply wp_look_on.
    + intros q1 x1 _ Hr1 Hp. by exists ds.
Qed.

(** [peek], and the object it points to. *)
Definition peek_value : prog (Queue T) (option T) :=
  p ← peek;
  match p with
  | Some (b, i) => v ← read b i; mret (Some v)
  | None => mret None
  end.

Lemma wp_peek_value ds st q x : inv q x → c_idle ds q x → offered st q x →
  wp inv acts never false peek_value (λ r q1 x1, c_idle ds q1 x1 ∧
    match r with Some v => ds ++ [v] `prefix_of` enqueued x1 | None => st `prefix_of` ds end) q x.
Proof.
  intros Hi Hid Ho. apply wp_bind; [apply acts_refl|]. eapply wp_mono; [|by eapply wp_peek].
  intros r q1 x1 Hi1 (ds' & Hid1 & [-> Hp]). destruct r as [[b i]|].
  - intros q2 x2 Hi2 Ha2. cbn in Ha2. pose proof (points_unharmed _ _ _ _ _ Hi1 Hi2 Ha2 Hp) as Hp2.
    destruct Hid1 as (Htk & Hds & Hdq). destruct (points_value (b, i) ds _ _ Hi2)
      as (v & (blk & Hh & Hsl) & Hpre); [by rewrite (pa_taken _ _ _ _ Ha2)|by rewrite (pa_dequeued _ _ _ _ Ha2)|done|].
    cbn in Hh, Hsl. exists q2, v, x2. rewrite Hh, Hsl. split_and!; [done..|by apply (acts_refl false)|].
    intros q3 x3 Hi3 Ha3. cbn in Ha3. split.
    + destruct Ha2, Ha3. split_and!; congruence.
    + etrans; [exact Hpre|apply Ha3].
  - intros q2 x2 Hi2 Ha2. cbn in Ha2. split; [|done]. destruct Hid1 as (? & ? & ?), Ha2. split_and!; congruence.
Qed.

End Consumer.
End QueueConsumer.
