(* ===== verification/QueueSpec.v ===== *)
(** * What the queue between two threads promises

    The interleavings of a producer and a consumer of ReaderWriterQueue.v, as configurations of Atomics.v: no
    interleaving faults, and the values come out in the order in which they went in, none lost and none twice. *)
From S2P Require Import Prelude Atomics ReaderWriterQueue QueueProtocol QueueConsumer.

Module QueueSpec.
Import Atomics ReaderWriterQueue QueueProtocol QueueConsumer.

(** ** Wait-freedom *)

(** The accesses of a program, counted branch by branch. *)
Ltac count_accesses :=
  repeat (cbn; intros; try exact I; match goal with
          | |- context [assert ?b _] => destruct b
          | |- context [if ?b then _ else _] => destruct b
          | |- context [match ?c with CanAlloc => _ | CannotAlloc => _ end] => destruct c
          | |- context [match ?o with Some _ => _ | None => _ end] => destruct o
          | |- _ => idtac
          end).

Section Spec.
Context {T : Type} (MAX_BLOCK_SIZE : Z) (lay : layout) (malloc : nat → Z → Z).

Inductive call : Type :=
  | Enqueue (canAlloc : AllocationMode) (v : T)
  | TryDequeue
  | Peek
  | Pop.

Inductive answer : Type :=
  | Bool (b : bool)
  | Value (o : option T).

Definition operation (c : call) : prog (Queue T) answer :=
  match c with
  | Enqueue canAlloc v => r ← inner_enqueue MAX_BLOCK_SIZE lay malloc canAlloc v; mret (Bool r)
  | TryDequeue => r ← try_dequeue; mret (Value r)
  | Peek => r ← peek_value; mret (Value r)
  | Pop => r ← pop; mret (Bool r)
  end.

(** No call takes more accesses. *)
Definition longest_call : nat := 24.

Lemma enqueue_bounded canAlloc (v : T) : bounded longest_call (inner_enqueue MAX_BLOCK_SIZE lay malloc canAlloc v).
Proof. unfold longest_call, inner_enqueue, inner_enqueue_, reentrant. count_accesses. Qed.
Lemma try_dequeue_bounded : bounded (S := Queue T) longest_call try_dequeue.
Proof. unfold longest_call, try_dequeue, try_dequeue_, front_has_element, reentrant. count_accesses. Qed.
Lemma pop_bounded : bounded (S := Queue T) longest_call pop.
Proof. unfold longest_call, pop, pop_, front_has_element, reentrant. count_accesses. Qed.
Lemma peek_value_bounded : bounded (S := Queue T) longest_call peek_value.
Proof. unfold longest_call, peek_value, peek, peek_, front_has_element, reentrant. count_accesses. Qed.

Lemma operation_bounded c : bounded longest_call (operation c).
Proof.
  destruct c as [ca v| | |]; rewrite <-(Nat.add_0_r longest_call); (apply bounded_bind; [|done]).
  - apply enqueue_bounded.
  - apply try_dequeue_bounded.
  - apply peek_value_bounded.
  - apply pop_bounded.
Qed.

(** The calls of each of the threads. *)
Definition allowed (who : bool) (c : call) : Prop :=
  match c with Enqueue _ _ => who = true | _ => who = false end.

(** ** What the log says *)

(** The value of an enqueue that returned [true]. *)
Definition sent_by (e : event call answer) : option T :=
  match e with Returned true (Enqueue _ v) (Bool true) => Some v | _ => None end.
(** The value of a dequeue, [Some None] for [pop], which does not return it. *)
Definition received_by (e : event call answer) : option (option T) :=
  match e with
  | Returned false TryDequeue (Value (Some v)) => Some (Some v)
  | Returned false Pop (Bool true) => Some None
  | _ => None
  end.

Definition sent (l : list (event call answer)) : list T := omap sent_by l.
Definition received (l : list (event call answer)) : list (option T) := omap received_by l.

Definition matches (os : list (option T)) (vs : list T) : Prop :=
  Forall2 (λ o v, o = None ∨ o = Some v) os vs.

(** The answers that say that the queue is empty. *)
Definition says_empty (c : call) (r : answer) : Prop :=
  match c, r with
  | TryDequeue, Value None | Peek, Value None | Pop, Bool false => True
  | _, _ => False
  end.

(** Every such answer is right: all that had been sent when the call was made had been received.  Every
    value of [peek] is the one to be received next. *)
Definition answers_right (accepted : list T) (l : list (event call answer)) : Prop :=
  ∀ l1 c l2 r l3, l = l1 ++ Called false c :: l2 ++ Returned false c r :: l3 →
    Forall (λ e, by_whom e = true) l2 →
    (says_empty c r → (length (sent l1) ≤ length (received l1))%nat) ∧
    (∀ v, c = Peek → r = Value (Some v) → accepted !! length (received l1) = Some v).

(** A failed enqueue was not allowed to allocate, or there was no memory. *)
Definition refusals_right (l : list (event call answer)) : Prop :=
  ∀ canAlloc v, Returned true (Enqueue canAlloc v) (Bool false) ∈ l → refused lay malloc canAlloc.

(** ** The protocol *)

Definition global (l : list (event call answer)) (q : Queue T) (x : Aux T) : Prop :=
  sent l `prefix_of` enqueued x ∧ (∃ ds, matches (received l) ds ∧ ds `prefix_of` dequeued x) ∧
  answers_right (enqueued x) l ∧ refusals_right l.

Definition idle (who : bool) (l : list (event call answer)) (q : Queue T) (x : Aux T) : Prop :=
  if who then p_idle_ (sent l) q x else ∃ ds, matches (received l) ds ∧ c_idle ds q x.

Definition post (who : bool) (c : call) (l : list (event call answer)) (r : answer) (q : Queue T) (x : Aux T) : Prop :=
  match who, c, r with
  | true, Enqueue canAlloc v, Bool b => p_done lay malloc canAlloc (sent l) v b q x
  | false, TryDequeue, Value o =>
      ∃ ds ds', matches (received l) ds ∧ c_idle ds' q x ∧ dequeued_one ds (sent l) o ds' q x
  | false, Pop, Bool b =>
      ∃ ds ds', matches (received l) ds ∧ c_idle ds' q x ∧ popped_one ds (sent l) b ds' q x
  | false, Peek, Value o =>
      ∃ ds, matches (received l) ds ∧ c_idle ds q x ∧
        match o with Some v => ds ++ [v] `prefix_of` enqueued x | None => sent l `prefix_of` ds end
  | _, _, _ => False
  end.

Lemma matches_length os vs : matches os vs → length os = length vs.
Proof. apply Forall2_length. Qed.

Lemma prefix_lookup_app (l : list T) v l' : l ++ [v] `prefix_of` l' → l' !! length l = Some v.
Proof. intros [k ->]. rewrite <-app_assoc. by rewrite lookup_app_r, Nat.sub_diag by lia. Qed.

(** One more event at the end of the log. *)
Lemma answers_right_snoc acc l e :
  answers_right acc l →
  (∀ l1 c l2 r, e = Returned false c r → l = l1 ++ Called false c :: l2 → Forall (λ e, by_whom e = true) l2 →
    (says_empty c r → (length (sent l1) ≤ length (received l1))%nat) ∧
    (∀ v, c = Peek → r = Value (Some v) → acc !! length (received l1) = Some v)) →
  answers_right acc (l ++ [e]).
Proof.
  intros Ha He l1 c l2 r l3 El Hl2. destruct l3 as [|e' l3 _] using rev_ind.
  - assert (l = l1 ++ Called false c :: l2 ∧ e = Returned false c r) as [-> ->].
    { apply app_inj_tail. rewrite El, <-app_assoc. done. }
    by eapply He.
  - assert (l = l1 ++ Called false c :: l2 ++ Returned false c r :: l3 ∧ e = e') as [El' ->].
    { apply app_inj_tail. rewrite El. rewrite <-!app_assoc. cbn. by rewrite <-app_assoc. }
    by eapply Ha.
Qed.

Lemma answers_right_prefix acc acc' l : acc `prefix_of` acc' → answers_right acc l → answers_right acc' l.
Proof.
  intros Hp Ha l1 c l2 r l3 El Hl2. destruct (Ha l1 c l2 r l3 El Hl2) as [H1 H2]. split; [done|].
  intros v Ec Er. eapply prefix_lookup_Some; [|done]. by eapply H2.
Qed.

Lemma sent_app l l' : sent (l ++ l') = sent l ++ sent l'.
Proof. apply omap_app. Qed.
Lemma received_app l l' : received (l ++ l') = received l ++ received l'.
Proof. apply omap_app. Qed.

Lemma sent_consumer l : Forall (λ e, by_whom e = false) l → sent l = [].
Proof.
  induction 1 as [|e l He _ IH]; [done|]. unfold sent in *. cbn. rewrite IH. by destruct e as [|[] [] []].
Qed.
Lemma received_producer l : Forall (λ e, by_whom e = true) l → received l = [].
Proof.
  induction 1 as [|e l He _ IH]; [done|]. unfold received in *. cbn. rewrite IH. by destruct e as [|[] [] []].
Qed.

Lemma sent_mid l who c l' : sent (l ++ Called who c :: l') = sent l ++ sent l'.
Proof. by rewrite sent_app. Qed.
Lemma received_mid l who c l' : received (l ++ Called who c :: l') = received l ++ received l'.
Proof. by rewrite received_app. Qed.
Lemma sent_snoc l e : sent (l ++ [e]) = sent l ++ option_list (sent_by e).
Proof. rewrite sent_app. unfold sent at 2. cbn. by destruct (sent_by e). Qed.
Lemma received_snoc l e : received (l ++ [e]) = received l ++ option_list (received_by e).
Proof. rewrite received_app. unfold received at 2. cbn. by destruct (received_by e). Qed.

Lemma idle_event who l e q x : by_whom e = negb who → idle who l q x → idle who (l ++ [e]) q x.
Proof.
  intros He. destruct who; cbn in *; rewrite ?sent_snoc, ?received_snoc.
  - assert (sent_by e = None) as -> by (by destruct e as [|[] [] []]). by rewrite app_nil_r.
  - assert (received_by e = None) as -> by (by destruct e as [|[] [] []]). by rewrite app_nil_r.
Qed.

Lemma c_idle_later ds (q q' : Queue T) x x' : p_acts q x q' x' → c_idle ds q x → c_idle ds q' x'.
Proof. intros [] (? & ? & ?). unfold c_idle. split_and!; congruence. Qed.
Lemma p_idle_later es (q q' : Queue T) x x' : c_acts q x q' x' → p_idle_ es q x → p_idle_ es q' x'.
Proof. intros [] (? & ? & ? & ?). unfold p_idle_. split_and!; congruence. Qed.

Lemma idle_later who l q x q' x' : acts (negb who) q x q' x' → idle who l q x → idle who l q' x'.
Proof.
  destruct who; cbn.
  - apply p_idle_later.
  - intros Ha (ds & ? & ?). exists ds. split; [done|]. by eapply c_idle_later.
Qed.

Lemma global_later who l q x q' x' : acts who q x q' x' → global l q x → global l q' x'.
Proof.
  intros Ha (Hs & (ds & Hm & Hd) & Hr & Hf).
  assert (enqueued x `prefix_of` enqueued x') as He.
  { destruct who; [apply Ha|]. by rewrite (ca_enqueued _ _ _ _ Ha). }
  assert (dequeued x `prefix_of` dequeued x') as Hd'.
  { destruct who; [by rewrite (pa_dequeued _ _ _ _ Ha)|apply Ha]. }
  split_and!; [by etrans| |by eapply answers_right_prefix|done]. exists ds. split; [done|by etrans].
Qed.

Lemma global_called l who c q x : global l q x → global (l ++ [Called who c]) q x.
Proof.
  intros (Hs & Hr & Ha & Hf). unfold global. rewrite sent_snoc, received_snoc. cbn. rewrite !app_nil_r.
  split_and!; [done..| |].
  - by apply answers_right_snoc.
  - intros ca v [?|Hin%list_elem_of_singleton]%elem_of_app; [by eapply Hf|done].
Qed.

(** The end of a call. *)
Lemma global_returned l who c l' r q x ds :
  Forall (λ e, by_whom e = negb who) l' → global (l ++ Called who c :: l') q x →
  sent ((l ++ Called who c :: l') ++ [Returned who c r]) `prefix_of` enqueued x →
  matches (received ((l ++ Called who c :: l') ++ [Returned who c r])) ds → ds `prefix_of` dequeued x →
  (who = false → says_empty c r → (length (sent l) ≤ length (received l))%nat) →
  (who = false → ∀ v, c = Peek → r = Value (Some v) → enqueued x !! length (received l) = Some v) →
  (who = true → ∀ canAlloc v, c = Enqueue canAlloc v → r = Bool false → refused lay malloc canAlloc) →
  global ((l ++ Called who c :: l') ++ [Returned who c r]) q x.
Proof.
  intros Hl' (_ & _ & Ha & Hf) Hs Hm Hd He Hp Hrf. split_and!; [done|by exists ds| |].
  - apply answers_right_snoc; [done|]. intros l1 c1 l2 r1 [= -> -> ->] El Hl2. cbn in Hl'.
    assert (l1 = l ∧ l2 = l') as [-> ->].
    { clear -El Hl2 Hl'. revert l1 El. induction l as [|e l IH] in l', Hl' |- *; intros [|e1 l1] El; cbn in El.
      - by injection El.
      - injection El as <- ->. apply Forall_app in Hl' as [_ [Hx _]%Forall_cons]. done.
      - injection El as -> <-. apply Forall_app in Hl2 as [_ [Hx _]%Forall_cons]. done.
      - injection El as <- El. destruct (IH l' Hl' _ (eq_sym (eq_sym El))) as [-> ->]. done. }
    split; [by apply He|by apply Hp].
  - intros ca v [?|Hin%list_elem_of_singleton]%elem_of_app; [by eapply Hf|].
    injection Hin as <- <- <-. by eapply Hrf.
Qed.

Lemma return_producer c l l' r q x : Forall (λ e, by_whom e = false) l' →
  global (l ++ Called true c :: l') q x → post true c l r q x →
  global ((l ++ Called true c :: l') ++ [Returned true c r]) q x ∧
  idle true ((l ++ Called true c :: l') ++ [Returned true c r]) q x.
Proof.
  intros Hl' Hg Hp. destruct c as [ca v| | |]; [|done..]. destruct r as [b|]; [|done].
  destruct Hp as [Hid Hrf]. pose proof Hg as (_ & (ds & Hm & Hd) & _ & _).
  assert (sent ((l ++ Called true (Enqueue ca v) :: l') ++ [Returned true (Enqueue ca v) (Bool b)]) =
          if b then sent l ++ [v] else sent l) as Es.
  { rewrite sent_snoc, sent_mid, (sent_consumer _ Hl'), app_nil_r. destruct b; cbn; [done|]. by rewrite app_nil_r. }
  split; [|unfold idle; by rewrite Es].
  apply (global_returned _ _ _ _ _ _ _ ds); [done..| | |done|done|done|].
  - rewrite Es. destruct Hid as (_ & _ & -> & _). done.
  - rewrite received_snoc. cbn. by rewrite app_nil_r.
  - intros _ ca' v' [= -> ->] [= ->]. by apply Hrf.
Qed.

Lemma return_consumer c l l' r q x : Forall (λ e, by_whom e = true) l' →
  global (l ++ Called false c :: l') q x → post false c l r q x →
  global ((l ++ Called false c :: l') ++ [Returned false c r]) q x ∧
  idle false ((l ++ Called false c :: l') ++ [Returned false c r]) q x.
Proof.
  intros Hl' Hg Hp. pose proof Hg as (Hs & _ & _ & _).
  assert (∃ ds ds', matches (received l) ds ∧ c_idle ds' q x ∧
    matches (received l ++ option_list (received_by (Returned false c r))) ds' ∧
    (says_empty c r → sent l `prefix_of` ds) ∧
    (∀ v, c = Peek → r = Value (Some v) → ds ++ [v] `prefix_of` enqueued x))
    as (ds & ds' & Hm & Hid & Hm' & He & Hv).
  { destruct c as [? ?| | |]; [done|..]; destruct r as [b|o]; try done.
    - destruct Hp as (ds & ds' & Hm & Hid & Hd). exists ds, ds'. destruct o as [v|]; cbn in Hd |- *.
      + subst ds'. split_and!; try done. apply Forall2_app; [done|]. by repeat constructor.
      + destruct Hd as [-> Hd]. rewrite app_nil_r. by split_and!.
    - destruct Hp as (ds & Hm & Hid & Hd). exists ds, ds. destruct o as [v|]; cbn; rewrite app_nil_r;
        split_and!; try done. by intros ? _ [= <-].
    - destruct Hp as (ds & ds' & Hm & Hid & Hd). exists ds, ds'. destruct b; cbn in Hd |- *.
      + destruct Hd as [v ->]. split_and!; try done. apply Forall2_app; [done|]. constructor; [by left|constructor].
      + destruct Hd as [-> Hd]. rewrite app_nil_r. by split_and!. }
  assert (received ((l ++ Called false c :: l') ++ [Returned false c r]) =
          received l ++ option_list (received_by (Returned false c r))) as Er.
  { by rewrite received_snoc, received_mid, (received_producer _ Hl'), app_nil_r. }
  split; [|exists ds'; by rewrite Er].
  apply (global_returned _ _ _ _ _ _ _ ds'); [done..| | | | | |done].
  - rewrite sent_snoc. cbn. by rewrite app_nil_r.
  - by rewrite Er.
  - destruct Hid as (_ & -> & _). done.
  - intros _ Hse. rewrite (matches_length _ _ Hm). by apply prefix_length, He.
  - intros _ v Ec Erv. rewrite (matches_length _ _ Hm). by apply prefix_lookup_app, Hv.
Qed.

Context (HMAX : ∃ m, 1 ≤ m < 64 ∧ MAX_BLOCK_SIZE = 2 ^ m).

Lemma wp_then {A B} who (p : prog (Queue T) A) (f : A → B) Q q x :
  wp inv acts never who p (λ a, Q (f a)) q x → (∀ b, unharmed inv acts who (Q b)) →
  wp inv acts never who (a ← p; mret (f a)) Q q x.
Proof.
  intros Hw Hu. apply wp_bind; [apply acts_refl|]. eapply wp_mono; [|exact Hw].
  intros a q1 x1 Hi HQ. by apply wp_ret.
Qed.

Lemma post_unharmed who c l r : unharmed inv acts who (post who c l r).
Proof.
  intros q x q' x' _ _ Ha. destruct who, c as [ca v| | |], r as [b|o]; cbn in *; try done.
  - intros [? ?]. split; [|done]. by eapply p_idle_later.
  - intros (ds & ds' & ? & ? & Hd). exists ds, ds'. split_and!; [done|by eapply c_idle_later|exact Hd].
  - intros (ds & ? & ? & Ho). exists ds. split_and!; [done|by eapply c_idle_later|].
    destruct o; [|done]. etrans; [exact Ho|apply Ha].
  - intros (ds & ds' & ? & ? & Hd). exists ds, ds'. split_and!; [done|by eapply c_idle_later|exact Hd].
Qed.

Lemma call_ok who c l q x : allowed who c → inv q x → global l q x → idle who l q x →
  wp inv acts never who (operation c) (post who c l) q x.
Proof.
  intros Hal Hi (Hs & _) Hid. destruct c as [ca v| | |]; cbn in Hal; subst who; apply wp_then;
    try (intros; apply post_unharmed); cbn in Hid.
  - by apply wp_inner_enqueue.
  - destruct Hid as (ds & Hm & Hid). eapply wp_mono; [|by eapply (wp_try_dequeue ds (sent l))].
    intros r q1 x1 _ (ds' & Hid' & Hd). by exists ds, ds'.
  - destruct Hid as (ds & Hm & Hid). eapply wp_mono; [|by eapply (wp_peek_value ds (sent l))].
    intros r q1 x1 _ [Hid' Hd]. by exists ds.
  - destruct Hid as (ds & Hm & Hid). eapply wp_mono; [|by eapply (wp_pop ds (sent l))].
    intros r q1 x1 _ (ds' & Hid' & Hd). by exists ds, ds'.
Qed.

#[global] Instance queue_protocol : Protocol operation inv acts never allowed (λ _, True) global idle post.
Proof.
  split.
  - apply acts_refl.
  - apply acts_trans.
  - intros who l q x q' x' _ _. apply global_later.
  - intros who l q x q' x' _ _. apply idle_later.
  - intros who l e q x. apply idle_event.
  - done.
  - intros who l c q x. apply global_called.
  - intros who c l q x ? _. by apply call_ok.
  - intros [] c l l' r q x; [apply return_producer|apply return_consumer].
Qed.

(** ** Which blocks there are *)

(** [p] allocates nothing. *)
Definition keeps_blocks {A} (p : prog (Queue T) A) : Prop :=
  ∀ q q' r, run p q = Ok (q', r) → ∀ b, is_Some (heap q' !! b) → is_Some (heap q !! b).

Lemma blocks_ret {A} (a : A) : keeps_blocks (mret a).
Proof. intros q q' r [= <- <-] b. done. Qed.

Lemma blocks_done {A} (a : A) : keeps_blocks (Ret a).
Proof. exact (blocks_ret a). Qed.

Lemma blocks_bind {A B} (p : prog (Queue T) A) (k : A → prog (Queue T) B) :
  keeps_blocks p → (∀ a, keeps_blocks (k a)) → keeps_blocks (p ≫= k).
Proof.
  intros Hp Hk q q' r E b Hb. rewrite run_bind in E. destruct (run p q) as [[q1 a]|] eqn:E1; [|done].
  exact (Hp _ _ _ E1 b (Hk a _ _ _ E b Hb)).
Qed.

Lemma blocks_load {B} (g : Queue T → B) : keeps_blocks (load g).
Proof. intros q q' r [= <- <-] b. done. Qed.

Lemma blocks_store (g : Queue T → Queue T) : (∀ q, heap (g q) = heap q) → keeps_blocks (store g).
Proof. intros Hg q q' r [= <-] b. by rewrite Hg. Qed.

Lemma blocks_deref {B} b (f : Block T → result (Block T * B)) : keeps_blocks (deref b f).
Proof.
  intros q q' r E b' Hb'. cbn in E. destruct (heap q !! b) as [blk|] eqn:Hb; [|done].
  destruct (f blk) as [[blk' a]|]; [|done]. injection E as <- <-. cbn in Hb'.
  apply lookup_insert_is_Some in Hb' as [<-|[_ ?]]; [by rewrite Hb|done].
Qed.

Lemma blocks_get {B} b (g : Block T → B) : keeps_blocks (get b g).
Proof. intros q q' r E b'. cbn in E. destruct (heap q !! b); [|done]. by injection E as <- <-. Qed.

Lemma blocks_read b i : keeps_blocks (read b i).
Proof.
  intros q q' r E b'. cbn in E. destruct (heap q !! b) as [blk|]; [|done].
  destruct (slots blk !! i); [|done]. by injection E as <- <-.
Qed.

Lemma blocks_assert b what : keeps_blocks (assert b what).
Proof. destruct b; [exact (blocks_done tt)|]. intros q q' r [=]. Qed.

Ltac keeps :=
  repeat match goal with
  | |- keeps_blocks (_ ≫= _) => apply blocks_bind; [|intros ?]
  | |- keeps_blocks (if ?b then _ else _) => destruct b
  | |- keeps_blocks (match ?o with Some _ => _ | None => _ end) => destruct o as [[]|]
  | |- keeps_blocks (mret _) => apply blocks_ret
  | |- keeps_blocks (load _) => apply blocks_load
  | |- keeps_blocks (store _) => apply blocks_store; reflexivity
  | |- keeps_blocks (get _ _) => apply blocks_get
  | |- keeps_blocks (put _ _) => apply blocks_deref
  | |- keeps_blocks (construct _ _ _) => apply blocks_deref
  | |- keeps_blocks (destroy _ _) => apply blocks_deref
  | |- keeps_blocks (read _ _) => apply blocks_read
  | |- keeps_blocks (assert _ _) => apply blocks_assert
  | |- keeps_blocks (fence _) => apply blocks_done
  | |- keeps_blocks (compiler_fence _) => apply blocks_done
  end.

Lemma blocks_try_dequeue : keeps_blocks try_dequeue.
Proof. unfold try_dequeue, try_dequeue_, reentrant, front_has_element, dequeue_from. keeps. Qed.
Lemma blocks_pop : keeps_blocks pop.
Proof. unfold pop, pop_, reentrant, front_has_element, pop_from. keeps. Qed.
Lemma blocks_peek_value : keeps_blocks peek_value.
Proof. unfold peek_value, peek, peek_, reentrant, front_has_element. keeps. Qed.

(** A block that an enqueue allocates is the new tail block. *)
Definition adds_tail {A} (p : prog (Queue T) A) : Prop :=
  ∀ q q' r, run p q = Ok (q', r) → ∀ b, is_Some (heap q' !! b) → is_Some (heap q !! b) ∨ b = tailBlock q'.

Lemma adds_kept {A} (p : prog (Queue T) A) : keeps_blocks p → adds_tail p.
Proof. intros Hp q q' r E b Hb. left. by eapply Hp. Qed.

Lemma adds_bind {A B} (p : prog (Queue T) A) (k : A → prog (Queue T) B) :
  keeps_blocks p → (∀ a, adds_tail (k a)) → adds_tail (p ≫= k).
Proof.
  intros Hp Hk q q' r E b Hb. rewrite run_bind in E. destruct (run p q) as [[q1 a]|] eqn:E1; [|done].
  destruct (Hk a _ _ _ E b Hb) as [Hb1| ->]; [left; by eapply Hp|by right].
Qed.

(** [p] allocates nothing, and the tail block is then [nb]. *)
Definition ends_at {A} (nb : nat) (p : prog (Queue T) A) : Prop :=
  ∀ q q' r, run p q = Ok (q', r) → tailBlock q' = nb ∧ ∀ b, is_Some (heap q' !! b) → is_Some (heap q !! b).

Lemma ends_bind {A B} nb (p : prog (Queue T) A) (k : A → prog (Queue T) B) :
  keeps_blocks p → (∀ a, ends_at nb (k a)) → ends_at nb (p ≫= k).
Proof.
  intros Hp Hk q q' r E. rewrite run_bind in E. destruct (run p q) as [[q1 a]|] eqn:E1; [|done].
  destruct (Hk a _ _ _ E) as [Et Hb]. split; [done|]. intros b Hs. by eapply Hp, Hb.
Qed.

Lemma ends_store {A} nb (a : A) : ends_at nb (store (set_tailBlock nb) ;; mret a).
Proof. intros q q' r [= <- _]. done. Qed.

(** Allocating a block, and making it the tail block. *)
Lemma adds_make_block {A} size (k : nat → prog (Queue T) A) :
  keeps_blocks (k nullptr) → (∀ n, ends_at (S n) (k (S n))) → adds_tail (make_block lay malloc size ≫= k).
Proof.
  intros Hn Hk q q' r E b Hb. cbn in E. destruct (malloc _ _ =? 0).
  - left. exact (Hn _ _ _ E b Hb).
  - destruct (Hk _ _ _ _ E) as [Et Hs]. specialize (Hs b Hb). cbn in Hs. rewrite Et.
    apply lookup_insert_is_Some in Hs as [<-|[_ ?]]; [by right|by left].
Qed.

Lemma adds_inner_enqueue_ canAlloc v : adds_tail (inner_enqueue_ MAX_BLOCK_SIZE lay malloc canAlloc v).
Proof.
  unfold inner_enqueue_. repeat (apply adds_bind; [by keeps|intros ?]). match goal with |- adds_tail (if ?b then _ else _) => destruct b end.
  - apply adds_kept. keeps.
  - repeat (apply adds_bind; [by keeps|intros ?]). case_bool_decide; [apply adds_kept; by keeps|].
    destruct canAlloc; [|apply adds_kept; by keeps]. apply adds_bind; [by keeps|intros ?].
    apply adds_make_block; [rewrite bool_decide_eq_true_2 by done; by keeps|]. intros n.
    rewrite bool_decide_eq_false_2 by done.
    repeat (apply ends_store || (apply ends_bind; [by keeps|intros ?])).
Qed.

Lemma adds_inner_enqueue canAlloc v : adds_tail (inner_enqueue MAX_BLOCK_SIZE lay malloc canAlloc v).
Proof.
  unfold inner_enqueue, reentrant. repeat (apply adds_bind; [by keeps|intros ?]).
  intros q q' r E b Hb. rewrite run_bind in E. destruct (run (inner_enqueue_ _ _ _ _ _) q) as [[q1 a2]|] eqn:E1; [|done].
  cbn in E. injection E as <- <-. exact (adds_inner_enqueue_ _ _ _ _ _ E1 b Hb).
Qed.

(** ** The contents of a quiet queue *)


(** No call is running, and all the blocks are in the ring. *)
Definition quiet (q : Queue T) (vs : list T) : Prop :=
  enqueuing q = false ∧ dequeuing q = false ∧
  ∃ x, inv q x ∧ placed x = None ∧ staged x = [] ∧ taken x = false ∧ live x = vs ∧
    ∀ b, is_Some (heap q !! b) → b ∈ ring x.

Lemma omap_indices (g : Z → option T) l : (∀ i, 0 ≤ i < Z.of_nat (length l) → g i = l !! Z.to_nat i) →
  omap g (seqZ 0 (Z.of_nat (length l))) = l.
Proof.
  induction l as [|v l IH] using rev_ind; [done|].
  intros Hs. rewrite length_app. cbn [length]. rewrite Nat2Z.inj_add, seqZ_app, omap_app by lia. cbn.
  rewrite IH.
  - f_equal. rewrite Z.add_0_l. change (Z.of_nat 1) with 1. rewrite seqZ_cons, seqZ_nil by lia. cbn.
    rewrite Hs by (rewrite length_app; cbn; lia). by rewrite Nat2Z.id, lookup_app_r, Nat.sub_diag by lia.
  - intros i Hi. rewrite Hs by (rewrite length_app; lia). by rewrite lookup_app_l by lia.
Qed.

Lemma block_elements_ok (blk : Block T) (c : Counters T) pl : block_ok blk c false pl → block_elements blk = elems c.
Proof.
  intros H. pose proof (mask_pos _ _ _ _ H). pose proof (b_order _ _ _ _ H). pose proof (b_room _ _ _ _ H).
  pose proof (b_count _ _ _ _ H) as Hc.
  unfold block_elements. set (n := sizeMask blk + 1) in *.
  assert ((tail blk - front blk) `mod` n = Z.of_nat (length (elems c))) as ->.
  { rewrite (b_tail _ _ _ _ H), (b_front _ _ _ _ H). fold n. rewrite <-Zminus_mod.
    rewrite Hc. replace (c_f c + Z.of_nat (length (elems c)) - c_f c) with (Z.of_nat (length (elems c))) by lia.
    apply Z.mod_small. lia. }
  assert (∀ i, 0 ≤ i < Z.of_nat (length (elems c)) → slots blk !! ((front blk + i) `mod` n) = elems c !! Z.to_nat i) as Hs.
  { intros i Hi. rewrite (b_front _ _ _ _ H). fold n. rewrite Zplus_mod_idemp_l.
    rewrite (b_slots _ _ _ _ H); [|lia|done|lia]. f_equal. lia. }
  by apply omap_indices.
Qed.

Lemma elements_from_ok (q : Queue T) x fuel i b : inv q x → taken x = false → ring x !! i = Some b → (i ≤ tpos x)%nat →
  (tpos x - i < fuel)%nat →
  elements_from fuel q b = mjoin (elems_of x <$> drop i (take (S (tpos x)) (ring x))).
Proof.
  intros Hi Htk. revert i b. induction fuel as [|fuel IH]; intros i b Hb Hle Hf; [lia|].
  destruct (i_place _ _ Hi _ _ Hb) as (blk & c & Hp). cbn [elements_from]. rewrite (p_heap _ _ _ _ _ _ Hp).
  pose proof (p_block _ _ _ _ _ _ Hp) as Hbo. rewrite Htk, andb_false_r in Hbo.
  rewrite (block_elements_ok _ _ _ Hbo), <-(elems_of_cnt _ _ _ (p_cnt _ _ _ _ _ _ Hp)).
  rewrite (drop_S _ b i) by (rewrite lookup_take_lt by lia; done). cbn [fmap list_fmap mjoin list_join]. f_equal.
  clear Hbo. pose proof (i_tail _ _ Hi) as Ht. case_bool_decide as Et.
  - assert (i = tpos x) as -> by (eapply NoDup_lookup; [apply Hi|done|by rewrite Et]).
    rewrite drop_ge; [done|]. rewrite length_take. lia.
  - assert (i ≠ tpos x) by (intros ->; congruence). pose proof (lookup_lt_Some _ _ _ Ht).
    pose proof (p_next _ _ _ _ _ _ Hp) as Hn. rewrite Nat.mod_small in Hn by lia. apply IH; [done|lia|lia].
Qed.

Lemma ring_in_heap (q : Queue T) x : inv q x → (length (ring x) ≤ size (heap q))%nat.
Proof.
  intros Hi. rewrite <-size_dom, <-(size_list_to_set (C := gset nat) (ring x)) by apply Hi.
  apply subseteq_size. intros b [i Hb]%elem_of_list_to_set%list_elem_of_lookup.
  destruct (i_place _ _ Hi _ _ Hb) as (blk & c & Hp). apply elem_of_dom. rewrite (p_heap _ _ _ _ _ _ Hp). done.
Qed.

Lemma contents_live (q : Queue T) x : inv q x → taken x = false → contents q = live x.
Proof.
  intros Hi Htk. pose proof (ring_in_heap _ _ Hi). pose proof (lookup_lt_Some _ _ _ (i_tail _ _ Hi)).
  unfold contents. rewrite (elements_from_ok q x _ 0 (frontBlock q)); [done..|apply Hi|lia|lia].
Qed.

(** ** Every reachable configuration *)

(** The value that the producer is enqueuing. *)
Definition pending (c : config (Queue T) call answer) : list T :=
  match running (producer c) with Some (Enqueue _ v, _) => [v] | _ => [] end.

Definition linearized (c : config (Queue T) call answer) : Prop :=
  ∃ accepted out, sent (log c) `prefix_of` accepted ∧ accepted `prefix_of` sent (log c) ++ pending c ∧
    matches (received (log c)) out ∧ out `prefix_of` accepted ∧
    answers_right accepted (log c) ∧ refusals_right (log c) ∧
    (running (producer c) = None → running (consumer c) = None →
      accepted = sent (log c) ∧ accepted = out ++ contents (shared c)).

(** While the producer is in a call, what is in the queue is what it has sent and possibly the value of the
    call: the call, run to its end from here, could not take anything back. *)
Lemma enqueued_bound c x : inv (shared c) x → global (log c) (shared c) x →
  thread_ok (inv := inv) (acts := acts) (waits := never) (allowed := allowed) (idle := idle) (post := post)
    true (log c) (producer c) (shared c) x → thread_bounded (λ _, True) (producer c) →
  enqueued x `prefix_of` sent (log c) ++ pending c.
Proof.
  intros Hi Hg [_ Hr] [_ Hn]. unfold pending. destruct (running (producer c)) as [[call p]|].
  - destruct Hr as (l1 & l2 & El & Hl2 & Hwp). destruct Hn as [n Hn].
    destruct (wp_run inv acts never acts_refl acts_trans true n p _ _ _ Hi Hn Hwp) as (q1 & r & x1 & _ & Hi1 & Ha & Hp).
    cbn in Ha. destruct call as [ca v| | |]; [|done..]. destruct r as [b|]; [|done].
    destruct Hp as [(_ & _ & He & _) _].
    assert (sent (log c) = sent l1) as -> by (by rewrite El, sent_mid, (sent_consumer _ Hl2), app_nil_r).
    etrans; [apply Ha|]. rewrite He. destruct b; [done|by apply prefix_app_r].
  - destruct Hr as (_ & _ & -> & _). by rewrite app_nil_r.
Qed.

Lemma config_ok_linearized c :
  config_ok (inv := inv) (acts := acts) (waits := never) (allowed := allowed) (global := global) (idle := idle) (post := post) c →
  thread_bounded (λ _, True) (producer c) → linearized c.
Proof.
  intros (x & Hi & Hg & Hth) Hn. pose proof Hg as (Hs & (ds & Hm & Hd) & Ha & Hf).
  assert (dequeued x `prefix_of` enqueued x) as Hde by (rewrite (i_history _ _ Hi); by apply prefix_app_r).
  exists (enqueued x), ds. split_and!; [done| |done|by etrans|done|done|].
  - by apply (enqueued_bound _ x); [..|apply (Hth true)|].
  - intros Hp Hc. destruct (Hth true) as [_ Hidp]. destruct (Hth false) as [_ Hidc]. cbn in Hidp, Hidc.
    rewrite Hp in Hidp. rewrite Hc in Hidc. destruct Hidp as (_ & _ & Ee & _).
    destruct Hidc as (ds' & Hm' & Htk & Ed & _). split; [done|].
    rewrite (contents_live _ x Hi Htk), (i_history _ _ Hi), Ed. f_equal.
    assert (length ds' = length ds) by (by rewrite <-(matches_length _ _ Hm), <-(matches_length _ _ Hm')).
    rewrite Ed in Hd. destruct Hd as [k ->]. rewrite length_app in *.
    destruct k; [by rewrite app_nil_r|cbn in *; lia].
Qed.

(** The histories can start anywhere. *)
Definition restart (ds : list T) (x : Aux T) : Aux T :=
  mk_Aux (ring x) (tpos x) (cnt x) (placed x) (staged x) (taken x) (ds ++ live x) ds.

Lemma inv_restart ds q x : inv q x → inv q (restart ds x).
Proof.
  intros Hi. constructor; try apply Hi; [|done].
  intros i b Hb. destruct (i_place _ _ Hi i b Hb) as (blk & c & []). by exists blk, c.
Qed.

Lemma start_ok q ps cs : quiet q [] → Forall (allowed true) ps → Forall (allowed false) cs →
  config_ok (inv := inv) (acts := acts) (waits := never) (allowed := allowed) (global := global) (idle := idle) (post := post)
    (start q ps cs).
Proof.
  intros (Hen & Hde & x & Hi & Hpl & Hst & Htk & Hl & Hall) Hps Hcs.
  apply (config_ok_start _ (restart [] x)); [by apply inv_restart| | |done..].
  - split_and!; [apply prefix_nil|exists []; split; [constructor|apply prefix_nil]| |].
    + intros l1 c l2 r l3 E. exfalso. destruct l1; discriminate E.
    + intros ca v Hin. by apply not_elem_of_nil in Hin.
  - intros []; cbn; [by split_and!|]. exists []. split; [constructor|by split_and!].
Qed.

Lemma reachable_linearized q ps cs c :
  quiet q [] → Forall (allowed true) ps → Forall (allowed false) cs → rtc (step operation) (start q ps cs) c →
  (∀ who e, ¬ faults who c e) ∧ linearized c.
Proof.
  intros Hq Hps Hcs Hr. pose proof (config_ok_reachable _ _ (start_ok _ _ _ Hq Hps Hcs) Hr I) as Hok.
  pose proof (thread_bounded_reachable operation longest_call (λ _, True) true _ _ (λ c _, operation_bounded c) Hr) as Hn.
  split; [|apply config_ok_linearized; [done|]; apply Hn; split; [by apply Forall_true|done]]. intros who e. by apply config_ok_no_fault.
Qed.

(** ** One call at a time *)

Lemma quiet_contents q vs : quiet q vs → contents q = vs.
Proof. intros (_ & _ & x & Hi & _ & _ & Htk & <- & _). by apply contents_live. Qed.

Lemma run_enqueue canAlloc v q vs : quiet q vs →
  ∃ q' r, run (inner_enqueue MAX_BLOCK_SIZE lay malloc canAlloc v) q = Ok (q', r) ∧
    quiet q' (if r : bool then vs ++ [v] else vs) ∧ (r = false → refused lay malloc canAlloc).
Proof.
  intros (Hen & Hde & x & Hi & Hpl & Hst & Htk & Hl & Hall).
  pose proof (wp_inner_enqueue _ lay malloc HMAX canAlloc vs v q (restart [] x) (inv_restart _ _ _ Hi)) as Hw.
  destruct (wp_run inv acts never acts_refl acts_trans true _ _ _ _ _ (inv_restart _ _ _ Hi) (enqueue_bounded canAlloc v) (Hw ltac:(by split_and!)))
    as (q' & r & x' & Er & Hi' & Ha & (Hpl' & Hst' & He' & Hen') & Hrf). cbn in Ha.
  exists q', r. split_and!; [done| |done]. unfold quiet. split_and!; [done|by rewrite (pa_dequeuing _ _ _ _ Ha)|].
  exists x'. split_and!; [done..|by rewrite (pa_taken _ _ _ _ Ha)| |].
  - pose proof (i_history _ _ Hi') as Hh. rewrite He', (pa_dequeued _ _ _ _ Ha) in Hh. by cbn in Hh.
  - intros b Hb. destruct (adds_inner_enqueue canAlloc v q q' r Er b Hb) as [Hb0| ->].
    + apply (pa_ring _ _ _ _ Ha). by apply Hall.
    + eapply list_elem_of_lookup_2. apply Hi'.
Qed.

Lemma run_consumer {A} n (p : prog (Queue T) A) (R : A → list T → list T → Queue T → Aux T → Prop) q vs :
  (∀ q x, inv q x → c_idle [] q x → offered vs q x →
    wp inv acts never false p (λ r q1 x1, ∃ ds', c_idle ds' q1 x1 ∧ R r vs ds' q1 x1) q x) →
  bounded n p → keeps_blocks p → quiet q vs →
  ∃ q' r ds' x', run p q = Ok (q', r) ∧ R r vs ds' q' x' ∧ inv q' x' ∧ c_idle ds' q' x' ∧ enqueued x' = vs ∧
    ∃ vs', quiet q' vs' ∧ vs = ds' ++ vs'.
Proof.
  intros Hw Hn Hkeep (Hen & Hde & x & Hi & Hpl & Hst & Htk & Hl & Hall).
  specialize (Hw q (restart [] x) (inv_restart _ _ _ Hi) ltac:(by split_and!)).
  destruct (wp_run inv acts never acts_refl acts_trans false _ _ _ _ _ (inv_restart _ _ _ Hi) Hn (Hw ltac:(unfold offered; cbn; by rewrite Hl)))
    as (q' & r & x' & Er & Hi' & Ha & (ds' & Hid' & HR)). cbn in Ha. pose proof Hid' as (Htk' & Ed' & Hdq').
  exists q', r, ds', x'. pose proof (ca_enqueued _ _ _ _ Ha) as Ee. cbn in Ee. rewrite Hl in Ee.
  split_and!; [done..|]. exists (live x'). split.
  - split_and!; [by rewrite (ca_enqueuing _ _ _ _ Ha)|done|]. exists x'.
    split_and!; [done|by rewrite (ca_placed _ _ _ _ Ha)|by rewrite (ca_staged _ _ _ _ Ha)|done|done|].
    intros b Hb. apply (ca_ring _ _ _ _ Ha), Hall. by eapply Hkeep.
  - rewrite <-Ee, <-Ed'. apply Hi'.
Qed.

Lemma run_try_dequeue q vs : quiet q vs →
  ∃ q', run try_dequeue q = Ok (q', head vs) ∧ quiet q' (List.tl vs).
Proof.
  intros Hq. destruct (run_consumer longest_call try_dequeue (λ r vs, dequeued_one [] vs r) q vs) as
    (q' & r & ds' & x' & Er & HR & _ & _ & _ & vs' & Hq' & E); [|apply try_dequeue_bounded|apply blocks_try_dequeue|done|].
  { intros. by apply wp_try_dequeue. }
  exists q'. rewrite Er. destruct r as [v|]; cbn in HR.
  - subst ds'. rewrite E. done.
  - destruct HR as [-> [k Hk]]. assert (vs = []) as -> by (by destruct vs). cbn in E. subst vs'. done.
Qed.

Lemma run_pop q vs : quiet q vs →
  ∃ q', run pop q = Ok (q', bool_decide (vs ≠ [])) ∧ quiet q' (List.tl vs).
Proof.
  intros Hq. destruct (run_consumer longest_call pop (λ r vs, popped_one [] vs r) q vs) as
    (q' & r & ds' & x' & Er & HR & _ & _ & _ & vs' & Hq' & E); [|apply pop_bounded|apply blocks_pop|done|].
  { intros. by apply wp_pop. }
  exists q'. rewrite Er. destruct r; cbn in HR.
  - destruct HR as [v ->]. rewrite E. done.
  - destruct HR as [-> [k Hk]]. assert (vs = []) as -> by (by destruct vs). cbn in E. subst vs'. done.
Qed.

Lemma run_peek q vs : quiet q vs →
  ∃ q', run peek_value q = Ok (q', head vs) ∧ quiet q' vs.
Proof.
  intros Hq. destruct (run_consumer longest_call peek_value (λ r vs ds q1 x1, ds = [] ∧
      match r with Some v => [v] `prefix_of` enqueued x1 | None => vs `prefix_of` [] end) q vs) as
    (q' & r & ds' & x' & Er & [-> HR] & _ & _ & Ee & vs' & Hq' & E); [|apply peek_value_bounded|apply blocks_peek_value|done|].
  { intros q0 x0 Hi Hid Ho. eapply wp_mono; [|by apply (wp_peek_value [] vs)].
    intros r q1 x1 _ [Hid1 Hr]. by exists []. }
  exists q'. rewrite Er. cbn in E. subst vs'. destruct r as [v|].
  - rewrite Ee in HR. destruct HR as [k ->]. done.
  - destruct HR as [k Hk]. by destruct vs.
Qed.

End Spec.
Arguments call : clear implicits.
Arguments answer : clear implicits.
End QueueSpec.
