(* ===== verification/QueueBounds.v ===== *)
(** * Construction, capacity and destruction of the queue between two threads

    The sizes of src/server/common/readerwriterqueue.h: rounding up to a power of two, the blocks a queue
    starts with, how much fits in, the memory of a block, and what happens at the ends of the ranges. *)
From S2P Require Import Prelude Atomics ReaderWriterQueue QueueProtocol QueueConsumer QueueSpec.

Module QueueBounds.
Import Atomics ReaderWriterQueue QueueProtocol QueueConsumer QueueSpec.

(** ** Rounding up to a power of two *)

(** [y] has a bit wherever [x] has one among the next [n]. *)
Definition smeared (n x y : Z) : Prop :=
  ∀ i, 0 ≤ i → Z.testbit y i = true ↔ ∃ j, 0 ≤ j < n ∧ Z.testbit x (i + j) = true.

Lemma smeared_start x : smeared 1 x x.
Proof.
  intros i Hi. split; [intros H; exists 0; by rewrite Z.add_0_r|].
  intros (j & Hj & H). by replace (i + j) with i in H by lia.
Qed.

Lemma smeared_step n x y : 0 < n → smeared n x y → smeared (2 * n) x (smear y n).
Proof.
  intros Hn H i Hi. unfold smear. rewrite Z.lor_spec, Z.shiftr_spec, orb_true_iff, (H i), (H (i + n)) by lia. split.
  - intros [(j & Hj & E)|(j & Hj & E)]; [exists j; split; [lia|done]|].
    exists (n + j). split; [lia|]. by replace (i + (n + j)) with (i + n + j) by lia.
  - intros (j & Hj & E). destruct (decide (j < n)); [left; exists j; split; [lia|done]|right]. exists (j - n). split; [lia|].
    by replace (i + n + (j - n)) with (i + j) by lia.
Qed.

(** All bits below the highest one. *)
Lemma smeared_all x y : 0 < x < 2 ^ 64 → smeared 64 x y → 0 ≤ y → y = Z.ones (Z.log2 x + 1).
Proof.
  intros Hx H Hy. pose proof (Z.log2_nonneg x). apply Z.bits_inj'. intros i Hi.
  assert (Z.log2 x < 64) by (apply Z.log2_lt_pow2; lia).
  destruct (decide (i ≤ Z.log2 x)).
  - rewrite Z.ones_spec_low by lia. apply H; [done|]. exists (Z.log2 x - i). split; [lia|].
    replace (i + (Z.log2 x - i)) with (Z.log2 x) by lia. apply Z.bit_log2. lia.
  - rewrite Z.ones_spec_high by lia. destruct (Z.testbit y i) eqn:E; [|done].
    apply H in E as (j & Hj & E); [|done]. rewrite Z.bits_above_log2 in E; [done|lia|lia].
Qed.

Definition smear_all (x : Z) : Z :=
  smear (smear (smear (smear (smear (smear x 1) 2) 4) 8) 16) 32.

Lemma smear_nonneg x n : 0 ≤ x → 0 ≤ smear x n.
Proof. intros. unfold smear. apply Z.lor_nonneg. split; [done|]. by apply Z.shiftr_nonneg. Qed.

Lemma smear_all_ones x : 0 < x < 2 ^ 64 → smear_all x = 2 ^ (Z.log2 x + 1) - 1.
Proof.
  intros Hx.
  assert (smear_all x = Z.ones (Z.log2 x + 1)) as ->; [|rewrite Z.ones_equiv; lia].
  apply smeared_all; [done| |]; unfold smear_all; [|by do 6 apply smear_nonneg; lia].
  pose proof (smeared_start x) as H. do 6 (apply smeared_step in H; [|lia]). exact H.
Qed.

Lemma ceilToPow2_unfold x : ceilToPow2 x = u64 (smear_all (u64 (x - 1)) + 1).
Proof. reflexivity. Qed.

Lemma ceilToPow2_pow2 x : 1 ≤ x ≤ 2 ^ 63 → ∃ k, 0 ≤ k ≤ 63 ∧ ceilToPow2 x = 2 ^ k ∧ x ≤ 2 ^ k < 2 * x.
Proof.
  intros Hx. rewrite ceilToPow2_unfold, (wrap_small 64 (x - 1)) by lia.
  destruct (decide (x = 1)) as [->|Hne]; [by exists 0|].
  rewrite smear_all_ones by lia. pose proof (Z.log2_spec (x - 1)) as Hl. pose proof (Z.log2_nonneg (x - 1)).
  exists (Z.log2 (x - 1) + 1). replace (Z.succ (Z.log2 (x - 1))) with (Z.log2 (x - 1) + 1) in Hl by lia.
  assert (Z.log2 (x - 1) < 63) by (apply Z.log2_lt_pow2; lia).
  assert (2 ^ (Z.log2 (x - 1) + 1) ≤ 2 ^ 63) by (apply Z.pow_le_mono_r; lia).
  rewrite wrap_small by lia. pose proof (Z.pow_succ_r 2 (Z.log2 (x - 1))).
  rewrite <-Z.add_1_r in *. split_and!; lia.
Qed.

(** Beyond [2^63] the next power does not fit. *)
Lemma ceilToPow2_too_big x : 2 ^ 63 < x ≤ 2 ^ 64 → ceilToPow2 x = 0.
Proof.
  intros Hx. rewrite ceilToPow2_unfold, (wrap_small 64 (x - 1)), smear_all_ones by lia.
  assert (Z.log2 (x - 1) = 63) as -> by (apply Z.log2_unique; lia). done.
Qed.

Section Bounds.
Context {T : Type} (MAX_BLOCK_SIZE : Z) (lay : layout) (malloc : nat → Z → Z).
Implicit Types (q : Queue T).

(** ** Running one access after the other *)

Lemma run_load {A B} (g : Queue T → B) (k : B → prog (Queue T) A) q : run (load g ≫= k) q = run (k (g q)) q.
Proof. reflexivity. Qed.
Lemma run_store {A} (g : Queue T → Queue T) (k : unit → prog (Queue T) A) q :
  run (store g ≫= k) q = run (k tt) (g q).
Proof. reflexivity. Qed.
Lemma run_ret {A B} (a : B) (k : B → prog (Queue T) A) q : run (mret a ≫= k) q = run (k a) q.
Proof. reflexivity. Qed.

Lemma run_done {A B} (a : B) (k : B → prog (Queue T) A) q : run (Ret a ≫= k) q = run (k a) q.
Proof. reflexivity. Qed.

Lemma run_fence {A} o (k : unit → prog (Queue T) A) q : run (fence o ≫= k) q = run (k tt) q.
Proof. reflexivity. Qed.

Lemma run_assert {A} what (k : unit → prog (Queue T) A) q : run (assert true what ≫= k) q = run (k tt) q.
Proof. reflexivity. Qed.

Lemma run_get {A B} b blk (g : Block T → B) (k : B → prog (Queue T) A) q :
  heap q !! b = Some blk → run (get b g ≫= k) q = run (k (g blk)) q.
Proof. intros H. cbn. by rewrite H. Qed.

Lemma run_put {A} b blk g (k : unit → prog (Queue T) A) q : heap q !! b = Some blk →
  run (put b g ≫= k) q = run (k tt) (set_heap (<[b := g blk]> (heap q)) q).
Proof. intros H. cbn. by rewrite H. Qed.

Lemma run_make_block {A} size (k : nat → prog (Queue T) A) q :
  (malloc (allocations q) (block_bytes lay size) = 0 ∧
   run (make_block lay malloc size ≫= k) q = run (k nullptr) (set_allocations (S (allocations q)) q)) ∨
  (∃ raw d, run (make_block lay malloc size ≫= k) q =
     run (k (S (allocations q)))
       (set_heap (<[S (allocations q) := new_Block size raw d]> (heap q)) (set_allocations (S (allocations q)) q))).
Proof.
  cbn. destruct (Z.eqb_spec (malloc (allocations q) (block_bytes lay size)) 0) as [E|E]; [by left|right].
  by eexists _, _.
Qed.

Lemma run_check {A} b (p : prog (Queue T) A) q : b ≠ nullptr → run (check_block b ;; p) q = run p q.
Proof. intros. unfold check_block. by rewrite bool_decide_eq_false_2. Qed.

Ltac make_block_cases := match goal with
  |- context [run (make_block lay malloc ?sz ≫= ?k) ?q] =>
      let raw := fresh "raw" in let d := fresh "d" in let E := fresh "E" in
      destruct (run_make_block sz k q) as [[E ->]|(raw & d & ->)]
  end.

(** ** The constructor *)

(** Blocks [1] to [m], each followed by the next and the last by the first. *)
Record chained (size : Z) (m : nat) q : Prop := {
  ch_allocations : allocations q = m;
  ch_block i : (1 ≤ i ≤ m)%nat → ∃ raw d,
    heap q !! i = Some (set_next (if decide (i = m) then 1%nat else S i) (new_Block size raw d));
  ch_heap i : is_Some (heap q !! i) → (1 ≤ i ≤ m)%nat
}.

(** What the constructor leaves alone while it adds blocks. *)
Definition same_fields q q' : Prop :=
  largestBlockSize q' = largestBlockSize q ∧ enqueuing q' = enqueuing q ∧ dequeuing q' = dequeuing q.

(** There was no memory. *)
Definition no_memory {A} (r : result A) : Prop :=
  r = Fault (Throw "bad_alloc") ∧ ∃ n size, malloc n size = 0.

Lemma chained_ext size m q q' : heap q' = heap q → allocations q' = allocations q →
  chained size m q → chained size m q'.
Proof. intros Hh Ha []. split; [by rewrite Ha|by rewrite Hh..]. Qed.

Lemma chained_first size q raw d : heap q = ∅ → allocations q = 0%nat →
  chained size 1 (set_heap (<[1%nat := set_next 1 (new_Block size raw d)]>
    (<[1%nat := new_Block size raw d]> (heap q))) (set_allocations 1 q)).
Proof.
  intros Hh Ha. split; [done|..]; cbn.
  - intros i Hi. assert (i = 1%nat) as -> by lia. exists raw, d. by rewrite lookup_insert_eq.
  - intros i. rewrite !lookup_insert_is_Some, Hh, lookup_empty. intros [<-|[? [<-|[? [? [=]]]]]]; lia.
Qed.

Lemma chained_next size m q raw d blk : (1 ≤ m)%nat → chained size m q → heap q !! m = Some blk →
  chained size (S m) (set_heap (<[S m := set_next 1 (new_Block size raw d)]>
    (<[m := set_next (S m) blk]> (<[S m := new_Block size raw d]> (heap q)))) (set_allocations (S m) q)).
Proof.
  intros Hm [Ha Hb Hh] Hblk. split; [done|..]; cbn.
  - intros i Hi. destruct (decide (i = S m)) as [->|Hne]; [exists raw, d; by rewrite lookup_insert_eq|].
    rewrite lookup_insert_ne by lia. destruct (Hb i ltac:(lia)) as (raw' & d' & Hi').
    exists raw', d'. destruct (decide (i = m)) as [->|Hne'].
    + rewrite lookup_insert_eq. simplify_eq. done.
    + by rewrite !lookup_insert_ne by lia.
  - intros i. rewrite !lookup_insert_is_Some. intros [<-|[_ [<-|[_ [<-|[_ Hs]]]]]]; [lia..|].
    pose proof (Hh i Hs). lia.
Qed.

Lemma run_chain n m q : chained (largestBlockSize q) m q → (1 ≤ m)%nat →
  (∃ q', run (chain lay malloc n 1 m) q = Ok (q', 1%nat) ∧ chained (largestBlockSize q) (m + n) q' ∧ same_fields q q') ∨
  no_memory (run (chain lay malloc n 1 m) q).
Proof.
  revert m q. induction n as [|n IH]; intros m q Hc Hm.
  - left. exists q. rewrite Nat.add_0_r. done.
  - cbn [chain]. rewrite run_load. make_block_cases.
    + right. split; [done|eauto].
    + destruct (ch_block _ _ _ Hc m) as (raw' & d' & Hblk); [lia|].
      rewrite (ch_allocations _ _ _ Hc), run_check, bool_decide_eq_false_2 by done. cbn match.
      rewrite run_bind. erewrite run_put by (cbn; rewrite lookup_insert_ne by lia; exact Hblk).
      cbn [run mret prog_ret mbind result_bind].
      erewrite run_put by (cbn; rewrite lookup_insert_ne by lia; apply lookup_insert_eq).
      pose proof (chained_next _ _ _ raw d _ Hm Hc Hblk) as Hc'.
      match type of Hc' with chained _ _ ?q1 =>
        destruct (IH (S m) q1 Hc') as [(q' & Er & Hc2 & Hf)|Hno] end; [lia|left|by right].
      exists q'. split_and!; [exact Er| |exact Hf]. by rewrite <-Nat.add_succ_comm.
Qed.

Lemma run_chain_first n q : heap q = ∅ → allocations q = 0%nat →
  (∃ q', run (chain lay malloc (S n) nullptr nullptr) q = Ok (q', 1%nat) ∧
    chained (largestBlockSize q) (S n) q' ∧ same_fields q q') ∨
  no_memory (run (chain lay malloc (S n) nullptr nullptr) q).
Proof.
  intros Hh Ha. cbn [chain]. rewrite run_load. make_block_cases; [right; split; [done|eauto]|].
  rewrite Ha, run_check, bool_decide_eq_true_2 by done. cbn match. rewrite run_ret.
  erewrite run_put by (cbn; apply lookup_insert_eq).
  pose proof (chained_first (largestBlockSize q) q raw d Hh Ha) as Hc.
  match type of Hc with chained _ _ ?q1 =>
    destruct (run_chain n 1 q1 Hc) as [(q' & Er & Hc2 & Hf)|Hno] end; [lia|left|by right]. by exists q'.
Qed.

(** The memory of the constructor satisfies the invariant. *)
Definition initial_aux (m : nat) q : Aux T :=
  mk_Aux (seq 1 m) 0 ((λ _, mk_Counters 0 0 0 0 []) <$> heap q) None [] false [] [].

Lemma block_ok_initial k size n raw d : 1 ≤ k < 64 → size = 2 ^ k →
  block_ok (T := T) (set_next n (new_Block size raw d)) (mk_Counters 0 0 0 0 []) false false.
Proof.
  intros Hk ->. assert (2 ^ 1 ≤ 2 ^ k) by (apply Z.pow_le_mono_r; lia).
  assert (2 ^ k < 2 ^ 64) by (apply Z.pow_lt_mono_r; lia).
  constructor; cbn; rewrite ?(wrap_small 64 (2 ^ k - 1)) by lia; try lia; try done. by exists k.
Qed.

Lemma chained_inv k m q : 1 ≤ k < 64 → (1 ≤ m)%nat → chained (2 ^ k) m q → largestBlockSize q = 2 ^ k →
  frontBlock q = 1%nat → tailBlock q = 1%nat → inv q (initial_aux m q).
Proof.
  intros Hk Hm [Ha Hb Hh] Hl Hf Ht. constructor; cbn [initial_aux ring tpos cnt placed staged taken enqueued dequeued].
  - apply NoDup_seq.
  - rewrite lookup_seq_lt by lia. by rewrite Hf.
  - rewrite lookup_seq_lt by lia. by rewrite Ht.
  - intros i b [-> Hi]%lookup_seq. destruct (Hb (1 + i)%nat) as (raw & d & Hbi); [lia|].
    eexists _, (mk_Counters 0 0 0 0 []). constructor; cbn [initial_aux ring tpos cnt placed staged taken elems]; try done.
    + by rewrite lookup_fmap, Hbi.
    + rewrite length_seq. cbn [next set_next]. case_decide as E.
      * replace (S i) with m by lia. rewrite Nat.Div0.mod_same, lookup_seq_lt by lia. done.
      * rewrite Nat.mod_small, lookup_seq_lt by lia. done.
    + rewrite andb_false_r. by eapply block_ok_initial.
    + lia.
  - intros b Hs. pose proof (Hh b Hs). lia.
  - by right.
  - by exists k.
  - unfold live. cbn [initial_aux ring tpos]. destruct m as [|m]; [lia|]. cbn.
    unfold elems_of. cbn. rewrite lookup_fmap. by destruct (heap q !! 1%nat).
Qed.

(** ** Going around the ring *)

(** A body that only looks at its block. *)
Definition looks {A} (body : nat → A → prog (Queue T) (A * nat)) (f : A → Block T → A) : Prop :=
  ∀ b blk acc q, heap q !! b = Some blk → run (body b acc) q = Ok (q, (f acc blk, next blk)).

Definition ring_blocks q (l : list nat) : list (Block T) := omap (λ b, heap q !! b) l.

Lemma run_around {A} (body : nat → A → prog (Queue T) (A * nat)) f q x fuel i b acc :
  looks body f → inv q x → ring x !! i = Some b → (length (ring x) - i ≤ fuel)%nat →
  run (around fuel (frontBlock q) b acc body) q = Ok (q, foldl f acc (ring_blocks q (drop i (ring x)))).
Proof.
  intros Hbody Hi. revert i b acc. induction fuel as [|fuel IH]; intros i b acc Hb Hf;
    pose proof (lookup_lt_Some _ _ _ Hb) as Hlen; [lia|].
  destruct (i_place _ _ Hi _ _ Hb) as (blk & c & Hp). cbn [around].
  rewrite run_bind, (Hbody b blk acc q) by apply Hp. cbn [mbind result_bind].
  rewrite (drop_S _ b i Hb). unfold ring_blocks. cbn [omap list_omap]. rewrite (p_heap _ _ _ _ _ _ Hp). cbn [foldl].
  pose proof (p_next _ _ _ _ _ _ Hp) as Hn. destruct (decide (S i = length (ring x))) as [E|E].
  - rewrite E, Nat.Div0.mod_same, (i_front _ _ Hi) in Hn. injection Hn as Hn.
    rewrite bool_decide_eq_false_2 by congruence. by rewrite drop_ge by lia.
  - rewrite Nat.mod_small in Hn by lia. rewrite bool_decide_eq_true_2.
    + apply IH; [done|lia].
    + intros En. rewrite En in Hn. pose proof (NoDup_lookup _ _ _ _ (i_nodup _ _ Hi) Hn (i_front _ _ Hi)). lia.
Qed.

Lemma foldl_u64 {B} (g : B → Z) l acc : 0 ≤ acc < 2 ^ 64 →
  foldl (λ a b, u64 (a + g b)) acc l = u64 (acc + foldr (λ b s, g b + s) 0 l).
Proof.
  revert acc. induction l as [|b l IH]; intros acc Ha; cbn.
  - by rewrite Z.add_0_r, wrap_small.
  - rewrite IH by (by apply wrap_range). rewrite wrap_add_wrap_l. f_equal. lia.
Qed.

(** The number of elements of a block, as the code computes it. *)
Lemma block_count blk (c : Counters T) tk pl : block_ok blk c tk pl →
  Z.land (u64 (tail blk - front blk)) (sizeMask blk) = Z.of_nat (length (elems c)).
Proof.
  intros H. pose proof (b_order _ _ _ _ H). pose proof (b_room _ _ _ _ H). pose proof (b_count _ _ _ _ H).
  destruct (b_size _ _ _ _ H) as (k & Hk & Em). rewrite (b_tail _ _ _ _ H), (b_front _ _ _ _ H), Em.
  replace (2 ^ k - 1 + 1) with (2 ^ k) by lia. replace (2 ^ k - 1) with (Z.ones k) by (rewrite Z.ones_equiv; lia).
  rewrite Z.land_ones by lia. unfold wrap.
  rewrite <-Znumtheory.Zmod_div_mod; [|lia|lia|exists (2 ^ (64 - k)); rewrite <-Z.pow_add_r by lia; f_equal; lia].
  rewrite <-Zminus_mod. replace (c_t c - c_f c) with (Z.of_nat (length (elems c))) by lia.
  apply Z.mod_small. lia.
Qed.

(** The elements of all the blocks. *)
Lemma ring_count q x l : inv q x → (∀ b, b ∈ l → b ∈ ring x) →
  foldr (λ blk s, Z.land (u64 (tail blk - front blk)) (sizeMask blk) + s) 0 (ring_blocks q l) =
  Z.of_nat (length (mjoin (elems_of x <$> l))).
Proof.
  intros Hi. induction l as [|b l IH]; intros Hl; [done|].
  assert (b ∈ ring x) as [i Hb]%list_elem_of_lookup by (apply Hl; left).
  destruct (i_place _ _ Hi _ _ Hb) as (blk & c & Hp). 
  change (mjoin (elems_of x <$> b :: l)) with (elems_of x b ++ mjoin (elems_of x <$> l)).
  unfold ring_blocks. cbn [omap list_omap]. rewrite (p_heap _ _ _ _ _ _ Hp). cbn [foldr].
  rewrite (block_count _ _ _ _ (p_block _ _ _ _ _ _ Hp)), length_app, (elems_of_cnt _ _ _ (p_cnt _ _ _ _ _ _ Hp)).
  change (omap (λ b, heap q !! b) l) with (ring_blocks q l). rewrite IH; [lia|]. intros b' Hb'. apply Hl. by right.
Qed.

(** The blocks beyond the tail block have no elements. *)
Lemma beyond_empty q x : inv q x → staged x = [] → mjoin (elems_of x <$> drop (S (tpos x)) (ring x)) = [].
Proof.
  intros Hi Hst. apply join_nil. apply Forall_fmap, Forall_lookup. intros i b Hb. rewrite lookup_drop in Hb.
  destruct (i_place _ _ Hi _ _ Hb) as (blk & c & Hp). cbn. rewrite (elems_of_cnt _ _ _ (p_cnt _ _ _ _ _ _ Hp)).
  destruct i as [|i]; [rewrite <-Hst; apply (p_staged _ _ _ _ _ _ Hp); lia|apply (p_beyond _ _ _ _ _ _ Hp); lia].
Qed.

Lemma run_size_approx q vs fuel : quiet q vs → (size (heap q) ≤ fuel)%nat →
  run (size_approx fuel) q = Ok (q, u64 (Z.of_nat (length vs))).
Proof.
  intros (_ & _ & x & Hi & _ & Hst & _ & Hl & _) Hf. pose proof (ring_in_heap _ _ Hi). unfold size_approx. rewrite run_load.
  erewrite (run_around _ (λ acc blk, u64 (acc + Z.land (u64 (tail blk - front blk)) (sizeMask blk))) q x fuel 0);
    [|intros b blk acc q' Hb; cbn; by rewrite !Hb|done|apply Hi|lia].
  rewrite foldl_u64 by done. rewrite drop_0, (ring_count q x) by done. do 4 f_equal.
  rewrite <-Hl. unfold live. rewrite <-(take_drop (S (tpos x)) (ring x)) at 1.
  rewrite fmap_app, join_app, length_app.
  rewrite (beyond_empty q x Hi Hst). cbn. lia.
Qed.

Lemma run_max_capacity q x fuel : inv q x → (size (heap q) ≤ fuel)%nat →
  run (max_capacity fuel) q = Ok (q, u64 (foldr (λ blk s, sizeMask blk + s) 0 (ring_blocks q (ring x)))).
Proof.
  intros Hi Hf. pose proof (ring_in_heap _ _ Hi). unfold max_capacity. rewrite run_load.
  erewrite (run_around _ (λ acc blk, u64 (acc + sizeMask blk)) q x fuel 0);
    [|intros b blk acc q' Hb; cbn; by rewrite !Hb|done|apply Hi|lia].
  by rewrite foldl_u64, drop_0.
Qed.

(** ** A new queue *)

Context (HMAX : ∃ m, 1 ≤ m < 63 ∧ MAX_BLOCK_SIZE = 2 ^ m).

(** [n] empty blocks of [2^k] slots, with room for [size] elements even when one block cannot be used. *)
Record fresh_queue (size k : Z) (n : nat) q : Prop := {
  f_chained : chained (2 ^ k) n q;
  f_front : frontBlock q = 1%nat;
  f_tail : tailBlock q = 1%nat;
  f_largest : largestBlockSize q = 2 ^ k;
  f_enqueuing : enqueuing q = false;
  f_dequeuing : dequeuing q = false;
  f_size : 1 ≤ k < 64;
  f_blocks : (1 ≤ n)%nat;
  f_room : n = 1%nat ∧ size ≤ 2 ^ k - 1 ∨ size ≤ (Z.of_nat n - 1) * (2 ^ k - 1)
}.

Lemma fresh_quiet size k n q : fresh_queue size k n q → quiet q [].
Proof.
  intros []. split_and!; [done..|]. exists (initial_aux n q).
  pose proof (chained_inv k n q f_size0 f_blocks0 f_chained0 f_largest0 f_front0 f_tail0) as Hi.
  split_and!; [done..| |].
  - pose proof (i_history _ _ Hi) as Hh. by cbn in Hh.
  - intros b Hb%(ch_heap _ _ _ f_chained0). apply elem_of_seq. lia.
Qed.

Lemma HMAX' : ∃ m, 1 ≤ m < 64 ∧ MAX_BLOCK_SIZE = 2 ^ m.
Proof. destruct HMAX as (m & ? & ?). exists m. split; [lia|done]. Qed.

Lemma max_block_pow2 : ceilToPow2 MAX_BLOCK_SIZE = MAX_BLOCK_SIZE ∧ 2 ≤ MAX_BLOCK_SIZE.
Proof.
  destruct HMAX as (m & Hm & ->). assert (2 ^ 1 ≤ 2 ^ m) by (apply Z.pow_le_mono_r; lia).
  assert (2 ^ m ≤ 2 ^ 63) by (apply Z.pow_le_mono_r; lia).
  destruct (ceilToPow2_pow2 (2 ^ m)) as (k & Hk & -> & Hle); [lia|]. split; [|lia]. f_equal.
  assert (2 * 2 ^ m = 2 ^ (m + 1)) as E by (rewrite Z.pow_add_r; lia). rewrite E in Hle.
  destruct Hle as [H1%Z.pow_le_mono_r_iff H2%Z.pow_lt_mono_r_iff]; lia.
Qed.

(** Enough blocks of the largest size. *)
Lemma block_count_enough size : MAX_BLOCK_SIZE ≤ size ≤ 2 ^ 62 →
  let n := u64 (size + u64 (MAX_BLOCK_SIZE * 2) - 3) / (MAX_BLOCK_SIZE - 1) in
  1 ≤ n ∧ size ≤ (n - 1) * (MAX_BLOCK_SIZE - 1).
Proof.
  pose proof max_block_pow2 as [_ HM]. destruct HMAX as (m & Hm & E). intros Hs n.
  assert (MAX_BLOCK_SIZE ≤ 2 ^ 62) by (rewrite E; apply Z.pow_le_mono_r; lia).
  subst n. rewrite (wrap_small 64 (MAX_BLOCK_SIZE * 2)), wrap_small by lia.
  set (M := MAX_BLOCK_SIZE - 1) in *. replace (size + MAX_BLOCK_SIZE * 2 - 3) with (size + 2 * M - 1) by lia.
  pose proof (Z.div_mod (size + 2 * M - 1) M ltac:(lia)). pose proof (Z.mod_pos_bound (size + 2 * M - 1) M ltac:(lia)).
  assert (0 ≤ (size + 2 * M - 1) / M) by (apply Z.div_pos; lia). nia.
Qed.

Abbreviation constructed size := (run (construct_queue MAX_BLOCK_SIZE lay malloc size) (@no_queue T)).

(** The end of the constructor. *)
Lemma run_construct_end q (p : prog (Queue T) nat) (r : result (Queue T * nat)) :
  run p q = r →
  run (firstBlock ← p;
       store (set_frontBlock firstBlock) ;;
       store (set_tailBlock firstBlock) ;;
       fence memory_order_sync) q =
  match r with
  | Ok (q', b) => Ok (set_tailBlock b (set_frontBlock b q'), tt)
  | Fault e => Fault e
  end.
Proof. intros <-. rewrite run_bind. by destruct (run p q) as [[q' b]|]. Qed.

Lemma run_construct_start size : constructed size =
  run (firstBlock ← (
         if ceilToPow2 (u64 (size + 1)) >? u64 (MAX_BLOCK_SIZE * 2) then
           store (set_largestBlockSize MAX_BLOCK_SIZE) ;;
           chain lay malloc (Z.to_nat (u64 (size + u64 (MAX_BLOCK_SIZE * 2) - 3) / (MAX_BLOCK_SIZE - 1))) nullptr nullptr
         else
           firstBlock ← make_block lay malloc (ceilToPow2 (u64 (size + 1)));
           check_block firstBlock ;;
           put firstBlock (set_next firstBlock) ;;
           mret firstBlock);
       store (set_frontBlock firstBlock) ;;
       store (set_tailBlock firstBlock) ;;
       fence memory_order_sync) (set_largestBlockSize (ceilToPow2 (u64 (size + 1))) (@no_queue T)).
Proof.
  pose proof max_block_pow2 as [EM HM]. unfold construct_queue.
  rewrite EM, Z.eqb_refl, (proj2 (Z.leb_le _ _) HM). unfold assert.
  rewrite run_store, run_store, run_done, run_done, run_store, run_load. reflexivity.
Qed.

Lemma run_construct size : 1 ≤ size ≤ 2 ^ 62 →
  (∃ q k n, constructed size = Ok (q, tt) ∧ fresh_queue size k n q) ∨ no_memory (constructed size).
Proof.
  intros Hs. rewrite run_construct_start, (wrap_small 64 (size + 1)) by lia.
  pose proof max_block_pow2 as [_ HM].
  destruct (ceilToPow2_pow2 (size + 1)) as (k & Hk & Ek & Hle); [lia|].
  assert (1 ≤ k) by (apply (Z.pow_le_mono_r_iff 2); lia). rewrite Ek.
  set (q0 := set_largestBlockSize (2 ^ k) no_queue). destruct (Z.gtb_spec (2 ^ k) (u64 (MAX_BLOCK_SIZE * 2))) as [Hgt|_].
  - assert (MAX_BLOCK_SIZE ≤ size) as HMs.
    { destruct HMAX as (m & Hm & E). assert (2 ^ m ≤ 2 ^ 62) by (apply Z.pow_le_mono_r; lia).
      rewrite wrap_small in Hgt; lia. }
    pose proof (block_count_enough size ltac:(lia)) as Hn. cbv zeta in Hn.
    set (n := u64 (size + u64 (MAX_BLOCK_SIZE * 2) - 3) / (MAX_BLOCK_SIZE - 1)) in *.
    destruct (Z.to_nat n) as [|n'] eqn:En; [lia|].
    destruct (run_chain_first n' (set_largestBlockSize MAX_BLOCK_SIZE q0)) as [(q' & Er & Hc & Hf)|[Er Hno]]; [done..| |].
    + left. destruct HMAX as (m & Hm & E). eexists _, m, (S n'). split; [rewrite (run_construct_end q0 _ (Ok (q', 1%nat))); [reflexivity|exact Er]|].
      destruct Hf as (Hf1 & Hf2 & Hf3).
      split; cbn; rewrite ?Hf1, ?Hf2, ?Hf3; [|done..|exact E|done|done|lia|lia|].
      { rewrite <-E. by apply (chained_ext _ _ q'). }
      right. rewrite <-E. replace (Z.of_nat (S n')) with n by lia. lia.
    + right. split; [|done]. by rewrite (run_construct_end q0 _ (Fault (Throw "bad_alloc"))).
  - match goal with |- context [run (_ ← (make_block lay malloc (2 ^ k) ≫= ?kk); _) q0] =>
      destruct (run_make_block (2 ^ k) kk q0) as [[E Er]|(raw & d & Er)] end.
    + right. split; [|eauto]. erewrite run_construct_end; [|exact Er]. done.
    + left. eexists _, k, 1%nat. split.
      * erewrite run_construct_end; [|rewrite Er, run_check by done; erewrite run_put by apply lookup_insert_eq; reflexivity].
        reflexivity.
      * split; try done; try lia.
        eapply chained_ext; [| |exact (chained_first (2 ^ k) q0 raw d eq_refl eq_refl)]; reflexivity.
Qed.

(** ** How much fits in *)

(** The free slots of a block, and of the tail block and those after it. *)
Definition free_in q (x : Aux T) (b : nat) : Z :=
  match heap q !! b with Some blk => sizeMask blk - Z.of_nat (length (elems_of x b)) | None => 0 end.
Definition free q (x : Aux T) : Z := foldr (λ b s, free_in q x b + s) 0 (drop (tpos x) (ring x)).

(** The producer is between two calls. *)
Definition resting q (x : Aux T) : Prop := inv q x ∧ placed x = None ∧ staged x = [] ∧ enqueuing q = false.

Lemma free_ext q x q' x' : ring x' = ring x → tpos x' = tpos x → (∀ b, b ∈ ring x → free_in q' x' b = free_in q x b) →
  free q' x' = free q x.
Proof.
  intros Er Et Hf. unfold free. rewrite Er, Et. assert (∀ b, b ∈ drop (tpos x) (ring x) → b ∈ ring x) as Hin.
  { intros b Hb. rewrite <-(take_drop (tpos x) (ring x)). apply elem_of_app. by right. }
  revert Hin. generalize (drop (tpos x) (ring x)). intros l. induction l as [|b l IH]; intros Hin; [done|].
  cbn. rewrite IH by (intros; apply Hin; by right). rewrite Hf; [done|]. apply Hin. left.
Qed.

(** The tail block and the rest. *)
Lemma free_tail q x b : ring x !! tpos x = Some b →
  free q x = free_in q x b + foldr (λ b s, free_in q x b + s) 0 (drop (S (tpos x)) (ring x)).
Proof. intros Hb. unfold free. by rewrite (drop_S _ _ _ Hb). Qed.

Lemma foldr_free_ext q x q' x' l : (∀ b, b ∈ l → free_in q' x' b = free_in q x b) →
  foldr (λ b s, free_in q' x' b + s) 0 l = foldr (λ b s, free_in q x b + s) 0 l.
Proof.
  intros H. induction l as [|b l IH]; [done|]. cbn. rewrite IH by (intros; apply H; by right).
  by rewrite H by left.
Qed.

Lemma free_push q x q' x' b : NoDup (ring x) → ring x' = ring x → tpos x' = tpos x → ring x !! tpos x = Some b →
  free_in q' x' b = free_in q x b - 1 → (∀ b', b' ≠ b → free_in q' x' b' = free_in q x b') →
  free q' x' = free q x - 1.
Proof.
  intros Hn Er Et Hb Hf Ho. rewrite (free_tail q x b Hb), (free_tail q' x' b) by (by rewrite Er, Et).
  rewrite Er, Et, (foldr_free_ext q x q' x'); [lia|]. intros b' [i Hi]%list_elem_of_lookup. rewrite lookup_drop in Hi.
  apply Ho. intros ->. pose proof (NoDup_lookup _ _ _ _ Hn Hb Hi). lia.
Qed.

(** What one call of the producer leaves, when it does not allocate: [n] slots fewer are free. *)
Record filled (n : Z) q (x : Aux T) q' (x' : Aux T) : Prop := {
  fi_inv : inv q' x';
  fi_ring : ring x' = ring x;
  fi_placed : placed x' = None;
  fi_staged : staged x' = [];
  fi_enqueuing : enqueuing q' = enqueuing q;
  fi_allocations : allocations q' = allocations q;
  fi_free : free q' x' = free q x - n
}.

Lemma run_construct_slot {A} b blk c tk (k : unit → prog (Queue T) A) v q :
  heap q !! b = Some blk → block_ok blk c tk false →
  run (construct b (tail blk) v ≫= k) q =
  run (k tt) (set_heap (<[b := set_slots (<[tail blk := v]> (slots blk)) blk]> (heap q)) q).
Proof.
  intros Hb Hbo. cbn. rewrite Hb, bool_decide_eq_true_2 by (by eapply tail_in_range).
  by rewrite (tail_slot_free _ _ _ Hbo).
Qed.

Lemma free_in_insert q x b c b' x' blk' : cnt x' = <[b := c]> (cnt x) →
  free_in (set_heap (<[b := blk']> (heap q)) q) x' b' =
  if decide (b' = b) then sizeMask blk' - Z.of_nat (length (elems c)) else free_in q x b'.
Proof.
  intros Ec. unfold free_in. cbn. rewrite (elems_of_insert _ _ _ _ _ Ec). case_decide as E.
  - by rewrite E, lookup_insert_eq.
  - by rewrite lookup_insert_ne.
Qed.

Lemma free_in_place q x i b blk c : place_ok q x i b blk c →
  free_in q x b = sizeMask blk - Z.of_nat (length (elems c)).
Proof.
  intros Hp. unfold free_in. rewrite (p_heap _ _ _ _ _ _ Hp).
  by rewrite (elems_of_cnt _ _ _ (p_cnt _ _ _ _ _ _ Hp)).
Qed.

Lemma run_fast q x b blk c v : inv q x → ring x !! tpos x = Some b → place_ok q x (tpos x) b blk c →
  placed x = None → staged x = [] → c_t c + 1 - c_lf c ≤ sizeMask blk →
  ∃ q' x', run (construct b (tail blk) v ;; put b (set_tail ((c_t c + 1) `mod` (sizeMask blk + 1))) ;; mret true) q =
    Ok (q', true) ∧ filled 1 q x q' x'.
Proof.
  intros Hi Hb Hp Hpl Hst Hroom. pose proof (p_block _ _ _ _ _ _ Hp) as Hbo.
  rewrite Hpl in Hbo. erewrite run_construct_slot; [|apply Hp|exact Hbo].
  destruct (construct_tail q x _ b blk c v Hi Hb Hp Hpl) as [Hi1 _].
  set (q1 := set_heap _ q) in *. set (x1 := mk_Aux _ _ _ _ _ _ _ _) in *.
  set (blk1 := set_slots (<[tail blk := v]> (slots blk)) blk) in *.
  assert (place_ok q1 x1 (tpos x1) b blk1 c) as Hp1.
  { destruct (i_place _ _ Hi1 (tpos x1) b Hb) as (blk' & c' & Hp').
    pose proof (p_heap _ _ _ _ _ _ Hp') as E1. cbn in E1. rewrite lookup_insert_eq in E1.
    pose proof (p_cnt _ _ _ _ _ _ Hp') as E2. cbn in E2. rewrite lookup_insert_eq in E2. by simplify_eq. }
  erewrite run_put by apply Hp1.
  destruct (publish_tail q1 x1 b blk1 c v Hi1 Hb Hp1 eq_refl) as [Hi2 _]; [apply lookup_insert_eq|exact Hroom|].
  eexists _, _. split; [reflexivity|]. split; [exact Hi2|done..|].
  eapply free_push; [apply Hi|done|done|exact Hb|..].
  - erewrite free_in_insert by reflexivity. rewrite decide_True, (free_in_place _ _ _ _ _ _ Hp) by done.
    cbn. rewrite length_app. cbn. lia.
  - intros b' Hne. erewrite free_in_insert by reflexivity. rewrite decide_False by done.
    etrans; [exact (free_in_insert q x b c b' x1 blk1 eq_refl)|]. by rewrite decide_False.
Qed.

(** The place of a block that was just written. *)
Lemma place_at q x i b blk c : inv q x → ring x !! i = Some b → heap q !! b = Some blk → cnt x !! b = Some c →
  place_ok q x i b blk c.
Proof.
  intros Hi Hb Hh Hc. destruct (i_place _ _ Hi i b Hb) as (blk' & c' & Hp).
  pose proof (p_heap _ _ _ _ _ _ Hp). pose proof (p_cnt _ _ _ _ _ _ Hp). by simplify_eq.
Qed.

(** The element goes into the block after the full tail block. *)
Lemma run_stage q x b blk c v : inv q x → ring x !! S (tpos x) = Some b → place_ok q x (S (tpos x)) b blk c →
  placed x = None → staged x = [] → free_in q x (tailBlock q) = 0 → c_t c + 1 - c_lf c ≤ sizeMask blk →
  ∃ q' x', run (construct b (tail blk) v ;;
                mask ← get b sizeMask;
                put b (set_tail (Z.land (u64 (tail blk + 1)) mask)) ;;
                fence memory_order_release ;;
                store (set_tailBlock b) ;;
                mret true) q = Ok (q', true) ∧ filled 1 q x q' x'.
Proof.
  intros Hi Hb Hp Hpl Hst Hfull Hroom. pose proof (p_block _ _ _ _ _ _ Hp) as Hbo. rewrite Hpl in Hbo.
  pose proof (i_tail _ _ Hi) as Ht.
  assert (b ≠ tailBlock q) as Hne by (intros ->; pose proof (NoDup_lookup _ _ _ _ (i_nodup _ _ Hi) Hb Ht); lia).
  erewrite run_construct_slot; [|apply Hp|exact Hbo].
  destruct (construct_tail q x _ b blk c v Hi Hb Hp Hpl) as [Hi1 _].
  pose proof (place_at _ _ (S (tpos x)) b _ _ Hi1 Hb (lookup_insert_eq _ _ _) (lookup_insert_eq _ _ _)) as Hp1.
  erewrite run_get by apply lookup_insert_eq. erewrite run_put by apply lookup_insert_eq.
  destruct (stage_tail _ _ b _ c v Hi1 Hb Hp1 eq_refl Hst (lookup_insert_eq _ _ _) Hroom) as [Hi2 _].
  cbn [sizeMask set_slots] in Hi2 |- *. rewrite (b_tail _ _ _ _ Hbo), (next_index _ _ _ _ _ Hbo).
  rewrite (b_tail _ _ _ _ Hbo) in Hi2. destruct (publish_block _ _ b v Hi2 Hb eq_refl eq_refl) as [Hi3 _].
  eexists _, _. split; [reflexivity|]. split; [exact Hi3|done..|].
  rewrite (free_tail q x _ Ht), Hfull, Z.add_0_l. erewrite free_tail by exact Hb.
  rewrite (drop_S _ _ _ Hb). cbn [foldr].
  match goal with |- free_in ?q3 ?x3 _ + _ = _ => assert (∀ b', free_in q3 x3 b' =
    if decide (b' = b) then free_in q x b - 1 else free_in q x b') as Hf end.
  { intros b'. unfold free_in at 1, elems_of at 1. cbn. destruct (decide (b' = b)) as [E|E].
    - rewrite E, !lookup_insert_eq, (free_in_place _ _ _ _ _ _ Hp). cbn. rewrite length_app. cbn. lia.
    - by rewrite !lookup_insert_ne by done. }
  rewrite Hf, decide_True by done. rewrite (foldr_free_ext q x); [cbn [ring tpos]; lia|].
  intros b' [i Hi']%list_elem_of_lookup. rewrite lookup_drop in Hi'. rewrite Hf, decide_False; [done|].
  intros ->. cbn in Hi'. pose proof (NoDup_lookup _ _ _ _ (i_nodup _ _ Hi) Hb Hi'). lia.
Qed.

Lemma run_next_block q x b blk c v : inv q x → ring x !! S (tpos x) = Some b →
  place_ok q x (S (tpos x)) b blk c → placed x = None → staged x = [] → free_in q x (tailBlock q) = 0 →
  ∃ q' x', run (nextBlockFront ← get b front;
                put b (set_localFront nextBlockFront) ;;
                nextBlockTail ← get b tail;
                fence memory_order_acquire ;;
                assert (nextBlockFront =? nextBlockTail) "nextBlockFront == nextBlockTail" ;;
                put b (set_localFront nextBlockFront) ;;
                construct b nextBlockTail v ;;
                mask ← get b sizeMask;
                put b (set_tail (Z.land (u64 (nextBlockTail + 1)) mask)) ;;
                fence memory_order_release ;;
                store (set_tailBlock b) ;;
                mret true) q = Ok (q', true) ∧ filled 1 q x q' x'.
Proof.
  intros Hi Hb Hp Hpl Hst Hfull. pose proof (p_block _ _ _ _ _ _ Hp) as Hbo. pose proof (mask_pos _ _ _ _ Hbo).
  assert (elems c = []) as Ee by (rewrite <-Hst; by apply (p_staged _ _ _ _ _ _ Hp)).
  assert (c_f c = c_t c) as Eft by (by apply (elems_empty _ _ _ _ Hbo)).
  pose proof (i_tail _ _ Hi) as Ht.
  assert (b ≠ tailBlock q) as Hne by (intros ->; pose proof (NoDup_lookup _ _ _ _ (i_nodup _ _ Hi) Hb Ht); lia).
  erewrite run_get by apply Hp. erewrite run_put by apply Hp. erewrite run_get by apply lookup_insert_eq.
  cbn [tail set_localFront]. rewrite (b_front _ _ _ _ Hbo), (b_tail _ _ _ _ Hbo), Eft, Z.eqb_refl.
  rewrite run_fence, run_assert. erewrite run_put by apply lookup_insert_eq.
  destruct (put_localFront q x _ b blk c (c_t c) Hi Hb Hp) as [Hi1 _]; [lia|lia|].
  pose proof (place_at _ _ (S (tpos x)) b _ _ Hi1 Hb (lookup_insert_eq _ _ _) (lookup_insert_eq _ _ _)) as Hp1.
  destruct (put_localFront _ _ _ b _ _ (c_t c) Hi1 Hb Hp1) as [Hi2 _]; [cbn; lia|cbn; lia|].
  pose proof (place_at _ _ (S (tpos x)) b _ _ Hi2 Hb (lookup_insert_eq _ _ _) (lookup_insert_eq _ _ _)) as Hp2.
  cbn [sizeMask set_localFront] in Hp2, Hi2 |- *.
  destruct (run_stage _ _ b _ _ v Hi2 Hb Hp2 Hpl Hst) as (q' & x' & Er & []).
  - unfold free_in, elems_of in *. cbn in *. by rewrite !lookup_insert_ne.
  - cbn. lia.
  - exists q', x'. split; [cbn [tail set_localFront] in Er; by rewrite (b_tail _ _ _ _ Hbo) in Er|]. split; try done.
    rewrite fi_free0. f_equal. apply free_ext; [done..|]. intros b' _. unfold free_in, elems_of. cbn.
    destruct (decide (b' = b)) as [->|E]; [|by rewrite !lookup_insert_ne].
    by rewrite !lookup_insert_eq, (p_heap _ _ _ _ _ _ Hp), (p_cnt _ _ _ _ _ _ Hp).
Qed.

(** The check for room in the tail block is right: a stale [localFront] is read again. *)
Lemma run_room q x b blk c : inv q x → ring x !! tpos x = Some b → place_ok q x (tpos x) b blk c →
  placed x = None → staged x = [] →
  ∃ q1 x1 blk1 c1,
    run (if bool_decide ((c_t c + 1) `mod` (sizeMask blk + 1) ≠ localFront blk) then mret true
         else f ← get b front;
              put b (set_localFront f) ;;
              mret (bool_decide ((c_t c + 1) `mod` (sizeMask blk + 1) ≠ f))) q =
      Ok (q1, bool_decide (0 < free_in q x b)) ∧
    filled 0 q x q1 x1 ∧ tpos x1 = tpos x ∧ tailBlock q1 = tailBlock q ∧ frontBlock q1 = frontBlock q ∧
    place_ok q1 x1 (tpos x) b blk1 c1 ∧ tail blk1 = tail blk ∧ sizeMask blk1 = sizeMask blk ∧ c_t c1 = c_t c ∧
    free_in q1 x1 b = free_in q x b ∧ (0 < free_in q x b → c_t c1 + 1 - c_lf c1 ≤ sizeMask blk).
Proof.
  intros Hi Hb Hp Hpl Hst. pose proof (p_block _ _ _ _ _ _ Hp) as Hbo.
  pose proof (b_order _ _ _ _ Hbo). pose proof (b_room _ _ _ _ Hbo). pose proof (b_count _ _ _ _ Hbo).
  rewrite (free_in_place _ _ _ _ _ _ Hp).
  destruct (decide ((c_t c + 1) `mod` (sizeMask blk + 1) = localFront blk)) as [E|E].
  - rewrite bool_decide_eq_false_2 by (intros ?; done). erewrite run_get by apply Hp. erewrite run_put by apply Hp.
    rewrite (b_front _ _ _ _ Hbo). destruct (put_localFront q x _ b blk c (c_f c) Hi Hb Hp) as [Hi1 _]; [lia|lia|].
    pose proof (place_at _ _ _ b _ _ Hi1 Hb (lookup_insert_eq _ _ _) (lookup_insert_eq _ _ _)) as Hp1.
    eexists _, _, _, _. split_and!; [| | | | |exact Hp1|..]; try done; [cbn; repeat f_equal|..|cbn; lia].
    + apply bool_decide_ext. split; [|intros ? ?].
      * intros Hd. pose proof (index_differs _ _ _ _ (c_f c) Hbo ltac:(lia) ltac:(lia) Hd). lia.
      * assert (c_f c = c_t c + 1); [|lia]. apply (mod_same _ _ (sizeMask blk + 1)); [lia..|done].
    + split; [exact Hi1|done..|]. rewrite Z.sub_0_r. apply free_ext; [done..|]. intros b' _.
      erewrite free_in_insert by reflexivity. destruct (decide (b' = b)) as [->|]; [by rewrite (free_in_place _ _ _ _ _ _ Hp)|done].
    + erewrite free_in_insert by reflexivity. by rewrite decide_True.
  - rewrite bool_decide_eq_true_2 by done. rewrite (b_localFront _ _ _ _ Hbo) in E.
    pose proof (index_differs _ _ _ _ (c_lf c) Hbo ltac:(lia) ltac:(lia) E).
    exists q, x, blk, c. rewrite bool_decide_eq_true_2, (free_in_place _ _ _ _ _ _ Hp) by lia.
    split_and!; try done. split; try done. lia.
Qed.

Lemma filled_trans n m q x q1 x1 q2 x2 : filled n q x q1 x1 → filled m q1 x1 q2 x2 → filled (n + m) q x q2 x2.
Proof. intros [] []. split; try congruence; lia. Qed.

(** The next block is the first one only at the end of the ring. *)
Lemma next_is_front q x b blk c : inv q x → place_ok q x (tpos x) b blk c →
  next blk = frontBlock q ↔ length (ring x) = S (tpos x).
Proof.
  intros Hi Hp. pose proof (p_next _ _ _ _ _ _ Hp) as Hn. pose proof (i_front _ _ Hi) as Hf.
  pose proof (lookup_lt_Some _ _ _ (i_tail _ _ Hi)). split.
  - intros E. rewrite E in Hn. pose proof (NoDup_lookup _ _ _ _ (i_nodup _ _ Hi) Hn Hf) as E0.
    destruct (decide (S (tpos x) = length (ring x))); [done|]. rewrite Nat.mod_small in E0; lia.
  - intros E. rewrite E, Nat.Div0.mod_same, Hf in Hn. by injection Hn.
Qed.

Lemma free_in_nonneg q x b : inv q x → 0 ≤ free_in q x b ∨ b ∉ ring x.
Proof.
  intros Hi. destruct (decide (b ∈ ring x)) as [[i Hb]%list_elem_of_lookup|]; [left|by right].
  destruct (i_place _ _ Hi _ _ Hb) as (blk & c & Hp). rewrite (free_in_place _ _ _ _ _ _ Hp).
  pose proof (p_block _ _ _ _ _ _ Hp) as Hbo. pose proof (b_order _ _ _ _ Hbo). pose proof (b_room _ _ _ _ Hbo).
  pose proof (b_count _ _ _ _ Hbo). lia.
Qed.

(** Each block after the tail block is empty, and so has room. *)
Lemma free_beyond q x : inv q x → staged x = [] →
  let rest := foldr (λ b s, free_in q x b + s) 0 (drop (S (tpos x)) (ring x)) in
  0 ≤ rest ∧ (0 < rest ↔ (S (tpos x) < length (ring x))%nat).
Proof.
  intros Hi Hst rest.
  assert (∀ l, (∀ b, b ∈ l → b ∈ ring x) → 0 ≤ foldr (λ b s, free_in q x b + s) 0 l) as Hnn.
  { induction l as [|b l IH]; intros Hl; cbn; [done|].
    destruct (free_in_nonneg q x b Hi) as [|[]]; [|apply Hl; left].
    assert (0 ≤ foldr (λ b s, free_in q x b + s) 0 l) by (apply IH; intros; apply Hl; by right). lia. }
  assert (∀ n b, b ∈ drop n (ring x) → b ∈ ring x) as Hin.
  { intros n b Hb. rewrite <-(take_drop n (ring x)). apply elem_of_app. by right. }
  split; [by apply Hnn, Hin|]. split; intros H.
  - destruct (decide (S (tpos x) < length (ring x))%nat); [done|]. subst rest. by rewrite drop_ge in H by lia.
  - destruct (lookup_lt_is_Some_2 _ _ H) as [b Hb]. subst rest. rewrite (drop_S _ _ _ Hb). cbn [foldr].
    destruct (i_place _ _ Hi _ _ Hb) as (blk & c & Hp). rewrite (free_in_place _ _ _ _ _ _ Hp).
    rewrite (p_staged _ _ _ _ _ _ Hp eq_refl), Hst. pose proof (mask_pos _ _ _ _ (p_block _ _ _ _ _ _ Hp)).
    pose proof (Hnn (drop (S (S (tpos x))) (ring x)) (Hin _)). cbn. lia.
Qed.

(** [try_enqueue] succeeds exactly when there is a free slot in the tail block or in a block after it. *)
Lemma run_try_enqueue_ q x v : inv q x → placed x = None → staged x = [] →
  ∃ q' x', run (inner_enqueue_ MAX_BLOCK_SIZE lay malloc CannotAlloc v) q = Ok (q', bool_decide (0 < free q x)) ∧
    filled (if bool_decide (0 < free q x) then 1 else 0) q x q' x'.
Proof.
  intros Hi Hpl Hst. pose proof (i_tail _ _ Hi) as Hb. destruct (i_place _ _ Hi _ _ Hb) as (blk & c & Hp).
  pose proof (p_block _ _ _ _ _ _ Hp) as Hbo. pose proof (p_heap _ _ _ _ _ _ Hp) as Hh. unfold inner_enqueue_.
  rewrite run_load. do 3 erewrite run_get by exact Hh. cbv zeta.
  assert (Z.land (u64 (tail blk + 1)) (sizeMask blk) = (c_t c + 1) `mod` (sizeMask blk + 1)) as ->.
  { rewrite (b_tail _ _ _ _ Hbo). by eapply next_index. }
  rewrite run_bind.
  destruct (run_room q x _ blk c Hi Hb Hp Hpl Hst) as
    (q1 & x1 & blk1 & c1 & -> & Hf1 & Ep & Et & Eh & Hp1 & E1 & E2 & E3 & E4 & Hroom).
  rewrite (free_tail q x _ Hb). cbn [mbind result_bind].

  destruct (free_beyond q x Hi Hst) as [Hnn Hpos]. set (rest := foldr _ _ _) in *.
  pose proof (fi_ring _ _ _ _ _ Hf1) as Er1. pose proof (fi_placed _ _ _ _ _ Hf1) as Hpl1.
  pose proof (fi_staged _ _ _ _ _ Hf1) as Hst1. pose proof (fi_inv _ _ _ _ _ Hf1) as Hi1.
  destruct (decide (0 < free_in q x (tailBlock q))) as [Hr|Hr].
  - rewrite !bool_decide_eq_true_2 by lia. rewrite run_fence, <-E1, <-E2, <-E3.
    destruct (run_fast q1 x1 (tailBlock q) blk1 c1 v) as (q' & x' & Er & Hf2); try done; [by rewrite Ep, Er1|by rewrite Ep|lia|].
    exists q', x'. split; [exact Er|]. exact (filled_trans _ _ _ _ _ _ _ _ Hf1 Hf2).
  - assert (free_in q x (tailBlock q) = 0) as E0.
    { destruct (free_in_nonneg q x (tailBlock q) Hi) as [|[]]; [lia|]. by eapply list_elem_of_lookup_2. }
    rewrite bool_decide_eq_false_2 by lia. rewrite run_fence. erewrite run_get by apply Hp1. rewrite run_load, Eh, E0, Z.add_0_l.
    rewrite <-Ep in Hp1. pose proof (next_is_front q1 x1 _ blk1 c1 Hi1 Hp1) as Hnx. rewrite Eh, Er1, Ep in Hnx.
    pose proof (lookup_lt_Some _ _ _ Hb).
    destruct (decide (S (tpos x) < length (ring x))%nat) as [Hlt|Hge].
    + rewrite (bool_decide_eq_true_2 (next blk1 ≠ frontBlock q)), (bool_decide_eq_true_2 (0 < rest)) by (rewrite ?Hnx; lia).
      rewrite run_fence. erewrite run_get by apply Hp1.
      pose proof (p_next _ _ _ _ _ _ Hp1) as Hn. rewrite Ep, Er1, Nat.mod_small in Hn by lia.
      rewrite <-Ep, <-Er1 in Hn. destruct (i_place _ _ Hi1 _ _ Hn) as (blk2 & c2 & Hp2).
      destruct (run_next_block q1 x1 (next blk1) blk2 c2 v) as (q' & x' & Er & Hf2); try done; [by rewrite Et, E4|].
      exists q', x'. split; [exact Er|]. exact (filled_trans _ _ _ _ _ _ _ _ Hf1 Hf2).
    + rewrite (bool_decide_eq_false_2 (next blk1 ≠ frontBlock q)), (bool_decide_eq_false_2 (0 < rest)) by (rewrite ?Hnx; lia).
      exists q1, x1. done.
Qed.

Lemma free_fields q x f t l e d n : free (mk_Queue f t l e d (heap q) n) x = free q x.
Proof. reflexivity. Qed.

Lemma run_try_enqueue q x v : resting q x →
  ∃ q' x', run (try_enqueue MAX_BLOCK_SIZE lay malloc v) q = Ok (q', bool_decide (0 < free q x)) ∧ resting q' x' ∧
    allocations q' = allocations q ∧ free q' x' = free q x - if bool_decide (0 < free q x) then 1 else 0.
Proof.
  intros (Hi & Hpl & Hst & Hen). unfold try_enqueue, inner_enqueue, reentrant.
  rewrite run_load, Hen. cbn [negb]. rewrite run_assert, run_store, run_bind.
  pose proof (inv_fields q x true (dequeuing q) (allocations q) _ Hi ltac:(lia) (i_largest _ _ Hi)) as Hi1.
  destruct (run_try_enqueue_ _ x v Hi1 Hpl Hst) as (q' & x' & Er & []). cbn in fi_enqueuing0, fi_allocations0.
  change (set_enqueuing true q) with
    (mk_Queue (frontBlock q) (tailBlock q) (largestBlockSize q) true (dequeuing q) (heap q) (allocations q)).
  rewrite Er. rewrite free_fields in *. cbn [mbind result_bind]. rewrite run_store.
  eexists _, x'. split; [reflexivity|]. split_and!; [|done|exact fi_free0].
  split_and!; [|done..]. apply inv_fields; [done|lia|apply fi_inv0].
Qed.

(** As many as there are free slots. *)
Lemma run_fill vs q x : resting q x → Z.of_nat (length vs) ≤ free q x →
  ∃ q' x', run (mapM (try_enqueue MAX_BLOCK_SIZE lay malloc) vs) q = Ok (q', replicate (length vs) true) ∧
    resting q' x' ∧ allocations q' = allocations q ∧ free q' x' = free q x - Z.of_nat (length vs).
Proof.
  revert q x. induction vs as [|v vs IH]; intros q x Hr Hf; cbn [length] in Hf |- *.
  - exists q, x. split_and!; try done. cbn. lia.
  - destruct (run_try_enqueue q x v Hr) as (q1 & x1 & Er & Hr1 & Ha & Ef). rewrite bool_decide_eq_true_2 in * by lia.
    destruct (IH q1 x1 Hr1) as (q2 & x2 & Er2 & Hr2 & Ha2 & Ef2); [lia|].
    exists q2, x2. cbn [mapM]. rewrite run_bind, Er. cbn [mbind result_bind]. rewrite run_bind, Er2.
    split_and!; [done..|congruence|lia].
Qed.

(** The values are those that were given. *)
Lemma run_fill_quiet vs q ws : quiet q ws →
  ∃ q' rs, run (mapM (try_enqueue MAX_BLOCK_SIZE lay malloc) vs) q = Ok (q', rs) ∧
    (rs = replicate (length vs) true → quiet q' (ws ++ vs)).
Proof.
  revert q ws. induction vs as [|v vs IH]; intros q ws Hq.
  - exists q, []. split; [done|]. by rewrite app_nil_r.
  - destruct (run_enqueue MAX_BLOCK_SIZE lay malloc HMAX' CannotAlloc v q ws Hq) as (q1 & r & Er & Hq1 & _).
    destruct (IH q1 _ Hq1) as (q2 & rs & Er2 & Hq2). exists q2, (r :: rs). cbn [mapM].
    rewrite run_bind. rewrite (Er : run (try_enqueue _ _ _ v) q = _). cbn [mbind result_bind]. rewrite run_bind, Er2.
    split; [done|]. cbn. intros [= -> E]. specialize (Hq2 E). by rewrite <-app_assoc in Hq2.
Qed.

Lemma fresh_free size k n q : fresh_queue size k n q → resting q (initial_aux n q) ∧ size ≤ free q (initial_aux n q).
Proof.
  intros []. pose proof (chained_inv k n q f_size0 f_blocks0 f_chained0 f_largest0 f_front0 f_tail0) as Hi.
  split; [by split_and!|]. assert (2 ^ 1 ≤ 2 ^ k < 2 ^ 64) by (split; [apply Z.pow_le_mono_r|apply Z.pow_lt_mono_r]; lia).
  assert (free q (initial_aux n q) = Z.of_nat n * (2 ^ k - 1)) as ->; [|nia].
  unfold free. cbn [initial_aux ring tpos]. rewrite drop_0.
  assert (∀ l, (∀ b, b ∈ l → (1 ≤ b ≤ n)%nat) →
    foldr (λ b s, free_in q (initial_aux n q) b + s) 0 l = Z.of_nat (length l) * (2 ^ k - 1)) as Hl.
  { induction l as [|b l IH]; intros Hl; [done|]. cbn [foldr length].
    rewrite IH by (intros; apply Hl; by right). destruct (ch_block _ _ _ f_chained0 b) as (raw & d & Hb); [apply Hl; left|].
    unfold free_in, elems_of. rewrite Hb. cbn. rewrite lookup_fmap, Hb. cbn. rewrite wrap_small by lia. lia. }
  rewrite Hl, length_seq; [done|]. intros b Hb%elem_of_seq. lia.
Qed.

End Bounds.

Section Destructor.
Context {T : Type}.
Implicit Types (q : Queue T).

(** ** The destructor *)

Lemma empty_slots blk (c : Counters T) : block_ok blk c false false → elems c = [] → slots blk = ∅.
Proof.
  intros H E. pose proof (mask_pos _ _ _ _ H). apply map_empty. intros i. destruct (slots blk !! i) as [v|] eqn:Ei; [|done].
  pose proof (b_range _ _ _ _ H _ _ Ei). set (n := sizeMask blk + 1) in *.
  pose proof (Z.mod_pos_bound (i - c_f c) n ltac:(lia)).
  pose proof (b_slots _ _ _ _ H (c_f c + (i - c_f c) `mod` n) ltac:(lia) ltac:(done) ltac:(done)) as Hs. fold n in Hs.
  rewrite Zplus_mod_idemp_r, E in Hs. replace (c_f c + (i - c_f c)) with i in Hs by lia.
  rewrite Z.mod_small in Hs by lia. by rewrite Ei in Hs.
Qed.

Lemma front_not_tail blk (c : Counters T) tk pl : block_ok blk c tk pl → elems c ≠ [] → front blk ≠ tail blk.
Proof.
  intros H Hne E. pose proof (mask_pos _ _ _ _ H). rewrite (b_front _ _ _ _ H), (b_tail _ _ _ _ H) in E.
  pose proof (b_order _ _ _ _ H). pose proof (b_room _ _ _ _ H). pose proof (b_count _ _ _ _ H).
  assert (c_f c = c_t c) by (apply (mod_same _ _ (sizeMask blk + 1)); [lia..|done]).
  destruct (elems c); [done|cbn in *; lia].
Qed.

(** The loop over the objects of a block, from where [vblk] says that it is. *)
Lemma run_destroy_elements fuel q b blk vblk (c : Counters T) : heap q !! b = Some blk → slots blk = slots vblk →
  sizeMask blk = sizeMask vblk → block_ok vblk c false false → c_lt c = c_t c → (length (elems c) ≤ fuel)%nat →
  run (destroy_elements fuel b (front vblk) (tail vblk)) q = Ok (set_heap (<[b := set_slots ∅ blk]> (heap q)) q, tt).
Proof.
  revert q blk vblk c. induction fuel as [|fuel IH]; intros q blk vblk c Hb Es Em Hbo Hlt Hf;
    (destruct (elems c) as [|v vs] eqn:Ee; [|]).
  1,3: pose proof (empty_slots _ _ Hbo Ee) as E0; pose proof (b_count _ _ _ _ Hbo) as Hc; rewrite Ee in Hc; cbn in Hc;
    unfold destroy_elements; rewrite bool_decide_eq_true_2
      by (rewrite (b_front _ _ _ _ Hbo), (b_tail _ _ _ _ Hbo); f_equal; lia);
    rewrite E0 in Es; cbn; rewrite <-Es; rewrite insert_id; [by destruct q|by destruct blk].
  { cbn in Hf. lia. }
  cbn [destroy_elements]. rewrite bool_decide_eq_false_2 by (eapply front_not_tail; [done|by rewrite Ee]).
  pose proof (front_slot_full _ _ _ _ _ Hbo Ee) as Hfs. rewrite run_bind.
  assert (run (destroy b (front vblk)) q = Ok (set_heap (<[b := set_slots (delete (front vblk) (slots blk)) blk]> (heap q)) q, tt))
    as ->; [cbn; by rewrite Hb, Es, Hfs|]. cbn [mbind result_bind].
  erewrite run_get by apply lookup_insert_eq. cbn [sizeMask set_slots].
  pose proof (block_ok_destroy _ _ _ Hbo ltac:(by rewrite Ee)) as Hd.
  pose proof (block_ok_front _ _ _ _ _ Hd ltac:(cbn; apply lookup_delete_eq) Ee) as Hn. cbn in Hn, Hf.
  pose proof (b_count _ _ _ _ Hbo) as Hc. rewrite Ee in Hc. cbn in Hc. specialize (Hn ltac:(lia)).
  replace (Z.land (u64 (front vblk + 1)) (sizeMask blk)) with ((c_f c + 1) `mod` (sizeMask vblk + 1))
    by (rewrite Em, (b_front _ _ _ _ Hbo); symmetry; by eapply next_index).
  etrans; [refine (IH _ _ _ _ (lookup_insert_eq _ _ _) _ _ Hn _ _); cbn; [by rewrite Es|done..|lia]|].
  cbn. by rewrite insert_insert_eq.
Qed.

(** The memory without some blocks. *)
Definition without (l : list nat) (h : gmap nat (Block T)) : gmap nat (Block T) := filter (λ p, p.1 ∉ l) h.

Lemma lookup_without l h b : b ∉ l → without l h !! b = h !! b.
Proof. intros Hb. unfold without. rewrite map_lookup_filter. destruct (h !! b); cbn; [|done]. by rewrite option_guard_True. Qed.

Lemma without_snoc l h b blk : b ∉ l → delete b (<[b := blk]> (without l h)) = without (l ++ [b]) h.
Proof.
  intros Hb. unfold without. rewrite delete_insert_eq. apply map_eq. intros b'. rewrite lookup_delete, !map_lookup_filter.
  case_decide as E.
  - subst b'. destruct (h !! b); cbn; [|done]. rewrite option_guard_False; [done|]. set_solver.
  - destruct (h !! b'); cbn; [|done]. apply option_guard_iff. set_solver.
Qed.

Lemma run_destroy_block per_block q b blk (c : Counters T) : heap q !! b = Some blk → block_ok blk c false false →
  (length (elems c) ≤ per_block)%nat →
  run (destroy_block per_block b) q = Ok (set_heap (delete b (<[b := set_slots ∅ blk]> (heap q))) q, (tt, next blk)).
Proof.
  intros Hb Hbo Hn. unfold destroy_block. do 3 erewrite run_get by exact Hb. rewrite run_bind.
  pose proof (b_order _ _ _ _ Hbo) as Ho.
  pose proof (block_ok_localTail _ _ _ _ (c_t c) Hbo ltac:(lia)) as Hbo'.
  pose proof (run_destroy_elements per_block q b blk (set_localTail _ blk) _ Hb eq_refl eq_refl Hbo' eq_refl Hn) as Er. cbn in Er. rewrite Er.
  cbn [mbind result_bind]. erewrite run_get by apply lookup_insert_eq. cbn. by rewrite lookup_insert_eq.
Qed.

Lemma elems_le_live q x i b c : inv q x → staged x = [] → ring x !! i = Some b → cnt x !! b = Some c →
  (length (elems c) ≤ length (live x))%nat.
Proof.
  intros Hi Hst Hb Hc. rewrite <-(elems_of_cnt _ _ _ Hc). destruct (decide (i ≤ tpos x)%nat) as [Hle|Hgt].
  - unfold live. rewrite <-(take_drop_middle (take (S (tpos x)) (ring x)) i b) by (by rewrite lookup_take_lt by lia).
    rewrite fmap_app, fmap_cons, join_app. cbn. rewrite !length_app. lia.
  - destruct (i_place _ _ Hi i b Hb) as (blk & c' & Hp). rewrite (elems_of_cnt _ _ _ (p_cnt _ _ _ _ _ _ Hp)).
    destruct (decide (i = S (tpos x))) as [->|Hne].
    + rewrite (p_staged _ _ _ _ _ _ Hp eq_refl), Hst. cbn. lia.
    + rewrite (p_beyond _ _ _ _ _ _ Hp) by lia. cbn. lia.
Qed.

Lemma run_free_ring q x per_block fuel i b q' : inv q x → taken x = false → placed x = None → staged x = [] →
  (length (live x) ≤ per_block)%nat → ring x !! i = Some b → (length (ring x) - i ≤ fuel)%nat →
  heap q' = without (take i (ring x)) (heap q) →
  run (around fuel (frontBlock q) b tt (λ block _, destroy_block per_block block)) q' =
  Ok (set_heap (without (ring x) (heap q)) q', tt).
Proof.
  intros Hi Htk Hpl Hst Hpb. revert i b q'. induction fuel as [|fuel IH]; intros i b q' Hb Hf Hh;
    pose proof (lookup_lt_Some _ _ _ Hb) as Hlen; [lia|].
  destruct (i_place _ _ Hi _ _ Hb) as (blk & c & Hp). pose proof (p_block _ _ _ _ _ _ Hp) as Hbo.
  rewrite Htk, Hpl, andb_false_r in Hbo.
  assert (b ∉ take i (ring x)) as Hnb.
  { intros [j [Hj Hlt]%lookup_take_Some]%list_elem_of_lookup. pose proof (NoDup_lookup _ _ _ _ (i_nodup _ _ Hi) Hb Hj). lia. }
  cbn [around]. rewrite run_bind. erewrite run_destroy_block; [|rewrite Hh, lookup_without by done; apply Hp|exact Hbo|].
  2:{ pose proof (elems_le_live q x i b c Hi Hst Hb (p_cnt _ _ _ _ _ _ Hp)). lia. }
  cbn [mbind result_bind]. rewrite Hh, without_snoc, <-(take_S_r _ _ _ Hb) by done.
  pose proof (p_next _ _ _ _ _ _ Hp) as Hn. destruct (decide (S i = length (ring x))) as [E|E].
  - rewrite E, Nat.Div0.mod_same, (i_front _ _ Hi) in Hn. injection Hn as Hn.
    rewrite bool_decide_eq_false_2 by congruence. rewrite E, firstn_all. done.
  - rewrite Nat.mod_small in Hn by lia. rewrite bool_decide_eq_true_2.
    + etrans; [apply (IH (S i) (next blk)); [done|lia|done]|done].
    + intros En. rewrite En in Hn. pose proof (NoDup_lookup _ _ _ _ (i_nodup _ _ Hi) Hn (i_front _ _ Hi)). lia.
Qed.

Lemma run_destruct q vs per_block fuel : quiet q vs → (length vs ≤ per_block)%nat → (size (heap q) ≤ fuel)%nat →
  run (destruct_queue fuel per_block) q = Ok (set_heap ∅ q, tt).
Proof.
  intros (_ & _ & x & Hi & Hpl & Hst & Htk & <- & Hall) Hpb Hf. unfold destruct_queue. rewrite run_fence, run_load.
  pose proof (ring_in_heap _ _ Hi). erewrite (run_free_ring q x per_block fuel 0); try done; [|apply Hi|lia|].
  - do 3 f_equal. apply map_empty. intros b. unfold without. rewrite map_lookup_filter.
    destruct (heap q !! b) eqn:Hb; cbn; [|done]. rewrite option_guard_False; [done|].
    cbn. intros Hn. apply Hn, Hall. by rewrite Hb.
  - cbn [take]. apply map_eq. intros b. by rewrite lookup_without by apply not_elem_of_nil.
Qed.

Lemma run_destroy_all q vs b blk : quiet q vs → heap q !! b = Some blk →
  run (destroy_elements (length vs) b (front blk) (tail blk)) q = Ok (set_heap (<[b := set_slots ∅ blk]> (heap q)) q, tt).
Proof.
  intros (_ & _ & x & Hi & Hpl & Hst & Htk & <- & Hall) Hb.
  assert (b ∈ ring x) as [i Hib]%list_elem_of_lookup by (apply Hall; by rewrite Hb).
  destruct (i_place _ _ Hi _ _ Hib) as (blk' & c & Hp). pose proof (p_heap _ _ _ _ _ _ Hp). simplify_eq.
  pose proof (p_block _ _ _ _ _ _ Hp) as Hbo. rewrite Htk, Hpl, andb_false_r in Hbo. pose proof (b_order _ _ _ _ Hbo).
  pose proof (block_ok_localTail _ _ _ _ (c_t c) Hbo ltac:(lia)) as Hbo'.
  exact (run_destroy_elements _ q b blk (set_localTail _ blk) _ Hb eq_refl eq_refl Hbo' eq_refl
    (elems_le_live q x i b c Hi Hst Hib (p_cnt _ _ _ _ _ _ Hp))).
Qed.

End Destructor.

(** ** The memory of a block *)

Lemma align_for_ok a p : 0 < a → 0 ≤ p → p + a ≤ 2 ^ 64 →
  align_for a p `mod` a = 0 ∧ p ≤ align_for a p < p + a.
Proof.
  intros Ha Hp Hle. unfold align_for. pose proof (Z.rem_bound_pos p a Hp Ha).
  pose proof (Z.rem_bound_pos (a - Z.rem p a) a ltac:(lia) Ha). rewrite wrap_small by lia. split; [|lia].
  rewrite Z.rem_mod_nonneg, (Z.rem_mod_nonneg p) by (rewrite ?Z.rem_mod_nonneg by lia; pose proof (Z.mod_pos_bound p a); lia).
  rewrite Zplus_mod_idemp_r, Z.add_sub_assoc, <-Zminus_mod_idemp_l.
  replace (p + a) with (p + 1 * a) by lia. by rewrite Z_mod_plus_full, Z.sub_diag.
Qed.
End QueueBounds.
