(* ===== verification/QueueTheorems.v ===== *)
(** * Theorems about the queue between two threads

    What QueueProtocol.v, QueueConsumer.v, QueueSpec.v and QueueBounds.v prove about
    src/server/common/readerwriterqueue.h, put together for a queue that its constructor made. *)
From S2P Require Import Prelude Atomics ReaderWriterQueue QueueProtocol QueueConsumer QueueSpec QueueBounds.

Module QueueTheorems.
Import Atomics ReaderWriterQueue QueueProtocol QueueConsumer QueueSpec QueueBounds.

Section Theorems.
Context {T : Type} (MAX_BLOCK_SIZE : Z) (lay : layout) (malloc : nat → Z → Z).
Abbreviation op := (operation (T := T) MAX_BLOCK_SIZE lay malloc).

(** ** Well-formed queues *)

(** The mask is one less than a power of two, the indices and the objects are inside the block. *)
Definition block_wf (blk : Block T) : bool :=
  bool_decide (1 ≤ sizeMask blk < 2 ^ 63) && (Z.land (sizeMask blk) (sizeMask blk + 1) =? 0) &&
  forallb (λ i, bool_decide (0 ≤ i ≤ sizeMask blk)) [front blk; localTail blk; tail blk; localFront blk] &&
  bool_decide (map_Forall (λ i _, 0 ≤ i ≤ sizeMask blk) (slots blk)).

(** From [b], the blocks lead back to the front block, and past the tail block. *)
Fixpoint ring_wf (fuel : nat) (q : Queue T) (b : nat) (tail_seen : bool) : bool :=
  match fuel, heap q !! b with
  | S fuel, Some blk =>
      let tail_seen := tail_seen || bool_decide (b = tailBlock q) in
      block_wf blk && (if bool_decide (next blk = frontBlock q) then tail_seen
                       else ring_wf fuel q (next blk) tail_seen)
  | _, _ => false
  end.

Definition queue_wf (q : Queue T) : bool :=
  ring_wf (size (heap q)) q (frontBlock q) false && bool_decide (is_Some (heap q !! tailBlock q)).

Lemma block_ok_wf blk (c : Counters T) tk pl : block_ok blk c tk pl → block_wf blk = true.
Proof.
  intros H. pose proof (mask_pos _ _ _ _ H). destruct H. unfold block_wf.
  assert (∀ a, 0 ≤ a `mod` (sizeMask blk + 1) ≤ sizeMask blk) as Hmod.
  { intros a. pose proof (Z.mod_pos_bound a (sizeMask blk + 1)). lia. }
  rewrite !andb_true_iff, !bool_decide_eq_true. split_and!; [lia| | | |].
  - destruct b_size0 as (k & Hk & E). assert (2 ^ k ≤ 2 ^ 63) by (apply Z.pow_le_mono_r; lia). lia.
  - destruct b_size0 as (k & Hk & E). rewrite E. replace (2 ^ k - 1 + 1) with (2 ^ k) by lia.
    replace (2 ^ k - 1) with (Z.ones k) by (rewrite Z.ones_equiv; lia).
    rewrite Z.land_comm, Z.land_ones, Z.mod_same by lia. done.
  - cbn. rewrite b_front0, b_localTail0, b_tail0, b_localFront0, !bool_decide_eq_true_2 by apply Hmod. done.
  - intros i v Hi. eauto.
Qed.

Lemma inv_ring_wf q (x : Aux T) fuel i b : inv q x → ring x !! i = Some b → (length (ring x) - i ≤ fuel)%nat →
  ring_wf fuel q b (bool_decide (tpos x < i)%nat) = true.
Proof.
  intros Hi. revert i b. induction fuel as [|fuel IH]; intros i b Hb Hf; pose proof (lookup_lt_Some _ _ _ Hb); [lia|].
  destruct (i_place _ _ Hi _ _ Hb) as (blk & c & Hp). cbn [ring_wf]. rewrite (p_heap _ _ _ _ _ _ Hp).
  rewrite (block_ok_wf _ _ _ _ (p_block _ _ _ _ _ _ Hp)). cbn [andb].
  assert (bool_decide (tpos x < i)%nat || bool_decide (b = tailBlock q) = bool_decide (tpos x < S i)%nat) as ->.
  { rewrite <-bool_decide_or. apply bool_decide_ext. pose proof (i_tail _ _ Hi) as Ht. split.
    - intros [?| ->]; [lia|]. pose proof (NoDup_lookup _ _ _ _ (i_nodup _ _ Hi) Hb Ht). lia.
    - intros ?. destruct (decide (i = tpos x)) as [->|]; [|left; lia]. right. congruence. }
  pose proof (p_next _ _ _ _ _ _ Hp) as Hn. destruct (decide (S i = length (ring x))) as [E|E].
  - rewrite E, Nat.Div0.mod_same, (i_front _ _ Hi) in Hn. injection Hn as Hn.
    rewrite bool_decide_eq_true_2 by done. apply bool_decide_eq_true. pose proof (lookup_lt_Some _ _ _ (i_tail _ _ Hi)). lia.
  - rewrite Nat.mod_small in Hn by lia. rewrite bool_decide_eq_false_2; [apply IH; [done|lia]|].
    intros En. rewrite En in Hn. pose proof (NoDup_lookup _ _ _ _ (i_nodup _ _ Hi) Hn (i_front _ _ Hi)). lia.
Qed.

Lemma inv_wf q (x : Aux T) : inv q x → queue_wf q = true.
Proof.
  intros Hi. apply andb_true_iff. split.
  - apply (inv_ring_wf q x _ 0); [done|apply Hi|]. pose proof (ring_in_heap _ _ Hi). lia.
  - apply bool_decide_eq_true. destruct (i_place _ _ Hi _ _ (i_tail _ _ Hi)) as (blk & c & Hp).
    rewrite (p_heap _ _ _ _ _ _ Hp). done.
Qed.

(** ** The list that a queue is

    One call after the other: what the answers and the new contents may be. *)
Inductive list_call : list T → call T → answer T → list T → Prop :=
  | list_enqueue vs canAlloc v : list_call vs (Enqueue canAlloc v) (Bool true) (vs ++ [v])
  | list_refuse vs canAlloc v : refused lay malloc canAlloc → list_call vs (Enqueue canAlloc v) (Bool false) vs
  | list_dequeue vs : list_call vs TryDequeue (Value (head vs)) (List.tl vs)
  | list_peek vs : list_call vs Peek (Value (head vs)) vs
  | list_pop vs : list_call vs Pop (Bool (bool_decide (vs ≠ []))) (List.tl vs).

Inductive list_calls : list T → list (call T) → list (answer T) → list T → Prop :=
  | list_done vs : list_calls vs [] [] vs
  | list_then vs c r vs1 cs rs vs2 :
      list_call vs c r vs1 → list_calls vs1 cs rs vs2 → list_calls vs (c :: cs) (r :: rs) vs2.

Context (HMAX : ∃ m, 1 ≤ m < 63 ∧ MAX_BLOCK_SIZE = 2 ^ m).

Lemma run_call q vs c : quiet q vs → ∃ q' r vs', run (op c) q = Ok (q', r) ∧ quiet q' vs' ∧ list_call vs c r vs'.
Proof.
  intros Hq. destruct c as [ca v| | |]; cbn [operation].
  - destruct (run_enqueue _ lay malloc (HMAX' _ HMAX) ca v q vs Hq) as (q' & r & Er & Hq' & Hr).
    exists q', (Bool r), (if r then vs ++ [v] else vs). rewrite run_bind, Er. split_and!; [done..|].
    destruct r; [constructor|]. constructor. by apply Hr.
  - destruct (run_try_dequeue q vs Hq) as (q' & Er & Hq'). exists q', (Value (head vs)), (List.tl vs).
    rewrite run_bind, Er. split_and!; [done..|constructor].
  - destruct (run_peek q vs Hq) as (q' & Er & Hq'). exists q', (Value (head vs)), vs.
    rewrite run_bind, Er. split_and!; [done..|constructor].
  - destruct (run_pop q vs Hq) as (q' & Er & Hq'). exists q', (Bool (bool_decide (vs ≠ []))), (List.tl vs).
    rewrite run_bind, Er. split_and!; [done..|constructor].
Qed.

Lemma run_calls cs q vs : quiet q vs →
  ∃ q' rs vs', run (mapM op cs) q = Ok (q', rs) ∧ quiet q' vs' ∧ list_calls vs cs rs vs'.
Proof.
  revert q vs. induction cs as [|c cs IH]; intros q vs Hq.
  - exists q, [], vs. split_and!; [done..|constructor].
  - destruct (run_call q vs c Hq) as (q1 & r & vs1 & Er & Hq1 & Hl).
    destruct (IH q1 vs1 Hq1) as (q2 & rs & vs2 & Er2 & Hq2 & Hl2). exists q2, (r :: rs), vs2.
    cbn [mapM]. rewrite run_bind, Er. cbn [mbind result_bind]. rewrite run_bind, Er2. split_and!; [done..|].
    by econstructor.
Qed.

(** ** A constructed queue *)

Context (size : Z) (Hsize : 1 ≤ size ≤ 2 ^ 62).
Context (q0 : Queue T) (Hq0 : run (construct_queue MAX_BLOCK_SIZE lay malloc size) no_queue = Ok (q0, tt)).

Lemma constructed_fresh : ∃ k n, fresh_queue size k n q0.
Proof.
  destruct (run_construct (T := T) _ lay malloc HMAX size Hsize) as [(q & k & n & Er & Hf)|[Er _]]; rewrite Hq0 in Er; [|done].
  injection Er as <-. by exists k, n.
Qed.

Lemma constructed_quiet : quiet q0 [].
Proof. destruct constructed_fresh as (k & n & Hf). by eapply fresh_quiet. Qed.

#[local] Instance constructed_protocol : Protocol op inv acts never allowed (λ _, True) (global lay malloc) idle (post lay malloc) :=
  queue_protocol _ lay malloc (HMAX' _ HMAX).

(** C14. For a queue constructed for 1 to 2^62 elements and sequentially consistent memory: no interleaving of
    a producer and a consumer faults: no access to a freed or
    missing block, no object constructed over another, read or destroyed where there is none, no failed
    [assert].  And the answers are those of one queue of accepted values: all that was sent is accepted,
    nothing else but possibly the value of the running call; what was received is a prefix of it, in the
    same order, none lost and none twice; [false] and [nullptr] of the consumer mean that all that had
    been sent when the call was made had been received; [peek] shows the next value; an enqueue is
    refused only without permission to allocate or without memory; between calls the blocks hold exactly
    what was sent and not received. *)
Theorem queue_linearizable ps cs c :
  Forall (allowed true) ps → Forall (allowed false) cs → rtc (step op) (start q0 ps cs) c →
  (∀ who e, ¬ faults who c e) ∧ linearized lay malloc c.
Proof. apply reachable_linearized; [exact (HMAX' _ HMAX)|exact constructed_quiet]. Qed.

(** C24. Wait-freedom of a queue constructed for 1 to 2^62 elements: whatever the schedule, a thread that had 26 turns for each of its calls has finished them
    all (a call takes at most 24 accesses, and no turn faults). *)
Theorem queue_wait_free ps cs schedule who :
  Forall (allowed true) ps → Forall (allowed false) cs →
  (26 * length (if who : bool then ps else cs) ≤ length (filter (λ w, w = who) schedule))%nat →
  ∃ c, turns op schedule (start q0 ps cs) = Ok c ∧ thread_of who c = mk_thread None [].
Proof.
  intros Hps Hcs Hn.
  destruct (turns_ok schedule _ (λ _, I) (start_ok lay malloc q0 ps cs constructed_quiet Hps Hcs)) as (c & Ec & _).
  exists c. split; [done|]. apply (within_0 longest_call).
  pose proof (turns_within op longest_call (operation_bounded _ _ _) schedule who _ _
    (26 * length (if who then ps else cs)) Ec) as Hw.
  eapply within_mono; [apply Hw|lia]. by destruct who; cbn; lia.
Qed.

(** C25. Run one after the other, any calls on a queue constructed for 1 to 2^62 elements answer what a list answers, and leave
    the blocks with what the list has. *)
Theorem queue_refines_list calls :
  ∃ q rs vs, run (mapM op calls) q0 = Ok (q, rs) ∧ list_calls [] calls rs vs ∧ contents q = vs.
Proof.
  destruct (run_calls calls q0 [] constructed_quiet) as (q & rs & vs & Er & Hq & Hl).
  exists q, rs, vs. split_and!; [done..|]. by apply quiet_contents.
Qed.

(** C26. A queue constructed for [size] elements, 1 to 2^62, takes them without allocating a block: [try_enqueue] returns
    [true] for each, the blocks then hold them in order, and [size_approx] counts them. *)
Theorem queue_capacity vs : Z.of_nat (length vs) ≤ size →
  ∃ q, run (mapM (try_enqueue MAX_BLOCK_SIZE lay malloc) vs) q0 = Ok (q, replicate (length vs) true) ∧
    allocations q = allocations q0 ∧ contents q = vs ∧
    run (size_approx (base.size (heap q))) q = Ok (q, Z.of_nat (length vs)).
Proof.
  intros Hvs. destruct constructed_fresh as (k & n & Hf). destruct (fresh_free _ _ _ _ Hf) as [Hr Hle].
  destruct (run_fill MAX_BLOCK_SIZE lay malloc vs _ _ Hr) as (q & x & Er & _ & Ha & _); [lia|].
  destruct (run_fill_quiet MAX_BLOCK_SIZE lay malloc HMAX vs q0 [] constructed_quiet) as (q' & rs & Er' & Hq).
  rewrite Er in Er'. injection Er' as <- <-. specialize (Hq eq_refl). exists q.
  split_and!; [done..|by apply quiet_contents|]. rewrite (run_size_approx q vs) by done. by rewrite wrap_small by lia.
Qed.

(** C27. In every reachable configuration of a queue constructed for 1 to 2^62 elements the blocks are well-formed: following [next] from the front block
    comes past the tail block and back, and each block on the way has a mask of ones, its four indices and
    all its objects inside its slots. *)
Theorem queue_well_formed ps cs c :
  Forall (allowed true) ps → Forall (allowed false) cs → rtc (step op) (start q0 ps cs) c →
  queue_wf (shared c) = true.
Proof.
  intros Hps Hcs Hr.
  destruct (config_ok_reachable _ _ (start_ok lay malloc q0 ps cs constructed_quiet Hps Hcs) Hr I) as (x & Hi & _).
  by eapply inv_wf.
Qed.

(** C28. The destructor, after any calls on a queue constructed for 1 to 2^62 elements: it destroys every object of every block, frees every block once, and
    nothing is left. *)
Theorem queue_destroyed calls :
  ∃ q rs, run (mapM op calls) q0 = Ok (q, rs) ∧
    run (destruct_queue (base.size (heap q)) (length (contents q))) q = Ok (set_heap ∅ q, tt) ∧
    ∀ b blk, heap q !! b = Some blk →
      run (destroy_elements (length (contents q)) b (front blk) (tail blk)) q =
      Ok (set_heap (<[b := set_slots ∅ blk]> (heap q)) q, tt).
Proof.
  destruct (run_calls calls q0 [] constructed_quiet) as (q & rs & vs & Er & Hq & _).
  exists q, rs. rewrite (quiet_contents _ _ Hq). split_and!; [done|by apply (run_destruct q vs)|].
  intros b blk Hb. by apply run_destroy_all.
Qed.

End Theorems.

(** ** Sizes *)

(** [ceilToPow2] of a [size_t] is the least power of two that is not less, and 0 where there is none below [2^64]
    (beyond [2^63], and for 0). *)
Theorem ceilToPow2_least x : 0 ≤ x < 2 ^ 64 →
  if bool_decide (1 ≤ x ≤ 2 ^ 63) then ∃ k, 0 ≤ k ≤ 63 ∧ ceilToPow2 x = 2 ^ k ∧ x ≤ 2 ^ k < 2 * x
  else ceilToPow2 x = 0.
Proof.
  intros Hx. case_bool_decide as H; [by apply ceilToPow2_pow2|].
  destruct (decide (x = 0)) as [->|]; [reflexivity|]. apply ceilToPow2_too_big. lia.
Qed.

Lemma ceilToPow2_least_witness : ∃ k, 0 ≤ k ≤ 63 ∧ ceilToPow2 1000 = 2 ^ k ∧ 1000 ≤ 2 ^ k < 2 * 1000.
Proof. exact (ceilToPow2_least 1000 ltac:(lia)). Defined.

(** The memory of a new block: header and slots are aligned, do not overlap, and end inside what [malloc]
    returned, when the size fits in [size_t] and the memory does not wrap around. *)
Theorem block_memory {T} (lay : layout) (malloc : nat → Z → Z) capacity (q q' : Queue T) b :
  0 < alignof_T lay → 0 < alignof_Block lay → 0 ≤ sizeof_T lay → 0 ≤ sizeof_Block lay → 0 ≤ capacity →
  sizeof_Block lay + alignof_Block lay + sizeof_T lay * capacity + alignof_T lay ≤ 2 ^ 64 →
  0 ≤ malloc (allocations q) (block_bytes lay capacity) →
  malloc (allocations q) (block_bytes lay capacity) + block_bytes lay capacity < 2 ^ 64 →
  run (make_block lay malloc capacity) q = Ok (q', b) → b ≠ nullptr →
  ∃ blk, heap q' !! b = Some blk ∧
    let raw := rawThis blk in
    let header := align_for (alignof_Block lay) raw in
    raw = malloc (allocations q) (block_bytes lay capacity) ∧
    raw ≤ header ∧ header `mod` alignof_Block lay = 0 ∧ header + sizeof_Block lay ≤ data blk ∧
    data blk `mod` alignof_T lay = 0 ∧ data blk + sizeof_T lay * capacity ≤ raw + block_bytes lay capacity.
Proof.
  intros Ht Hb Hst Hsb Hc Hfit Hraw Hwrap Er Hb0. set (bytes := block_bytes lay capacity) in *.
  assert (bytes = sizeof_Block lay + alignof_Block lay - 1 + (sizeof_T lay * capacity + alignof_T lay - 1)) as Eb.
  { subst bytes. unfold block_bytes. assert (0 ≤ sizeof_T lay * capacity) by nia.
    rewrite (wrap_small 64 (sizeof_T lay * capacity)) by lia. rewrite (wrap_small 64 (_ * _ + _)) by lia.
    rewrite (wrap_small 64 (_ * _ + _ - 1)), (wrap_small 64 (sizeof_Block lay + _ - 1)), wrap_small by lia. done. }
  cbn in Er. fold bytes in Er. destruct (Z.eqb_spec (malloc (allocations q) bytes) 0) as [E|Hne].
  { injection Er as <- <-. done. }
  injection Er as <- <-. cbn. rewrite lookup_insert_eq. eexists. split; [reflexivity|]. cbn.
  assert (0 ≤ sizeof_T lay * capacity) by nia. set (raw := malloc (allocations q) bytes) in *.
  destruct (align_for_ok (alignof_Block lay) raw) as [Hm Hr]; [lia..|].
  rewrite (wrap_small 64 (align_for _ raw + _)) by lia.
  destruct (align_for_ok (alignof_T lay) (align_for (alignof_Block lay) raw + sizeof_Block lay)) as [Hm' Hr']; [lia..|].
  split_and!; try done; lia.
Qed.

(** ** An example *)

(** A queue of integers made for 2 elements with the default block size. *)
Definition ex_layout : layout := mk_layout 4 4 192 64.
Definition ex_malloc (n : nat) (size : Z) : Z := (Z.of_nat n + 1) * 2 ^ 20 + 8.
Definition ex_block : Block Z := set_next 1 (new_Block 4 1048584 1048832).
Definition ex_queue : Queue Z := mk_Queue 1 1 4 false false {[1%nat := ex_block]} 1.
Definition ex_ps : list (call Z) := Enqueue CanAlloc <$> [1; 2; 3; 4; 5; 6; 7].
Definition ex_cs : list (call Z) := [TryDequeue; Peek; TryDequeue; Pop; TryDequeue].
(** Turn by turn, then the producer, then the consumer. *)
Definition ex_schedule : list bool :=
  mjoin (replicate 40 [true; false]) ++ replicate 142 true ++ replicate 90 false.

Lemma ex_constructed : run (construct_queue 512 ex_layout ex_malloc 2) no_queue = Ok (ex_queue, tt).
Proof. vm_compute. reflexivity. Qed.

Lemma ex_max : ∃ m, 1 ≤ m < 63 ∧ 512 = 2 ^ m.
Proof. exists 9. done. Qed.

Abbreviation ex_op := (operation (T := Z) 512 ex_layout ex_malloc).

Definition ex_config : config (Queue Z) (call Z) (answer Z) :=
  match turns ex_op ex_schedule (start ex_queue ex_ps ex_cs) with Ok c => c | Fault _ => start ex_queue [] [] end.

Lemma ex_turns : turns ex_op ex_schedule (start ex_queue ex_ps ex_cs) = Ok ex_config.
Proof. unfold ex_config. destruct (turns _ _ _) eqn:E; [done|]. vm_compute in E. discriminate E. Qed.

Lemma ex_allowed : Forall (allowed true) ex_ps ∧ Forall (allowed false) ex_cs.
Proof. split; repeat constructor. Qed.

Lemma queue_linearizable_witness :
  received (log ex_config) = [Some 1; None; Some 3] ∧ contents (shared ex_config) = [4; 5; 6; 7] ∧
  linearized ex_layout ex_malloc ex_config.
Proof.
  split_and!; [vm_compute; reflexivity..|].
  apply (queue_linearizable 512 ex_layout ex_malloc ex_max 2 ltac:(lia) ex_queue ex_constructed ex_ps ex_cs);
    [apply ex_allowed..|]. exact (turns_steps _ _ _ _ ex_turns).
Defined.

Lemma queue_wait_free_witness :
  ∃ c, turns ex_op (replicate 30 false ++ mjoin (replicate 182 [true; false])) (start ex_queue ex_ps ex_cs) = Ok c ∧
    thread_of true c = mk_thread None [].
Proof.
  apply (queue_wait_free 512 ex_layout ex_malloc ex_max 2 ltac:(lia) ex_queue ex_constructed ex_ps ex_cs _ true);
    [apply ex_allowed..|]. apply Nat.leb_le. vm_compute. reflexivity.
Defined.

Lemma queue_refines_list_witness :
  ∃ q rs vs, run (mapM ex_op (ex_ps ++ ex_cs)) ex_queue = Ok (q, rs) ∧
    list_calls ex_layout ex_malloc [] (ex_ps ++ ex_cs) rs vs ∧ contents q = vs.
Proof. exact (queue_refines_list 512 ex_layout ex_malloc ex_max 2 ltac:(lia) ex_queue ex_constructed (ex_ps ++ ex_cs)). Defined.

Lemma queue_capacity_witness :
  ∃ q, run (mapM (try_enqueue 512 ex_layout ex_malloc) [8; 9]) ex_queue = Ok (q, [true; true]) ∧
    allocations q = allocations ex_queue ∧ contents q = [8; 9] ∧ run (size_approx (size (heap q))) q = Ok (q, 2).
Proof. apply (queue_capacity 512 ex_layout ex_malloc ex_max 2 ltac:(lia) ex_queue ex_constructed [8; 9]). cbn. lia. Defined.

Lemma queue_well_formed_witness : queue_wf (shared ex_config) = true.
Proof.
  apply (queue_well_formed 512 ex_layout ex_malloc ex_max 2 ltac:(lia) ex_queue ex_constructed ex_ps ex_cs);
    [apply ex_allowed..|]. exact (turns_steps _ _ _ _ ex_turns).
Defined.

Lemma queue_destroyed_witness :
  ∃ q rs, run (mapM ex_op (ex_ps ++ ex_cs)) ex_queue = Ok (q, rs) ∧
    run (destruct_queue (size (heap q)) (length (contents q))) q = Ok (set_heap ∅ q, tt) ∧
    ∀ b blk, heap q !! b = Some blk →
      run (destroy_elements (length (contents q)) b (front blk) (tail blk)) q =
      Ok (set_heap (<[b := set_slots ∅ blk]> (heap q)) q, tt).
Proof. exact (queue_destroyed 512 ex_layout ex_malloc ex_max 2 ltac:(lia) ex_queue ex_constructed (ex_ps ++ ex_cs)). Defined.

Lemma block_memory_witness :
  ∃ q' blk, run (make_block ex_layout ex_malloc 4) (@no_queue Z) = Ok (q', 1%nat) ∧ heap q' !! 1%nat = Some blk ∧
    data blk `mod` 4 = 0 ∧ data blk + 16 ≤ rawThis blk + block_bytes ex_layout 4.
Proof.
  assert (∃ q', run (make_block ex_layout ex_malloc 4) (@no_queue Z) = Ok (q', 1%nat)) as [q' Er].
  { eexists. vm_compute. reflexivity. }
  destruct (block_memory ex_layout ex_malloc 4 no_queue q' 1 ltac:(done) ltac:(done) ltac:(done) ltac:(done) ltac:(done)
    ltac:(done) ltac:(done) ltac:(done) Er ltac:(done)) as (blk & Hb & _ & _ & _ & _ & Hm & Hle).
  by exists q', blk.
Defined.

(** ** A queue made for no elements *)

(** The constructor accepts 0 and makes a block of one slot, which can hold no element.  When the producer comes
    back to that block it constructs an element there and the indices still say that the block is
    empty: the enqueue answers [true], and the dequeue that should return the element fails
    [assert(nextBlockFront != nextBlockTail)]. *)
Theorem zero_size_queue_asserts :
  ∃ q rs, run (construct_queue 512 ex_layout ex_malloc 0 ;;
               mapM ex_op [Enqueue CanAlloc 1; TryDequeue; Enqueue CanAlloc 2; Enqueue CanAlloc 3; TryDequeue]) no_queue =
            Ok (q, rs) ∧
    rs = [Bool true; Value (Some 1); Bool true; Bool true; Value (Some 2)] ∧
    contents q = [] ∧ run try_dequeue q = Fault (AssertFailed "nextBlockFront != nextBlockTail").
Proof. eexists _, _. split; [vm_compute; reflexivity|]. vm_compute. done. Qed.

(** A request for [2^63] elements or more: the size is rounded to 0 and the constructor succeeds, with a block that has
    memory for no element and a mask that lets the producer write [2^64 - 1]. *)
Lemma huge_queue_rounds_to_zero :
  ∃ q : Queue Z, run (construct_queue 512 ex_layout ex_malloc (2 ^ 63)) no_queue = Ok (q, tt) ∧
    largestBlockSize q = 0 ∧ (sizeMask <$> heap q !! 1%nat) = Some (2 ^ 64 - 1) ∧
    block_bytes ex_layout 0 = sizeof_Block ex_layout + alignof_Block ex_layout - 1 + alignof_T ex_layout - 1.
Proof. eexists. split; [vm_compute; reflexivity|]. vm_compute. done. Qed.

End QueueTheorems.
