(* ===== verification/Semaphore.v ===== *)
(** * The semaphores of the blocking queue

    src/server/atomicops.h: [Semaphore] wraps a POSIX semaphore; [LightweightSemaphore] counts in user space and goes
    to the POSIX semaphore only when a thread has to sleep.  One thread signals, one thread waits.

    A thread that sleeps in [sem_wait] makes no access until the count is positive ([await]).  A timed wait
    expires when the caller's argument [expires] says so, at whatever moment the thread is scheduled
    again; [sem_timedwait] that finds the count positive never expires.  Calls that a signal handler
    interrupts ([EINTR]) are made again by the code and change nothing; they are not modelled.

    The second half is the invariant: how the two counts, the thread that may be asleep and the post that may be due
    belong together. *)
From S2P Require Import Prelude Atomics.

Module Semaphore.
Import Atomics.

Record LightweightSemaphore : Type := mk_LightweightSemaphore {
  m_count : Z;
  m_sema : Z
}.

Definition set_m_count (v : Z) (s : LightweightSemaphore) : LightweightSemaphore :=
  mk_LightweightSemaphore v (m_sema s).
Definition set_m_sema (v : Z) (s : LightweightSemaphore) : LightweightSemaphore :=
  mk_LightweightSemaphore (m_count s) v.

(** ** The POSIX semaphore *)

Definition SEM_VALUE_MAX : Z := 2 ^ 31 - 1.

Definition sem_take (s : LightweightSemaphore) : option LightweightSemaphore :=
  if 0 <? m_sema s then Some (set_m_sema (m_sema s - 1) s) else None.

Definition sem_wait : prog LightweightSemaphore Z :=
  await (λ s, match sem_take s with Some s' => Some (s', 0) | None => None end).
(** [EAGAIN]. *)
Definition sem_trywait : prog LightweightSemaphore Z :=
  access (λ s, match sem_take s with Some s' => Ok (s', 0) | None => Ok (s, -1) end).
(** [ETIMEDOUT]. *)
Definition sem_timedwait (expires : bool) : prog LightweightSemaphore Z :=
  if expires then sem_trywait else sem_wait.
(** [EOVERFLOW]. *)
Definition sem_post : prog LightweightSemaphore Z :=
  access (λ s, if m_sema s <? SEM_VALUE_MAX then Ok (set_m_sema (m_sema s + 1) s, 0) else Ok (s, -1)).

Definition wait_ : prog LightweightSemaphore bool := rc ← sem_wait; mret (rc =? 0).
Definition try_wait : prog LightweightSemaphore bool := rc ← sem_trywait; mret (rc =? 0).

(** The absolute time of [timed_wait]: seconds and nanoseconds of [CLOCK_REALTIME], and a relative time in microseconds. *)
Definition deadline (tv_sec tv_nsec usecs : Z) : Z * Z :=
  let tv_sec := tv_sec + usecs / 1000000 in
  let tv_nsec := tv_nsec + (usecs mod 1000000) * 1000 in
  if tv_nsec >=? 1000000000 then (tv_sec + 1, tv_nsec - 1000000000) else (tv_sec, tv_nsec).

Definition timed_wait (expires : bool) : prog LightweightSemaphore bool := rc ← sem_timedwait expires; mret (rc =? 0).

(** [while (sem_post(&m_sema) == -1);] *)
Fixpoint post_until (fuel : nat) : prog LightweightSemaphore unit :=
  match fuel with
  | O => fail StillRunning
  | S fuel => rc ← sem_post; if rc =? -1 then post_until fuel else mret tt
  end.

(** [Semaphore::signal(int count)]. *)
Fixpoint signal_count (fuel count : nat) : prog LightweightSemaphore unit :=
  match count with
  | O => mret tt
  | S count => post_until fuel ;; signal_count fuel count
  end.

(** ** The lightweight semaphore *)

Definition new_LightweightSemaphore (initialCount : Z) : result LightweightSemaphore :=
  if 0 <=? initialCount then Ok (mk_LightweightSemaphore initialCount 0) else Fault (AssertFailed "initialCount >= 0").

Definition count_add_acquire : Z → prog LightweightSemaphore Z := fetch_add_acquire 64 m_count set_m_count.
Definition count_add_release : Z → prog LightweightSemaphore Z := fetch_add_release 64 m_count set_m_count.

(** [while (--spin >= 0)]. *)
Fixpoint spin_wait (spin : nat) : prog LightweightSemaphore bool :=
  match spin with
  | O => mret false
  | S spin =>
      c ← load m_count;
      if 0 <? c then count_add_acquire (-1) ;; mret true
      else compiler_fence memory_order_acquire ;; spin_wait spin
  end.

(** One turn of the last loop: [Some] of the result, or [None] to go on. *)
Definition restore_turn : prog LightweightSemaphore (option bool) :=
  oldCount ← count_add_release 1;
  if oldCount <? 0 then mret (Some false)
  else
    oldCount ← count_add_acquire (-1);
    if 0 <? oldCount then
      woken ← try_wait;
      mret (if woken : bool then Some true else None)
    else mret None.

(** The last loop.  [fuel] turns are made one by one; a turn that goes on leaves the counts as they were, so the turns
    after those, while the post is due, are one wait for it, and the turn after it is the last. *)
Fixpoint restore_count (fuel : nat) : prog LightweightSemaphore bool :=
  match fuel with
  | O =>
      await (λ s, if 0 <? m_sema s then Some (s, tt) else None) ;;
      r ← restore_turn;
      match r with Some r => mret r | None => fail StillRunning end
  | S fuel =>
      r ← restore_turn;
      match r with Some r => mret r | None => restore_count fuel end
  end.

Definition waitWithPartialSpinning (fuel : nat) (timeout_usecs : Z) (expires : bool) : prog LightweightSemaphore bool :=
  spun ← spin_wait 1024;
  if (spun : bool) then mret true
  else
    oldCount ← count_add_acquire (-1);
    if 0 <? oldCount then mret true
    else
      woken ← (if timeout_usecs <? 0 then wait_ else mret false);
      if (woken : bool) then mret true
      else
        woken ← (if timeout_usecs >? 0 then timed_wait expires else mret false);
        if (woken : bool) then mret true
        else restore_count (S fuel).

Definition tryWait : prog LightweightSemaphore bool :=
  c ← load m_count;
  if 0 <? c then count_add_acquire (-1) ;; mret true else mret false.

(** [wait()] and [wait(timeout_usecs)]. *)
Definition wait_timed (fuel : nat) (timeout_usecs : Z) (expires : bool) : prog LightweightSemaphore bool :=
  taken ← tryWait;
  if (taken : bool) then mret true else waitWithPartialSpinning fuel timeout_usecs expires.
Definition wait (fuel : nat) : prog LightweightSemaphore bool := wait_timed fuel (-1) false.

Definition signal (fuel : nat) (count : Z) : prog LightweightSemaphore unit :=
  assert (0 <=? count) "count >= 0" ;;
  oldCount ← count_add_release count;
  assert (-1 <=? oldCount) "oldCount >= -1" ;;
  if oldCount <? 0 then signal_count (S fuel) 1 else mret tt.

Definition availableApprox : prog LightweightSemaphore Z :=
  count ← load m_count;
  mret (if count >? 0 then count else 0).

Lemma deadline_ok tv_sec tv_nsec usecs : 0 ≤ tv_nsec < 1000000000 → 0 ≤ usecs →
  let '(s, n) := deadline tv_sec tv_nsec usecs in
  0 ≤ n < 1000000000 ∧ s * 1000000000 + n = tv_sec * 1000000000 + tv_nsec + usecs * 1000.
Proof.
  intros Hn Hu. unfold deadline. pose proof (Z.div_mod usecs 1000000 ltac:(lia)).
  pose proof (Z.mod_pos_bound usecs 1000000 ltac:(lia)). rewrite Z.geb_leb.
  destruct (Z.leb_spec 1000000000 (tv_nsec + usecs mod 1000000 * 1000)); lia.
Qed.

(** ** The invariant

    [signalled] and [claimed] count the signals and the waits that succeeded; [mode] says where the waiting thread is:
    outside of a wait, after it took one from the count and found none, or inside a turn of the last loop;
    [due]: the signalling thread has found a sleeping thread and not posted yet. *)
Inductive Mode : Type := Resting | Waiting | Restored.

Record Saux : Type := mk_Saux {
  signalled : nat;
  claimed : nat;
  mode : Mode;
  due : bool
}.

Definition available (y : Saux) : Z := Z.of_nat (signalled y) - Z.of_nat (claimed y).

Definition posts (s : LightweightSemaphore) (y : Saux) : Z := m_sema s + Z.b2z (due y).

Record sem_inv (s : LightweightSemaphore) (y : Saux) : Prop := {
  si_available : 0 ≤ available y;
  si_signalled : Z.of_nat (signalled y) < 2 ^ 63;
  si_sema : 0 ≤ m_sema s;
  si_mode : match mode y with
            | Resting => m_count s = available y ∧ posts s y = 0
            | Waiting => m_count s = available y - 1 ∧ (available y = 0 → posts s y = 0) ∧ (0 < available y → posts s y = 1)
            | Restored => m_count s = available y ∧ 0 < available y ∧ posts s y = 1
            end
}.

(** Ghost steps of the two threads. *)
Definition signals (y : Saux) (d : bool) : Saux := mk_Saux (S (signalled y)) (claimed y) (mode y) d.
Definition posts_due (y : Saux) : Saux := mk_Saux (signalled y) (claimed y) (mode y) false.
Definition claims (y : Saux) : Saux := mk_Saux (signalled y) (S (claimed y)) Resting (due y).
Definition enters (m : Mode) (y : Saux) : Saux := mk_Saux (signalled y) (claimed y) m (due y).

Lemma new_sem_inv : sem_inv (mk_LightweightSemaphore 0 0) (mk_Saux 0 0 Resting false).
Proof. by split. Qed.

Lemma swrap_64 x : - 2 ^ 63 ≤ x < 2 ^ 63 → swrap 64 x = x.
Proof. intros. by apply swrap_small. Qed.

Ltac sem_open :=
  match goal with H : sem_inv ?s ?y |- _ =>
    destruct H, s as [count sema], y as [sg cl md d]; unfold posts, available in *; cbn in *; subst; cbn in *
  end.
Ltac sem_solve :=
  rewrite ?swrap_64 by lia; split; unfold posts, available; cbn [m_count m_sema signalled claimed mode due signals posts_due claims enters set_m_count set_m_sema Z.b2z]; try lia.

Lemma sem_signal s y : sem_inv s y → due y = false → Z.of_nat (signalled y) + 1 < 2 ^ 63 →
  -1 ≤ m_count s ∧
  sem_inv (set_m_count (swrap 64 (m_count s + 1)) s) (signals y (m_count s <? 0)).
Proof.
  intros Hi Hd Hlt. sem_open. assert (-1 ≤ count < 2 ^ 63 - 1) as Hc by (destruct md; lia).
  split; [lia|]. destruct md, (Z.ltb_spec count 0); cbn; sem_solve.
Qed.

Lemma sem_posted s y : sem_inv s y → due y = true →
  m_sema s = 0 ∧ sem_inv (set_m_sema (m_sema s + 1) s) (posts_due y).
Proof. intros Hi Hd. sem_open. destruct md; cbn; (split; [lia|sem_solve]). Qed.

(** Outside of a wait, the count is what is available. *)
Lemma sem_resting s y : sem_inv s y → mode y = Resting → m_count s = available y.
Proof. intros [] E. rewrite E in si_mode0. apply si_mode0. Qed.

Lemma sem_claim s y : sem_inv s y → mode y = Resting → 0 < available y →
  sem_inv (set_m_count (swrap 64 (m_count s + -1)) s) (claims y).
Proof. intros Hi E Hpos. sem_open. sem_solve. Qed.

Lemma sem_sleep s y : sem_inv s y → mode y = Resting → m_count s ≤ 0 →
  sem_inv (set_m_count (swrap 64 (m_count s + -1)) s) (enters Waiting y).
Proof. intros Hi E Hpos. sem_open. sem_solve. Qed.

Lemma sem_woken s s' y : sem_inv s y → mode y = Waiting → sem_take s = Some s' → sem_inv s' (claims y) ∧ 0 < available y.
Proof.
  intros Hi E. unfold sem_take. sem_open. destruct (Z.ltb_spec 0 sema); [|done]. intros [= <-]. unfold set_m_sema. cbn.
  split; [|destruct d; cbn in *; lia]. destruct d; cbn in *; sem_solve.
Qed.

Lemma sem_give_up s y : sem_inv s y → mode y = Waiting → m_count s < 0 →
  sem_inv (set_m_count (swrap 64 (m_count s + 1)) s) (enters Resting y) ∧ available y = 0.
Proof. intros Hi E Hneg. sem_open. split; [sem_solve|lia]. Qed.

Lemma sem_restore s y : sem_inv s y → mode y = Waiting → 0 ≤ m_count s →
  sem_inv (set_m_count (swrap 64 (m_count s + 1)) s) (enters Restored y) ∧ 0 < available y.
Proof. intros Hi E Hneg. sem_open. split; [sem_solve|lia]. Qed.

Lemma sem_again s y : sem_inv s y → mode y = Restored →
  0 < m_count s ∧ 0 < available y ∧ sem_inv (set_m_count (swrap 64 (m_count s + -1)) s) (enters Waiting y).
Proof. intros Hi E. sem_open. split_and!; [lia|lia|]. sem_solve. Qed.

End Semaphore.
