(* ===== verification/BlockingQueue.v ===== *)
(** * The blocking queue

    [BlockingReaderWriterQueue] of src/server/common/readerwriterqueue.h: a queue of ReaderWriterQueue.v and a
    semaphore of Semaphore.v that counts its elements.  The queues between the threads of the two managers are
    of this class.  The theorems at the end say that the two parts stay together in every
    interleaving of a producer and a consumer. *)
From S2P Require Import Prelude Atomics ReaderWriterQueue QueueProtocol QueueConsumer QueueSpec QueueBounds Semaphore.

Module BlockingQueue.
Import Atomics ReaderWriterQueue QueueProtocol QueueConsumer QueueSpec QueueBounds Semaphore.

Section Code.
Context {T : Type} (MAX_BLOCK_SIZE : Z) (lay : layout) (malloc : nat → Z → Z).

Record BlockingReaderWriterQueue : Type := mk_Blocking {
  inner : Queue T;
  sema : LightweightSemaphore
}.
Definition set_inner (q : Queue T) (b : BlockingReaderWriterQueue) : BlockingReaderWriterQueue :=
  mk_Blocking q (sema b).
Definition set_sema (s : LightweightSemaphore) (b : BlockingReaderWriterQueue) : BlockingReaderWriterQueue :=
  mk_Blocking (inner b) s.

Definition on_inner {A} (p : prog (Queue T) A) : prog BlockingReaderWriterQueue A := zoom inner set_inner p.
Definition on_sema {A} (p : prog LightweightSemaphore A) : prog BlockingReaderWriterQueue A := zoom sema set_sema p.

(** [BlockingReaderWriterQueue(size)]. *)
Definition construct_blocking (size : Z) : result BlockingReaderWriterQueue :=
  '(q, _) ← run (construct_queue MAX_BLOCK_SIZE lay malloc size) no_queue;
  s ← new_LightweightSemaphore 0;
  mret (mk_Blocking q s).

(** ** Operations of the producer *)

Definition signalling (fuel : nat) (p : prog (Queue T) bool) : prog BlockingReaderWriterQueue bool :=
  done_ ← on_inner p;
  if (done_ : bool) then on_sema (signal fuel 1) ;; mret true else mret false.

Definition try_enqueue (fuel : nat) (element : T) : prog BlockingReaderWriterQueue bool :=
  signalling fuel (ReaderWriterQueue.try_enqueue MAX_BLOCK_SIZE lay malloc element).
Definition try_emplace (fuel : nat) (element : T) : prog BlockingReaderWriterQueue bool :=
  signalling fuel (ReaderWriterQueue.try_emplace MAX_BLOCK_SIZE lay malloc element).
Definition enqueue (fuel : nat) (element : T) : prog BlockingReaderWriterQueue bool :=
  signalling fuel (ReaderWriterQueue.enqueue MAX_BLOCK_SIZE lay malloc element).
Definition emplace (fuel : nat) (element : T) : prog BlockingReaderWriterQueue bool :=
  signalling fuel (ReaderWriterQueue.emplace MAX_BLOCK_SIZE lay malloc element).

(** ** Operations of the consumer *)

(** [bool success = inner.try_dequeue(result); assert(success);] *)
Definition dequeue_claimed : prog BlockingReaderWriterQueue (option T) :=
  result ← on_inner ReaderWriterQueue.try_dequeue;
  assert (match result with Some _ => true | None => false end) "success" ;;
  mret result.

Definition try_dequeue : prog BlockingReaderWriterQueue (option T) :=
  ok ← on_sema tryWait;
  if (ok : bool) then dequeue_claimed else mret None.

(** [while (!sema->wait());] *)
Fixpoint wait_until (fuel : nat) : prog BlockingReaderWriterQueue unit :=
  match fuel with
  | O => fail StillRunning
  | S fuel => ok ← on_sema (wait fuel); if (ok : bool) then mret tt else wait_until fuel
  end.

Definition wait_dequeue (fuel : nat) : prog BlockingReaderWriterQueue (option T) :=
  wait_until (S fuel) ;; dequeue_claimed.

Definition wait_dequeue_timed (fuel : nat) (timeout_usecs : Z) (expires : bool) :
    prog BlockingReaderWriterQueue (option T) :=
  ok ← on_sema (wait_timed fuel timeout_usecs expires);
  if (ok : bool) then dequeue_claimed else mret None.

Definition peek : prog BlockingReaderWriterQueue (option (nat * Z)) := on_inner ReaderWriterQueue.peek.

Definition pop : prog BlockingReaderWriterQueue bool :=
  ok ← on_sema tryWait;
  if (ok : bool) then
    result ← on_inner ReaderWriterQueue.pop;
    assert result "result" ;;
    mret true
  else mret false.

Definition size_approx : prog BlockingReaderWriterQueue Z := on_sema availableApprox.
Definition max_capacity (fuel : nat) : prog BlockingReaderWriterQueue Z := on_inner (ReaderWriterQueue.max_capacity fuel).

(** ** Calls *)

Inductive bcall : Type :=
  | BEnqueue (canAlloc : AllocationMode) (v : T)
  | BTryDequeue
  | BWaitDequeue
  | BWaitDequeueTimed (timeout_usecs : Z) (expires : bool)
  | BPeek
  | BPop.

Definition boperation (fuel : nat) (c : bcall) : prog BlockingReaderWriterQueue (answer T) :=
  match c with
  | BEnqueue CanAlloc v => r ← enqueue fuel v; mret (Bool r)
  | BEnqueue CannotAlloc v => r ← try_enqueue fuel v; mret (Bool r)
  | BTryDequeue => r ← try_dequeue; mret (Value r)
  | BWaitDequeue => r ← wait_dequeue fuel; mret (Value r)
  | BWaitDequeueTimed timeout_usecs expires => r ← wait_dequeue_timed fuel timeout_usecs expires; mret (Value r)
  | BPeek => r ← on_inner peek_value; mret (Value r)
  | BPop => r ← pop; mret (Bool r)
  end.

(** [_check_queue(queue, sleep)] of the managers, with which their threads take the next operation; [None]
    is a null pointer. *)
Definition POLLING_TIMEOUT_MS : Z := 100.
Definition _check_queue (fuel : nat) (sleep expires : bool) : prog BlockingReaderWriterQueue (option T) :=
  if negb sleep then try_dequeue
  else wait_dequeue_timed fuel (POLLING_TIMEOUT_MS * 1000) expires.

(** It is one call of the consumer. *)
Lemma check_queue_call fuel sleep expires :
  (r ← _check_queue fuel sleep expires; mret (Value r)) =
  boperation fuel (if sleep then BWaitDequeueTimed (POLLING_TIMEOUT_MS * 1000) expires else BTryDequeue).
Proof using. by destruct sleep. Qed.

(** What a call is to the queue. *)
Definition queue_call (c : bcall) : call T :=
  match c with
  | BEnqueue canAlloc v => Enqueue canAlloc v
  | BTryDequeue | BWaitDequeue | BWaitDequeueTimed _ _ => TryDequeue
  | BPeek => Peek
  | BPop => Pop
  end.

Definition queue_event (e : event bcall (answer T)) : event (call T) (answer T) :=
  match e with
  | Called who c => Called who (queue_call c)
  | Returned who c r => Returned who (queue_call c) r
  end.
Definition queue_log (l : list (event bcall (answer T))) : list (event (call T) (answer T)) := queue_event <$> l.

Definition ballowed (who : bool) (c : bcall) : Prop := allowed who (queue_call c).

(** ** The two parts together *)

Abbreviation Baux := (Aux T * Saux)%type.
Implicit Types (b : BlockingReaderWriterQueue) (a : Baux).

Definition binv b a : Prop :=
  inv (inner b) a.1 ∧ sem_inv (sema b) a.2 ∧ (signalled a.2 ≤ length (enqueued a.1))%nat.

Definition bacts (who : bool) b a b' a' : Prop :=
  acts who (inner b) a.1 (inner b') a'.1 ∧
  if who then claimed a'.2 = claimed a.2 ∧ mode a'.2 = mode a.2 ∧ (signalled a.2 ≤ signalled a'.2)%nat ∧
              m_sema (sema b) ≤ m_sema (sema b')
  else signalled a'.2 = signalled a.2 ∧ due a'.2 = due a.2 ∧ (claimed a.2 ≤ claimed a'.2)%nat.

(** A thread that has to wait is the consumer, which sleeps, or waits for a post that is due. *)
Definition bwaits (who : bool) b a : Prop :=
  who = false ∧ m_sema (sema b) = 0 ∧ mode a.2 = Waiting ∧ claimed a.2 = length (dequeued a.1) ∧ taken a.1 = false.

Lemma bacts_refl who b a : binv b a → bacts who b a b a.
Proof. intros (Hi & _). split; [by apply acts_refl|]. destruct who; split_and!; try done; lia. Qed.

Lemma bacts_trans who b1 a1 b2 a2 b3 a3 : bacts who b1 a1 b2 a2 → bacts who b2 a2 b3 a3 → bacts who b1 a1 b3 a3.
Proof.
  intros [H1 H1'] [H2 H2']. split; [by eapply acts_trans|].
  destruct who; destruct_and!; split_and!; try congruence; lia.
Qed.

Abbreviation bwp := (wp binv bacts bwaits).

(** A step of the queue. *)
Lemma inner_step who b a q1 x1 : binv b a → inv q1 x1 → acts who (inner b) a.1 q1 x1 →
  binv (set_inner q1 b) (x1, a.2) ∧ bacts who b a (set_inner q1 b) (x1, a.2).
Proof.
  intros (Hi & Hs & Hle) Hi1 Ha. split.
  - split_and!; [done..|]. cbn. destruct who.
    + pose proof (prefix_length _ _ (pa_enqueued _ _ _ _ Ha)). lia.
    + by rewrite (ca_enqueued _ _ _ _ Ha).
  - split; [done|]. destruct who; cbn; split_and!; try done; lia.
Qed.

(** A program of the queue, with what the thread knows of the semaphore. *)
Lemma wp_inner {A} who (F : LightweightSemaphore → Saux → Prop) (p : prog (Queue T) A) Q b a :
  (∀ b a b1 a1, binv b a → binv b1 a1 → bacts (negb who) b a b1 a1 → F (sema b) a.2 → F (sema b1) a1.2) →
  F (sema b) a.2 → binv b a → wp inv acts never who p Q (inner b) a.1 →
  bwp who (on_inner p) (λ r b1 a1, Q r (inner b1) a1.1 ∧ F (sema b1) a1.2) b a.
Proof.
  intros HF Hf Hi Hw. destruct a as [x y].
  apply (wp_zoom inner set_inner ltac:(done) inv acts never binv bacts bwaits who ltac:(intros ??[]; done)
    ltac:(intros ????[]; done) (inner_step who) ltac:(done) (λ b a, F (sema b) a.2)); done.
Qed.

(** ** The waiting thread *)

(** What the consumer knows: [ds] was dequeued, [k] claimed, at least [sig] signals were given. *)
Definition c_knows (ds : list T) (k : nat) (m : Mode) (sig : nat) b a : Prop :=
  c_idle ds (inner b) a.1 ∧ claimed a.2 = k ∧ mode a.2 = m ∧ (sig ≤ signalled a.2)%nat.

Lemma c_knows_later ds k m sig b a b1 a1 : bacts true b a b1 a1 → c_knows ds k m sig b a → c_knows ds k m sig b1 a1.
Proof.
  intros [Ha (E1 & E2 & Hle & _)] (Hid & Hk & Hm & Hs). split_and!; [by eapply c_idle_later|congruence..|lia].
Qed.

Lemma c_knows_unharmed ds k m sig : unharmed binv bacts false (c_knows ds k m sig).
Proof. intros b a b1 a1 _ _ Ha. by apply c_knows_later. Qed.

Lemma c_knows_weaken ds k m sig sig' b a : (sig' ≤ sig)%nat → c_knows ds k m sig b a → c_knows ds k m sig' b a.
Proof. intros Hle (? & ? & ? & ?). split_and!; try done. lia. Qed.

(** What one access to the semaphore may do to it. *)
Record c_step b a (s' : LightweightSemaphore) (y' : Saux) : Prop := {
  cs_inv : sem_inv s' y';
  cs_signalled : signalled y' = signalled a.2;
  cs_due : due y' = due a.2;
  cs_claimed : (claimed a.2 ≤ claimed y')%nat
}.

Lemma c_step_ok b a s' y' : binv b a → c_step b a s' y' →
  binv (set_sema s' b) (a.1, y') ∧ bacts false b a (set_sema s' b) (a.1, y').
Proof.
  intros (Hi & Hs & Hle) []. split.
  - split_and!; [done..|]. cbn. by rewrite cs_signalled0.
  - split; [by apply (acts_refl false)|]. done.
Qed.

Lemma wp_c_access {A B} ds k m sig (g : BlockingReaderWriterQueue → result (BlockingReaderWriterQueue * B))
    (kont : B → prog BlockingReaderWriterQueue A) Q b a :
  binv b a → c_knows ds k m sig b a →
  (∀ b1 a1, binv b1 a1 → c_knows ds k m sig b1 a1 → bacts true b a b1 a1 → ∃ s' r y', g b1 = Ok (set_sema s' b1, r) ∧ c_step b1 a1 s' y' ∧
    (binv (set_sema s' b1) (a1.1, y') → bwp false (kont r) Q (set_sema s' b1) (a1.1, y'))) →
  bwp false (Act g kont) Q b a.
Proof.
  intros Hi Hc H b1 a1 Hi1 Ha. destruct (H b1 a1 Hi1 (c_knows_later _ _ _ _ _ _ _ _ Ha Hc) Ha) as (s' & r & y' & -> & Hs & Hk).
  destruct (c_step_ok b1 a1 s' y' Hi1 Hs) as [Hi2 Ha2]. eexists _, r, (a1.1, y'). split_and!; [done..|]. by apply Hk.
Qed.

(** An access that only reads. *)
Lemma c_step_none b a : binv b a → c_step b a (sema b) a.2.
Proof. intros (_ & ? & _). by split. Qed.

(** The result of a wait: one claimed, or none was to be had since [sig]. *)
Definition waited (ds : list T) (sig : nat) (r : bool) b a : Prop :=
  if r then c_knows ds (S (length ds)) Resting sig b a
  else c_knows ds (length ds) Resting sig b a ∧ (sig ≤ length ds)%nat.

Lemma waited_unharmed ds sig r : unharmed binv bacts false (waited ds sig r).
Proof.
  intros b a b1 a1 _ _ Ha. destruct r; cbn; [by apply c_knows_later|].
  intros [? ?]. split; [by eapply c_knows_later|done].
Qed.

(** [m_count.load() > 0], then [fetch_add_acquire(-1)]: nobody else takes it in between. *)
Lemma wp_claim {A} ds sig (kont : Z → prog BlockingReaderWriterQueue A) Q b a :
  binv b a → c_knows ds (length ds) Resting (Nat.max sig (S (length ds))) b a →
  (∀ b1 a1 z, binv b1 a1 → c_knows ds (S (length ds)) Resting sig b1 a1 → bwp false (kont z) Q b1 a1) →
  bwp false (on_sema (count_add_acquire (-1)) ≫= kont) Q b a.
Proof.
  intros Hi Hc Hk. eapply (wp_c_access _ _ _ _ _ _ _ b a Hi Hc). intros b1 a1 Hi1 (Hid & Hcl & Hm & Hs) _.
  pose proof Hi1 as (_ & Hsi & _). eexists _, _, (claims a1.2). split_and!; [reflexivity| |].
  - split; cbn; try done; [|lia]. apply sem_claim; [done..|]. unfold available. lia.
  - intros Hi2. apply Hk; [done|]. split_and!; [done|cbn; by rewrite Hcl|done|cbn; lia].
Qed.

(** [m_count.load()]. *)
Lemma wp_look {A} ds sig (kont : Z → prog BlockingReaderWriterQueue A) Q b a :
  binv b a → c_knows ds (length ds) Resting sig b a →
  (∀ b1 a1 c, binv b1 a1 → c_knows ds (length ds) Resting sig b1 a1 →
    (0 < c → c_knows ds (length ds) Resting (Nat.max sig (S (length ds))) b1 a1) → (c ≤ 0 → (sig ≤ length ds)%nat) →
    bwp false (kont c) Q b1 a1) →
  bwp false (on_sema (load m_count) ≫= kont) Q b a.
Proof.
  intros Hi Hc Hk. eapply (wp_c_access _ _ _ _ _ _ _ b a Hi Hc). intros b1 a1 Hi1 Hc1 _. pose proof Hc1 as (Hid & Hcl & Hm & Hs).
  pose proof Hi1 as (_ & Hsi & _). pose proof (sem_resting _ _ Hsi Hm) as Hav.
  exists (sema b1), (m_count (sema b1)), a1.2. split_and!; [by destruct b1|by apply c_step_none|].
  destruct b1, a1. intros Hi2. apply Hk; [done..| |]; cbn in *; rewrite Hav; unfold available; intros Hpos.
  - split_and!; [done..|cbn; lia].
  - pose proof (si_available _ _ Hsi) as Hn. unfold available in Hn. lia.
Qed.

Lemma wp_tryWait ds sig b a : binv b a → c_knows ds (length ds) Resting sig b a →
  bwp false (on_sema tryWait) (waited ds sig) b a.
Proof.
  intros Hi Hc. apply (wp_look ds sig (λ c, on_sema (if 0 <? c then count_add_acquire (-1) ;; mret true else mret false)) _ b a Hi Hc).
  intros b1 a1 c Hi1 Hc1 Hyes Hno. destruct (Z.ltb_spec 0 c).
  - apply (wp_claim ds sig (λ _, mret true) _ b1 a1 Hi1 (Hyes ltac:(lia))).
    intros b2 a2 _ Hi2 Hc2. by apply wp_ret; [|apply waited_unharmed|].
  - apply wp_ret; [done|apply waited_unharmed|]. split; [done|]. by apply Hno.
Qed.

Lemma wp_spin n ds sig b a : binv b a → c_knows ds (length ds) Resting sig b a →
  bwp false (on_sema (spin_wait n)) (λ r b1 a1, if r : bool then waited ds sig true b1 a1
    else c_knows ds (length ds) Resting sig b1 a1) b a.
Proof.
  revert b a. induction n as [|n IH]; intros b a Hi Hc; [by apply wp_ret; [|apply c_knows_unharmed|]|].
  apply (wp_look ds sig (λ c, on_sema (if 0 <? c then count_add_acquire (-1) ;; mret true
    else compiler_fence memory_order_acquire ;; spin_wait n)) _ b a Hi Hc).
  intros b1 a1 c Hi1 Hc1 Hyes Hno. destruct (Z.ltb_spec 0 c); [|by apply IH].
  apply (wp_claim ds sig (λ _, mret true) _ b1 a1 Hi1 (Hyes ltac:(lia))).
  intros b2 a2 _ Hi2 Hc2. by apply wp_ret; [|apply (waited_unharmed ds sig true)|].
Qed.

(** ** The last loop of a wait *)

(** [fetch_add_acquire(-1)] when there was nothing: the thread counts as sleeping. *)
Lemma wp_sleep {A} ds sig (kont : Z → prog BlockingReaderWriterQueue A) Q b a :
  binv b a → c_knows ds (length ds) Resting sig b a →
  (∀ b1 a1 old, binv b1 a1 → (if 0 <? old then c_knows ds (S (length ds)) Resting sig b1 a1
    else c_knows ds (length ds) Waiting sig b1 a1) → bwp false (kont old) Q b1 a1) →
  bwp false (on_sema (count_add_acquire (-1)) ≫= kont) Q b a.
Proof.
  intros Hi Hc Hk. eapply (wp_c_access _ _ _ _ _ _ _ b a Hi Hc). intros b1 a1 Hi1 (Hid & Hcl & Hm & Hs) _.
  pose proof Hi1 as (_ & Hsi & _). pose proof (sem_resting _ _ Hsi Hm) as Hav.
  eexists _, _, (if 0 <? m_count (sema b1) then claims a1.2 else enters Waiting a1.2). split_and!; [reflexivity| |].
  - destruct (Z.ltb_spec 0 (m_count (sema b1))).
    + split; cbn; try done; [|lia]. apply sem_claim; [done..|lia].
    + split; cbn; try done. by apply sem_sleep.
  - intros Hi2. apply Hk; [done|]. destruct (Z.ltb_spec 0 (m_count (sema b1))); split_and!; try done. cbn. by rewrite Hcl.
Qed.

(** [fetch_add_release(1)] after the wait has failed. *)
Lemma wp_unsleep {A} ds sig w (kont : Z → prog BlockingReaderWriterQueue A) Q b a :
  binv b a → c_knows ds (length ds) Waiting sig b a → (w = true → 0 < m_sema (sema b)) →
  (∀ b1 a1 old, binv b1 a1 → (w = true → 0 < m_sema (sema b1)) → (if old <? 0 then waited ds sig false b1 a1
    else c_knows ds (length ds) Restored sig b1 a1) → bwp false (kont old) Q b1 a1) →
  bwp false (on_sema (count_add_release 1) ≫= kont) Q b a.
Proof.
  intros Hi Hc Hw Hk. eapply (wp_c_access _ _ _ _ _ _ _ b a Hi Hc). intros b1 a1 Hi1 (Hid & Hcl & Hm & Hs) [_ (_ & _ & _ & Hle)].
  pose proof Hi1 as (_ & Hsi & _).
  eexists _, _, (enters (if m_count (sema b1) <? 0 then Resting else Restored) a1.2). split_and!; [reflexivity| |].
  - destruct (Z.ltb_spec (m_count (sema b1)) 0); split; cbn; try done.
    + by apply sem_give_up.
    + by apply sem_restore.
  - intros Hi2. apply Hk; [done|cbn; intros E; specialize (Hw E); lia|].
    destruct (Z.ltb_spec (m_count (sema b1)) 0); [|by split_and!].
    destruct (sem_give_up _ _ Hsi Hm) as [_ Hav]; [done|]. split; [by split_and!|]. unfold available in Hav. lia.
Qed.

(** [fetch_add_acquire(-1)] again. *)
Lemma wp_resleep {A} ds sig w (kont : Z → prog BlockingReaderWriterQueue A) Q b a :
  binv b a → c_knows ds (length ds) Restored sig b a → (w = true → 0 < m_sema (sema b)) →
  (∀ b1 a1 old, binv b1 a1 → (w = true → 0 < m_sema (sema b1)) → 0 < old →
    c_knows ds (length ds) Waiting sig b1 a1 → bwp false (kont old) Q b1 a1) →
  bwp false (on_sema (count_add_acquire (-1)) ≫= kont) Q b a.
Proof.
  intros Hi Hc Hw Hk. eapply (wp_c_access _ _ _ _ _ _ _ b a Hi Hc). intros b1 a1 Hi1 (Hid & Hcl & Hm & Hs) [_ (_ & _ & _ & Hle)].
  pose proof Hi1 as (_ & Hsi & _). destruct (sem_again _ _ Hsi Hm) as (Hpos & _ & Hsi').
  eexists _, _, (enters Waiting a1.2). split_and!; [reflexivity|by split|].
  intros Hi2. apply Hk; [done|cbn; intros E; specialize (Hw E); lia|done|by split_and!].
Qed.

(** [sem_trywait]. *)
Lemma wp_trywait {A} ds sig w (kont : bool → prog BlockingReaderWriterQueue A) Q b a :
  binv b a → c_knows ds (length ds) Waiting sig b a → (w = true → 0 < m_sema (sema b)) →
  (∀ b1 a1, binv b1 a1 → waited ds sig true b1 a1 → bwp false (kont true) Q b1 a1) →
  (∀ b1 a1, binv b1 a1 → w = false → c_knows ds (length ds) Waiting sig b1 a1 → bwp false (kont false) Q b1 a1) →
  bwp false (on_sema try_wait ≫= kont) Q b a.
Proof.
  intros Hi Hc Hw Hyes Hno. eapply (wp_c_access _ _ _ _ _ _ _ b a Hi Hc). intros b1 a1 Hi1 Hc1 [_ (_ & _ & _ & Hle)].
  pose proof Hc1 as (Hid & Hcl & Hm & Hs). pose proof Hi1 as (_ & Hsi & _). destruct (sem_take (sema b1)) as [s'|] eqn:Et.
  - destruct (sem_woken _ _ _ Hsi Hm Et) as [Hsi' _]. eexists s', 0, (claims a1.2).
    split_and!; [done|by split; cbn; try done; lia|]. intros Hi2. apply Hyes; [done|].
    split_and!; try done. cbn. by rewrite Hcl.
  - eexists (sema b1), (-1), a1.2. split_and!; [by destruct b1|by apply c_step_none|].
    destruct b1, a1. intros Hi2. apply Hno; [done| |done].
    destruct w; [|done]. specialize (Hw eq_refl). unfold sem_take in Et. cbn in *.
    destruct (Z.ltb_spec 0 (m_sema sema0)); [done|lia].
Qed.

Definition turned (ds : list T) (sig : nat) (w : bool) (r : option bool) b a : Prop :=
  match r with
  | Some r => waited ds sig r b a
  | None => w = false ∧ c_knows ds (length ds) Waiting sig b a
  end.

Lemma wp_restore_turn {A} ds sig w (k : option bool → prog LightweightSemaphore A) Q b a :
  binv b a → c_knows ds (length ds) Waiting sig b a → (w = true → 0 < m_sema (sema b)) →
  (∀ r b1 a1, binv b1 a1 → turned ds sig w r b1 a1 → bwp false (on_sema (k r)) Q b1 a1) →
  bwp false (on_sema (restore_turn ≫= k)) Q b a.
Proof.
  intros Hi Hc Hw Hk. eapply (wp_unsleep ds sig w (λ old, on_sema _) _ b a Hi Hc Hw). intros b1 a1 old Hi1 Hw1 Hr. cbn beta.
  destruct (old <? 0); [by apply (Hk (Some false))|].
  eapply (wp_resleep ds sig w (λ old, on_sema _) _ b1 a1 Hi1 Hr Hw1). intros b2 a2 old2 Hi2 Hw2 Hpos Hc2. cbn beta.
  destruct (Z.ltb_spec 0 old2); [|lia].
  apply (wp_trywait ds sig w (λ woken, on_sema (k (if woken : bool then Some true else None))) _ b2 a2 Hi2 Hc2 Hw2);
    intros b3 a3 Hi3; intros; by apply Hk.
Qed.

(** The post that the thread waits for, in [sem_wait] or at the end of the loop. *)
Lemma wp_await {A B} ds sig (g : BlockingReaderWriterQueue → option (BlockingReaderWriterQueue * B))
    (kont : B → prog BlockingReaderWriterQueue A) Q b a :
  binv b a → c_knows ds (length ds) Waiting sig b a →
  (∀ b1, m_sema (sema b1) ≤ 0 → g b1 = None) →
  (∀ b1 a1, binv b1 a1 → c_knows ds (length ds) Waiting sig b1 a1 → 0 < m_sema (sema b1) →
    ∃ s' r y', g b1 = Some (set_sema s' b1, r) ∧ c_step b1 a1 s' y' ∧
    (binv (set_sema s' b1) (a1.1, y') → bwp false (kont r) Q (set_sema s' b1) (a1.1, y'))) →
  bwp false (Wait g kont) Q b a.
Proof.
  intros Hi Hc Hnone H b1 a1 Hi1 Ha. pose proof (c_knows_later _ _ _ _ _ _ _ _ Ha Hc) as Hc1.
  destruct (decide (0 < m_sema (sema b1))) as [Hpos|Hneg].
  - destruct (H b1 a1 Hi1 Hc1 Hpos) as (s' & r & y' & -> & Hs & Hk).
    destruct (c_step_ok b1 a1 s' y' Hi1 Hs) as [Hi2 Ha2]. exists (a1.1, y'). split_and!; [done..|]. by apply Hk.
  - rewrite Hnone by lia. pose proof Hc1 as ((Htk & Hds & _) & Hcl & Hm & _). pose proof Hi1 as (_ & Hsi & _).
    pose proof (si_sema _ _ Hsi). split_and!; try done; [lia|by rewrite Hds].
Qed.

Lemma wp_wait_ {A} ds sig (kont : bool → prog BlockingReaderWriterQueue A) Q b a :
  binv b a → c_knows ds (length ds) Waiting sig b a →
  (∀ b1 a1, binv b1 a1 → waited ds sig true b1 a1 → bwp false (kont true) Q b1 a1) →
  bwp false (on_sema wait_ ≫= kont) Q b a.
Proof.
  intros Hi Hc Hk. eapply (wp_await ds sig _ _ _ b a Hi Hc).
  - intros b1 Hle. unfold sem_take. by destruct (Z.ltb_spec 0 (m_sema (sema b1))); [lia|].
  - intros b1 a1 Hi1 (Hid & Hcl & Hm & Hs) Hpos. pose proof Hi1 as (_ & Hsi & _).
    destruct (sem_take (sema b1)) as [s'|] eqn:Et;
      [|unfold sem_take in Et; by destruct (Z.ltb_spec 0 (m_sema (sema b1))); [|lia]].
    destruct (sem_woken _ _ _ Hsi Hm Et) as [Hsi' _]. eexists s', 0, (claims a1.2).
    split_and!; [done|by split; cbn; try done; lia|]. intros Hi2. apply Hk; [done|].
    split_and!; try done. cbn. by rewrite Hcl.
Qed.

(** A wait that has failed: one was claimed after all, or none was to be had. *)
Lemma wp_restore_count fuel ds sig b a : binv b a → c_knows ds (length ds) Waiting sig b a →
  bwp false (on_sema (restore_count fuel)) (waited ds sig) b a.
Proof.
  revert b a. induction fuel as [|fuel IH]; intros b a Hi Hc.
  - eapply (wp_await ds sig _ (λ _, on_sema _) _ b a Hi Hc).
    { intros b1 Hle. by destruct (Z.ltb_spec 0 (m_sema (sema b1))); [lia|]. }
    intros b1 a1 Hi1 Hc1 Hpos. exists (sema b1), tt, a1.2. destruct (Z.ltb_spec 0 (m_sema (sema b1))); [|lia].
    split_and!; [by destruct b1|by apply c_step_none|]. destruct b1, a1. intros Hi2.
    apply (wp_restore_turn ds sig true _ _ _ _ Hi2 Hc1 ltac:(done)). intros [r|] b2 a2 Hi3 Ht; [|by destruct Ht].
    by apply wp_ret; [|apply waited_unharmed|].
  - apply (wp_restore_turn ds sig false _ _ _ _ Hi Hc ltac:(done)). intros [r|] b2 a2 Hi2 Ht; [|by apply IH; [|apply Ht]].
    by apply wp_ret; [|apply waited_unharmed|].
Qed.

(** One part after the other. *)
Lemma wp_sema_bind {A B} (p : prog LightweightSemaphore A) (k : A → prog LightweightSemaphore B) R Q b a :
  bwp false (on_sema p) R b a →
  (∀ r b1 a1, binv b1 a1 → R r b1 a1 → bwp false (on_sema (k r)) Q b1 a1) →
  bwp false (on_sema (p ≫= k)) Q b a.
Proof.
  intros Hp Hk. apply wp_zoom_bind, wp_bind; [apply bacts_refl|]. eapply wp_mono; [|exact Hp].
  intros r b1 a1 Hi1 HR. by apply Hk.
Qed.

Lemma waited_timed_unharmed ds sig timeout r :
  unharmed binv bacts false (λ b a, waited ds sig r b a ∧ (timeout < 0 → r = true)).
Proof. intros b a b1 a1 Hi Hi1 Ha [Hw ?]. split; [|done]. exact (waited_unharmed ds sig r b a b1 a1 Hi Hi1 Ha Hw). Qed.

Lemma wp_partial_spinning fuel timeout expires ds sig b a : binv b a → c_knows ds (length ds) Resting sig b a →
  bwp false (on_sema (waitWithPartialSpinning fuel timeout expires))
    (λ r b1 a1, waited ds sig r b1 a1 ∧ (timeout < 0 → r = true)) b a.
Proof.
  intros Hi Hc. unfold waitWithPartialSpinning. eapply wp_sema_bind; [by apply wp_spin|].
  intros [] b1 a1 Hi1 Hr; [by apply wp_ret; [|apply waited_timed_unharmed|]|].
  eapply (wp_sleep ds sig (λ old, on_sema _) _ b1 a1 Hi1 Hr). intros b2 a2 old Hi2 Hr2. cbn beta.
  destruct (0 <? old); [by apply wp_ret; [|apply waited_timed_unharmed|]|].
  destruct (Z.ltb_spec timeout 0).
  - apply (wp_wait_ ds sig (λ w, on_sema (if w : bool then mret true
      else woken ← (if timeout >? 0 then timed_wait expires else mret false);
           if (woken : bool) then mret true else restore_count (S fuel))) _ b2 a2 Hi2 Hr2).
    intros b3 a3 Hi3 Hr3. by apply wp_ret; [|apply waited_timed_unharmed|].
  - assert (∀ b a, binv b a → c_knows ds (length ds) Waiting sig b a →
      bwp false (on_sema (restore_count (S fuel))) (λ r b1 a1, waited ds sig r b1 a1 ∧ (timeout < 0 → r = true)) b a) as Hlast.
    { intros b' a' Hi' Hr'. eapply wp_mono; [|by apply wp_restore_count]. intros r b3 a3 _ Hw. split; [done|lia]. }
    assert (∀ b a, binv b a → waited ds sig true b a →
      bwp false (on_sema (mret true)) (λ r b1 a1, waited ds sig r b1 a1 ∧ (timeout < 0 → r = true)) b a) as Hgot.
    { intros b' a' Hi' Hr'. by apply wp_ret; [|apply waited_timed_unharmed|]. }
    cbn [mret prog_ret mbind prog_bind prog_bind_]. destruct (timeout >? 0); [|by apply Hlast].
    destruct expires.
    + by apply (wp_trywait ds sig false (λ w, on_sema (if w : bool then mret true else restore_count (S fuel))) _ b2 a2 Hi2 Hr2); auto.
    + by apply (wp_wait_ ds sig (λ w, on_sema (if w : bool then mret true else restore_count (S fuel))) _ b2 a2 Hi2 Hr2); auto.
Qed.

Lemma wp_wait_timed fuel timeout expires ds sig b a : binv b a → c_knows ds (length ds) Resting sig b a →
  bwp false (on_sema (wait_timed fuel timeout expires))
    (λ r b1 a1, waited ds sig r b1 a1 ∧ (timeout < 0 → r = true)) b a.
Proof.
  intros Hi Hc. eapply wp_sema_bind; [by apply wp_tryWait|]. intros [] b1 a1 Hi1 Hr.
  - by apply wp_ret; [|apply waited_timed_unharmed|].
  - apply wp_partial_spinning; [done|apply Hr].
Qed.

(** ** Taking the element that was claimed *)

(** There is an element for each signal: what was claimed is there. *)
Lemma claimed_there ds sig b a : binv b a → c_knows ds (S (length ds)) Resting sig b a →
  (S (length ds) ≤ length (enqueued a.1))%nat.
Proof.
  intros (_ & Hs & Hle) (_ & Hk & _ & _). pose proof (si_available _ _ Hs) as Hn. unfold available in Hn. lia.
Qed.

Definition claimed_one (ds : list T) (sig : nat) (_ : LightweightSemaphore) (y : Saux) : Prop :=
  claimed y = S (length ds) ∧ mode y = Resting ∧ (sig ≤ signalled y)%nat.

Lemma claimed_one_later ds sig b a b1 a1 : bacts true b a b1 a1 →
  claimed_one ds sig (sema b) a.2 → claimed_one ds sig (sema b1) a1.2.
Proof. intros [_ (E1 & E2 & Hle & _)] (? & ? & ?). split_and!; [congruence..|lia]. Qed.

Lemma wp_dequeue_claimed ds sig b a : binv b a → c_knows ds (S (length ds)) Resting sig b a →
  bwp false dequeue_claimed (λ r b1 a1, ∃ v, r = Some v ∧ c_knows (ds ++ [v]) (S (length ds)) Resting sig b1 a1) b a.
Proof.
  intros Hi Hc. pose proof (claimed_there _ _ _ _ Hi Hc) as Hlen. pose proof Hc as (Hid & Hk).
  apply wp_bind; [apply bacts_refl|]. eapply wp_mono; [|apply (wp_inner false (claimed_one ds sig)); [|done|done|]].
  3:{ apply (wp_try_dequeue ds (take (S (length ds)) (enqueued a.1))); [apply Hi|done|]. apply prefix_take. }
  2:{ intros b1 a1 b2 a2 _ _. apply claimed_one_later. }
  intros r b1 a1 Hi1 [(ds' & Hid' & Hd) Hk1]. destruct r as [v|]; cbn in Hd.
  - subst ds'. apply (wp_ret _ _ _ _ (Some v)); [done| |].
    + intros b2 a2 b3 a3 _ _ Ha (v' & Hv & Hc2). exists v'. split; [done|]. by eapply c_knows_later.
    + exists v. by split.
  - destruct Hd as [-> Hp%prefix_length]. rewrite length_take in Hp. lia.
Qed.

Lemma wp_pop_claimed ds sig b a : binv b a → c_knows ds (S (length ds)) Resting sig b a →
  bwp false (result ← on_inner ReaderWriterQueue.pop; assert result "result" ;; mret true)
    (λ r b1 a1, r = true ∧ ∃ v, c_knows (ds ++ [v]) (S (length ds)) Resting sig b1 a1) b a.
Proof.
  intros Hi Hc. pose proof (claimed_there _ _ _ _ Hi Hc) as Hlen. pose proof Hc as (Hid & Hk).
  apply wp_bind; [apply bacts_refl|]. eapply wp_mono; [|apply (wp_inner false (claimed_one ds sig)); [|done|done|]].
  3:{ apply (wp_pop ds (take (S (length ds)) (enqueued a.1))); [apply Hi|done|]. apply prefix_take. }
  2:{ intros b1 a1 b2 a2 _ _. apply claimed_one_later. }
  intros r b1 a1 Hi1 [(ds' & Hid' & Hd) Hk1]. destruct r; cbn in Hd.
  - destruct Hd as [v ->]. apply (wp_ret _ _ _ _ true); [done| |].
    + intros b2 a2 b3 a3 _ _ Ha (_ & v' & Hc2). split; [done|]. exists v'. by eapply c_knows_later.
    + split; [done|]. exists v. by split.
  - destruct Hd as [-> Hp%prefix_length]. rewrite length_take in Hp. lia.
Qed.

(** ** The signalling thread *)

Definition p_knows (es : list T) (n : nat) (d : bool) b a : Prop :=
  p_idle_ es (inner b) a.1 ∧ signalled a.2 = n ∧ due a.2 = d.

Lemma p_knows_later es n d b a b1 a1 : bacts false b a b1 a1 → p_knows es n d b a → p_knows es n d b1 a1.
Proof. intros [Ha (E1 & E2 & _)] (Hid & ? & ?). split_and!; [by eapply p_idle_later|congruence..]. Qed.

Lemma p_knows_unharmed es n d : unharmed binv bacts true (p_knows es n d).
Proof. intros b a b1 a1 _ _. apply p_knows_later. Qed.

Lemma wp_p_access {A B} es n d (g : BlockingReaderWriterQueue → result (BlockingReaderWriterQueue * B))
    (kont : B → prog BlockingReaderWriterQueue A) Q b a :
  binv b a → p_knows es n d b a →
  (∀ b1 a1, binv b1 a1 → p_knows es n d b1 a1 → ∃ s' r y', g b1 = Ok (set_sema s' b1, r) ∧
    sem_inv s' y' ∧ claimed y' = claimed a1.2 ∧ mode y' = mode a1.2 ∧ (signalled a1.2 ≤ signalled y' ≤ length es)%nat ∧
    m_sema (sema b1) ≤ m_sema s' ∧
    (binv (set_sema s' b1) (a1.1, y') → bwp true (kont r) Q (set_sema s' b1) (a1.1, y'))) →
  bwp true (Act g kont) Q b a.
Proof.
  intros Hi Hp H b1 a1 Hi1 Ha. pose proof (p_knows_later _ _ _ _ _ _ _ Ha Hp) as Hp1.
  destruct (H b1 a1 Hi1 Hp1) as (s' & r & y' & -> & Hs & Ec & Em & Hle & Hsem & Hk).
  assert (binv (set_sema s' b1) (a1.1, y')) as Hi2.
  { split_and!; [apply Hi1|done|]. cbn. destruct Hp1 as ((_ & _ & -> & _) & _). lia. }
  eexists _, r, (a1.1, y'). split_and!; [done|done| |by apply Hk].
  split; [by apply (acts_refl true), Hi1|]. cbn. split_and!; try done. lia.
Qed.

Lemma wp_signal fuel es n b a : binv b a → p_knows es n false b a → (S n ≤ length es)%nat → Z.of_nat n + 1 < 2 ^ 63 →
  bwp true (on_sema (signal fuel 1)) (λ _, p_knows es (S n) false) b a.
Proof.
  intros Hi Hp Hlen Hlt. eapply (wp_p_access es n false _ (λ old, on_sema (assert (-1 <=? old) "oldCount >= -1" ;;
    (if old <? 0 then signal_count (S fuel) 1 else mret tt))) _ b a Hi Hp).
  intros b1 a1 Hi1 (Hid & Hn & Hd). pose proof Hi1 as (_ & Hs & _).
  destruct (sem_signal _ _ Hs Hd) as [Hge Hs']; [lia|].
  eexists _, _, (signals a1.2 _). split_and!; [reflexivity|exact Hs'|done..|cbn; lia|cbn; lia|done|]. intros Hi2.
  destruct (Z.leb_spec (-1) (m_count (sema b1))); [|lia].
  destruct (m_count (sema b1) <? 0); [|apply wp_ret; [done|apply p_knows_unharmed|split_and!; [done|cbn; by rewrite Hn|done]]].
  eapply (wp_p_access es (S n) true _ (λ rc, on_sema ((if rc =? -1 then post_until fuel else mret tt) ;; mret tt)) _ _ _ Hi2);
    [split_and!; [done|cbn; by rewrite Hn|done]|].
  intros b3 a3 Hi3 (Hid3 & Hn3 & Hd3). pose proof Hi3 as (_ & Hs3 & _). destruct (sem_posted _ _ Hs3 Hd3) as [E0 Hs3'].
  eexists _, 0, (posts_due a3.2). rewrite E0 in *. split_and!; [reflexivity|exact Hs3'|done..|cbn; lia|cbn; lia|cbn; lia|].
  intros Hi4. apply wp_ret; [done|apply p_knows_unharmed|by split_and!].
Qed.

Lemma wp_signalling fuel p ca es v b a : binv b a → p_knows es (length es) false b a → Z.of_nat (length es) + 1 < 2 ^ 63 →
  wp inv acts never true p (p_done lay malloc ca es v) (inner b) a.1 →
  bwp true (signalling fuel p) (λ r b1 a1, p_done lay malloc ca es v r (inner b1) a1.1 ∧
    signalled a1.2 = length (enqueued a1.1) ∧ due a1.2 = false) b a.
Proof.
  intros Hi (Hid & Hn & Hd) Hlt Hw. apply wp_bind; [apply bacts_refl|].
  eapply wp_mono; [|apply (wp_inner true (λ _ y, signalled y = length es ∧ due y = false)); [|done|done|exact Hw]].
  2:{ intros b1 a1 b2 a2 _ _ [_ (E1 & E2 & _)] [? ?]. by rewrite E1, E2. }
  intros r b1 a1 Hi1 [[Hid1 Hrf] [Hn1 Hd1]].
  assert (∀ r, unharmed binv bacts true (λ b a, p_done lay malloc ca es v r (inner b) a.1 ∧
    signalled a.2 = length (enqueued a.1) ∧ due a.2 = false)) as Hu.
  { intros r' b2 a2 b3 a3 _ _ [Ha (E1 & E2 & _)] ([Hid2 ?] & E3 & E4). rewrite E1, E2, (ca_enqueued _ _ _ _ Ha).
    split; [|by split]. split; [by eapply p_idle_later|done]. }
  destruct r.
  - apply wp_bind; [apply bacts_refl|]. eapply wp_mono; [|apply (wp_signal fuel (es ++ [v]) (length es)); [done|by split_and!|..]].
    + intros _ b2 a2 Hi2 (Hid2 & Hn2 & Hd2). apply (wp_ret _ _ _ _ true); [done|apply Hu|].
      pose proof Hid2 as (_ & _ & -> & _). rewrite length_app. cbn. split_and!; [by split|lia|done].
    + rewrite length_app. cbn. lia.
    + done.
  - apply (wp_ret _ _ _ _ false); [done|apply Hu|]. pose proof Hid1 as (_ & _ & -> & _). by split_and!.
Qed.

(** ** The protocol of the blocking queue *)

Definition bglobal (l : list (event bcall (answer T))) b a : Prop :=
  global lay malloc (queue_log l) (inner b) a.1 ∧ (length (sent (queue_log l)) ≤ signalled a.2)%nat.

(** What a thread knows of the semaphore between calls. *)
Definition sem_idle (who : bool) a : Prop :=
  if who then signalled a.2 = length (enqueued a.1) ∧ due a.2 = false
  else mode a.2 = Resting ∧ claimed a.2 = length (dequeued a.1).

Definition bidle (who : bool) (l : list (event bcall (answer T))) b a : Prop :=
  idle who (queue_log l) (inner b) a.1 ∧ sem_idle who a.

Definition bpost (who : bool) (c : bcall) (l : list (event bcall (answer T))) (r : answer T) b a : Prop :=
  post lay malloc who (queue_call c) (queue_log l) r (inner b) a.1 ∧ sem_idle who a.

(** The count of the semaphore does not overflow. *)
Definition blimit (l : list (event bcall (answer T))) : Prop := Z.of_nat (length l) < 2 ^ 63.

Lemma queue_log_app l l' : queue_log (l ++ l') = queue_log l ++ queue_log l'.
Proof. apply fmap_app. Qed.

Lemma sem_idle_later who b a b1 a1 : bacts (negb who) b a b1 a1 → sem_idle who a → sem_idle who a1.
Proof.
  destruct who; intros [Ha He] [E1 E2]; cbn in *; destruct_and!.
  - rewrite (ca_enqueued _ _ _ _ Ha). split; congruence.
  - rewrite (pa_dequeued _ _ _ _ Ha). split; congruence.
Qed.

Lemma bpost_unharmed who c l r : unharmed binv bacts who (bpost who c l r).
Proof.
  intros b a b1 a1 Hi Hi1 Ha [Hp Hs]. split; [|by eapply sem_idle_later].
  refine (post_unharmed lay malloc who (queue_call c) (queue_log l) r _ _ _ _ _ _ _ Hp); [apply Hi|apply Hi1|apply Ha].
Qed.

Lemma sent_le (l : list (event (call T) (answer T))) : (length (sent l) ≤ length l)%nat.
Proof. unfold sent. induction l as [|e l IH]; [done|]. cbn. destruct (sent_by e); cbn; lia. Qed.

Lemma wp_answer {A} who (p : prog BlockingReaderWriterQueue A) (f : A → answer T) Q b a :
  bwp who p (λ r, Q (f r)) b a → (∀ r, unharmed binv bacts who (Q r)) → bwp who (r ← p; mret (f r)) Q b a.
Proof.
  intros Hw Hu. apply wp_bind; [apply bacts_refl|]. eapply wp_mono; [|exact Hw].
  intros r b1 a1 Hi1 HQ. by apply wp_ret.
Qed.

(** A call of the producer. *)
Lemma enqueue_ok fuel ca v l b a (HMAX : ∃ m, 1 ≤ m < 64 ∧ MAX_BLOCK_SIZE = 2 ^ m) :
  blimit (l ++ [Called true (BEnqueue ca v)]) → binv b a → bidle true l b a →
  bwp true (boperation fuel (BEnqueue ca v)) (bpost true (BEnqueue ca v) l) b a.
Proof.
  intros Hlim Hi [Hid Hs]. cbn in Hid, Hs. destruct Hs as [Hs Hd]. unfold blimit in Hlim. rewrite length_app in Hlim. cbn in Hlim.
  pose proof (sent_le (queue_log l)) as Hle. unfold queue_log at 2 in Hle. rewrite length_fmap in Hle.
  assert (p_knows (sent (queue_log l)) (length (sent (queue_log l))) false b a) as Hp.
  { split_and!; [done| |done]. rewrite Hs. by destruct Hid as (_ & _ & -> & _). }
  pose proof (wp_inner_enqueue MAX_BLOCK_SIZE lay malloc HMAX ca _ v _ _ (proj1 Hi) Hid) as Hw.
  destruct ca; apply wp_answer; try (intros; apply bpost_unharmed);
    (eapply wp_signalling in Hw; [|done|done|lia]); exact Hw.
Qed.

(** ** The calls of the consumer *)

(** What the consumer knows when it makes a call after the events [l]. *)
Definition c_starts (l : list (event bcall (answer T))) (ds : list T) b a : Prop :=
  matches (received (queue_log l)) ds ∧ c_knows ds (length ds) Resting (length (sent (queue_log l))) b a ∧
  offered (sent (queue_log l)) (inner b) a.1 ∧
  ((length (sent (queue_log l)) ≤ length ds)%nat → sent (queue_log l) `prefix_of` ds).

Lemma consumer_starts l b a : binv b a → bglobal l b a → bidle false l b a → ∃ ds, c_starts l ds b a.
Proof.
  intros (Hi & _ & _) [(Hse & _) Hsig] [(ds & Hm & Hid) [Hmo Hcl]]. exists ds. pose proof Hid as (_ & Hds & _).
  split_and!; [done|split_and!; [done|by rewrite Hcl, Hds|done..]|exact Hse|].
  intros Hle. assert (ds `prefix_of` enqueued a.1) as Hd by (rewrite <-Hds, (i_history _ _ Hi); by apply prefix_app_r).
  destruct (prefix_weak_total _ _ _ Hse Hd) as [|Hp]; [done|].
  by rewrite (prefix_length_eq _ _ Hp).
Qed.

Lemma dequeued_post c l ds v b a : queue_call c = TryDequeue → matches (received (queue_log l)) ds →
  c_knows (ds ++ [v]) (S (length ds)) Resting (length (sent (queue_log l))) b a → bpost false c l (Value (Some v)) b a.
Proof.
  intros Ec Hm (Hid & Hk & Hmo & _). split; [rewrite Ec; by exists ds, (ds ++ [v])|].
  split; [done|]. destruct Hid as (_ & -> & _). rewrite Hk, length_app. cbn. lia.
Qed.

Lemma empty_post c l ds b a : queue_call c = TryDequeue → matches (received (queue_log l)) ds →
  c_knows ds (length ds) Resting (length (sent (queue_log l))) b a → sent (queue_log l) `prefix_of` ds →
  bpost false c l (Value None) b a.
Proof.
  intros Ec Hm (Hid & Hk & Hmo & _) Hp. split; [rewrite Ec; by exists ds, ds|].
  split; [done|]. by destruct Hid as (_ & -> & _).
Qed.

(** After a wait. *)
Lemma wp_after_wait c l ds r b a : queue_call c = TryDequeue → binv b a →
  matches (received (queue_log l)) ds → ((length (sent (queue_log l)) ≤ length ds)%nat → sent (queue_log l) `prefix_of` ds) →
  waited ds (length (sent (queue_log l))) r b a →
  bwp false (if r : bool then dequeue_claimed else mret None) (λ r, bpost false c l (Value r)) b a.
Proof.
  intros Ec Hi Hm Hst Hw. destruct r.
  - eapply wp_mono; [|by apply wp_dequeue_claimed]. intros r b1 a1 Hi1 (v & -> & Hc). by eapply dequeued_post.
  - destruct Hw as [Hc Hle]. apply wp_ret; [done|apply bpost_unharmed|]. by eapply empty_post; [..|apply Hst].
Qed.

Lemma wait_until_ok fuel ds sig b a : binv b a → c_knows ds (length ds) Resting sig b a →
  bwp false (wait_until (S fuel)) (λ _, waited ds sig true) b a.
Proof.
  intros Hi Hc. cbn [wait_until]. apply wp_bind; [apply bacts_refl|].
  eapply wp_mono; [|by apply (wp_wait_timed fuel (-1) false ds sig)]. intros r b1 a1 Hi1 [Hw Hr]. rewrite (Hr ltac:(lia)) in *.
  apply wp_ret; [done|exact (waited_unharmed ds sig true)|exact Hw].
Qed.

Lemma peek_ok l ds b a : binv b a → c_starts l ds b a →
  bwp false (on_inner peek_value) (λ r, bpost false BPeek l (Value r)) b a.
Proof.
  intros Hi (Hm & (Hid & Hk & Hmo & _) & Ho & _).
  eapply wp_mono; [|apply (wp_inner false (λ _ y, claimed y = length ds ∧ mode y = Resting)); [|done|done|]].
  3:{ apply (wp_peek_value ds (sent (queue_log l))); [apply Hi|done..]. }
  2:{ intros b1 a1 b2 a2 _ _ [_ (E1 & E2 & _)] [? ?]. by rewrite E1, E2. }
  intros r b1 a1 Hi1 [[Hid1 Hr] [Hk1 Hmo1]]. split; [by exists ds|]. split; [done|]. by destruct Hid1 as (_ & -> & _).
Qed.

Lemma pop_ok l ds b a : binv b a → c_starts l ds b a → bwp false pop (λ r, bpost false BPop l (Bool r)) b a.
Proof.
  intros Hi (Hm & Hc & Ho & Hst). apply wp_bind; [apply bacts_refl|]. eapply wp_mono; [|by apply wp_tryWait].
  intros r b1 a1 Hi1 Hw. destruct r.
  - eapply wp_mono; [|by apply wp_pop_claimed]. intros r b2 a2 Hi2 (-> & v & Hid & Hk & Hmo & _).
    split; [exists ds, (ds ++ [v]); split_and!; [done..|by exists v]|]. split; [done|].
    destruct Hid as (_ & -> & _). rewrite Hk, length_app. cbn. lia.
  - destruct Hw as [(Hid & Hk & Hmo & _) Hle]. apply wp_ret; [done|apply bpost_unharmed|].
    split; [exists ds, ds; split_and!; [done|done|split; [done|by apply Hst]]|]. split; [done|]. by destruct Hid as (_ & -> & _).
Qed.

Lemma consumer_call_ok fuel c l b a : ballowed false c → binv b a → bglobal l b a → bidle false l b a →
  bwp false (boperation fuel c) (bpost false c l) b a.
Proof.
  intros Hal Hi Hg Hid. destruct (consumer_starts l b a Hi Hg Hid) as (ds & Hst). pose proof Hst as (Hm & Hc & _ & Hpre).
  destruct c as [ca v| | |timeout expires| |]; [done|..]; (apply wp_answer; [|intros; apply bpost_unharmed]).
  - apply wp_bind; [apply bacts_refl|]. eapply wp_mono; [|by apply wp_tryWait].
    intros r b1 a1 Hi1 Hw. by eapply wp_after_wait.
  - apply wp_bind; [apply bacts_refl|]. eapply wp_mono; [|by apply wait_until_ok].
    intros r b1 a1 Hi1 Hw. by apply (wp_after_wait BWaitDequeue l ds true).
  - apply wp_bind; [apply bacts_refl|]. eapply wp_mono; [|by apply wp_wait_timed].
    intros r b1 a1 Hi1 [Hw _]. by eapply wp_after_wait.
  - by eapply peek_ok.
  - by eapply pop_ok.
Qed.

(** ** The protocol *)

Lemma queue_events who l : Forall (λ e, by_whom e = who) l → Forall (λ e, by_whom e = who) (queue_log l).
Proof. intros H. apply Forall_fmap. eapply Forall_impl; [exact H|]. by intros []. Qed.

Context (HMAX : ∃ m, 1 ≤ m < 64 ∧ MAX_BLOCK_SIZE = 2 ^ m).

#[global] Instance blocking_protocol fuel :
  Protocol (boperation fuel) binv bacts bwaits ballowed blimit bglobal bidle bpost.
Proof.
  split.
  - apply bacts_refl.
  - apply bacts_trans.
  - intros who l b a b1 a1 Hi Hi1 Ha [Hg Hs]. split.
    + exact (p_global who (Protocol := queue_protocol MAX_BLOCK_SIZE lay malloc HMAX) _ _ _ _ _ (proj1 Hi) (proj1 Hi1) (proj1 Ha) Hg).
    + destruct Ha as [_ Ha]. destruct who; destruct_and!; lia.
  - intros who l b a b1 a1 Hi Hi1 Ha [Hid Hs]. split; [exact (idle_later _ _ _ _ _ _ (proj1 Ha) Hid)|by eapply sem_idle_later].
  - intros who l e b a He [Hid Hs]. split; [|done]. rewrite queue_log_app. apply idle_event; [by destruct e|done].
  - unfold blimit. intros l l'. rewrite length_app. lia.
  - intros who l c b a [Hg Hs]. split; rewrite queue_log_app; [by apply global_called|].
    cbn [queue_log fmap list_fmap queue_event]. by rewrite sent_snoc, app_nil_r.
  - intros [] c l b a Hal Hlim Hi Hg Hid; [|by apply consumer_call_ok].
    destruct c as [ca v| | | | |]; [by apply enqueue_ok|done..].
  - intros who c l l' r b a Hl' [Hg Hsig] [Hp Hs].
    rewrite queue_log_app in Hg. cbn in Hg.
    pose proof (p_return who (queue_call c) (queue_log l) (queue_log l') r
      (Protocol := queue_protocol MAX_BLOCK_SIZE lay malloc HMAX) _ _ (queue_events _ _ Hl') Hg Hp) as [Hg' Hid'].
    unfold bglobal, bidle. rewrite queue_log_app, (queue_log_app l).
    change (queue_log (Called who c :: l')) with (Called who (queue_call c) :: queue_log l').
    change (queue_log [Returned who c r]) with [Returned who (queue_call c) r]. split; [|done]. split; [done|]. destruct who.
    + destruct Hs as [-> _], Hid' as (_ & _ & He & _). by rewrite <-He.
    + rewrite queue_log_app in Hsig. change (queue_log (Called false c :: l')) with (Called false (queue_call c) :: queue_log l') in Hsig.
      rewrite sent_snoc. assert (sent_by (Returned false (queue_call c) r) = None) as -> by done. by rewrite app_nil_r.
Qed.

(** ** Every reachable configuration *)

Abbreviation bconfig := (config BlockingReaderWriterQueue bcall (answer T)).

(** The value that the producer is enqueuing. *)
Definition bpending (c : bconfig) : list T :=
  match running (producer c) with Some (BEnqueue _ v, _) => [v] | _ => [] end.

(** As for the queue without semaphore, with the calls that wait seen as dequeues. *)
Definition blinearized (c : bconfig) : Prop :=
  ∃ accepted out, sent (queue_log (log c)) `prefix_of` accepted ∧
    accepted `prefix_of` sent (queue_log (log c)) ++ bpending c ∧
    matches (received (queue_log (log c))) out ∧ out `prefix_of` accepted ∧
    answers_right accepted (queue_log (log c)) ∧ refusals_right lay malloc (queue_log (log c)) ∧
    (running (producer c) = None → running (consumer c) = None →
      accepted = sent (queue_log (log c)) ∧ accepted = out ++ contents (inner (shared c)) ∧
      sema (shared c) = mk_LightweightSemaphore (Z.of_nat (length (contents (inner (shared c))))) 0).

Abbreviation bthread_ok := (thread_ok (inv := binv) (acts := bacts) (waits := bwaits) (allowed := ballowed) (idle := bidle) (post := bpost)).
Abbreviation bconfig_ok := (config_ok (inv := binv) (acts := bacts) (waits := bwaits) (allowed := ballowed) (global := bglobal) (idle := bidle) (post := bpost)).

Lemma post_until_bounded fuel : bounded (S fuel) (post_until fuel).
Proof. induction fuel as [|fuel IH]; [done|]. intros rc. cbn. by destruct (rc =? -1). Qed.

Lemma signal_bounded fuel : bounded (fuel + 4) (signal fuel 1).
Proof.
  replace (fuel + 4)%nat with (S (1 + (S (S fuel) + 0)))%nat by lia. intros old. apply bounded_bind; [by destruct (-1 <=? old)|].
  intros []. destruct (old <? 0); [|done]. apply bounded_bind; [|done]. apply post_until_bounded.
Qed.

Lemma enqueue_call_bounded fuel ca v : bounded (longest_call + (fuel + 4 + 0) + 0) (boperation fuel (BEnqueue ca v)).
Proof.
  assert (bounded (longest_call + (fuel + 4 + 0)) (signalling fuel (inner_enqueue MAX_BLOCK_SIZE lay malloc ca v))) as H.
  { apply bounded_bind; [apply bounded_zoom, enqueue_bounded|]. intros []; [|done].
    apply bounded_bind; [apply bounded_zoom, signal_bounded|done]. }
  destruct ca; (apply bounded_bind; [exact H|done]).
Qed.

Lemma benqueued_bound c a : binv (shared c) a → bthread_ok true (log c) (producer c) (shared c) a →
  thread_bounded (ballowed true) (producer c) → enqueued a.1 `prefix_of` sent (queue_log (log c)) ++ bpending c.
Proof.
  intros Hi [_ Hr] [_ Hn]. unfold bpending. destruct (running (producer c)) as [[call p]|].
  - destruct Hr as (l1 & l2 & El & Hl2 & Hwp). destruct Hn as [n Hn].
    destruct (wp_run binv bacts bwaits bacts_refl bacts_trans true n p _ _ _ Hi Hn Hwp) as (b1 & r & a1 & _ & Hi1 & [Ha _] & [Hp _]).
    cbn in Ha. destruct call as [ca v| | | | |]; [|done..]. destruct r as [r|]; [|done]. destruct Hp as [(_ & _ & He & _) _].
    assert (sent (queue_log (log c)) = sent (queue_log l1)) as ->.
    { rewrite El, queue_log_app. change (queue_log (Called true (BEnqueue ca v) :: l2)) with (Called true (Enqueue ca v) :: queue_log l2).
      by rewrite sent_mid, (sent_consumer _ (queue_events _ _ Hl2)), app_nil_r. }
    etrans; [apply Ha|]. rewrite He. destruct r; [done|by apply prefix_app_r].
  - destruct Hr as [(_ & _ & -> & _) _]. by rewrite app_nil_r.
Qed.

Lemma bconfig_ok_linearized c : bconfig_ok c → thread_bounded (ballowed true) (producer c) → blinearized c.
Proof.
  intros (a & Hi & Hg & Hth) Hn. pose proof Hg as [(Hs & (ds & Hm & Hd) & Ha & Hf) _]. pose proof Hi as (Hi1 & Hsi & _).
  assert (dequeued a.1 `prefix_of` enqueued a.1) as Hde by (rewrite (i_history _ _ Hi1); by apply prefix_app_r).
  exists (enqueued a.1), ds. split_and!; [done|by apply (benqueued_bound _ a); [..|apply (Hth true)|]|done|by etrans|done|done|].
  intros Hp Hc. destruct (Hth true) as [_ Hidp]. destruct (Hth false) as [_ Hidc]. cbn in Hidp, Hidc.
  rewrite Hp in Hidp. rewrite Hc in Hidc. destruct Hidp as [(_ & _ & Ee & _) [Hsg Hdu]].
  destruct Hidc as [(ds' & Hm' & Htk & Ed & _) [Hmo Hcl]].
  rewrite (contents_live _ _ Hi1 Htk). pose proof (i_history _ _ Hi1) as Hh. split_and!; [done|..].
  - rewrite Hh, Ed. f_equal. assert (length ds' = length ds) by (by rewrite <-(matches_length _ _ Hm), <-(matches_length _ _ Hm')).
    rewrite Ed in Hd. destruct Hd as [k ->]. rewrite length_app in *. destruct k; [by rewrite app_nil_r|cbn in *; lia].
  - pose proof (si_mode _ _ Hsi) as Hsm. rewrite Hmo in Hsm. unfold posts, available in Hsm. rewrite Hdu, Hsg, Hcl, Hh, length_app in Hsm.
    destruct (sema (shared c)) as [count k]. cbn in Hsm. f_equal; lia.
Qed.

(** A blocked consumer, while the producer is between calls. *)
Lemma bconfig_ok_blocked c : bconfig_ok c → blocked false c → running (producer c) = None →
  contents (inner (shared c)) = [].
Proof.
  intros Hok Hb Hp. destruct (config_ok_blocked (limit := blimit) (impl := boperation 0) c false Hok Hb)
    as (a & Hi & _ & (_ & Hse & Hmo & Hcl & Htk) & Hth).
  destruct (Hth true) as [_ Hr]. cbn in Hr. rewrite Hp in Hr. destruct Hr as [_ [Hsg Hdu]].
  pose proof Hi as (Hi1 & Hsi & _). rewrite (contents_live _ _ Hi1 Htk). pose proof (i_history _ _ Hi1) as Hh.
  destruct Hsi. rewrite Hmo in si_mode0. unfold posts, available in *. rewrite Hdu, Hsg, Hcl, Hse, Hh, length_app in *.
  destruct (live a.1); [done|]. cbn in *. destruct si_mode0 as (_ & _ & H1). specialize (H1 ltac:(lia)). lia.
Qed.

Context (q0 : Queue T) (Hq0 : quiet q0 []).
Abbreviation start_blocking := (start (mk_Blocking q0 (mk_LightweightSemaphore 0 0))).

Lemma bstart_ok ps cs : Forall (ballowed true) ps → Forall (ballowed false) cs → bconfig_ok (start_blocking ps cs).
Proof.
  intros Hps Hcs. destruct Hq0 as (Hen & Hde & x & Hi & Hpl & Hst & Htk & Hl & _).
  apply (config_ok_start _ (restart [] x, mk_Saux 0 0 Resting false)); [| | |done..].
  - split_and!; [by apply inv_restart|apply new_sem_inv|cbn; lia].
  - split; [|cbn; lia]. split_and!; [apply prefix_nil|exists []; split; [constructor|apply prefix_nil]| |].
    + intros l1 c l2 r l3 E. exfalso. destruct l1; discriminate E.
    + intros ca v Hin. by apply not_elem_of_nil in Hin.
  - intros []; (split; [|split_and!; try done]).
    + by split_and!.
    + cbn. by rewrite Hl.
    + exists []. split; [constructor|by split_and!].
Qed.

Lemma breachable_ok fuel ps cs c : Forall (ballowed true) ps → Forall (ballowed false) cs →
  rtc (step (boperation fuel)) (start_blocking ps cs) c → blimit (log c) →
  bconfig_ok c ∧ thread_bounded (ballowed true) (producer c).
Proof.
  intros Hps Hcs Hr Hlim. split; [by eapply (config_ok_reachable (limit := blimit)); [apply bstart_ok|..]|].
  apply (thread_bounded_reachable (boperation fuel) (longest_call + (fuel + 4 + 0) + 0) (ballowed true) true _ _) with (2 := Hr);
    [|by split].
  intros [ca v| | | | |] Hal; [apply enqueue_call_bounded|done..].
Qed.

End Code.
End BlockingQueue.
