(* ===== verification/BlockingTheorems.v ===== *)
(** * Theorems about the blocking queue

    What BlockingQueue.v proves about [BlockingReaderWriterQueue] of src/server/common/readerwriterqueue.h and the
    semaphores of src/server/atomicops.h, for a queue that its constructor made. *)
From S2P Require Import Prelude Atomics ReaderWriterQueue QueueProtocol QueueConsumer QueueSpec QueueBounds QueueTheorems Semaphore BlockingQueue.

Module BlockingTheorems.
Import Atomics ReaderWriterQueue QueueSpec QueueBounds QueueTheorems Semaphore BlockingQueue.

Section Theorems.
Context {T : Type} (MAX_BLOCK_SIZE : Z) (lay : layout) (malloc : nat → Z → Z).
Context (HMAX : ∃ m, 1 ≤ m < 63 ∧ MAX_BLOCK_SIZE = 2 ^ m) (size : Z) (Hsize : 1 ≤ size ≤ 2 ^ 62).
Context (b0 : BlockingReaderWriterQueue (T := T)) (Hb0 : construct_blocking MAX_BLOCK_SIZE lay malloc size = Ok b0).
Abbreviation bop := (boperation (T := T) MAX_BLOCK_SIZE lay malloc).

Lemma constructed_blocking : ∃ q0, quiet q0 [] ∧ b0 = mk_Blocking q0 (mk_LightweightSemaphore 0 0).
Proof.
  unfold construct_blocking in Hb0. destruct (run_construct (T := T) _ lay malloc HMAX size Hsize) as [(q & k & n & Er & Hf)|[Er _]];
    rewrite Er in Hb0; [|done]. exists q. split; [by eapply fresh_quiet|]. by injection Hb0 as <-.
Qed.

(** C15. The blocking queue, constructed for 1 to 2^62 elements, in every interleaving of a producer and a consumer, with waits that block and waits that
    expire: no access faults; [assert(success)], [assert(result)] and [assert(oldCount >= -1)] never fail, so the
    semaphore never promises an element that is not there; the answers are those of one queue
    as for the queue without semaphore, where a dequeue that gives up is right that there was nothing; and between calls the
    count of the semaphore is the number of elements and no post is left over. *)
Theorem blocking_linearizable fuel ps cs c :
  Forall (ballowed true) ps → Forall (ballowed false) cs → rtc (step (bop fuel)) (start b0 ps cs) c →
  Z.of_nat (length (log c)) < 2 ^ 63 →
  (∀ who e, ¬ faults who c e) ∧ blinearized lay malloc c.
Proof.
  destruct constructed_blocking as (q0 & Hq & ->). intros Hps Hcs Hr Hlim.
  destruct (breachable_ok _ lay malloc (HMAX' _ HMAX) q0 Hq fuel ps cs c Hps Hcs Hr Hlim) as [Hok Hb].
  split; [|by apply bconfig_ok_linearized]. intros who e.
  exact (config_ok_no_fault (Protocol0 := blocking_protocol _ lay malloc (HMAX' _ HMAX) fuel) c who e Hok).
Qed.

(** C16. No wake-up of a blocking queue constructed for 1 to 2^62 elements is lost: only the consumer ever has to wait, and while it does and the producer is between calls
    the queue is empty. *)
Theorem blocking_no_lost_wakeup fuel ps cs c who :
  Forall (ballowed true) ps → Forall (ballowed false) cs → rtc (step (bop fuel)) (start b0 ps cs) c →
  Z.of_nat (length (log c)) < 2 ^ 63 → blocked who c →
  who = false ∧ (running (producer c) = None → contents (inner (shared c)) = []).
Proof.
  destruct constructed_blocking as (q0 & Hq & ->). intros Hps Hcs Hr Hlim Hbl.
  destruct (breachable_ok _ lay malloc (HMAX' _ HMAX) q0 Hq fuel ps cs c Hps Hcs Hr Hlim) as [Hok _].
  destruct (config_ok_blocked (Protocol0 := blocking_protocol _ lay malloc (HMAX' _ HMAX) fuel) c who Hok Hbl)
    as (a & _ & _ & (-> & _) & _).
  split; [done|]. intros Hp. by apply (bconfig_ok_blocked MAX_BLOCK_SIZE lay malloc (HMAX' _ HMAX)).
Qed.

End Theorems.
(** ** An example *)

Definition ex_blocking : BlockingReaderWriterQueue (T := Z) := mk_Blocking ex_queue (mk_LightweightSemaphore 0 0).
Definition ex_bps : list (bcall (T := Z)) := BEnqueue CanAlloc <$> [7; 8].
Definition ex_bcs : list (bcall (T := Z)) := [BWaitDequeueTimed 100000 true; BWaitDequeue; BPop].
Abbreviation ex_bop := (boperation (T := Z) 512 ex_layout ex_malloc 3).

(** A wait that expires, then one that blocks. *)
Definition ex_alone : list bool := replicate 2200 false.
(** Then the producer, and both. *)
Definition ex_together : list bool := replicate 40 true ++ replicate 300 false ++ replicate 40 true ++ replicate 60 false.

Definition ex_after (schedule : list bool) : config _ _ _ :=
  match turns ex_bop schedule (start ex_blocking ex_bps ex_bcs) with Ok c => c | Fault _ => start ex_blocking [] [] end.
Definition is_ok {A} (r : result A) : bool := match r with Ok _ => true | Fault _ => false end.

Lemma ex_after_ok schedule : is_ok (turns ex_bop schedule (start ex_blocking ex_bps ex_bcs)) = true →
  turns ex_bop schedule (start ex_blocking ex_bps ex_bcs) = Ok (ex_after schedule).
Proof. unfold ex_after. by destruct (turns _ _ _). Qed.

Lemma ex_blocking_constructed : construct_blocking 512 ex_layout ex_malloc 2 = Ok ex_blocking.
Proof. unfold construct_blocking. by rewrite ex_constructed. Qed.

Lemma ex_ballowed : Forall (ballowed true) ex_bps ∧ Forall (ballowed false) ex_bcs.
Proof. split; repeat constructor. Qed.

Lemma blocking_linearizable_witness :
  received (queue_log (log (ex_after (ex_alone ++ ex_together)))) = [Some 7; None] ∧
  blinearized ex_layout ex_malloc (ex_after (ex_alone ++ ex_together)).
Proof.
  split; [vm_compute; reflexivity|].
  apply (blocking_linearizable 512 ex_layout ex_malloc ex_max 2 ltac:(lia) ex_blocking ex_blocking_constructed 3 ex_bps ex_bcs);
    [apply ex_ballowed..| |].
  - apply (turns_steps _ (ex_alone ++ ex_together)), ex_after_ok. vm_compute. reflexivity.
  - vm_compute. reflexivity.
Defined.

Lemma blocking_no_lost_wakeup_witness :
  is_blocked false (ex_after ex_alone) = true ∧ contents (inner (shared (ex_after ex_alone))) = [].
Proof.
  split; [vm_compute; reflexivity|].
  apply (blocking_no_lost_wakeup 512 ex_layout ex_malloc ex_max 2 ltac:(lia) ex_blocking ex_blocking_constructed 3 ex_bps ex_bcs _ false);
    [apply ex_ballowed..| | | |].
  - apply (turns_steps _ ex_alone), ex_after_ok. vm_compute. reflexivity.
  - vm_compute. reflexivity.
  - apply is_blocked_ok. vm_compute. reflexivity.
  - vm_compute. reflexivity.
Defined.

End BlockingTheorems.
