(* ===== verification/ExampleFunctions.v ===== *)
(** * The functions of the examples

    src/examples: the functions that clients deploy and executors call, [empty] (empty.cpp), [fibonacci]
    (fibonacci.cpp), [trap] (trap.cpp) and [hash] with its five hash functions (hash.cpp).

    A function of a library gets its input, the size of the input and the output.  [hash], [fibonacci] and
    [trap] read one 32-bit word of input and write one word of output; they are modelled as functions from
    the input word to the word that is written, if one is, and the returned size.  A [char] is a number from
    -128 to 127, as on the machines the code is built for. *)

From S2P Require Import Prelude.

Module ExampleFunctions.

(** ** The hash functions *)

(** [while (len--) { ... *s++ ... }]: one step per character. *)
Fixpoint characters (step : Z → Z → Z) (len : nat) (s : list Z) (h : Z) : result Z :=
  match len, s with
  | O, _ => Ok h
  | S len, c :: s => characters step len s (step h c)
  | S _, [] => Fault (Undefined "end of the string")
  end.

(** [h += h << n] and [h ^= h >> n] *)
Definition add_shifted (n h : Z) : Z := u32 (h + u32 (Z.shiftl h n)).
Definition xor_shifted (n h : Z) : Z := Z.lxor h (Z.shiftr h n).

Definition djb33_step (h c : Z) : Z := Z.lxor (add_shifted 5 h) (u32 c).
Definition djb33_hash (s : list Z) (len : nat) : result Z := characters djb33_step len s 5381.

Definition h31_step (h c : Z) : Z := u32 (u32 (31 * h) + u32 c).
Definition h31_hash (s : list Z) (len : nat) : result Z := characters h31_step len s 0.

Definition FNV_32_PRIME : Z := 0x01000193.
Definition fnv32_step (h c : Z) : Z := u32 (Z.lxor h (u8 c) * FNV_32_PRIME).
Definition fnv32_hash (s : list Z) (len : nat) : result Z := characters fnv32_step len s 0x811c9dc5.

Definition PRIME1 : Z := 37.
Definition PRIME2 : Z := 1048583.
Definition ejb_step (h c : Z) : Z := Z.lxor (u32 (h * PRIME1)) (u32 (u8 c - 32)).
Definition ejb_hash (s : list Z) (len : nat) : result Z := h ← characters ejb_step len s 0; Ok (h `mod` PRIME2).

Definition oat_step (h c : Z) : Z := xor_shifted 6 (add_shifted 10 (u32 (h + u8 c))).
Definition oat_finish (h : Z) : Z := add_shifted 15 (xor_shifted 11 (add_shifted 3 h)).
Definition oat_hash (s : list Z) (len : nat) : result Z := h ← characters oat_step len s 0; Ok (oat_finish h).

(** ** The functions that are called *)

Definition sizeof_uint32_t : Z := 4.
Definition buf_size : nat := Z.to_nat 8192.
Definition buf : list Z := replicate buf_size 0.

(** [for (int i = 0; i < *input; i++)]: [i] is compared as an unsigned number, and its overflow is
    undefined. *)
Fixpoint hash_loop (fuel : nat) (i input : Z) (res : option Z) : result (option Z) :=
  match fuel with
  | O => Fault StillRunning
  | S fuel =>
      if u32 i <? input then
        h ← ejb_hash buf buf_size;
        if i =? 2 ^ 31 - 1 then Fault (Undefined "int overflow") else hash_loop fuel (i + 1) input (Some h)
      else Ok res
  end.

Definition hash (fuel : nat) (input : Z) : result (option Z * Z) :=
  res ← hash_loop fuel 0 input None; Ok (res, sizeof_uint32_t).

Fixpoint fib (fuel : nat) (n : Z) : result Z :=
  match fuel with
  | O => Fault StillRunning
  | S fuel =>
      if n <=? 1 then Ok n else
      a ← fib fuel (n - 1); b ← fib fuel (n - 2); Ok (u32 (a + b))
  end.

Definition fibonacci (fuel : nat) (input : Z) : result (option Z * Z) :=
  x ← fib fuel input; Ok (Some x, sizeof_uint32_t).

(** The endless loop is one that has not finished whatever the fuel. *)
Definition trap (input : Z) : result (option Z * Z) :=
  if input =? 2 then Fault (Undefined "null pointer")
  else if input =? 1 then Fault StillRunning
  else if input =? 3 then Fault (Undefined "division by zero")
  else Ok (Some 4, sizeof_uint32_t).

Definition empty (size : Z) : result (option Z * Z) := Ok (None, size).

(** ** One character changed *)

Definition is_u32 (h : Z) : Prop := 0 ≤ h < 2 ^ 32.
Definition is_char (c : Z) : Prop := -128 ≤ c < 128.

(** A step keeps 32 bits, and loses neither the hash so far nor the character. *)
Record lossless (step : Z → Z → Z) : Prop := {
  lossless_range h c : is_u32 h → is_char c → is_u32 (step h c);
  lossless_hash h h' c : is_u32 h → is_u32 h' → is_char c → step h c = step h' c → h = h';
  lossless_char h c c' : is_u32 h → is_char c → is_char c' → step h c = step h c' → c = c' }.

Lemma u32_is_u32 x : is_u32 (u32 x).
Proof. by apply wrap_range. Qed.

(** Multiplication by a number that has an inverse modulo 2^32. *)
Lemma mul_inj a inv x y : u32 (inv * a) = 1 → is_u32 x → is_u32 y → u32 (a * x) = u32 (a * y) → x = y.
Proof.
  intros Ha Hx Hy E. assert (∀ z, is_u32 z → u32 (inv * u32 (a * z)) = z) as Hinv.
  { intros z Hz. unfold wrap in *. rewrite Zmult_mod_idemp_r, Z.mul_assoc, <-Zmult_mod_idemp_l, Ha, Z.mul_1_l.
    by apply Z.mod_small. }
  rewrite <-(Hinv x Hx), <-(Hinv y Hy). by rewrite E.
Qed.

Lemma add_inj b x y : is_u32 x → is_u32 y → u32 (x + b) = u32 (y + b) → x = y.
Proof.
  intros Hx Hy E. assert (∀ z, is_u32 z → u32 (u32 (z + b) - b) = z) as Hinv.
  { intros z Hz. unfold wrap. rewrite Zminus_mod_idemp_l. replace (z + b - b) with z by lia. by apply Z.mod_small. }
  rewrite <-(Hinv x Hx), <-(Hinv y Hy). by rewrite E.
Qed.

Lemma lxor_inj x y b : Z.lxor x b = Z.lxor y b → x = y.
Proof. intros E. rewrite <-(Z.lxor_0_r x), <-(Z.lxor_0_r y), <-(Z.lxor_nilpotent b), <-!Z.lxor_assoc. by rewrite E. Qed.

Lemma lxor_u32 x y : is_u32 x → is_u32 y → is_u32 (Z.lxor x y).
Proof.
  intros Hx Hy. split; [apply Z.lxor_nonneg; unfold is_u32 in *; lia|].
  destruct (decide (Z.lxor x y = 0)) as [->|Hn]; [done|].
  assert (0 ≤ Z.lxor x y) by (apply Z.lxor_nonneg; unfold is_u32 in *; lia).
  apply Z.log2_lt_pow2; [lia|]. pose proof (Z.log2_lxor x y ltac:(apply Hx) ltac:(apply Hy)).
  assert (∀ z, is_u32 z → Z.log2 z < 32) as Hl.
  { intros z [Hz1 Hz2]. destruct (decide (z = 0)) as [->|]; [done|]. apply Z.log2_lt_pow2; lia. }
  specialize (Hl x Hx) as H1. specialize (Hl y Hy) as H2. lia.
Qed.

Lemma add_shifted_mul n h : 0 ≤ n → add_shifted n h = u32 ((1 + 2 ^ n) * h).
Proof.
  intros Hn. unfold add_shifted. rewrite wrap_add_wrap_r, Z.shiftl_mul_pow2 by done. f_equal. lia.
Qed.

Lemma add_shifted_inj n inv x y : 0 ≤ n → u32 (inv * (1 + 2 ^ n)) = 1 → is_u32 x → is_u32 y →
  add_shifted n x = add_shifted n y → x = y.
Proof. intros Hn Hi Hx Hy. rewrite !add_shifted_mul by done. by apply (mul_inj _ inv). Qed.

Lemma xor_shifted_inj n x y : 0 < n → is_u32 x → is_u32 y → xor_shifted n x = xor_shifted n y → x = y.
Proof.
  intros Hn Hx Hy E. unfold xor_shifted in E. set (d := Z.lxor x y).
  assert (d = Z.shiftr d n) as Hd.
  { unfold d. rewrite Z.shiftr_lxor. apply (lxor_inj _ _ (Z.lxor y (Z.shiftr x n))).
    rewrite (Z.lxor_comm x y), <-Z.lxor_assoc, (Z.lxor_comm (Z.lxor y x)), <-Z.lxor_assoc, Z.lxor_nilpotent, Z.lxor_0_l, E.
    rewrite (Z.lxor_comm y (Z.shiftr x n)), (Z.lxor_comm (Z.shiftr x n) (Z.shiftr y n)), Z.lxor_assoc.
    rewrite <-(Z.lxor_assoc (Z.shiftr x n) (Z.shiftr x n)), Z.lxor_nilpotent, Z.lxor_0_l. apply Z.lxor_comm. }
  assert (0 ≤ d) as Hd0 by (apply Z.lxor_nonneg; unfold is_u32 in *; lia).
  rewrite Z.shiftr_div_pow2 in Hd by lia. assert (d = 0) as Hd1.
  { destruct (decide (d = 0)) as [|Hne]; [done|]. pose proof (Z.div_lt d (2 ^ n) ltac:(lia) (proj1 (Z.pow_gt_1 2 n ltac:(lia)) Hn)). lia. }
  apply Z.lxor_eq in Hd1. done.
Qed.

Lemma xor_shifted_u32 n h : 0 ≤ n → is_u32 h → is_u32 (xor_shifted n h).
Proof.
  intros Hn Hh. apply lxor_u32; [done|]. unfold is_u32 in *. rewrite Z.shiftr_div_pow2 by done.
  split; [apply Z.div_pos; lia|]. apply Z.div_lt_upper_bound; nia.
Qed.

Lemma u8_inj c c' : is_char c → is_char c' → u8 c = u8 c' → c = c'.
Proof.
  intros Hc Hc' E. assert (∀ z, is_char z → swrap 8 (u8 z) = z) as Hinv.
  { intros z Hz. rewrite swrap_wrap by done. by apply swrap_small. }
  rewrite <-(Hinv c Hc), <-(Hinv c' Hc'). by rewrite E.
Qed.

Lemma u32_char_inj c c' : is_char c → is_char c' → u32 c = u32 c' → c = c'.
Proof.
  intros Hc Hc' E. assert (∀ z, is_char z → swrap 32 (u32 z) = z) as Hinv.
  { intros z Hz. rewrite swrap_wrap by done. apply swrap_small; [done|]. unfold is_char in Hz. lia. }
  rewrite <-(Hinv c Hc), <-(Hinv c' Hc'). by rewrite E.
Qed.

Lemma u8_u32 c : is_u32 (u8 c).
Proof. pose proof (wrap_range 8 c ltac:(done)). unfold is_u32. lia. Qed.

#[local] Hint Resolve u32_is_u32 u8_u32 lxor_u32 xor_shifted_u32 : core.

Lemma djb33_lossless : lossless djb33_step.
Proof.
  split; unfold djb33_step; [intros; apply lxor_u32; apply u32_is_u32| |].
  - intros h h' c Hh Hh' _ E%lxor_inj. by apply (add_shifted_inj 5 1041204193) in E.
  - intros h c c' _ Hc Hc' E. rewrite (Z.lxor_comm _ (u32 c)), (Z.lxor_comm _ (u32 c')) in E. apply lxor_inj in E.
    by apply u32_char_inj.
Qed.

Lemma h31_lossless : lossless h31_step.
Proof.
  split; unfold h31_step; [intros; apply u32_is_u32| |].
  - intros h h' c Hh Hh' _ E%add_inj; [|apply u32_is_u32..]. by apply (mul_inj 31 3186588639) in E.
  - intros h c c' _ Hc Hc' E. rewrite (Z.add_comm _ (u32 c)), (Z.add_comm _ (u32 c')) in E.
    apply add_inj in E; [|apply u32_is_u32..]. by apply u32_char_inj.
Qed.

Lemma fnv32_lossless : lossless fnv32_step.
Proof.
  assert (∀ x y, is_u32 x → is_u32 y → u32 (x * FNV_32_PRIME) = u32 (y * FNV_32_PRIME) → x = y) as Hm.
  { intros x y. rewrite (Z.mul_comm x), (Z.mul_comm y). by apply (mul_inj _ 899433627). }
  split; unfold fnv32_step; [intros; apply u32_is_u32| |].
  - intros h h' c Hh Hh' _ E%Hm; [|auto..]. by apply lxor_inj in E.
  - intros h c c' Hh Hc Hc' E%Hm; [|auto..]. rewrite (Z.lxor_comm _ (u8 c)), (Z.lxor_comm _ (u8 c')) in E.
    apply lxor_inj in E. by apply u8_inj.
Qed.

Lemma oat_lossless : lossless oat_step.
Proof.
  assert (∀ x y, xor_shifted 6 (add_shifted 10 (u32 x)) = xor_shifted 6 (add_shifted 10 (u32 y)) → u32 x = u32 y) as Hm.
  { intros x y E%xor_shifted_inj; [|done|apply u32_is_u32..].
    by apply (add_shifted_inj 10 3222273025) in E; try apply u32_is_u32. }
  split; unfold oat_step; [intros; apply xor_shifted_u32; [done|apply u32_is_u32]| |].
  - intros h h' c Hh Hh' _ E%Hm. by apply add_inj in E.
  - intros h c c' _ Hc Hc' E%Hm. rewrite (Z.add_comm _ (u8 c)), (Z.add_comm _ (u8 c')) in E.
    apply add_inj in E; [|apply u8_u32..]. by apply u8_inj.
Qed.

Lemma oat_finish_inj h h' : is_u32 h → is_u32 h' → oat_finish h = oat_finish h' → h = h'.
Proof.
  intros Hh Hh' E. unfold oat_finish in E.
  apply (add_shifted_inj 15 1073709057) in E; try done; try (apply xor_shifted_u32; [done|apply u32_is_u32]).
  apply xor_shifted_inj in E; [|done|apply u32_is_u32..]. by apply (add_shifted_inj 3 954437177) in E.
Qed.

Section Lossless.
Context (step : Z → Z → Z) (Hstep : lossless step).

(** The characters that are read, one after the other. *)
Lemma characters_fold len s h : (len ≤ length s)%nat → characters step len s h = Ok (foldl step h (take len s)).
Proof using.
  revert s h. induction len as [|len IH]; intros [|c s] h Hl; cbn in *; try done; try lia. by rewrite IH by lia.
Qed.

Lemma fold_range s h : is_u32 h → Forall is_char s → is_u32 (foldl step h s).
Proof using Hstep.
  intros Hh Hs. revert h Hh. induction Hs as [|c s Hc _ IH]; intros h Hh; cbn; [done|]. apply IH. by apply (lossless_range _ Hstep).
Qed.

Lemma fold_inj s h h' : is_u32 h → is_u32 h' → Forall is_char s → foldl step h s = foldl step h' s → h = h'.
Proof using Hstep.
  intros Hh Hh' Hs. revert h h' Hh Hh'. induction Hs as [|c s Hc _ IH]; intros h h' Hh Hh' E; cbn in E; [done|].
  apply IH in E; [|by apply (lossless_range _ Hstep)..]. by apply (lossless_hash _ Hstep) in E.
Qed.

Lemma fold_change s1 s2 c c' h : is_u32 h → Forall is_char (s1 ++ c :: s2) → is_char c' →
  foldl step h (s1 ++ c :: s2) = foldl step h (s1 ++ c' :: s2) → c = c'.
Proof using Hstep.
  intros Hh [H1 [Hc H2]%Forall_cons]%Forall_app Hc' E. rewrite !foldl_app in E. cbn in E.
  pose proof (fold_range s1 h Hh H1) as Hr.
  apply fold_inj in E; [|by apply (lossless_range _ Hstep)..|done]. by apply (lossless_char _ Hstep) in E.
Qed.

Lemma change_noticed s1 s2 c c' h : is_u32 h → Forall is_char (s1 ++ c :: s2) → is_char c' → c ≠ c' →
  ∃ h1 h2, characters step (length (s1 ++ c :: s2)) (s1 ++ c :: s2) h = Ok h1 ∧
    characters step (length (s1 ++ c :: s2)) (s1 ++ c' :: s2) h = Ok h2 ∧ is_u32 h1 ∧ is_u32 h2 ∧ h1 ≠ h2.
Proof using Hstep.
  intros Hh Hs Hc' Hne. assert (Forall is_char (s1 ++ c' :: s2)) as Hs'.
  { apply Forall_app in Hs as [H1 [_ H2]%Forall_cons]. by apply Forall_app_2; [|apply Forall_cons]. }
  assert (length (s1 ++ c :: s2) = length (s1 ++ c' :: s2)) as Hl by (by rewrite !length_app).
  exists (foldl step h (s1 ++ c :: s2)), (foldl step h (s1 ++ c' :: s2)). rewrite characters_fold by done.
  rewrite Hl, characters_fold by done. rewrite <-Hl at 1. rewrite !take_ge by lia.
  split_and!; [done..|by apply fold_range|by apply fold_range|]. by intros E%fold_change.
Qed.
End Lossless.

(** One of the four hash functions that use every bit. *)
Inductive full_hash : (list Z → nat → result Z) → Prop :=
  | djb33_full : full_hash djb33_hash
  | h31_full : full_hash h31_hash
  | fnv32_full : full_hash fnv32_hash
  | oat_full : full_hash oat_hash.

(** C37. The hash functions djb33, h31, fnv32 and oat notice every change of one character: of two strings
    of the same length that differ in one place they give different hashes, both of them 32-bit
    numbers. *)
Theorem one_change_noticed f s1 s2 c c' len :
  full_hash f → Forall is_char (s1 ++ c :: s2) → is_char c' → c ≠ c' → len = length (s1 ++ c :: s2) →
  ∃ h h', f (s1 ++ c :: s2) len = Ok h ∧ f (s1 ++ c' :: s2) len = Ok h' ∧ is_u32 h ∧ is_u32 h' ∧ h ≠ h'.
Proof.
  intros Hf Hs Hc' Hne ->. destruct Hf.
  - by apply (change_noticed _ djb33_lossless).
  - by apply (change_noticed _ h31_lossless).
  - by apply (change_noticed _ fnv32_lossless).
  - unfold oat_hash.
    destruct (change_noticed _ oat_lossless s1 s2 c c' 0 ltac:(done) Hs Hc' Hne) as (h1 & h2 & -> & -> & H1 & H2 & Hn).
    exists (oat_finish h1), (oat_finish h2). split_and!; [done..|apply u32_is_u32|apply u32_is_u32|].
    by intros E%oat_finish_inj.
Qed.

Lemma one_change_noticed_witness :
  ∃ h h', oat_hash [104; -23; 108; 108; 111] 5 = Ok h ∧ oat_hash [104; 101; 108; 108; 111] 5 = Ok h' ∧ h ≠ h'.
Proof.
  destruct (one_change_noticed oat_hash [104] [108; 108; 111] (-23) 101 5 oat_full) as (h & h' & H1 & H2 & _ & _ & Hn);
    [|split; [discriminate|reflexivity]|discriminate|reflexivity|exists h, h'; split; [exact H1|split; [exact H2|exact Hn]]].
  apply (bool_decide_unpack (Forall (λ c, -128 ≤ c < 128) [104; -23; 108; 108; 111])). vm_compute. exact I.
Defined.

(** ** Fibonacci numbers *)

Fixpoint fibonacci_pair (n : nat) : Z * Z :=
  match n with O => (0, 1) | S n => let p := fibonacci_pair n in (p.2, p.1 + p.2) end.
Definition fibonacci_number (n : nat) : Z := (fibonacci_pair n).1.

Lemma fibonacci_step n : fibonacci_number (S (S n)) = fibonacci_number (S n) + fibonacci_number n.
Proof. unfold fibonacci_number. cbn. lia. Qed.

Lemma fib_number fuel : ∀ n, (Z.to_nat n < fuel)%nat → 0 ≤ n → fib fuel n = Ok (u32 (fibonacci_number (Z.to_nat n))).
Proof.
  induction fuel as [|fuel IH]; intros n Hf Hn; [lia|]. cbn [fib]. destruct (Z.leb_spec n 1) as [H1|H1].
  - assert (n = 0 ∨ n = 1) as [-> | ->] by lia; done.
  - rewrite !IH by lia. cbn [mbind result_bind]. f_equal.
    replace (Z.to_nat n) with (S (S (Z.to_nat (n - 2)))) by lia.
    replace (Z.to_nat (n - 1)) with (S (Z.to_nat (n - 2))) by lia.
    by rewrite fibonacci_step, wrap_add_wrap_l, wrap_add_wrap_r.
Qed.

(** The function [fibonacci] ends for every input: it goes at most as deep as its argument, and
    writes the Fibonacci number of the argument modulo 2^32, four bytes. *)
Theorem fibonacci_ends input : is_u32 input →
  fibonacci (S (Z.to_nat input)) input = Ok (Some (u32 (fibonacci_number (Z.to_nat input))), 4).
Proof. intros [Hi _]. unfold fibonacci. by rewrite fib_number by lia. Qed.

Lemma fibonacci_ends_witness :
  fibonacci (S (Z.to_nat 50)) 50 = Ok (Some (u32 (fibonacci_number (Z.to_nat 50))), 4) ∧
  u32 (fibonacci_number (Z.to_nat 50)) = 3996334433.
Proof. split; [apply (fibonacci_ends 50); split; [discriminate|reflexivity]|vm_compute; reflexivity]. Defined.

(** ** [hash] *)

Lemma ejb_hash_below len s : (len ≤ length s)%nat → ∃ h, ejb_hash s len = Ok h ∧ 0 ≤ h < PRIME2.
Proof.
  intros Hl. unfold ejb_hash. rewrite characters_fold by done. cbn [mbind result_bind].
  eexists. split; [done|]. by apply Z.mod_pos_bound.
Qed.

Lemma hash_loop_done fuel : ∀ i input res, 0 ≤ i ≤ input → input < 2 ^ 31 → (Z.to_nat (input - i) < fuel)%nat →
  (∀ h, res = Some h → 0 ≤ h < PRIME2) → (0 < i → is_Some res) →
  ∃ res', hash_loop fuel i input res = Ok res' ∧ (∀ h, res' = Some h → 0 ≤ h < PRIME2) ∧
    (0 < input → is_Some res') ∧ (input = i → res' = res).
Proof.
  induction fuel as [|fuel IH]; intros i input res Hi Hm Hf Hr Hs; [lia|]. cbn [hash_loop].
  rewrite wrap_small by lia. destruct (Z.ltb_spec i input) as [Hlt|Hge].
  - destruct (ejb_hash_below buf_size buf) as (h & Hh & Hb); [unfold buf; by rewrite length_replicate|].
    rewrite Hh. cbn [mbind result_bind].
    rewrite (proj2 (Z.eqb_neq i _)) by lia. destruct (IH (i + 1) input (Some h)) as (res' & E & Hp & Hq & _); [lia|done|lia|by intros ? [= <-]|done|].
    exists res'. split_and!; [done..|lia].
  - exists res. split_and!; [done..| |done]. intros. apply Hs. lia.
Qed.

(** The function [hash] ends for every input below 2^31: it returns four bytes, writes a number below
    1048583 for an input other than 0 and leaves the output alone for the input 0. *)
Theorem hash_ends input : 0 ≤ input < 2 ^ 31 →
  ∃ res, hash (S (Z.to_nat input)) input = Ok (res, 4) ∧ (input = 0 ↔ res = None) ∧
    ∀ h, res = Some h → 0 ≤ h < PRIME2.
Proof.
  intros Hi. unfold hash.
  destruct (hash_loop_done (S (Z.to_nat input)) 0 input None) as (res & -> & Hr & Hs & Hz); [lia|lia|lia|done|lia|].
  exists res. split; [done|]. split; [|done]. split; [intros ->; by apply Hz|]. intros ->.
  destruct (decide (input = 0)) as [|Hn]; [done|]. by destruct (Hs ltac:(lia)).
Qed.
End ExampleFunctions.
