(* ===== verification/ClosedLoop.v ===== *)
(** * Clients that keep a window of invocations open

    src/benchmarks/high_concurrency.cpp (and closeloop_trap_client.cpp, in TrapClient.v): clients whose result
    function submits the next invocation.  The library calls the function in the middle of [poll_queue_once2]
    (src/rfaas/lib/executor.cpp), which [poll_queue_once2] of this file models with the call in its place:
    ClientExecutor.v only records that the call is made.

    The clock, the interrupt flag and the counter of processor cycles are arguments; latencies and the table
    of rates, which only go to a log, are not kept. *)

From S2P Require Import Prelude Verbs Buffer Queue Connection Messages Rdma Invocation ExecutorThread ClientConnection ClientExecutor System.

Module ClosedLoop.
Import ClientConnection ClientExecutor System.

(** ** The interface

    What the library needs of a client: where its executor is and what its result function does.  The other
    fields are for the laws: the count of results and the name of the function that is invoked. *)

Class LoopClient (W : Type) := {
  cl_exec : W → executor;
  cl_set_exec : executor → W → W;
  cl_resps : W → Z;
  cl_fname : W → string;
  cl_callback : ∀ `{Env}, Z → M W unit }.

(** The executor is a field; for a tag of the window, the result function counts a result and submits the
    function again, with the same tag. *)
Class LoopClientLaws (W : Type) (cl : LoopClient W) (n : Z) : Prop := {
  cl_exec_set e w : cl_exec (cl_set_exec e w) = e;
  cl_resps_set e w : cl_resps (cl_set_exec e w) = cl_resps w;
  cl_fname_set e w : cl_fname (cl_set_exec e w) = cl_fname w;
  cl_resubmits `{Env} tag w t u w' t' : 0 ≤ tag < n → cl_callback tag w t = Ok (u, w', t') →
    cl_resps w' = u64 (cl_resps w + 1) ∧ cl_fname w' = cl_fname w ∧
    ∃ inb out cb, async_callback2 (cl_fname w) inb out tag cb (-1) (cl_exec w) t = Ok (tt, cl_exec w', t');
  cl_grows `{Env} tag w t u w' t' : cl_callback tag w t = Ok (u, w', t') →
    (length (words t) ≤ length (words t'))%nat }.

Section Poll.
Context `{Env} {W : Type} `{LoopClient W}.

Definition on_exec {A} (op : M executor A) : M W A := zoom cl_exec cl_set_exec op.

(** A result: the count goes down, and at zero the function is called with the tag. *)
Definition settle_and_call (val : Z) : M W unit :=
  done ← on_exec (settle_callback2 val);
  when done (
    w ← read;
    c ← lift (from_opt "unknown invocation" (_callbacks2 (cl_exec w) !! Invocation.finished_invoc_id val));
    cl_callback (cb2_tag c)).

Definition poll_queue_once2 (cid : Z) : M W unit :=
  w ← read;
  if _end_requested (cl_exec w) then mret tt else
  wcs ← on_exec (poll_receive cid false);
  for_each wcs (λ wc, settle_and_call (word wc)) ;;
  on_exec (on_conn cid (Connection.poll_wc Connection.SEND false (-1))) ;;
  on_exec (refill cid).

(** [while ((end - begin) < total_cycles && ctrl_c_pressed != 1)]: a sample is [end - begin] and whether the
    flag is set, when the condition is evaluated. *)
Fixpoint while_time (total_cycles : Z) (samples : list (Z * bool)) (body : M W unit) : M W unit :=
  match samples with
  | [] => raise StillRunning
  | (cycles, pressed) :: samples =>
      if (cycles <? total_cycles) && negb pressed then body ;; while_time total_cycles samples body else mret tt
  end.
End Poll.

(** ** High concurrency *)

(** [ClientContext]; [exec] points to the executor. *)
Record ClientContext := mk_context {
  exec : executor; fname : string; output_size : Z; num_resps : Z; thread_id : Z;
  ins : list Buffer.t; outs : list Buffer.t }.

Definition set_exec (e : executor) (c : ClientContext) : ClientContext :=
  mk_context e (fname c) (output_size c) (num_resps c) (thread_id c) (ins c) (outs c).
Definition set_num_resps (n : Z) (c : ClientContext) : ClientContext :=
  mk_context (exec c) (fname c) (output_size c) n (thread_id c) (ins c) (outs c).
Definition set_buffers (i o : list Buffer.t) (c : ClientContext) : ClientContext :=
  mk_context (exec c) (fname c) (output_size c) (num_resps c) (thread_id c) i o.

(** The address of [return_callback]. *)
Definition RETURN_CALLBACK : Z := 1.

(** [c->exec->async_callback(c->fname, c->ins[w_i], c->outs[w_i], w_i, return_callback)] *)
Definition submit `{Env} (w_i : Z) : M ClientContext unit :=
  c ← read;
  inb ← lift (from_opt "input index out of bounds" (znth (ins c) w_i));
  out ← lift (from_opt "output index out of bounds" (znth (outs c) w_i));
  zoom exec set_exec (async_callback2 (fname c) inb out w_i RETURN_CALLBACK (-1)).

Definition return_callback `{Env} (w_i : Z) : M ClientContext unit :=
  modify (λ c, set_num_resps (u64 (num_resps c + 1)) c) ;; submit w_i.

#[global] Instance high_concurrency : LoopClient ClientContext := {|
  cl_exec := exec; cl_set_exec := set_exec; cl_resps := num_resps; cl_fname := fname;
  cl_callback := λ _, return_callback |}.

Section HighConcurrency.
Context `{Env} (statuses : trace → Z → Z) (infos : trace → Z → Buffer.RemoteBuffer).

(** The buffers of one core. *)
Definition add_buffers (input_size : Z) : M ClientContext unit :=
  c ← read;
  let pd := Rdma.p_pd (e_state (exec c)) in
  i ← Buffer.allocate input_size 1 DATA_HEADER_SIZE;
  i ← Buffer.on_buffer i (Buffer.register_memory pd IBV_ACCESS_LOCAL_WRITE);
  o ← Buffer.allocate (output_size c) 1 0;
  o ← Buffer.on_buffer o (Buffer.register_memory pd (Z.lor IBV_ACCESS_LOCAL_WRITE IBV_ACCESS_REMOTE_WRITE));
  modify (λ c, set_buffers (ins c ++ [i]) (outs c ++ [o]) c).

(** The measurement: one invocation per core, then results are polled for until the time is over. *)
Definition open_window (cores : Z) : M ClientContext unit := for_each (range cores) submit.
Definition round (cores : Z) : M ClientContext unit := for_each (range cores) poll_queue_once2.
Definition load (cores total_cycles : Z) (samples : list (Z * bool)) : M ClientContext unit :=
  open_window cores ;; while_time total_cycles samples (round cores).

(** The destructors of the context and of the executor. *)
Definition leave : M ClientContext unit :=
  zoom exec set_exec executor_destroy ;;
  c ← read;
  for_each (outs c) Buffer.destroy ;; for_each (ins c) Buffer.destroy.

(** The rest of [client_func] once there is an executor: the rate, or [None] when the allocation fails.
    [delta_ms] is the time between the two readings of the clock. *)
Definition client_func (fuel : nat) (address len : Z) (symbols : list string) (input_size hot_timeout
    warmup_repetitions cores total_cycles delta_ms : Z) (samples : list (Z * bool)) : M ClientContext (option Z) :=
  zoom exec set_exec (set_context address) ;;
  c ← read;
  ok ← zoom exec set_exec (allocate statuses infos fuel len symbols input_size (output_size c) hot_timeout cores 0 false);
  if negb ok then leave ;; mret None else
  for_each (range cores) (λ _, add_buffers input_size) ;;
  for_each (range warmup_repetitions) (λ _,
    c ← read; zoom exec set_exec (execute_all fuel (fname c) (ins c) (outs c)) ;; mret tt) ;;
  load cores total_cycles samples ;;
  c ← read;
  let delta_s := Z.quot delta_ms 1000 in
  (if delta_s =? 0 then raise (Undefined "division by zero") else mret tt) ;;
  zoom exec set_exec deallocate ;;
  leave ;;
  mret (Some (i32 (num_resps c `div` u64 delta_s))).

(** [client_func(thread_id, settings, opts)], from the construction of the executor on. *)
Definition client_thread (fuel : nat) (thread_id memory : Z) (dev : device_data) (fname : string) (output_size
    address len : Z) (symbols : list string) (input_size hot_timeout warmup_repetitions cores total_cycles
    delta_ms : Z) (samples : list (Z * bool)) : M unit (option Z) :=
  e ← executor_construct "10.10.1.1" 10000 cores memory (thread_id + 1) dev;
  with_object (mk_context e fname output_size 0 thread_id [] [])
    (client_func fuel address len symbols input_size hot_timeout warmup_repetitions cores total_cycles delta_ms samples).
End HighConcurrency.

(** ** Invocations in flight *)

(** The tags of the invocations whose result has not arrived, by number. *)
Definition pending (c : callback2) : option Z := if cb2_left c =? 1 then Some (cb2_tag c) else None.
Definition in_flight (e : executor) : gmap Z Z := omap pending (_callbacks2 e).

(** No number is above the counter, and at most one result is missing for each. *)
Record tracked (e : executor) : Prop := {
  tracked_counter : 0 ≤ _invoc_id e;
  tracked_number id : is_Some (_callbacks2 e !! id) → id ≤ _invoc_id e;
  tracked_left id c : _callbacks2 e !! id = Some c → cb2_left c ≤ 1 }.

Definition knows (fname : string) (e : executor) : Prop := is_Some (Invocation.func_index fname (_func_names e)).

(** What polling and posting leave alone. *)
Definition submitted (e : executor) : gmap Z callback2 * Z * list string := (_callbacks2 e, _invoc_id e, _func_names e).

Section Flight.
Context `{Env}.

Lemma submitted_on_conn {A} i (op : M Connection.t A) : frames submitted (on_conn i op).
Proof using. unfold on_conn, the_connection. frame. Qed.

#[local] Hint Resolve submitted_on_conn : rfaas.

Lemma submitted_write_header inb out : frames submitted (write_header inb out).
Proof using. unfold write_header, Buffer.rkey. frame. Qed.

Lemma submitted_post_input i inb size code sol : frames submitted (post_input i inb size code sol).
Proof using. unfold post_input, the_connection. frame. Qed.

Lemma submitted_refill i : frames submitted (refill i).
Proof using. unfold refill. frame. Qed.

#[local] Hint Resolve submitted_refill : rfaas.

Lemma submitted_refills : frames submitted (on_all refill).
Proof using. unfold on_all. frame. Qed.

Lemma submitted_poll_receive i b : frames submitted (poll_receive i b).
Proof using. unfold poll_receive. frame. Qed.

Lemma wordless_refills : wordless (on_all refill).
Proof using.
  unfold on_all. apply wordless_bind; [apply wordless_emits; auto with rfaas|]. intros e.
  induction (range _) as [|i l IH]; cbn [for_each]; [apply wordless_emits; auto with rfaas|].
  apply wordless_bind; [apply wordless_refill|]. by intros _.
Qed.

(** A submission with a function of the library takes the next number. *)
Lemma async_callback2_inv fname inb out tag cb size e t u e' t' :
  async_callback2 fname inb out tag cb size e t = Ok (u, e', t') → knows fname e →
  let id := Invocation.next_invoc (_invoc_id e) in
  submitted e' = (<[id := mk_callback2 1 cb (Buffer.ptr out) tag]> (_callbacks2 e), id, _func_names e) ∧
  length (words t') = S (length (words t)).
Proof using.
  intros E Hk id. destruct Hk as [idx Hidx]. unfold async_callback2 in E. step_inv E. rewrite Hidx in E.
  bind_inv E as ? e1 t1 E1. pose proof (wordless_write_header _ _ _ _ _ _ _ E1) as W1. apply submitted_write_header in E1.
  bind_inv E as id' e2 t2 E2. unfold next_invoc_id in E2. step_inv E2. run_inv_at E2. step_inv E.
  bind_inv E as ? e3 t3 E3. pose proof (post_input_word _ _ _ _ _ _ _ _ _ _ E3) as W3. apply submitted_post_input in E3.
  bind_inv E as ? e4 t4 E4. pose proof (wordless_on_conn _ _ (Rdma.silent_poll_wc _ _ _) _ _ _ _ _ E4) as W4.
  apply submitted_on_conn in E4. pose proof (wordless_refills _ _ _ _ _ E) as W5. apply submitted_refills in E.
  rewrite E, E4, E3, W5, W4, W3, length_app, W1. cbn [length]. split; [|lia].
  unfold submitted in E1 |- *. cbn. injection E1 as -> -> ->. done.
Qed.

Lemma async_callback2_grows fname inb out tag cb size e t u e' t' :
  async_callback2 fname inb out tag cb size e t = Ok (u, e', t') → (length (words t) ≤ length (words t'))%nat.
Proof using.
  intros E. destruct (Invocation.func_index fname (_func_names e)) as [idx|] eqn:Hidx.
  - apply async_callback2_inv in E as [_ ->]; [lia|]. by exists idx.
  - unfold async_callback2 in E. step_inv E. rewrite Hidx in E. by run_inv_at E.
Qed.

Lemma submit_flight fname inb out tag cb size e t u e' t' :
  async_callback2 fname inb out tag cb size e t = Ok (u, e', t') → knows fname e → tracked e → _invoc_id e < 2 ^ 16 - 1 →
  let id := _invoc_id e + 1 in
  tracked e' ∧ in_flight e !! id = None ∧ in_flight e' = <[id := tag]> (in_flight e) ∧ _invoc_id e' = id ∧
  _func_names e' = _func_names e ∧ length (words t') = S (length (words t)).
Proof using.
  intros E Hk [Hc Hn Hl] Hid id. apply async_callback2_inv in E as [E Hw]; [|done]. cbv zeta in E.
  assert (Invocation.next_invoc (_invoc_id e) = id) as Hnext.
  { unfold Invocation.next_invoc. rewrite (proj2 (Z.eqb_neq _ _)) by lia. done. }
  rewrite Hnext in E. unfold submitted in E. injection E as Ecb Eid Ename.
  assert (_callbacks2 e !! id = None) as Hfresh.
  { apply eq_None_not_Some. intros Hs. apply Hn in Hs. lia. }
  split_and!; [| |unfold in_flight; rewrite Ecb; apply omap_insert_Some; done|done..].
  - split; rewrite ?Eid, ?Ecb; [lia| |].
    + intros i Hi. destruct (decide (i = id)) as [->|Hne]; [lia|]. rewrite lookup_insert_ne in Hi by done. apply Hn in Hi. lia.
    + intros i c Hi. destruct (decide (i = id)) as [->|Hne].
      * rewrite lookup_insert_eq in Hi. by injection Hi as <-.
      * rewrite lookup_insert_ne in Hi by done. by eapply Hl.
  - unfold in_flight. by rewrite lookup_omap, Hfresh.
Qed.

(** A result: the number it is for is in flight no more, if it was. *)
Lemma settle_flight val e t b e' t' : settle_callback2 val e t = Ok (b, e', t') → tracked e →
  let id := Invocation.finished_invoc_id val in
  t' = t ∧ tracked e' ∧ _invoc_id e' = _invoc_id e ∧ _func_names e' = _func_names e ∧
  if b then ∃ c, _callbacks2 e' !! id = Some c ∧ in_flight e !! id = Some (cb2_tag c) ∧ in_flight e' = delete id (in_flight e)
  else in_flight e' = in_flight e.
Proof using.
  intros E [Hc Hn Hl] id. unfold settle_callback2 in E. step_inv E. bind_inv E as c e1 t1 E1. run_inv_at E1.
  apply from_opt_Ok in E1. step_inv E. fold id in E1, E. set (c' := mk_callback2 _ _ _ _) in E.
  set (e1 := set_callbacks2 _ _) in E.
  assert (tracked e1) as Ht1.
  { split; [done|..]; cbn; intros i.
    - intros Hi. destruct (decide (i = id)) as [->|Hne]; [apply Hn; by eexists|]. rewrite lookup_insert_ne in Hi by done. by apply Hn.
    - intros d Hi. destruct (decide (i = id)) as [->|Hne].
      + rewrite lookup_insert_eq in Hi. injection Hi as <-. cbn. apply Hl in E1. lia.
      + rewrite lookup_insert_ne in Hi by done. by eapply Hl. }
  assert (pending c' = None) as Hp'.
  { unfold pending, c'. cbn. rewrite (proj2 (Z.eqb_neq _ _)); [done|]. apply Hl in E1. lia. }
  assert (in_flight e1 = delete id (in_flight e)) as Hf1 by (unfold in_flight; cbn; by apply omap_insert_None).
  destruct (Z.eqb_spec (cb2_left c - 1) 0) as [Hz|Hz].
  - bind_inv E as x e2 t2 E2. run_inv_at E2. step_inv E. run_inv_at E. split_and!; [done|destruct Ht1; by split|done..|].
    exists c'. cbn. rewrite lookup_insert_eq. split; [done|]. split; [|done].
    unfold in_flight. rewrite lookup_omap, E1. cbn. unfold pending. by rewrite (proj2 (Z.eqb_eq _ _)) by lia.
  - run_inv_at E. split_and!; [done..|]. rewrite Hf1. apply delete_id. unfold in_flight. rewrite lookup_omap, E1. cbn.
    unfold pending. by rewrite (proj2 (Z.eqb_neq _ _)) by lia.
Qed.
End Flight.

(** ** The window *)

Section Window.
Context `{Env} {W : Type} {cl : LoopClient W} (n : Z) `{!LoopClientLaws W cl n}.

(** [n] invocations are in flight, one for every tag. *)
Definition window (e : executor) : Prop := (map_to_list (in_flight e)).*2 ≡ₚ range n.

(** Every word was a submission, and all but [b] words were submitted for a result. *)
Record looping (k b : Z) (w : W) (t : trace) : Prop := {
  looping_tracked : tracked (cl_exec w);
  looping_knows : knows (cl_fname w) (cl_exec w);
  looping_window : window (cl_exec w);
  looping_number : _invoc_id (cl_exec w) = k + Z.of_nat (length (words t));
  looping_resps : cl_resps w = Z.of_nat (length (words t)) - b;
  looping_below : 0 ≤ cl_resps w ≤ _invoc_id (cl_exec w) }.

(** The numbers have not been used up. *)
Definition bounded (k : Z) (t : trace) : Prop := k + Z.of_nat (length (words t)) < 2 ^ 16.

Definition keeps {A} (k b : Z) (op : M W A) : Prop := ∀ w t a w' t', op w t = Ok (a, w', t') →
  (length (words t) ≤ length (words t'))%nat ∧
  ((bounded k t → looping k b w t) → bounded k t' → looping k b w' t').

Lemma keeps_bind {A B} k b (op : M W A) (f : A → M W B) : keeps k b op → (∀ a, keeps k b (f a)) → keeps k b (op ≫= f).
Proof using.
  intros Ho Hf w t r w' t' E. bind_inv E as a w1 t1 E1. apply Ho in E1 as [G1 L1]. apply Hf in E as [G2 L2].
  split; [lia|]. intros HL. auto.
Qed.

Lemma keeps_ret {A} k b (a : A) : keeps k b (mret a).
Proof using. intros w t r w' t' E. run_inv_at E. split; [lia|auto]. Qed.

Lemma keeps_read k b : keeps k b read.
Proof using. intros w t r w' t' E. run_inv_at E. split; [lia|auto]. Qed.

Lemma keeps_for_each {A} k b (l : list A) body : (∀ a, keeps k b (body a)) → keeps k b (for_each l body).
Proof using. intros Hb. induction l as [|a l IH]; cbn [for_each]; [apply keeps_ret|by apply keeps_bind]. Qed.

Lemma looping_submitted k b w t e :
  looping k b w t → submitted e = submitted (cl_exec w) → looping k b (cl_set_exec e w) t.
Proof using LoopClientLaws0.
  intros [[Hc Hn Hl] Hk Hw Hid Hr Hb] E. unfold submitted in E. injection E as Ecb Eid Ename.
  unfold knows, window, in_flight in *.
  split; rewrite ?cl_exec_set, ?cl_resps_set, ?cl_fname_set; [split|..]; unfold knows, window, in_flight;
    by rewrite ?Ecb, ?Eid, ?Ename.
Qed.

Lemma keeps_on_exec {A} k b (op : M executor A) : frames submitted op → wordless op → keeps k b (on_exec op).
Proof using LoopClientLaws0.
  intros Hf Hw w t a w' t' E. unfold on_exec in E. run_inv_at E. pose proof (Hw _ _ _ _ _ E) as Ew. apply Hf in E.
  unfold bounded. rewrite Ew. split; [lia|]. intros HL Hb. apply HL in Hb. destruct Hb as [? ? ? Hid Hr ?].
  rewrite <-Ew in Hid, Hr. by apply looping_submitted.
Qed.

(** The tags of the invocations in flight, when a number is answered and another one submitted with the
    same tag. *)
Lemma window_next (m : gmap Z Z) id id' tag : m !! id = Some tag → m !! id' = None →
  (map_to_list (<[id' := tag]> (delete id m))).*2 ≡ₚ (map_to_list m).*2.
Proof using.
  intros Hid Hid'. rewrite map_to_list_insert by (by rewrite lookup_delete_None; right).
  rewrite <-(map_to_list_delete m id tag Hid). done.
Qed.

Lemma settle_callback2_trace val e t b e' t' : settle_callback2 val e t = Ok (b, e', t') → t' = t.
Proof using.
  unfold settle_callback2. intros E. step_inv E. bind_inv E as c e1 t1 E1. run_inv_at E1. step_inv E.
  destruct (_ =? 0); [|by run_inv_at E]. bind_inv E as x e2 t2 E2. run_inv_at E2. step_inv E. by run_inv_at E.
Qed.

Lemma in_window e id tag : window e → in_flight e !! id = Some tag → 0 ≤ tag < n.
Proof using.
  intros Hw Hid. apply elem_of_range. unfold window in Hw. rewrite <-Hw. apply list_elem_of_fmap. exists (id, tag).
  split; [done|]. by apply elem_of_map_to_list.
Qed.

(** The function is called for a number that was in flight: another one takes its place. *)
Lemma looping_called k b w e1 t val c u w' t' :
  looping k b w t → bounded k t' → settle_callback2 val (cl_exec w) t = Ok (true, e1, t) →
  _callbacks2 e1 !! Invocation.finished_invoc_id val = Some c →
  cl_callback (cb2_tag c) (cl_set_exec e1 w) t = Ok (u, w', t') → looping k b w' t'.
Proof using LoopClientLaws0.
  intros [Ht Hk Hw Hid Hr Hb] Hbd Es Hc E.
  destruct (settle_flight _ _ _ _ _ _ Es Ht) as (_ & Ht1 & Hid1 & Hn1 & c1 & Hc1 & Hin & Hdel).
  rewrite Hc in Hc1. injection Hc1 as <-. pose proof (in_window _ _ _ Hw Hin) as Htag.
  apply cl_resubmits in E as (Hr' & Hf' & inb & out & cb & E); [|done].
  rewrite cl_exec_set, ?cl_resps_set, ?cl_fname_set in *.
  assert (knows (cl_fname w) e1) as Hk1 by (unfold knows; by rewrite Hn1).
  pose proof (async_callback2_inv _ _ _ _ _ _ _ _ _ _ _ E Hk1) as [_ Hlen]. unfold bounded in Hbd.
  destruct (submit_flight _ _ _ _ _ _ _ _ _ _ _ E Hk1 Ht1 ltac:(lia)) as (Ht2 & Hnone & Hin2 & Hid2 & Hn2 & _).
  split; [done|unfold knows; by rewrite Hf', Hn2, Hn1| |lia| |].
  - unfold window. rewrite Hin2, Hdel, window_next; [done|done|].
    apply eq_None_not_Some. intros [x Hx]. apply lookup_omap_Some in Hx as (d & _ & Hd).
    pose proof (tracked_number _ Ht (_invoc_id e1 + 1) ltac:(by eexists)). lia.
  - rewrite Hr', wrap_small by lia. lia.
  - rewrite Hr', wrap_small by lia. lia.
Qed.

Lemma keeps_settle_and_call k b val : keeps k b (settle_and_call val).
Proof using LoopClientLaws0.
  intros w t u w' t' E. unfold settle_and_call in E. bind_inv E as called w1 t1 E1. unfold on_exec in E1.
  apply zoom_Ok in E1 as (e1 & E1 & ->). pose proof (settle_callback2_trace _ _ _ _ _ _ E1) as ->.
  destruct called; cbn [when] in E.
  - step_inv E. bind_inv E as c w2 t2 E2. run_inv_at E2. apply from_opt_Ok in E2. rewrite cl_exec_set in E2.
    pose proof (cl_grows _ _ _ _ _ _ E) as Hg. split; [done|]. intros HL Hb.
    eapply looping_called; [apply HL; unfold bounded in *; lia|done..].
  - run_inv_at E. split; [done|]. intros HL Hb. destruct (HL Hb) as [Ht Hk Hw Hid Hr Hbe].
    destruct (settle_flight _ _ _ _ _ _ E1 Ht) as (_ & Ht1 & Hid1 & Hn1 & Hin).
    split; rewrite ?cl_exec_set, ?cl_resps_set, ?cl_fname_set, ?Hid1; try done.
    + unfold knows. by rewrite Hn1.
    + unfold window. by rewrite Hin.
Qed.

Lemma keeps_poll k b cid : keeps k b (poll_queue_once2 cid).
Proof using LoopClientLaws0.
  unfold poll_queue_once2. apply keeps_bind; [apply keeps_read|]. intros w. destruct (_end_requested _); [apply keeps_ret|].
  apply keeps_bind; [apply keeps_on_exec; [apply submitted_poll_receive|apply wordless_poll_receive]|]. intros wcs.
  apply keeps_bind; [apply keeps_for_each; intros wc; apply keeps_settle_and_call|]. intros _.
  apply keeps_bind; [apply keeps_on_exec; [apply submitted_on_conn|apply wordless_on_conn, Rdma.silent_poll_wc]|].
  intros _. apply keeps_on_exec; [apply submitted_refill|apply wordless_refill].
Qed.

Lemma keeps_while_time k b total samples body : keeps k b body → keeps k b (while_time total samples body).
Proof using.
  intros Hb. induction samples as [|[cycles pressed] samples IH]; cbn [while_time]; [by intros w t a w' t' E|].
  destruct (_ && _); [|apply keeps_ret]. by apply keeps_bind.
Qed.
End Window.

(** ** Opening the window *)

Section Opening.
Context `{Env} {W : Type} {cl : LoopClient W}.

(** Nothing is in flight. *)
Lemma looping_idle (w : W) t : _callbacks2 (cl_exec w) = ∅ → 0 ≤ _invoc_id (cl_exec w) → knows (cl_fname w) (cl_exec w) →
  cl_resps w = 0 →
  looping 0 (_invoc_id (cl_exec w) - Z.of_nat (length (words t))) (Z.of_nat (length (words t))) w t.
Proof using.
  intros Hcb Hid Hk Hr. split; [|done| |lia..].
  - split; [done|..]; rewrite Hcb; intros id; rewrite lookup_empty; [by intros []|done].
  - unfold window, in_flight. by rewrite Hcb, omap_empty, map_to_list_empty.
Qed.

(** One more invocation, with the next tag. *)
Lemma looping_more i k b (w w' : W) inb out cb t t' : 0 ≤ i → looping i k b w t → bounded k t' →
  async_callback2 (cl_fname w) inb out i cb (-1) (cl_exec w) t = Ok (tt, cl_exec w', t') →
  cl_resps w' = cl_resps w → cl_fname w' = cl_fname w → looping (i + 1) k (b + 1) w' t'.
Proof using.
  intros Hi [Ht Hk Hw Hid Hr Hb] Hbd E Hr' Hf'.
  pose proof (async_callback2_inv _ _ _ _ _ _ _ _ _ _ _ E Hk) as [_ Hlen]. unfold bounded in Hbd.
  destruct (submit_flight _ _ _ _ _ _ _ _ _ _ _ E Hk Ht ltac:(lia)) as (Ht2 & Hnone & Hin & Hid2 & Hn2 & _).
  split; [done|unfold knows; by rewrite Hf', Hn2| |lia..].
  unfold window in *. rewrite Hin, map_to_list_insert by done. cbn. unfold range in *.
  rewrite Hw, (seqZ_app 0 i 1) by lia. apply Permutation_cons_append.
Qed.
End Opening.

#[global] Instance high_concurrency_laws n : LoopClientLaws ClientContext high_concurrency n.
Proof.
  split; [done..| |].
  - intros env tag w t u w' t' _ E. cbn in E. unfold return_callback in E. step_inv E. unfold submit in E. step_inv E.
    bind_inv E as inb w1 t1 E1. run_inv_at E1. bind_inv E as out w2 t2 E2. run_inv_at E2. run_inv_at E. destruct u.
    split_and!; [done..|]. by exists inb, out, RETURN_CALLBACK.
  - intros env tag w t u w' t' E. cbn in E. unfold return_callback in E. step_inv E. unfold submit in E. step_inv E.
    bind_inv E as inb w1 t1 E1. run_inv_at E1. bind_inv E as out w2 t2 E2. run_inv_at E2. run_inv_at E.
    by eapply async_callback2_grows.
Qed.

(** [submit] is an invocation with the index as the tag. *)
Lemma submit_inv `{Env} i c t u c' t' : submit i c t = Ok (u, c', t') →
  num_resps c' = num_resps c ∧ fname c' = fname c ∧
  ∃ inb out, async_callback2 (fname c) inb out i RETURN_CALLBACK (-1) (exec c) t = Ok (tt, exec c', t').
Proof.
  unfold submit. intros E. step_inv E. bind_inv E as inb w1 t1 E1. run_inv_at E1. bind_inv E as out w2 t2 E2.
  run_inv_at E2. run_inv_at E. destruct u. split_and!; [done..|]. by exists inb, out.
Qed.

Lemma open_window_grows `{Env} l c t u c' t' : for_each l submit c t = Ok (u, c', t') →
  (length (words t) ≤ length (words t'))%nat.
Proof.
  revert c t. induction l as [|i l IH]; intros c t E; cbn [for_each] in E; [by run_inv_at E|].
  bind_inv E as x c1 t1 E1. apply submit_inv in E1 as (_ & _ & inb & out & E1). apply async_callback2_grows in E1.
  apply IH in E. lia.
Qed.

Lemma open_window_looping `{Env} m : ∀ i k b c t u c' t', 0 ≤ i → looping i k b c t → bounded k t' →
  for_each (seqZ i (Z.of_nat m)) submit c t = Ok (u, c', t') → looping (i + Z.of_nat m) k (b + Z.of_nat m) c' t'.
Proof.
  induction m as [|m IH]; intros i k b c t u c' t' Hi HL Hb E.
  - change (Ok (tt, c, t) = Ok (u, c', t')) in E. injection E as <- <- <-. by rewrite !Z.add_0_r.
  - rewrite seqZ_cons in E by lia. cbn [for_each] in E. bind_inv E as x c1 t1 E1.
    pose proof (open_window_grows _ _ _ _ _ _ E) as Hg. apply submit_inv in E1 as (Hr & Hf & inb & out & E1).
    replace (Z.pred (Z.of_nat (S m))) with (Z.of_nat m) in E by lia. replace (Z.succ i) with (i + 1) in E by lia.
    assert (looping (i + 1) k (b + 1) c1 t1) as HL1.
    { apply (looping_more i k b c c1 inb out RETURN_CALLBACK t t1); [done|done| |exact E1|done|done]. unfold bounded in *. lia. }
    apply (IH (i + 1) _ _ _ _ _ _ _ ltac:(lia) HL1 Hb) in E.
    by replace (i + Z.of_nat (S m)) with (i + 1 + Z.of_nat m) by lia;
      replace (b + Z.of_nat (S m)) with (b + 1 + Z.of_nat m) by lia.
Qed.

(** C20. A client of the high-concurrency kind keeps its window full. If nothing is pending when the
    measurement starts and the function is one of the library, then, however the results arrive and
    however long it polls, as long as fewer than 65536 numbers are used: when the measurement ends exactly
    one invocation is in flight for every core, and the words written are one per core and one per result
    that was counted. *)
Theorem closed_loop_window `{Env} n total samples c t c' t' :
  0 ≤ n → load n total samples c t = Ok (tt, c', t') →
  _callbacks2 (exec c) = ∅ → 0 ≤ _invoc_id (exec c) → knows (fname c) (exec c) → num_resps c = 0 →
  let written := Z.of_nat (length (words t')) - Z.of_nat (length (words t)) in
  _invoc_id (exec c) + written < 2 ^ 16 →
  (map_to_list (in_flight (exec c'))).*2 ≡ₚ range n ∧ written = n + num_resps c'.
Proof.
  intros Hn E Hcb Hid Hk Hr written Hb. pose proof (looping_idle c t Hcb Hid Hk Hr) as HL.
  unfold load in E. bind_inv E as u c1 t1 E1. unfold open_window, range in E1.
  set (k := _invoc_id (cl_exec c) - _) in HL. assert (bounded k t') as Hb' by (unfold bounded, k, written in *; cbn; lia).
  apply (keeps_while_time n k (Z.of_nat (length (words t)) + n)) in E as [Hg HK];
    [|apply keeps_for_each; intros i; apply keeps_poll; apply _].
  assert (looping n k (Z.of_nat (length (words t)) + n) c1 t1) as HL1.
  { rewrite <-(Z2Nat.id n) in E1 |- * by done.
    apply (open_window_looping (Z.to_nat n) 0 k (Z.of_nat (length (words t))) c t u c1 t1); [done|exact HL| |exact E1].
    unfold bounded in *. lia. }
  destruct (HK (λ _, HL1) Hb') as [_ _ Hw _ Hr' _]. split; [exact Hw|]. unfold written. cbn in Hr'. lia.
Qed.

(** The result of the invocation before the last one arrives at every poll. *)
Definition answering_env : Env :=
  scripted_env 8 (λ t cq _,
      if cq =? 71 then (1, [mk_wc 0 0 7 (htonl ((Z.of_nat (length (words t)) - 1) * 2 ^ 16)) 4]) else (0, []))
    (λ _, (0, quiet_event)) (λ _, 0) (λ _, 0).

Definition demo_context : ClientContext :=
  mk_context (demo_executor 2 0 3) "resize" 64 0 0 [demo_input; demo_input] [demo_output; demo_output].

(** Two cores; two rounds, each with two results. *)
Lemma closed_loop_window_witness :
  ∃ c' t', @load answering_env 2 1000 [(0, false); (400, false); (1200, false)] demo_context [] = Ok (tt, c', t') ∧
    (map_to_list (in_flight (exec c'))).*2 ≡ₚ [0; 1] ∧ length (words t') = 6%nat ∧ num_resps c' = 4.
Proof.
  destruct (@load answering_env 2 1000 [(0, false); (400, false); (1200, false)] demo_context []) as [[[[] c'] t']|] eqn:E;
    [|vm_compute in E; discriminate E].
  assert (length (words t') = 6%nat) as Hw by (vm_compute in E; injection E as <- <-; vm_compute; reflexivity).
  destruct (@closed_loop_window answering_env 2 1000 [(0, false); (400, false); (1200, false)] demo_context [] c' t') as [Hp Hn];
    [discriminate|exact E|reflexivity|discriminate|exists 1; reflexivity|reflexivity|rewrite Hw; reflexivity|].
  exists c', t'. split; [reflexivity|]. split; [exact Hp|]. split; [exact Hw|]. rewrite Hw in Hn. cbn in Hn. lia.
Defined.

End ClosedLoop.
