(* ===== verification/TrapClient.v ===== *)
(** * The client that sends a trap

    src/benchmarks/closeloop_trap_client.cpp: a client of the kind of ClosedLoop.v with one invocation in
    flight, which after some time invokes the function once with a parameter that makes it fail.  It is
    another instance of the interface of ClosedLoop.v.

    The counter of processor cycles is an argument; the numbers of results of the intervals are kept as
    counts, which the program divides by a million. *)

From S2P Require Import Prelude Verbs Buffer Queue Connection Messages Rdma Invocation ExecutorThread ClientConnection ClientExecutor System ClosedLoop.

Module TrapClient.
Import ClientExecutor System ClosedLoop.

(** [first_byte] is the first byte of the last input buffer. *)
Record TrapContext := mk_context {
  exec : executor; fname : string; output_size : Z; num_resps : Z; thread_id : Z; trap_type : Z;
  total_cycles_when_send_trap : Z; trap_has_sent : Z; start_ts : Z; ins : list Buffer.t; outs : list Buffer.t;
  first_byte : Z; throughput : list Z }.

Definition set_exec (e : executor) (c : TrapContext) : TrapContext :=
  mk_context e (fname c) (output_size c) (num_resps c) (thread_id c) (trap_type c) (total_cycles_when_send_trap c)
    (trap_has_sent c) (start_ts c) (ins c) (outs c) (first_byte c) (throughput c).
Definition set_num_resps (n : Z) (c : TrapContext) : TrapContext :=
  mk_context (exec c) (fname c) (output_size c) n (thread_id c) (trap_type c) (total_cycles_when_send_trap c)
    (trap_has_sent c) (start_ts c) (ins c) (outs c) (first_byte c) (throughput c).
Definition set_first_byte (b : Z) (c : TrapContext) : TrapContext :=
  mk_context (exec c) (fname c) (output_size c) (num_resps c) (thread_id c) (trap_type c)
    (total_cycles_when_send_trap c) (trap_has_sent c) (start_ts c) (ins c) (outs c) b (throughput c).
Definition set_trap_has_sent (n : Z) (c : TrapContext) : TrapContext :=
  mk_context (exec c) (fname c) (output_size c) (num_resps c) (thread_id c) (trap_type c)
    (total_cycles_when_send_trap c) n (start_ts c) (ins c) (outs c) (first_byte c) (throughput c).
Definition set_throughput (l : list Z) (c : TrapContext) : TrapContext :=
  mk_context (exec c) (fname c) (output_size c) (num_resps c) (thread_id c) (trap_type c)
    (total_cycles_when_send_trap c) (trap_has_sent c) (start_ts c) (ins c) (outs c) (first_byte c) l.
Definition set_buffers (i o : list Buffer.t) (c : TrapContext) : TrapContext :=
  mk_context (exec c) (fname c) (output_size c) (num_resps c) (thread_id c) (trap_type c)
    (total_cycles_when_send_trap c) (trap_has_sent c) (start_ts c) i o (first_byte c) (throughput c).
Definition set_cycles (n : Z) (c : TrapContext) : TrapContext :=
  mk_context (exec c) (fname c) (output_size c) (num_resps c) (thread_id c) (trap_type c) n
    (trap_has_sent c) (start_ts c) (ins c) (outs c) (first_byte c) (throughput c).
Definition set_start_ts (n : Z) (c : TrapContext) : TrapContext :=
  mk_context (exec c) (fname c) (output_size c) (num_resps c) (thread_id c) (trap_type c)
    (total_cycles_when_send_trap c) (trap_has_sent c) n (ins c) (outs c) (first_byte c) (throughput c).

Section Client.
Context `{Env} (rdtsc : trace → Z).

Definition async : M TrapContext unit :=
  c ← read;
  inb ← lift (from_opt "input index out of bounds" (znth (ins c) 0));
  out ← lift (from_opt "output index out of bounds" (znth (outs c) 0));
  zoom exec set_exec (async_callback2 (fname c) inb out 0 RETURN_CALLBACK (-1)).

(** The byte is written into the last input buffer, then the function is invoked. *)
Definition send (b : Z) : M TrapContext unit :=
  c ← read;
  lift (from_opt "no input buffer" (last (ins c))) ;;
  modify (set_first_byte (swrap 8 b)) ;;
  async.

Definition return_callback : M TrapContext unit :=
  modify (λ c, set_num_resps (u64 (num_resps c + 1)) c) ;;
  c ← read;
  if trap_has_sent c =? 0 then
    now ← peek rdtsc;
    if total_cycles_when_send_trap c <=? u64 (now - start_ts c) then
      send (trap_type c) ;; modify (set_trap_has_sent 1)
    else send 4
  else send 4.
End Client.

(** The tag of every invocation is 0. *)
#[global] Instance trap_client (rdtsc : trace → Z) : LoopClient TrapContext := {|
  cl_exec := exec; cl_set_exec := set_exec; cl_resps := num_resps; cl_fname := fname;
  cl_callback := λ _ _, return_callback rdtsc |}.

Section Measure.
Context `{Env} (rdtsc : trace → Z).
Let client : LoopClient TrapContext := trap_client rdtsc.
#[local] Existing Instance client.

(** One iteration; [interval_over] tells whether [print_interval_cycles] have passed. *)
Definition iteration (interval_over : bool) : M TrapContext unit :=
  poll_queue_once2 0 ;;
  when interval_over
    (modify (λ c, set_throughput (throughput c ++ [num_resps c]) c) ;; modify (set_num_resps 0)).

(** A sample is [end - begin], the interrupt flag, and whether the interval is over. *)
Fixpoint measure (total_cycles : Z) (samples : list (Z * bool * bool)) : M TrapContext unit :=
  match samples with
  | [] => raise StillRunning
  | (cycles, pressed, interval_over) :: samples =>
      if (cycles <? total_cycles) && negb pressed then iteration interval_over ;; measure total_cycles samples
      else mret tt
  end.

(** The first invocation, then the loop. *)
Definition load (total_cycles : Z) (samples : list (Z * bool * bool)) : M TrapContext unit :=
  async ;; measure total_cycles samples.

(** The buffers of one core. *)
Definition add_buffers (input_size : Z) : M TrapContext unit :=
  c ← read;
  let pd := Rdma.p_pd (e_state (exec c)) in
  i ← Buffer.allocate input_size 1 DATA_HEADER_SIZE;
  i ← Buffer.on_buffer i (Buffer.register_memory pd IBV_ACCESS_LOCAL_WRITE);
  o ← Buffer.allocate (output_size c) 1 0;
  o ← Buffer.on_buffer o (Buffer.register_memory pd (Z.lor IBV_ACCESS_LOCAL_WRITE IBV_ACCESS_REMOTE_WRITE));
  modify (set_buffers (ins c ++ [i]) (outs c ++ [o])) ;;
  when (0 <? input_size) (modify (set_first_byte 4)).

Definition leave : M TrapContext unit :=
  zoom exec set_exec executor_destroy ;;
  c ← read;
  for_each (outs c) Buffer.destroy ;; for_each (ins c) Buffer.destroy.

Context (statuses : trace → Z → Z) (infos : trace → Z → Buffer.RemoteBuffer) (ms_to_cycles : Z → Z).

(** The rest of [client_func] once there is an executor: the rate it prints, or [None] when the allocation
    fails.  The number of requests that the rate is computed from is never counted. *)
Definition client_func (fuel : nat) (address len : Z) (symbols : list string) (input_size hot_timeout
    warmup_repetitions numcores test_ms delta_ms : Z) (samples : list (Z * bool * bool)) : M TrapContext (option Z) :=
  zoom exec set_exec (set_context address) ;;
  modify (λ c, set_cycles (if trap_type c =? 1 then ms_to_cycles 5000 else ms_to_cycles 10000) c) ;;
  c ← read;
  ok ← zoom exec set_exec (allocate statuses infos fuel len symbols input_size (output_size c) hot_timeout numcores 0 false);
  if negb ok then leave ;; mret None else
  for_each (range numcores) (λ _, add_buffers input_size) ;;
  for_each (range warmup_repetitions) (λ _,
    c ← read; zoom exec set_exec (execute_all fuel (fname c) (ins c) (outs c)) ;; mret tt) ;;
  now ← peek rdtsc;
  modify (set_start_ts now) ;;
  load (ms_to_cycles test_ms) samples ;;
  let total_send_out := 0 in
  let delta_s := Z.quot delta_ms 1000 in
  (if delta_s =? 0 then raise (Undefined "division by zero") else mret tt) ;;
  zoom exec set_exec deallocate ;;
  leave ;;
  mret (Some (i32 (Z.quot total_send_out delta_s))).

(** [client_func(thread_id, trap_type, settings, opts)], from the construction of the executor on. *)
Definition client_thread (fuel : nat) (thread_id trap_type memory : Z) (dev : ClientConnection.device_data)
    (fname : string) (output_size address len : Z) (symbols : list string) (input_size hot_timeout
    warmup_repetitions numcores test_ms delta_ms : Z) (samples : list (Z * bool * bool)) : M unit (option Z) :=
  e ← executor_construct "10.10.1.1" 10000 numcores memory (thread_id + 1) dev;
  with_object (mk_context e fname output_size 0 thread_id trap_type 0 0 0 [] [] 0 [])
    (client_func fuel address len symbols input_size hot_timeout warmup_repetitions numcores test_ms delta_ms samples).
End Measure.


(** ** The client that sends a trap has one invocation in flight *)

Section TrapClient.
Context `{Env} (rdtsc : trace → Z).

Lemma trap_async_inv c t u c' t' : async c t = Ok (u, c', t') →
  num_resps c' = num_resps c ∧ fname c' = fname c ∧
  ∃ inb out, async_callback2 (fname c) inb out 0 RETURN_CALLBACK (-1) (exec c) t = Ok (tt, exec c', t').
Proof using.
  unfold async. intros E. step_inv E. bind_inv E as inb w1 t1 E1. run_inv_at E1. bind_inv E as out w2 t2 E2.
  run_inv_at E2. run_inv_at E. destruct u. split_and!; [done..|]. by exists inb, out.
Qed.

Lemma trap_send_inv b c t u c' t' : send b c t = Ok (u, c', t') →
  num_resps c' = num_resps c ∧ fname c' = fname c ∧
  ∃ inb out, async_callback2 (fname c) inb out 0 RETURN_CALLBACK (-1) (exec c) t = Ok (tt, exec c', t').
Proof using.
  unfold send. intros E. step_inv E. bind_inv E as x w1 t1 E1. run_inv_at E1. step_inv E. by apply trap_async_inv in E.
Qed.

Lemma trap_callback_inv c t u c' t' : return_callback rdtsc c t = Ok (u, c', t') →
  num_resps c' = u64 (num_resps c + 1) ∧ fname c' = fname c ∧
  ∃ inb out, async_callback2 (fname c) inb out 0 RETURN_CALLBACK (-1) (exec c) t = Ok (tt, exec c', t').
Proof using.
  unfold return_callback. intros E. do 2 step_inv E. destruct (_ =? 0); [|by apply trap_send_inv in E]. step_inv E.
  destruct (_ <=? _); [|by apply trap_send_inv in E]. bind_inv E as x w1 t1 E1. run_inv_at E. by apply trap_send_inv in E1.
Qed.
End TrapClient.

#[global] Instance trap_client_laws rdtsc : LoopClientLaws TrapContext (trap_client rdtsc) 1.
Proof.
  split; [done..| |].
  - intros env tag w t u w' t' Htag E. assert (tag = 0) as -> by lia. apply trap_callback_inv in E as (Hr & Hf & inb & out & E).
    split_and!; [done..|]. by exists inb, out, RETURN_CALLBACK.
  - intros env tag w t u w' t' E. apply trap_callback_inv in E as (_ & _ & inb & out & E). by eapply async_callback2_grows.
Qed.

Section OneInFlight.
Context `{Env} (rdtsc : trace → Z).
Let client : LoopClient TrapContext := trap_client rdtsc.
#[local] Existing Instance client.

(** Some count goes with the words: the count starts again after every interval. *)
Definition loops (k : Z) (c : TrapContext) (t : trace) : Prop := ∃ b, looping 1 k b c t.

Lemma iteration_loops k over c t u c' t' : iteration rdtsc over c t = Ok (u, c', t') →
  (length (words t) ≤ length (words t'))%nat ∧ ((bounded k t → loops k c t) → bounded k t' → loops k c' t').
Proof using.
  unfold iteration. intros E. bind_inv E as x c1 t1 E1. pose proof (λ b, keeps_poll 1 k b 0 _ _ _ _ _ E1) as HK.
  assert (t' = t1 ∧ (c' = c1 ∨ c' = set_num_resps 0 (set_throughput (throughput c1 ++ [num_resps c1]) c1)))
    as [-> Hc] by (destruct over; cbn [when] in E; [step_inv E|]; run_inv_at E; auto).
  destruct (HK 0) as [Hg _]. split; [done|]. intros HL Hb. destruct HL as [b HL]; [unfold bounded in *; lia|].
  destruct (HK b) as [_ HK']. specialize (HK' (λ _, HL) Hb). destruct Hc as [->| ->]; [by exists b|].
  exists (Z.of_nat (length (words t1))). destruct HK' as [Ht Hk Hw Hid Hr Hbe]. split; try done; cbn in *; lia.
Qed.

Lemma measure_loops k total samples : ∀ c t u c' t', measure rdtsc total samples c t = Ok (u, c', t') →
  (length (words t) ≤ length (words t'))%nat ∧ ((bounded k t → loops k c t) → bounded k t' → loops k c' t').
Proof using.
  induction samples as [|[[cycles pressed] over] samples IH]; intros c t u c' t' E; cbn [measure] in E; [done|].
  destruct (_ && _); [|run_inv_at E; split; [lia|auto]]. bind_inv E as x c1 t1 E1.
  apply (iteration_loops k) in E1 as [G1 L1]. apply IH in E as [G2 L2]. split; [lia|auto].
Qed.

(** Throughout the measurement one invocation is in flight. *)
Lemma trap_one_in_flight total samples c t c' t' :
  load rdtsc total samples c t = Ok (tt, c', t') →
  _callbacks2 (exec c) = ∅ → 0 ≤ _invoc_id (exec c) → knows (fname c) (exec c) → num_resps c = 0 →
  _invoc_id (exec c) + (Z.of_nat (length (words t')) - Z.of_nat (length (words t))) < 2 ^ 16 →
  ∃ id, in_flight (exec c') = {[id := 0]}.
Proof using.
  intros E Hcb Hid Hk Hr Hb. pose proof (looping_idle c t Hcb Hid Hk Hr) as HL. set (k := _ - _) in HL.
  assert (bounded k t') as Hb' by (unfold bounded, k in *; cbn; lia).
  unfold load in E. bind_inv E as u c1 t1 E1. apply (measure_loops k) in E as [Hg HM].
  apply trap_async_inv in E1 as (Hr1 & Hf1 & inb & out & E1).
  destruct HM as [b [_ _ Hw _ _ _]]; [|done|].
  - intros Hb1. eexists. apply (looping_more 0 k (Z.of_nat (length (words t))) c c1 inb out RETURN_CALLBACK t t1); [done|exact HL|done..].
  - unfold window in Hw. apply Permutation_singleton_r in Hw.
    destruct (map_to_list (in_flight (cl_exec c'))) as [|[id tag] [|]] eqn:Hm; try done. injection Hw as ->.
    exists id. apply (map_to_list_insert_inv (in_flight (exec c')) []). by cbn in Hm; rewrite Hm.
Qed.
End OneInFlight.
End TrapClient.
