(* ===== verification/IntervalClient.v ===== *)
(** * Clients that send at intervals

    src/benchmarks/closeloop_exponential.cpp and closeloop_log_normal.cpp: a client that waits for a random
    interval, invokes a function and waits for the result.  The result function only counts; it is called
    in the middle of [poll_queue_once2], as in ClosedLoop.v, whose context the client has.

    How long the intervals are and when the interrupt flag is set are arguments: for every evaluation of a
    loop's condition, what it yields.  Of the latencies only the number is kept, which is the number of
    results. *)

From S2P Require Import Prelude Verbs Buffer Queue Connection Messages Rdma Invocation ExecutorThread ClientConnection ClientExecutor System ClosedLoop.

Module IntervalClient.
Import ClientConnection ClientExecutor System ClosedLoop.

Definition return_callback : M ClientContext unit := modify (λ c, set_num_resps (u64 (num_resps c + 1)) c).

Definition interval_client : LoopClient ClientContext := {|
  cl_exec := exec; cl_set_exec := set_exec; cl_resps := num_resps; cl_fname := fname;
  cl_callback := λ _ _, return_callback |}.

Section Client.
Context `{Env}.

Definition poll : M ClientContext unit := @poll_queue_once2 _ _ interval_client 0.

(** [while (current < c.next_should_send_ts && ctrl_c_pressed != 1)]: the values of the condition. *)
Fixpoint wait_interval (waiting : list bool) : M ClientContext unit :=
  match waiting with
  | [] => raise StillRunning
  | true :: waiting => poll ;; wait_interval waiting
  | false :: _ => mret tt
  end.

(** [while (c.num_resps < total_send_out && ctrl_c_pressed != 1)]: the values of the flag. *)
Fixpoint wait_response (pressed : list bool) (total_send_out : Z) : M ClientContext unit :=
  match pressed with
  | [] => raise StillRunning
  | p :: pressed =>
      c ← read;
      if (num_resps c <? total_send_out) && negb p then poll ;; wait_response pressed total_send_out else mret tt
  end.

(** One turn of the loop: the flag, the interval, the flag while the response is waited for. *)
Record turn := mk_turn { pressed : bool; interval : list bool; pressed_waiting : list bool }.

(** [while (c.num_resps != max_requests && ctrl_c_pressed != 1)]; the result is [total_send_out]. *)
Fixpoint requests (max_requests : Z) (turns : list turn) (total_send_out : Z) : M ClientContext Z :=
  match turns with
  | [] => raise StillRunning
  | x :: turns =>
      c ← read;
      if negb (num_resps c =? max_requests) && negb (pressed x) then
        wait_interval (interval x) ;;
        submit 0 ;;
        let total_send_out := u32 (total_send_out + 1) in
        wait_response (pressed_waiting x) total_send_out ;;
        requests max_requests turns total_send_out
      else mret total_send_out
  end.

Definition max_requests (test_ms rps : Z) : M ClientContext Z :=
  let n := Z.quot test_ms 1000 * rps in
  if i32 n =? n then mret (u32 n) else raise (Undefined "int overflow").

(** The latencies of the first [total_send_out] requests go to the log. *)
Definition write_log (total_send_out : Z) : M ClientContext unit :=
  c ← read;
  if total_send_out <=? num_resps c then mret tt else raise (Undefined "latency index out of bounds").

Context (statuses : trace → Z → Z) (infos : trace → Z → Buffer.RemoteBuffer).

(** The rest of [client_func] once there is an executor; the clients differ in [core_start_index] and in
    the bytes of the input, which no buffer of the model holds. *)
Definition client_func (fuel : nat) (address len : Z) (symbols : list string) (input_size hot_timeout
    warmup_repetitions numcores core_start_index test_ms rps delta_ms : Z) (turns : list turn) :
    M ClientContext (option Z) :=
  zoom exec set_exec (set_context address) ;;
  c ← read;
  ok ← zoom exec set_exec (allocate statuses infos fuel len symbols input_size (output_size c) hot_timeout numcores
                             core_start_index false);
  if negb ok then leave ;; mret None else
  for_each (range numcores) (λ _, add_buffers input_size) ;;
  for_each (range warmup_repetitions) (λ _,
    c ← read; zoom exec set_exec (execute_all fuel (fname c) (ins c) (outs c)) ;; mret tt) ;;
  max_requests ← max_requests test_ms rps;
  total_send_out ← requests max_requests turns 0;
  let delta_s := Z.quot delta_ms 1000 in
  (if delta_s =? 0 then raise (Undefined "division by zero") else mret tt) ;;
  write_log total_send_out ;;
  zoom exec set_exec deallocate ;;
  leave ;;
  mret (Some (i32 (Z.quot total_send_out delta_s))).

Definition client_thread (fuel : nat) (thread_id memory : Z) (dev : device_data) (fname : string) (output_size
    address len : Z) (symbols : list string) (input_size hot_timeout warmup_repetitions numcores core_start_index
    test_ms rps delta_ms : Z) (turns : list turn) : M unit (option Z) :=
  e ← executor_construct "10.10.1.1" 10000 numcores memory (thread_id + 1) dev;
  with_object (mk_context e fname output_size 0 thread_id [] [])
    (client_func fuel address len symbols input_size hot_timeout warmup_repetitions numcores core_start_index test_ms
       rps delta_ms turns).
End Client.

(** ** One request at a time *)

Section OneAtATime.
Context `{Env}.

(** [open] tells whether the last request has not been answered; [r] requests have been. *)
Record serving (k : Z) (open : bool) (r : Z) (c : ClientContext) (t : trace) : Prop := {
  serving_tracked : tracked (exec c);
  serving_knows : knows (fname c) (exec c);
  serving_number : _invoc_id (exec c) = k + Z.of_nat (length (words t));
  serving_flight : in_flight (exec c) = if open then {[_invoc_id (exec c) := 0]} else ∅;
  serving_resps : num_resps c = r;
  serving_below : 0 ≤ r < 2 ^ 32 }.

(** What results can change: the word of the result that arrived is one of [vals]. *)
Definition advance (vals : Z → Prop) (number : Z) (open : bool) (r : Z) (open' : bool) (r' : Z) : Prop :=
  (open' = open ∧ r' = r) ∨
  (open = true ∧ open' = false ∧ r' = r + 1 ∧ ∃ val, vals val ∧ Invocation.finished_invoc_id val = number).

(** An operation that writes no word and only lets results arrive. *)
Definition advances (vals : trace → trace → Z → Prop) {A} (op : M ClientContext A) : Prop :=
  ∀ c t a c' t', op c t = Ok (a, c', t') →
  t `suffix_of` t' ∧ words t' = words t ∧
  ∀ k o r, serving k o r c t → (o = true → r + 1 < 2 ^ 32) →
    ∃ o' r', serving k o' r' c' t' ∧ advance (vals t t') (k + Z.of_nat (length (words t))) o r o' r'.

(** What can arrive between two traces can arrive in a longer time. *)
Definition spreads (vals : trace → trace → Z → Prop) : Prop := ∀ t0 t t' t1 v,
  t0 `suffix_of` t → t' `suffix_of` t1 → vals t t' v → vals t0 t1 v.

(** The words of the completions that were polled. *)
Definition polled_word (t t' : trace) (v : Z) : Prop := ∃ wc, received t t' wc ∧ word wc = v.

Lemma spreads_polled : spreads polled_word.
Proof using. intros t0 t t' t1 v H0 H1 (wc & Hr & Hv). exists wc. split; [by eapply received_weaken|done]. Qed.

Lemma serving_submitted k o r c t e t' :
  serving k o r c t → submitted e = submitted (exec c) → words t' = words t → serving k o r (set_exec e c) t'.
Proof using.
  intros [[Hc Hn Hl] Hk Hid Hf Hr Hb] E Hw. unfold submitted in E. injection E as Ecb Eid Ename.
  unfold knows, in_flight in *. split; cbn; [split|..]; unfold knows, in_flight; rewrite ?Ecb, ?Eid, ?Ename, ?Hw; done.
Qed.

(** Nothing arrives. *)
Lemma advances_on_exec vals {A} (op : M executor A) : frames submitted op → wordless op →
  (∀ e t a e' t', op e t = Ok (a, e', t') → t `suffix_of` t') → advances vals (@on_exec _ interval_client _ op).
Proof using.
  intros Hf Hw Hx c t a c' t' E. unfold on_exec in E. run_inv_at E. pose proof (Hw _ _ _ _ _ E) as Ew.
  pose proof (Hx _ _ _ _ _ E) as Es. apply Hf in E.
  split; [done|]. split; [done|]. intros k o r HS _. exists o, r. split; [|by left]. by eapply serving_submitted.
Qed.

Lemma advances_bind vals {A B} (op : M ClientContext A) (f : A → M ClientContext B) : spreads vals →
  advances vals op → (∀ a, advances vals (f a)) → advances vals (op ≫= f).
Proof using.
  intros Hv Ho Hf c t b c' t' E. bind_inv E as a c1 t1 E1. apply Ho in E1 as (S1 & W1 & A1). apply Hf in E as (S2 & W2 & A2).
  split; [by etrans|]. split; [congruence|]. intros k o r HS Hb. destruct (A1 k o r HS Hb) as (o1 & r1 & HS1 & Ad1).
  destruct (A2 k o1 r1 HS1) as (o2 & r2 & HS2 & Ad2).
  - intros Ho1. destruct Ad1 as [[<- ->]|(_ & -> & _)]; [auto|discriminate Ho1].
  - exists o2, r2. split; [done|]. rewrite W1 in Ad2.
    destruct Ad1 as [[-> ->]|(-> & -> & -> & v & Hvals & Hid)], Ad2 as [[-> ->]|(Ho2 & -> & -> & v' & Hvals' & Hid')];
      [by left|right|right|discriminate Ho2]; split_and!; try done.
    + exists v'. split; [by eapply (Hv t t1 t')|done].
    + exists v. split; [by eapply (Hv t t t1)|done].
Qed.

Lemma advances_ret vals {A} (a : A) : advances vals (mret a).
Proof using.
  intros c t b c' t' E. run_inv_at E. split; [done|]. split; [done|]. intros k o r HS _. exists o, r. split; [done|by left].
Qed.

Lemma advances_read vals : advances vals read.
Proof using.
  intros c t b c' t' E. run_inv_at E. split; [done|]. split; [done|]. intros k o r HS _. exists o, r. split; [done|by left].
Qed.

Lemma advances_for_each vals {A} (l : list A) body : spreads vals →
  (∀ a, a ∈ l → advances vals (body a)) → advances vals (for_each l body).
Proof using.
  intros Hv Hb. induction l as [|a l IH]; cbn [for_each]; [apply advances_ret|].
  apply advances_bind; [done|apply Hb, list_elem_of_here|]. intros _. apply IH. intros b Hin. by apply Hb, list_elem_of_further.
Qed.

Lemma advances_settle (vals : Z → Prop) val : vals val → advances (λ _ _, vals) (@settle_and_call _ _ interval_client val).
Proof using.
  intros Hval c t u c' t' E. unfold settle_and_call in E. bind_inv E as called c1 t1 E1. unfold on_exec in E1.
  apply zoom_Ok in E1 as (e1 & E1 & ->). pose proof (settle_callback2_trace _ _ _ _ _ _ E1) as ->.
  destruct called; cbn [when] in E.
  - step_inv E. bind_inv E as cb c2 t2 E2. run_inv_at E2. change (return_callback (set_exec e1 c) t = Ok (u, c', t')) in E.
    unfold return_callback in E. run_inv_at E. split; [done|]. split; [done|]. intros k o r [Ht Hk Hid Hf Hr Hb] Hbound.
    destruct (settle_flight _ _ _ _ _ _ E1 Ht) as (_ & Ht1 & Hid1 & Hn1 & cb1 & _ & Hin & Hdel). cbn in Hin, Hdel, Hid1, Hn1.
    rewrite Hf in Hin, Hdel. destruct o; [|by rewrite lookup_empty in Hin].
    apply lookup_singleton_Some in Hin as [Hnum _]. rewrite <-Hnum, delete_singleton_eq in Hdel.
    exists false, (r + 1). specialize (Hbound eq_refl). split.
    + split; cbn; [done|unfold knows; by rewrite Hn1|lia|done| |lia]. rewrite wrap_small by lia. lia.
    + right. split_and!; try done. exists val. split; [done|]. by rewrite <-Hid, Hnum.
  - run_inv_at E. split; [done|]. split; [done|]. intros k o r [Ht Hk Hid Hf Hr Hb] Hbound.
    destruct (settle_flight _ _ _ _ _ _ E1 Ht) as (_ & Ht1 & Hid1 & Hn1 & Hin). cbn in *.
    exists o, r. split; [|by left]. split; cbn; [done|unfold knows; by rewrite Hn1|congruence| |done|done].
    by rewrite Hin, Hid1.
Qed.

Lemma refill_suffix i e t u e' t' : refill i e t = Ok (u, e', t') → t `suffix_of` t'.
Proof using.
  unfold refill. intros E. bind_inv E as ? e1 t1 E1. run_inv_at E.
  apply on_conn_suffix in E1; [done|]. apply emits_zoom, Rdma.silent_refill.
Qed.

(** What arrives was polled. *)
Lemma advances_poll : advances polled_word poll.
Proof using.
  unfold poll, poll_queue_once2. apply advances_bind; [apply spreads_polled|apply advances_read|]. intros c.
  destruct (_end_requested _); [apply advances_ret|]. clear c. intros c t u c' t' E. bind_inv E as wcs c1 t1 E1.
  assert (t `suffix_of` t1 ∧ ∀ wc, wc ∈ wcs → received t t1 wc) as [S1 Hwcs].
  { unfold on_exec in E1. run_inv_at E1. by apply poll_receive_inv in E1. }
  eapply (advances_on_exec (λ _ _ _, False)) in E1 as (_ & W1 & A1);
    [|apply submitted_poll_receive|apply wordless_poll_receive|intros ????? F; by apply poll_receive_inv in F as [F _]].
  match type of E with ?k _ _ = _ => assert (advances (λ _ _ v, ∃ wc, wc ∈ wcs ∧ word wc = v) k) as Hk end.
  { assert (spreads (λ _ _ v, ∃ wc, wc ∈ wcs ∧ word wc = v)) as Hv by (by intros ?????).
    apply advances_bind; [done|apply advances_for_each; [done|]; intros wc Hin; apply (advances_settle (λ v, ∃ wc, wc ∈ wcs ∧ word wc = v)); by exists wc|].
    intros _. apply advances_bind; [done| |].
    - apply advances_on_exec; [apply submitted_on_conn|apply wordless_on_conn, Rdma.silent_poll_wc|].
      intros ????? F. by apply on_conn_suffix in F; [|apply Rdma.silent_poll_wc].
    - intros _. apply advances_on_exec; [apply submitted_refill|apply wordless_refill|]. intros ????? F. by apply refill_suffix in F. }
  apply Hk in E as (S2 & W2 & A2). split; [by etrans|]. split; [congruence|]. intros k o r HS Hb.
  destruct (A1 k o r HS Hb) as (o1 & r1 & HS1 & [[-> ->]|(_ & _ & _ & v & [] & _)]).
  destruct (A2 k o r HS1 Hb) as (o2 & r2 & HS2 & Ad). exists o2, r2. split; [done|]. rewrite W1 in Ad.
  destruct Ad as [Ad|(-> & -> & -> & v & (wc & Hin & Hw) & Hid)]; [by left|right]. split_and!; try done.
  exists v. split; [|done]. exists wc. split; [|done]. by apply (received_weaken t t t1 t'), Hwcs.
Qed.

Lemma advances_wait_interval waiting : advances polled_word (wait_interval waiting).
Proof using.
  induction waiting as [|[] waiting IH]; cbn [wait_interval]; [by intros c t a c' t' E| |apply advances_ret].
  apply advances_bind; [apply spreads_polled|apply advances_poll|]. by intros _.
Qed.

Lemma advances_wait_response pressed total : advances polled_word (wait_response pressed total).
Proof using.
  induction pressed as [|p pressed IH]; cbn [wait_response]; [by intros c t a c' t' E|].
  apply advances_bind; [apply spreads_polled|apply advances_read|]. intros c. destruct (_ && _); [|apply advances_ret].
  apply advances_bind; [apply spreads_polled|apply advances_poll|]. by intros _.
Qed.

(** Without an interrupt the response is there when the wait ends. *)
Lemma wait_response_done pressed total c t u c' t' : Forall (λ p, p = false) pressed →
  wait_response pressed total c t = Ok (u, c', t') → total ≤ num_resps c'.
Proof using.
  intros Hp. revert c t. induction Hp as [|p pressed -> _ IH]; intros c t E; cbn [wait_response] in E; [done|].
  step_inv E. rewrite andb_true_r in E. destruct (Z.ltb_spec (num_resps c) total) as [Hlt|Hge].
  - bind_inv E as ? c1 t1 E1. by apply IH in E.
  - by run_inv_at E.
Qed.

Lemma refills_suffix l e t u e' t' : for_each l refill e t = Ok (u, e', t') → t `suffix_of` t'.
Proof using.
  revert e t. induction l as [|i l IH]; intros e t E; cbn [for_each] in E; [by run_inv_at E|].
  bind_inv E as ? e1 t1 E1. apply refill_suffix in E1. apply IH in E. by etrans.
Qed.

Lemma async_callback2_suffix fname inb out tag cb size e t u e' t' :
  async_callback2 fname inb out tag cb size e t = Ok (u, e', t') → t `suffix_of` t'.
Proof using.
  unfold async_callback2. intros E. step_inv E. destruct (Invocation.func_index _ _); [|by run_inv_at E].
  bind_inv E as ? e1 t1 E1.
  assert (t1 = t) as -> by (unfold write_header, Buffer.address, Buffer.rkey, Buffer.with_mr in E1; by run_inv).
  bind_inv E as id e2 t2 E2. unfold next_invoc_id in E2. step_inv E2. run_inv_at E2. step_inv E.
  bind_inv E as ? e3 t3 E3. apply post_input_suffix in E3. bind_inv E as ? e4 t4 E4.
  apply on_conn_suffix in E4; [|apply Rdma.silent_poll_wc]. unfold on_all in E. step_inv E.
  apply refills_suffix in E. by do 2 (etrans; [eassumption|]).
Qed.

Lemma submit_serving k r c t u c' t' : submit 0 c t = Ok (u, c', t') → serving k false r c t →
  k + Z.of_nat (length (words t')) < 2 ^ 16 →
  serving k true r c' t' ∧ length (words t') = S (length (words t)) ∧ t `suffix_of` t'.
Proof using.
  intros E [Ht Hk Hid Hf Hr Hb] Hbound. apply submit_inv in E as (Hr' & Hf' & inb & out & E).
  pose proof (async_callback2_inv _ _ _ _ _ _ _ _ _ _ _ E Hk) as [_ Hlen].
  destruct (submit_flight _ _ _ _ _ _ _ _ _ _ _ E Hk Ht ltac:(lia)) as (Ht2 & _ & Hin & Hid2 & Hn2 & _).
  split; [|split; [done|by eapply async_callback2_suffix]].
  split; [done|unfold knows; by rewrite Hf', Hn2|lia| |congruence|done].
  rewrite Hin, Hf, Hid2. done.
Qed.

(** The flag is never seen set. *)
Definition uninterrupted (x : turn) : Prop := pressed x = false ∧ Forall (λ p, p = false) (pressed_waiting x).

Lemma requests_grow max turns : ∀ total c t total' c' t', requests max turns total c t = Ok (total', c', t') →
  (length (words t) ≤ length (words t'))%nat ∧ t `suffix_of` t'.
Proof using.
  induction turns as [|x turns IH]; intros total c t total' c' t' E; cbn [requests] in E; [done|].
  step_inv E. destruct (_ && _); [|by run_inv_at E]. bind_inv E as ? c1 t1 E1. apply advances_wait_interval in E1 as (S1 & W1 & _).
  bind_inv E as ? c2 t2 E2. apply submit_inv in E2 as (_ & _ & inb & out & E2). pose proof (async_callback2_suffix _ _ _ _ _ _ _ _ _ _ _ E2) as S2.
  apply async_callback2_grows in E2. bind_inv E as ? c3 t3 E3. apply advances_wait_response in E3 as (S3 & W3 & _).
  apply IH in E as [E S4]. rewrite W1 in E2. rewrite W3 in E. split; [lia|]. by do 3 (etrans; [eassumption|]).
Qed.

(** The request that wrote the [n]-th word of the trace has the number [k + n]; it is answered before the
    next word is written. *)
Definition answered (k : Z) (n : nat) (t t' : trace) : Prop :=
  ∃ t1 t2 wc, t `suffix_of` t1 ∧ t1 `suffix_of` t2 ∧ t2 `suffix_of` t' ∧
    length (words t1) = n ∧ words t2 = words t1 ∧
    received t1 t2 wc ∧ Invocation.finished_invoc_id (word wc) = k + Z.of_nat n.

(** One turn: a request is sent when nothing is in flight, and answered. *)
Lemma turn_serving k total x c t c1 t1 c2 t2 c3 t3 u1 u2 u3 : uninterrupted x → serving k false total c t →
  total ≤ k + Z.of_nat (length (words t)) → k + Z.of_nat (length (words t2)) < 2 ^ 16 →
  wait_interval (interval x) c t = Ok (u1, c1, t1) → submit 0 c1 t1 = Ok (u2, c2, t2) →
  wait_response (pressed_waiting x) (total + 1) c2 t2 = Ok (u3, c3, t3) →
  serving k false (total + 1) c3 t3 ∧ length (words t3) = S (length (words t)) ∧ t `suffix_of` t3 ∧
  answered k (S (length (words t))) t t3.
Proof using.
  intros [_ Hp] HS Hle Hb E1 E2 E3. apply advances_wait_interval in E1 as (S1 & W1 & A1).
  destruct (A1 _ _ _ HS ltac:(done)) as (o1 & r1 & HS1 & [[-> ->]|(Hf & _)]); [|discriminate Hf].
  destruct (submit_serving _ _ _ _ _ _ _ E2 HS1 Hb) as (HS2 & Hlen & S2).
  pose proof (wait_response_done _ _ _ _ _ _ _ Hp E3) as Hdone. apply advances_wait_response in E3 as (S3 & W3 & A3).
  destruct (A3 _ _ _ HS2) as (o3 & r3 & HS3 & Ad); [rewrite <-W1 in Hle; lia|].
  pose proof (serving_resps _ _ _ _ _ HS3) as Hr3. rewrite W1 in Hlen.
  destruct Ad as [[-> ->]|(_ & -> & -> & v & (wc & Hwc & <-) & Hid)]; [lia|].
  split_and!; [done|by rewrite W3, Hlen|by do 2 (etrans; [eassumption|])|].
  exists t2, t3, wc. split_and!; [by etrans|done|done|done|done|done|]. by rewrite Hid, Hlen.
Qed.

Lemma answered_weaken k n t t1 t' t2 : t `suffix_of` t1 → t' `suffix_of` t2 → answered k n t1 t' → answered k n t t2.
Proof using.
  intros H1 H2 (a & b & wc & Ha & Hab & Hb & Hrest). exists a, b, wc. split; [by etrans|]. split; [done|]. split; [by etrans|done].
Qed.

Lemma requests_serve k max turns : ∀ total c t total' c' t', Forall uninterrupted turns →
  requests max turns total c t = Ok (total', c', t') → serving k false total c t →
  total ≤ k + Z.of_nat (length (words t)) → k + Z.of_nat (length (words t')) < 2 ^ 16 →
  serving k false total' c' t' ∧ total' = max ∧
  Z.of_nat (length (words t')) - Z.of_nat (length (words t)) = total' - total ∧
  ∀ n, (length (words t) < n ≤ length (words t'))%nat → answered k n t t'.
Proof using.
  induction turns as [|x turns IH]; intros total c t total' c' t' Hu E HS Hle Hb; cbn [requests] in E; [done|].
  apply Forall_cons in Hu as [Hx Hu]. step_inv E. rewrite (proj1 Hx), andb_true_r in E.
  destruct (Z.eqb_spec (num_resps c) max) as [Hmax|Hmax]; cbn [negb] in E.
  { run_inv_at E. split; [done|]. split; [by rewrite <-(serving_resps _ _ _ _ _ HS)|]. split; [lia|]. lia. }
  bind_inv E as ? c1 t1 E1. bind_inv E as ? c2 t2 E2. cbv zeta in E. bind_inv E as ? c3 t3 E3.
  pose proof (requests_grow _ _ _ _ _ _ _ _ E) as [Hg S4]. pose proof (advances_wait_response _ _ _ _ _ _ _ E3) as (_ & W3 & _).
  pose proof (serving_below _ _ _ _ _ HS).
  assert (length (words t) ≤ length (words t2))%nat as Hg2.
  { apply advances_wait_interval in E1 as (_ & <- & _). apply submit_inv in E2 as (_ & _ & inb & out & E2). by apply async_callback2_grows in E2. }
  rewrite W3 in Hg. rewrite (wrap_small 32) in E, E3 by lia.
  destruct (turn_serving k total x c t c1 t1 c2 t2 c3 t3 _ _ _ Hx HS Hle ltac:(lia) E1 E2 E3) as (HS3 & Hlen & S3 & Ha).
  destruct (IH _ _ _ _ _ _ Hu E HS3 ltac:(lia) Hb) as (HS' & Hm & Hw & Hall). split; [done|]. split; [done|]. split; [lia|].
  intros n Hn. destruct (decide (n = S (length (words t)))) as [->|Hne].
  - by apply (answered_weaken _ _ _ t t3 t').
  - apply (answered_weaken _ _ _ t3 t' t'); [done|done|]. apply Hall. lia.
Qed.

(** C22. A client that sends at intervals has one request at a time. If it is not interrupted, nothing
    is pending when it starts, the function is one of the library and fewer than 65536 numbers are used,
    then, whatever the intervals and whenever the results arrive: each request is answered before the next
    one is sent (between the word of the i-th request and the next word, a poll returns a completion with
    the number of the i-th request); when the loop ends it has sent as many requests as it meant to and got
    as many results, nothing is in flight, and the log is written from latencies that are there. *)
Theorem interval_requests_answered max turns c t total c' t' :
  Forall uninterrupted turns → requests max turns 0 c t = Ok (total, c', t') →
  _callbacks2 (exec c) = ∅ → 0 ≤ _invoc_id (exec c) → knows (fname c) (exec c) → num_resps c = 0 →
  let written := (length (words t') - length (words t))%nat in
  _invoc_id (exec c) + Z.of_nat written < 2 ^ 16 →
  (∀ i, (1 ≤ i ≤ written)%nat → ∃ t1 t2 wc,
     t `suffix_of` t1 ∧ t1 `suffix_of` t2 ∧ t2 `suffix_of` t' ∧
     length (words t1) = (length (words t) + i)%nat ∧ words t2 = words t1 ∧
     received t1 t2 wc ∧ Invocation.finished_invoc_id (word wc) = _invoc_id (exec c) + Z.of_nat i) ∧
  Z.of_nat written = max ∧ total = max ∧ num_resps c' = max ∧ in_flight (exec c') = ∅ ∧
  write_log total c' t' = Ok (tt, c', t').
Proof using.
  intros Hu E Hcb Hid Hk Hr written Hb. set (k := _invoc_id (exec c) - Z.of_nat (length (words t))).
  assert (serving k false 0 c t) as HS.
  { split; [split; [done|..]; rewrite Hcb; intros id; rewrite lookup_empty; [by intros []|done]|done|unfold k; lia| |done|lia].
    unfold in_flight. by rewrite Hcb, omap_empty. }
  pose proof (requests_grow _ _ _ _ _ _ _ _ E) as [Hg _].
  destruct (requests_serve k max turns 0 c t total c' t' Hu E HS) as (HS' & -> & Hw & Hall);
    [unfold k; lia|unfold k, written in *; lia|].
  destruct HS' as [_ _ _ Hf Hr' _]. split.
  - intros i Hi. destruct (Hall (length (words t) + i)%nat) as (t1 & t2 & wc & H1 & H2 & H3 & H4 & H5 & H6 & H7);
      [unfold written in Hi; lia|]. exists t1, t2, wc. split_and!; try done. rewrite H7. unfold k. lia.
  - split_and!; [unfold written; lia|done|done|done|]. unfold write_log. run. by rewrite Hr', Z.leb_refl.
Qed.
End OneAtATime.

(** Two requests, the first one after an interval of one poll. *)
Definition two_turns : list turn :=
  [mk_turn false [true; false] [false; false; false]; mk_turn false [false] [false; false; false]; mk_turn false [] []].

(** The result of the last invocation arrives at the first poll of the receive queue after it. *)
Fixpoint unpolled (t : trace) : bool :=
  match t with
  | Cpost_send _ _ :: _ => true
  | Cpoll_cq cq _ :: t => negb (cq =? 71) && unpolled t
  | _ :: t => unpolled t
  | [] => false
  end.

Definition first_poll_env : Env :=
  scripted_env 8 (λ t cq _,
      if (cq =? 71) && unpolled t then (1, [mk_wc 0 0 7 (htonl (Z.of_nat (length (words t)) * 2 ^ 16)) 4]) else (0, []))
    (λ _, (0, quiet_event)) (λ _, 0) (λ _, 0).

Lemma interval_requests_answered_witness :
  ∃ total c' t', @requests first_poll_env 2 two_turns 0 demo_context [] = Ok (total, c', t') ∧
    total = 2 ∧ num_resps c' = 2 ∧ in_flight (exec c') = ∅ ∧ @write_log total c' t' = Ok (tt, c', t').
Proof.
  destruct (@requests first_poll_env 2 two_turns 0 demo_context []) as [[[total c'] t']|] eqn:E; [|vm_compute in E; discriminate E].
  assert (length (words t') = 2%nat) as Hlen by (vm_compute in E; by injection E as <- <- <-).
  destruct (@interval_requests_answered first_poll_env 2 two_turns demo_context [] total c' t') as (_ & _ & H1 & H2 & H3 & H4).
  - unfold two_turns. repeat constructor.
  - exact E.
  - vm_compute; reflexivity.
  - vm_compute; discriminate.
  - exists 1. vm_compute; reflexivity.
  - vm_compute; reflexivity.
  - rewrite Hlen. vm_compute; reflexivity.
  - exists total, c', t'. split; [reflexivity|]. split; [exact H1|]. split; [exact H2|]. split; [exact H3|exact H4].
Defined.

(** Interrupted while it waits for the response, the client reads a latency that is not there. *)
Example interrupted_log : match @requests first_poll_env 2 [mk_turn false [false] [true]; mk_turn true [] []] 0 demo_context [] with
  | Ok (total, c', t') => @write_log total c' t' = Fault (Undefined "latency index out of bounds")
  | Fault _ => False
  end.
Proof. vm_compute. reflexivity. Qed.
End IntervalClient.
