(* ===== verification/Benchmarks.v ===== *)
(** * Measuring clients

    src/rdmalib/include/rdmalib/benchmarker.hpp: [Benchmarker], the rows of measured times;
    src/benchmarks/settings.{hpp,cpp}: the settings of the clients that invoke a function again and again and
    measure how long it takes, and their loops; the programs are in WarmBenchmark.v and
    ParallelInvocations.v.

    [nth_element] of the standard library is a class with its contract, as different implementations leave
    different orders.  Median and mean are kept in nanoseconds: the division by 1000, in floating point, is
    left to the printed text.  A library file is its size and the names of its functions. *)

From S2P Require Import Prelude CommandLine Verbs Buffer Queue Connection Messages Rdma Invocation ExecutorThread ClientConnection ClientExecutor System ClosedLoop Archive.

Module Benchmarks.
Import CommandLine ClientConnection Archive ClientExecutor System.

(** ** [std::nth_element], by a key *)

Class NthElement := nth_element : nat → (list Z → Z) → list (list Z) → list (list Z).

(** The same elements; the one at [k] has those with smaller keys before it and those with greater keys
    after it. *)
Class NthElementLaws (ne : NthElement) : Prop := {
  nth_element_perm k key l : nth_element k key l ≡ₚ l;
  nth_element_place k key l : (k < length l)%nat → ∃ x, nth_element k key l !! k = Some x ∧
    Forall (λ y, key y ≤ key x) (take k (nth_element k key l)) ∧
    Forall (λ y, key x ≤ key y) (drop k (nth_element k key l)) }.

(** ** Benchmarker *)

Record Benchmarker := mk_bench { _measurements : list (list Z); _start : Z; _end : Z }.

Section Benchmarker.
Context `{Env} `{NthElement} (Cols : nat).

Definition construct : Benchmarker := mk_bench [] 0 0.

Definition start : M Benchmarker unit :=
  now ← ext Cclock env_clock; modify (λ b, mk_bench (_measurements b) now (_end b)).

(** [end(col)]: column 0 begins a row. *)
Definition end_ (col : nat) : M Benchmarker Z :=
  now ← ext Cclock env_clock;
  modify (λ b, mk_bench (_measurements b) (_start b) now) ;;
  b ← read;
  let duration := u64 (_end b - _start b) in
  let rows := if bool_decide (col = 0%nat) then _measurements b ++ [replicate Cols 0] else _measurements b in
  row ← lift (from_opt "no measurement" (last rows));
  (if bool_decide (col < Cols)%nat then mret tt else raise (Undefined "column out of bounds")) ;;
  modify (λ b, mk_bench (take (length rows - 1) rows ++ [<[col := duration]> row]) (_start b) (_end b)) ;;
  mret duration.

Definition remove_last : M Benchmarker unit :=
  b ← read;
  if bool_decide (_measurements b = []) then raise (Undefined "no measurement") else
  modify (λ b, mk_bench (take (length (_measurements b) - 1) (_measurements b)) (_start b) (_end b)).

(** The times of a row from column [idx] on. *)
Definition row_time (idx : nat) (row : list Z) : Z := foldl (λ s y, u64 (s + y)) 0 (drop idx row).

Definition key (idx : nat) (row : list Z) : Z := nth idx row 0.

(** [summary(idx)]: the median and the sum; the rows are left in another order. *)
Definition summary (idx : nat) : M Benchmarker (Z * Z) :=
  b ← read;
  let sum := foldl (λ x row, swrap 64 (x + row_time idx row)) 0 (_measurements b) in
  let middle := (length (_measurements b) / 2)%nat in
  modify (λ b, mk_bench (nth_element middle (key idx) (_measurements b)) (_start b) (_end b)) ;;
  b ← read;
  row ← lift (from_opt "no measurement" (_measurements b !! middle));
  mret (i32 (key idx row), sum).

(** The lines [export_csv(fname, headers)] appends to the file. *)
Definition csv_line (cells : list string) : string := String.concat "," cells.
Definition export_csv (headers : list string) (b : Benchmarker) : list string :=
  csv_line ("id"%string :: headers) ::
  imap (λ i row, csv_line (to_string (Z.of_nat i) :: (to_string <$> row))) (_measurements b).
End Benchmarker.

(** ** Settings *)

Record BenchmarkSettings := mk_BenchmarkSettings {
  repetitions : Z; warmup_repetitions : Z; pin_threads : bool; hot_timeout : Z; numcores : Z; memory : Z }.

Record Settings := mk_Settings {
  rdma_device : string; rdma_device_port : Z; s_device : device_data; resource_manager_address : string;
  resource_manager_port : Z; benchmark : BenchmarkSettings }.

Section Loading.
Context `{Cereal}.

Definition load_benchmark (n : jnode) : result BenchmarkSettings :=
  repetitions ← nvp (load_int I32) "repetitions" n;
  warmup_repetitions ← nvp (load_int I32) "warmup_repetitions" n;
  pin_threads ← nvp load_bool "pin_threads" n;
  hot_timeout ← nvp (load_int I32) "hot_timeout" n;
  numcores ← nvp (load_int I32) "numcores" n;
  memory ← nvp (load_int I32) "memory" n;
  Ok (mk_BenchmarkSettings repetitions warmup_repetitions pin_threads hot_timeout numcores memory).

(** [Settings::load], before the device and the benchmark are known. *)
Definition load_settings (n : jnode) : result (device_data → BenchmarkSettings → Settings) :=
  rdma_device ← nvp load_string "rdma_device" n;
  rdma_device_port ← nvp (load_int I32) "rdma_device_port" n;
  resource_manager_address ← nvp load_string "resource_manager_address" n;
  resource_manager_port ← nvp (load_int I32) "resource_manager_port" n;
  Ok (λ dev, mk_Settings rdma_device rdma_device_port dev resource_manager_address resource_manager_port).

Definition settings_deserialize (devices : list device_data) (s : option stream) : result Settings :=
  n ← archive_in s;
  settings ← nvp load_settings "config" n;
  bench ← nvp load_benchmark "benchmark" n;
  let name := rdma_device (settings (mk_device "" "" 0 0 0) bench) in
  dev ← Archive.or_throw "Unknown device!" (device name devices);
  Ok (settings dev bench).
End Loading.

(** ** The loops *)

(** The executor and the benchmarker of a client. *)
Record client_state := mk_client_state { c_exec : executor; c_bench : Benchmarker }.
Definition set_c_exec (e : executor) (s : client_state) : client_state := mk_client_state e (c_bench s).
Definition set_c_bench (b : Benchmarker) (s : client_state) : client_state := mk_client_state (c_exec s) b.

(** A library file: its size and the names of its functions. *)
Abbreviation library := (string → Z * list string).

Section Clients.
Context `{Env} (fuel : nat).

Definition on_exec {A} (op : M executor A) : M client_state A := zoom c_exec set_c_exec op.
Definition on_bench {A} (op : M Benchmarker A) : M client_state A := zoom c_bench set_c_bench op.

(** [for (int i = 0; i < n;)]: an invocation that fails ends the program; the answer tells whether all
    succeeded. *)
Fixpoint measure (n : nat) (fname : string) (inb out : Buffer.t) : M client_state bool :=
  match n with
  | O => mret true
  | S n =>
      on_bench start ;;
      ret ← on_exec (execute fuel fname inb out);
      if ret.1 : bool then on_bench (end_ 1 0) ;; measure n fname inb out else mret false
  end.

(** The same where an invocation goes to all cores, and one that fails is tried again; at most [tries]
    invocations are followed. *)
Fixpoint measure_all (tries n : nat) (fname : string) (ins outs : list Buffer.t) : M client_state unit :=
  match n with
  | O => mret tt
  | S n' =>
      match tries with
      | O => raise StillRunning
      | S tries =>
          on_bench start ;;
          ok ← on_exec (execute_all fuel fname ins outs);
          if ok : bool then on_bench (end_ 1 0) ;; measure_all tries n' fname ins outs
          else measure_all tries n fname ins outs
      end
  end.
End Clients.

(** ** The median *)

Definition smaller (idx : nat) (m : Z) (rows : list (list Z)) : nat := length (filter (λ r, key idx r < m) rows).
Definition greater (idx : nat) (m : Z) (rows : list (list Z)) : nat := length (filter (λ r, m < key idx r) rows).

Lemma smaller_perm idx m l l' : l ≡ₚ l' → smaller idx m l = smaller idx m l'.
Proof. intros Hp. unfold smaller. by rewrite Hp. Qed.

Lemma greater_perm idx m l l' : l ≡ₚ l' → greater idx m l = greater idx m l'.
Proof. intros Hp. unfold greater. by rewrite Hp. Qed.

Lemma smaller_place idx m l k : Forall (λ y, m ≤ key idx y) (drop k l) → (smaller idx m l ≤ k)%nat.
Proof.
  intros Hd. unfold smaller. rewrite <-(take_drop k l), filter_app, length_app.
  assert (filter (λ r, key idx r < m) (drop k l) = []) as ->.
  { induction Hd as [|y d Hy _ IH]; [done|]. rewrite filter_cons_False by lia. exact IH. }
  cbn. pose proof (length_filter (λ r, key idx r < m) (take k l)) as Hl. rewrite length_take in Hl. lia.
Qed.

Lemma greater_place idx m l k x : l !! k = Some x → key idx x = m → Forall (λ y, key idx y ≤ m) (take k l) →
  (S k + greater idx m l ≤ length l)%nat.
Proof.
  intros Hx Hm Ht. pose proof (lookup_lt_Some _ _ _ Hx). unfold greater.
  rewrite <-(take_drop_middle l k x Hx) at 1. rewrite filter_app, length_app, filter_cons_False by lia.
  assert (filter (λ r, m < key idx r) (take k l) = []) as ->.
  { induction Ht as [|y d Hy _ IH]; [done|]. rewrite filter_cons_False by lia. exact IH. }
  cbn. pose proof (length_filter (λ r, m < key idx r) (drop (S k) l)) as Hl. rewrite length_drop in Hl. lia.
Qed.

(** With at least one measurement the summary ends, whatever order [nth_element] leaves: the rows stay
    the same up to their order; the median is the time of a row (while times are below 2^31), at most half
    of the rows have a smaller and fewer than half a greater time. *)
Theorem summary_median (ne : NthElement) `{!NthElementLaws ne} idx b t :
  _measurements b ≠ [] → Forall (λ row, 0 ≤ key idx row < 2 ^ 31) (_measurements b) →
  ∃ median total b', summary idx b t = Ok (median, total, b', t) ∧ _measurements b' ≡ₚ _measurements b ∧
    (∃ row, row ∈ _measurements b ∧ key idx row = median) ∧
    (2 * smaller idx median (_measurements b) ≤ length (_measurements b))%nat ∧
    (2 * greater idx median (_measurements b) < length (_measurements b))%nat.
Proof.
  intros Hne Hr. set (l := _measurements b) in *. set (k := (length l / 2)%nat).
  assert (k < length l)%nat as Hk by (apply Nat.div_lt; [destruct l; [done|cbn; lia]|lia]).
  destruct (nth_element_place k (key idx) l Hk) as (x & Hx & Hbefore & Hafter).
  pose proof (nth_element_perm k (key idx) l) as Hp.
  assert (x ∈ l) as Hin by (rewrite <-Hp; by eapply list_elem_of_lookup_2).
  assert (i32 (key idx x) = key idx x) as Hi.
  { apply swrap_small; [done|]. rewrite Forall_forall in Hr. specialize (Hr x Hin). lia. }
  unfold summary. run. fold l k. cbn [_measurements]. rewrite Hx. cbn. rewrite Hi.
  do 3 eexists. split; [done|]. split; [exact Hp|]. split; [by exists x|].
  rewrite <-(smaller_perm _ _ _ _ Hp), <-(greater_perm _ _ _ _ Hp).
  pose proof (smaller_place _ _ _ _ Hafter). pose proof (greater_place _ _ _ _ _ Hx eq_refl Hbefore) as Hg.
  rewrite (Permutation_length Hp) in Hg. pose proof (Nat.div_mod_eq (length l) 2).
  pose proof (Nat.mod_upper_bound (length l) 2 ltac:(lia)). unfold k in *. lia.
Qed.

(** Without a measurement it reads one. *)
Lemma summary_empty (ne : NthElement) `{!NthElementLaws ne} idx b t :
  _measurements b = [] → summary idx b t = Fault (Undefined "no measurement").
Proof.
  intros Hb. unfold summary. run. rewrite Hb. cbn [_measurements length].
  pose proof (nth_element_perm (0 / 2) (key idx) []) as Hp. symmetry in Hp. apply Permutation_nil_l in Hp. by rewrite <-Hp.
Qed.

(** Sorting all rows is one way to place an element. *)
Definition by_key (key : list Z → Z) (x y : list Z) : Prop := key x ≤ key y.
#[global] Instance by_key_dec key : RelDecision (by_key key).
Proof. intros x y. apply Z_le_dec. Defined.
#[global] Instance by_key_total key : Total (by_key key).
Proof. intros x y. unfold by_key. lia. Qed.
#[global] Instance by_key_trans key : Transitive (by_key key).
Proof. intros x y z. unfold by_key. lia. Qed.

Definition sorting_nth : NthElement := λ _ key l, merge_sort (by_key key) l.

#[global] Instance sorting_nth_laws : NthElementLaws sorting_nth.
Proof.
  split; [intros; apply merge_sort_Permutation|]. intros k key l Hk. change (nth_element k key l) with (merge_sort (by_key key) l).
  pose proof (StronglySorted_merge_sort (by_key key) l) as Hs.
  rewrite <-(Permutation_length (merge_sort_Permutation (by_key key) l)) in Hk.
  destruct (lookup_lt_is_Some_2 _ _ Hk) as [x Hx]. exists x. split; [done|].
  rewrite <-(take_drop_middle _ _ _ Hx) in Hs.
  split; rewrite Forall_forall; intros y Hy.
  - apply (StronglySorted_app_1_elem_of (by_key key) _ _ y x Hs); [done|by left].
  - rewrite (drop_S _ x) in Hy by done. apply StronglySorted_app_1_r in Hs. apply StronglySorted_inv in Hs as [_ Hs].
    apply elem_of_cons in Hy as [->|Hy]; [unfold by_key; lia|]. rewrite Forall_forall in Hs. by apply Hs.
Qed.

Lemma summary_median_witness :
  ∃ median total b', @summary sorting_nth 0 (mk_bench [[300]; [100]; [200]; [900]] 0 0) [] =
    Ok (median, total, b', []) ∧ median = 300 ∧ (2 * greater 0 median [[300%Z]; [100%Z]; [200%Z]; [900%Z]] < 4)%nat.
Proof.
  destruct (summary_median sorting_nth 0 (mk_bench [[300]; [100]; [200]; [900]] 0 0) [])
    as (median & total & b' & E & _ & _ & _ & Hg).
  - discriminate.
  - apply (bool_decide_unpack (Forall (λ row, 0 ≤ nth 0 row 0 < 2 ^ 31) [[300]; [100]; [200]; [900]])). vm_compute. exact I.
  - exists median, total, b'. split; [exact E|]. split; [|exact Hg]. vm_compute in E. by injection E as <- _ _.
Defined.

(** ** Every measurement is an answered invocation *)

Section Measured.
Context `{Env}.

#[local] Hint Resolve ClosedLoop.submitted_on_conn ClosedLoop.submitted_write_header ClosedLoop.submitted_post_input ClosedLoop.submitted_refill
  ClosedLoop.submitted_poll_receive : rfaas.
#[local] Hint Extern 2 (frames _ (match ?x with _ => _ end)) => destruct x : rfaas.

Lemma submitted_settle val : frames ClosedLoop.submitted (settle val).
Proof using. unfold settle. auto 20 with rfaas. Qed.

#[local] Hint Resolve submitted_settle : rfaas.

Lemma submitted_collect id wcs found : frames ClosedLoop.submitted (collect id wcs found).
Proof using. revert found. induction wcs as [|wc wcs IH]; intros found; cbn [collect]; frame. Qed.

#[local] Hint Resolve submitted_collect : rfaas.

Lemma submitted_await_result fuel id : frames ClosedLoop.submitted (await_result fuel id).
Proof using. induction fuel as [|fuel IH]; cbn [await_result]; auto 30 with rfaas. Qed.

(** A synchronous invocation takes the next number. *)
Lemma execute_number fuel fname inb out e t r e' t' idx :
  execute fuel fname inb out e t = Ok (r, e', t') → Invocation.func_index fname (_func_names e) = Some idx →
  ClosedLoop.submitted e' = (_callbacks2 e, Invocation.next_invoc (_invoc_id e), _func_names e).
Proof using.
  intros E Hidx. unfold execute in E. step_inv E. rewrite Hidx in E.
  bind_inv E as ? e1 t1 E1. apply ClosedLoop.submitted_write_header in E1.
  bind_inv E as id e2 t2 E2. unfold next_invoc_id in E2. step_inv E2. run_inv_at E2.
  bind_inv E as ? e3 t3 E3. apply ClosedLoop.submitted_post_input in E3. step_inv E. bind_inv E as ? e4 t4 E4. apply ClosedLoop.submitted_refill in E4.
  bind_inv E as res e5 t5 E5. apply submitted_await_result in E5. bind_inv E as polled e6 t6 E6. apply ClosedLoop.submitted_on_conn in E6.
  run_inv_at E. rewrite E6, E5, E4. change (ClosedLoop.submitted (set_active_polling true e3)) with (ClosedLoop.submitted e3). rewrite E3.
  unfold ClosedLoop.submitted in E1 |- *. cbn. by injection E1 as -> -> ->.
Qed.

(** The [n] numbers after a counter. *)
Fixpoint numbers (n : nat) (counter : Z) : list Z :=
  match n with O => [] | S n => Invocation.next_invoc counter :: numbers n (Invocation.next_invoc counter) end.

Lemma start_keeps s t u s' t' : on_bench start s t = Ok (u, s', t') →
  c_exec s' = c_exec s ∧ _measurements (c_bench s') = _measurements (c_bench s) ∧ words t' = words t ∧ t `suffix_of` t'.
Proof using.
  unfold on_bench, start. intros E. run_inv_at E. step_inv E. run_inv_at E. split_and!; [done..|]. by apply suffix_cons_r.
Qed.

Lemma end_adds_row s t d s' t' : on_bench (end_ 1 0) s t = Ok (d, s', t') →
  c_exec s' = c_exec s ∧ _measurements (c_bench s') = _measurements (c_bench s) ++ [[d]] ∧ words t' = words t ∧ t `suffix_of` t'.
Proof using.
  unfold on_bench, end_. intros E. run_inv_at E. do 3 step_inv E. rewrite bool_decide_eq_true_2 in E by done.
  cbn [_measurements _start _end] in E. bind_inv E as row b1 t1 E1. run_inv_at E1. apply from_opt_Ok in E1.
  rewrite last_snoc in E1. injection E1 as <-. rewrite bool_decide_eq_true_2 in E by lia. do 2 step_inv E. run_inv_at E.
  split_and!; [done| |done|by apply suffix_cons_r]. cbn [c_bench set_c_bench _measurements].
  rewrite length_app. cbn [length]. replace (_ + 1 - 1)%nat with (length (_measurements (c_bench s))) by lia.
  by rewrite take_app_length.
Qed.

(** What the loop did when it ended with success. *)
Lemma measure_result fuel n fname inb out s t s' t' idx :
  measure fuel n fname inb out s t = Ok (true, s', t') →
  Invocation.func_index fname (_func_names (c_exec s)) = Some idx →
  let used := numbers n (_invoc_id (c_exec s)) in
  t `suffix_of` t' ∧ words t' = words t ++ ((λ i, Invocation.execute_code i idx) <$> used) ∧
  (length (_measurements (c_bench s')) = length (_measurements (c_bench s)) + n)%nat ∧
  ∀ i, i ∈ used → ∃ wc, received t t' wc ∧ Invocation.finished_invoc_id (word wc) = i ∧ Invocation.return_val (word wc) = 0.
Proof using.
  revert s t. induction n as [|n IH]; intros s t E Hidx; cbn [measure numbers] in *.
  { run_inv_at E. split_and!; [done|by rewrite app_nil_r|lia|]. by intros i Hi%not_elem_of_nil. }
  bind_inv E as ? s1 t1 E1. apply start_keeps in E1 as (He1 & Hm1 & Hw1 & S1).
  bind_inv E as [ok size] s2 t2 E2. unfold on_exec in E2. run_inv_at E2. rewrite He1 in E2.
  destruct (execute_result _ _ _ _ _ _ _ _ _ _ _ E2 Hidx) as (S2 & Hw2 & wc & Hwc & Hid & Hok & _).
  pose proof (execute_number _ _ _ _ _ _ _ _ _ _ E2 Hidx) as Hn. unfold ClosedLoop.submitted in Hn. injection Hn as _ Hcount Hnames.
  cbn [fst] in E. destruct ok; [|discriminate E]. bind_inv E as d s3 t3 E3.
  apply end_adds_row in E3 as (He3 & Hm3 & Hw3 & S3). cbn [c_exec c_bench set_c_exec] in He3, Hm3.
  assert (Invocation.func_index fname (_func_names (c_exec s3)) = Some idx) as Hidx3 by (by rewrite He3, Hnames).
  destruct (IH s3 t3 E Hidx3) as (S4 & Hw & Hm & Hall). rewrite He3, Hcount in Hw, Hall.
  split_and!; [by transitivity t1; [|transitivity t2; [|transitivity t3]]| | |].
  - by rewrite Hw, Hw3, Hw2, Hw1, <-app_assoc.
  - rewrite Hm, Hm3, length_app, Hm1. cbn. lia.
  - intros i [->|Hi]%elem_of_cons.
    + exists wc. split; [apply (received_weaken t t1 t2 t'); [done|by transitivity t3|done]|]. split; [done|]. symmetry in Hok. by apply Z.eqb_eq in Hok.
    + destruct (Hall i Hi) as (wc' & Hr & Hrest). exists wc'. split; [|done].
      apply (received_weaken t t3 t' t'); [by transitivity t1; [|transitivity t2]|done|done].
Qed.

(** C21. The measurement loop of the warm benchmark measures answered invocations. If it ends with
    success for a function of the library, it has written one word per measurement, with the numbers after
    the counter in order, has added one row per word, and for every number a poll made meanwhile
    returned a completion with this number and the value 0. *)
Theorem measured_invocations_answered fuel n fname inb out s t s' t' idx :
  measure fuel n fname inb out s t = Ok (true, s', t') →
  Invocation.func_index fname (_func_names (c_exec s)) = Some idx →
  let used := numbers n (_invoc_id (c_exec s)) in
  words t' = words t ++ ((λ i, Invocation.execute_code i idx) <$> used) ∧
  (length (_measurements (c_bench s')) = length (_measurements (c_bench s)) + n)%nat ∧
  ∀ i, i ∈ used → ∃ wc, received t t' wc ∧ Invocation.finished_invoc_id (word wc) = i ∧ Invocation.return_val (word wc) = 0.
Proof using. intros E Hidx. by apply (measure_result _ _ _ _ _ _ _ _ _ _ E Hidx). Qed.
End Measured.

(** The result of the last invocation arrives at the first poll after it. *)
Definition prompt_env : Env :=
  scripted_env 8 (λ t cq _,
      match t with
      | Cpoll_cq _ _ :: _ => (0, [])
      | _ => if cq =? 71 then (1, [mk_wc 0 0 7 (htonl (Z.of_nat (length (words t)) * 2 ^ 16)) 4]) else (0, [])
      end)
    (λ _, (0, quiet_event)) (λ _, 0) (λ _, 0).

Lemma measured_invocations_answered_witness :
  ∃ s' t', @measure prompt_env 3 2 "resize" demo_input demo_output (mk_client_state (demo_executor 1 0 3) construct) [] =
      Ok (true, s', t') ∧
    words t' = [2 ^ 16 + 1; 2 * 2 ^ 16 + 1] ∧ length (_measurements (c_bench s')) = 2%nat ∧
    ∃ wc, @received prompt_env [] t' wc ∧ Invocation.finished_invoc_id (word wc) = 2 ∧ Invocation.return_val (word wc) = 0.
Proof.
  destruct (@measure prompt_env 3 2 "resize" demo_input demo_output (mk_client_state (demo_executor 1 0 3) construct) [])
    as [[[ok s'] t']|] eqn:E; [|vm_compute in E; discriminate E].
  assert (ok = true) as -> by (vm_compute in E; by injection E as <- <- <-).
  destruct (@measured_invocations_answered prompt_env 3 2 "resize" demo_input demo_output
    (mk_client_state (demo_executor 1 0 3) construct) [] s' t' 1 E ltac:(vm_compute; reflexivity)) as (Hw & Hm & Hall).
  exists s', t'. split; [reflexivity|]. split; [rewrite Hw; vm_compute; reflexivity|]. split; [exact Hm|].
  apply (Hall 2). apply list_elem_of_further, list_elem_of_here.
Defined.
End Benchmarks.
