(* ===== verification/WarmBenchmark.v ===== *)
(** * The warm benchmark

    src/benchmarks/warm_benchmark{.hpp,_opts.cpp,.cpp}: a client that allocates an executor and measures
    invocations of one function, one after the other. *)

From S2P Require Import Prelude CommandLine Verbs Buffer Queue Connection Messages Rdma Invocation ExecutorThread ClientConnection ClientExecutor System Archive Benchmarks.

Module WarmBenchmark.
Import CommandLine ClientConnection Archive ClientExecutor Benchmarks.

Record Options := mk_Options {
  json_config : string; device_database : string; executors_database : string; output_stats : string;
  verbose : bool; fname : string; flib : string; input_size : Z }.

Definition declared : list option_spec :=
  [mk_option "c" "config" false None; mk_option "" "device-database" false None;
   mk_option "" "executors-database" false (Some ""); mk_option "" "output-stats" false (Some "");
   mk_option "v" "verbose" true (Some "false"); mk_option "" "name" false None; mk_option "" "functions" false None;
   mk_option "s" "size" false (Some "1"); mk_option "h" "help" true (Some "false")]%string.

(** [None]: the help was printed, the process exits. *)
Definition options `{Cxxopts} (argv : list string) : result (option Options) :=
  parsed ← CommandLine.or_throw "options" (cx_parse declared argv);
  let p := parsed.1 in
  if bool_decide (parsed.2 "help"%string ≠ 0%nat) then Ok None else
  json_config ← as_string p "config";
  device_database ← as_string p "device-database";
  verbose ← as_bool p "verbose";
  fname ← as_string p "name";
  flib ← as_string p "functions";
  input_size ← as_int p "size";
  output_stats ← as_string p "output-stats";
  executors_database ← as_string p "executors-database";
  Ok (Some (mk_Options json_config device_database executors_database output_stats verbose fname flib input_size)).

Section Main.
Context `{Env} `{NthElement} (statuses : trace → Z → Z) (infos : trace → Z → Buffer.RemoteBuffer) (fuel : nat).

(** The rest of [main] once the buffers are there: the exit code and the lines of the statistics. *)
Definition run (opts : Options) (bench : BenchmarkSettings) (inb out : Buffer.t) : M client_state (Z * list string) :=
  for_each (range (warmup_repetitions bench)) (λ _, on_exec (execute fuel (fname opts) inb out) ;; mret tt) ;;
  ok ← measure fuel (Z.to_nat (repetitions bench - 1)) (fname opts) inb out;
  if negb ok then mret (1, []) else
  on_bench (summary 0) ;;
  s ← read;
  let stats := if bool_decide (output_stats opts = ""%string) then [] else export_csv ["time"%string] (c_bench s) in
  on_exec deallocate ;;
  mret (0, stats).

Definition body (lib : library) (opts : Options) (bench : BenchmarkSettings) : M client_state (Z * list string) :=
  ok ← on_exec (allocate statuses infos fuel (lib (flib opts)).1 (lib (flib opts)).2 (input_size opts)
                  (input_size opts) (hot_timeout bench) (numcores bench) 0 false);
  r ← (if negb ok then mret (1, []) else
         s ← read;
         let pd := Rdma.p_pd (e_state (c_exec s)) in
         inb ← Buffer.allocate (input_size opts) 1 DATA_HEADER_SIZE;
         out ← Buffer.allocate (input_size opts) 1 0;
         inb ← Buffer.on_buffer inb (Buffer.register_memory pd IBV_ACCESS_LOCAL_WRITE);
         out ← Buffer.on_buffer out
                 (Buffer.register_memory pd (Z.lor IBV_ACCESS_LOCAL_WRITE IBV_ACCESS_REMOTE_WRITE));
         r ← run opts bench inb out;
         Buffer.destroy out ;;
         Buffer.destroy inb ;;
         mret r);
  on_exec executor_destroy ;;
  mret r.

Definition main `{Cxxopts, Cereal} (files : string → option stream) (lib : library) (argv : list string) :
    M unit (Z * list string) :=
  o ← lift (options argv);
  match o with
  | None => mret (0, [])
  | Some opts =>
      devices ← lift (devices_deserialize (files (device_database opts)));
      settings ← lift (settings_deserialize devices (files (json_config opts)));
      e ← executor_construct "10.10.1.1" 10000 (numcores (benchmark settings)) (memory (benchmark settings)) 1
            (s_device settings);
      with_object (mk_client_state e construct) (body lib opts (benchmark settings))
  end.
End Main.
End WarmBenchmark.
