(* ===== verification/CppInterface.v ===== *)
(** * The test of the C++ interface

    src/benchmarks/cpp_interface{.hpp,_opts.cpp,.cpp}: a client that allocates an executor and invokes one
    function in every way there is: waiting for the result, with a future, both at once, and on two
    cores.  What the test prints of the buffers is not modelled. *)

From S2P Require Import Prelude CommandLine Verbs Buffer Queue Connection Messages Rdma Invocation ExecutorThread ClientConnection ClientExecutor System Archive Benchmarks.

Module CppInterface.
Import CommandLine ClientConnection Archive ClientExecutor System.

Record Options := mk_Options {
  json_config : string; device_database : string; executors_database : string; output_stats : string;
  verbose : bool; fname : string; flib : string; input_size : Z }.

Definition declared : list option_spec :=
  [mk_option "c" "config" false None; mk_option "" "device-database" false None;
   mk_option "" "executors-database" false (Some ""); mk_option "" "output-stats" false (Some "");
   mk_option "v" "verbose" true (Some "false"); mk_option "" "name" false None; mk_option "" "functions" false None;
   mk_option "s" "size" false (Some "1"); mk_option "h" "help" true (Some "false")]%string.

(** [None]: the help was printed, the process exits. *)
Definition options `{Cxxopts} (argv : list string) : result (option Options) :=
  parsed ← CommandLine.or_throw "options" (cx_parse declared argv);
  let p := parsed.1 in
  if bool_decide (parsed.2 "help"%string ≠ 0%nat) then Ok None else
  json_config ← as_string p "config";
  device_database ← as_string p "device-database";
  verbose ← as_bool p "verbose";
  fname ← as_string p "name";
  flib ← as_string p "functions";
  input_size ← as_int p "size";
  output_stats ← as_string p "output-stats";
  executors_database ← as_string p "executors-database";
  Ok (Some (mk_Options json_config device_database executors_database output_stats verbose fname flib input_size)).

(** A moment of the background thread, if the executor has one: [poll] has returned, with an event of the
    completion channel ([true]) or because its 100 ms are over ([false]), and the body of the loop of
    [poll_queue] runs. *)
Definition background_turn `{Env} (event : bool) : M executor unit :=
  e ← read;
  when (_background_thread e && negb (_end_requested e) && negb (bool_decide (_connections e = [])) && event)
    (handle_event settle).

(** [std::future<int>::get()]: the caller sleeps until the promise has a value.  What happens meanwhile are
    the moments [turns] of the background thread; when they are used up the model gives up. *)
Fixpoint get `{Env} (turns : list bool) (id : Z) : M executor Z :=
  e ← read;
  f ← lift (from_opt "broken promise" (_futures e !! id));
  match f_value f, turns with
  | Some v, _ => mret v
  | None, [] => raise StillRunning
  | None, event :: turns => background_turn event ;; get turns id
  end.

(** A future without a promise throws. *)
Definition get_future `{Env} (turns : list bool) (f : option Z) : M executor Z :=
  match f with
  | None => raise (Throw "no_state")
  | Some id => get turns id
  end.

(** [push_back(std::move(b))] on a vector without spare room: the vector and what is left of [b]. *)
Definition push_back {S} (v : list Buffer.t) (b : Buffer.t) : M S (list Buffer.t * Buffer.t) :=
  let moved := Buffer.move_construct b in
  for_each v (λ old, Buffer.destroy (Buffer.move_construct old).2) ;;
  mret (((λ old, (Buffer.move_construct old).1) <$> v) ++ [moved.1], moved.2).

Section Main.
Context `{Env} (statuses : trace → Z → Z) (infos : trace → Z → Buffer.RemoteBuffer) (fuel : nat).

(** The invocations; the result is what the futures gave.  [waits]: what the background thread does while
    the main thread waits for each of the four futures. *)
Definition invocations (waits : nat → list bool) (fname : string) (in1 in2 out1 out2 : Buffer.t) : M executor (list Z) :=
  execute fuel fname in1 out1 ;;
  f ← async fname in1 out1 (-1);
  v ← get_future (waits 0%nat) f;
  f2 ← async fname in1 out1 (-1);
  v2 ← get_future (waits 1%nat) f2;
  f3 ← async fname in1 out1 (-1);
  execute fuel fname in2 out2 ;;
  v3 ← get_future (waits 2%nat) f3;
  f4 ← async_all fname [in1; in2] [out1; out2];
  ret ← get_future (waits 3%nat) f4;
  mret [v; v2; v3; ret].

(** Once there is an executor: the exit code and what the futures gave. *)
Definition body (waits : nat → list bool) (lib : Benchmarks.library) (opts : Options) (bench : Benchmarks.BenchmarkSettings) : M executor (Z * list Z) :=
  let size := input_size opts in
  ok ← allocate statuses infos fuel (lib (flib opts)).1 (lib (flib opts)).2 size size (Benchmarks.hot_timeout bench)
         (Benchmarks.numcores bench) 0 false;
  r ← (if negb ok then mret (1, []) else
         in1 ← Buffer.allocate size 1 DATA_HEADER_SIZE;
         out1 ← Buffer.allocate size 1 0;
         in2 ← Buffer.allocate size 1 DATA_HEADER_SIZE;
         out2 ← Buffer.allocate size 1 0;
         e ← read;
         let pd := Rdma.p_pd (e_state e) in
         let rw := Z.lor IBV_ACCESS_LOCAL_WRITE IBV_ACCESS_REMOTE_WRITE in
         in1 ← Buffer.on_buffer in1 (Buffer.register_memory pd IBV_ACCESS_LOCAL_WRITE);
         out1 ← Buffer.on_buffer out1 (Buffer.register_memory pd rw);
         in2 ← Buffer.on_buffer in2 (Buffer.register_memory pd IBV_ACCESS_LOCAL_WRITE);
         out2 ← Buffer.on_buffer out2 (Buffer.register_memory pd rw);
         i1 ← push_back [] in1;
         i2 ← push_back i1.1 in2;
         o1 ← push_back [] out1;
         o2 ← push_back o1.1 out2;
         values ← match i2.1, o2.1 with
                  | [in1; in2], [out1; out2] => invocations waits (fname opts) in1 in2 out1 out2
                  | _, _ => raise (Undefined "vector index out of bounds")
                  end;
         deallocate ;;
         for_each (o2.1 ++ i2.1 ++ [o2.2; i2.2; o1.2; i1.2]) Buffer.destroy ;;
         mret (0, values));
  executor_destroy ;;
  mret r.

Definition main `{Cxxopts, Cereal} (waits : nat → list bool) (files : string → option stream)
    (lib : Benchmarks.library) (argv : list string) : M unit (Z * list Z) :=
  o ← lift (options argv);
  match o with
  | None => mret (0, [])
  | Some opts =>
      devices ← lift (devices_deserialize (files (device_database opts)));
      settings ← lift (Benchmarks.settings_deserialize devices (files (json_config opts)));
      let bench := Benchmarks.benchmark settings in
      e ← executor_construct "10.10.1.1" 10000 (Benchmarks.numcores bench) (Benchmarks.memory bench) 1
            (Benchmarks.s_device settings);
      with_object e (body waits lib opts bench)
  end.
End Main.

(** ** Nobody fulfils the promise

    No operation of the test starts the background thread. *)

Section Thread.
Context `{Env} (statuses : trace → Z → Z) (infos : trace → Z → Buffer.RemoteBuffer).

Lemma thread_on_conn {A} i (op : M Connection.t A) : frames _background_thread (on_conn i op).
Proof using. unfold on_conn, the_connection. frame. Qed.

#[local] Hint Resolve thread_on_conn : rfaas.

Lemma thread_write_header inb out : frames _background_thread (write_header inb out).
Proof using. unfold write_header, Buffer.rkey. frame. Qed.

Lemma thread_post_input i inb size code sol : frames _background_thread (post_input i inb size code sol).
Proof using. unfold post_input, the_connection. frame. Qed.

Lemma thread_refill i : frames _background_thread (refill i).
Proof using. unfold refill. frame. Qed.

Lemma thread_next_invoc_id : frames _background_thread next_invoc_id.
Proof using. unfold next_invoc_id. frame. Qed.

Lemma thread_poll_receive i b : frames _background_thread (poll_receive i b).
Proof using. unfold poll_receive. frame. Qed.

Lemma thread_on_manager {A} (op : M manager_connection A) : frames _background_thread (on_manager op).
Proof using. unfold on_manager. frame. Qed.

#[local] Hint Resolve thread_write_header thread_post_input thread_refill thread_next_invoc_id
  thread_poll_receive thread_on_manager : rfaas.
#[local] Hint Extern 2 (frames _ (match ?x with _ => _ end)) => destruct x : rfaas.

Lemma thread_settle val : frames _background_thread (settle val).
Proof using. unfold settle. auto 30 with rfaas. Qed.

#[local] Hint Resolve thread_settle : rfaas.

Lemma thread_collect id wcs found : frames _background_thread (collect id wcs found).
Proof using. revert found. induction wcs as [|wc wcs IH]; intros found; cbn [collect]; auto 30 with rfaas. Qed.

#[local] Hint Resolve thread_collect : rfaas.

Lemma thread_await_result fuel id : frames _background_thread (await_result fuel id).
Proof using. induction fuel as [|fuel IH]; cbn [await_result]; auto 40 with rfaas. Qed.

#[local] Hint Resolve thread_await_result : rfaas.

Lemma thread_execute fuel fname inb out : frames _background_thread (execute fuel fname inb out).
Proof using. unfold execute. auto 40 with rfaas. Qed.

Lemma thread_async fname inb out size : frames _background_thread (async fname inb out size).
Proof using. unfold async. auto 40 with rfaas. Qed.

Lemma thread_accept_threads fuel functions requested established :
  frames _background_thread (accept_threads fuel functions requested established).
Proof using.
  revert requested established. induction fuel as [|fuel IH]; intros requested established;
    cbn [accept_threads]; auto 30 with rfaas.
Qed.

Lemma thread_receive_infos fuel received : frames _background_thread (receive_infos infos fuel received).
Proof using.
  revert received. induction fuel as [|fuel IH]; intros received; cbn [receive_infos];
    unfold receive_info; auto 30 with rfaas.
Qed.

Lemma thread_code_sent fuel received : frames _background_thread (code_sent fuel received).
Proof using. revert received. induction fuel as [|fuel IH]; intros received; cbn [code_sent]; auto 30 with rfaas. Qed.

#[local] Hint Resolve thread_accept_threads thread_receive_infos thread_code_sent : rfaas.

Lemma thread_allocate fuel len symbols mi mo hot cores start skip :
  frames _background_thread (allocate statuses infos fuel len symbols mi mo hot cores start skip).
Proof using. unfold allocate, load_library. auto 40 with rfaas. Qed.

Lemma thread_construct address port numcores memory lease_id dev s t e s' t' :
  executor_construct address port numcores memory lease_id dev s t = Ok (e, s', t') → _background_thread e = false.
Proof using.
  unfold executor_construct. intros E. bind_inv E as st s1 t1 E1. bind_inv E as b s2 t2 E2. bind_inv E as b' s3 t3 E3.
  bind_inv E as st' s4 t4 E4. bind_inv E as mc s5 t5 E5. by run_inv_at E.
Qed.
End Thread.

Section Waiting.
Context `{Env} (statuses : trace → Z → Z) (infos : trace → Z → Buffer.RemoteBuffer) (fuel : nat) (waits : nat → list bool).

Lemma get_pending turns id n e t : _background_thread e = false → _futures e !! id = Some (mk_future n None) →
  get turns id e t = Fault StillRunning.
Proof using.
  intros Hb Hf. induction turns as [|event turns IH]; cbn [get]; run; rewrite Hf; run; cbn; [done|].
  unfold background_turn. run. rewrite Hb. cbn. run. apply IH.
Qed.

Lemma async_pending fname inb out size e t id e' t' : async fname inb out size e t = Ok (Some id, e', t') →
  _futures e' !! id = Some (mk_future 1 None).
Proof using. intros E%futures_async. rewrite E. cbn. by rewrite lookup_insert_eq. Qed.

Lemma first_future_pending fname in1 in2 out1 out2 e t r e1 t1 id e2 t2 : _background_thread e = false →
  execute fuel fname in1 out1 e t = Ok (r, e1, t1) → async fname in1 out1 (-1) e1 t1 = Ok (Some id, e2, t2) →
  invocations fuel waits fname in1 in2 out1 out2 e t = Fault StillRunning.
Proof using.
  intros Hb E1 E2. unfold invocations. rewrite (bind_run _ _ _ _ _ _ _ E1), (bind_run _ _ _ _ _ _ _ E2). cbn [get_future].
  unfold mbind, M_bind. rewrite (get_pending _ _ 1 e2 t2); [done| |exact (async_pending _ _ _ _ _ _ _ _ _ E2)].
  by rewrite (thread_async _ _ _ _ _ _ _ _ _ E2), (thread_execute _ _ _ _ _ _ _ _ _ E1).
Qed.

(** The invocations end with no result at all. *)
Lemma invocations_never_return fname in1 in2 out1 out2 e t r : _background_thread e = false →
  invocations fuel waits fname in1 in2 out1 out2 e t ≠ Ok r.
Proof using.
  intros Hb. destruct r as [[vs e'] t']. intros E. pose proof E as E0. unfold invocations in E. bind_inv E as x e1 t1 E1.
  bind_inv E as f e2 t2 E2. bind_inv E as v e3 t3 E3. destruct f as [id|]; [|done].
  by rewrite (first_future_pending _ _ _ _ _ _ _ _ _ _ _ _ _ Hb E1 E2) in E0.
Qed.

(** Without the background thread the operation never returns. *)
Definition hangs {A} (op : M executor A) : Prop := ∀ e t r, _background_thread e = false → op e t ≠ Ok r.

Lemma hangs_after {A B} (op : M executor A) (k : A → M executor B) :
  frames _background_thread op → (∀ a, hangs (k a)) → hangs (op ≫= k).
Proof using.
  intros Ho Hk e t [[r e'] t'] Hb E. bind_inv E as a e1 t1 E1.
  refine (Hk a e1 t1 _ _ E). by rewrite (Ho _ _ _ _ _ E1).
Qed.

Lemma hangs_first {A B} (op : M executor A) (k : A → M executor B) : hangs op → hangs (op ≫= k).
Proof using. intros Ho e t [[r e'] t'] Hb E. bind_inv E as a e1 t1 E1. exact (Ho _ _ _ Hb E1). Qed.

Lemma thread_push_back v b : frames _background_thread (push_back v b).
Proof using. unfold push_back. frame. Qed.

#[local] Hint Resolve thread_push_back invocations_never_return : rfaas.

(** What follows a successful allocation. *)
Lemma body_exit_code lib opts bench e t r e' t' : _background_thread e = false →
  body statuses infos fuel waits lib opts bench e t = Ok (r, e', t') → r.1 = 1.
Proof using.
  intros Hb E. unfold body in E. bind_inv E as ok e1 t1 E1. apply thread_allocate in E1. rewrite Hb in E1.
  bind_inv E as v e2 t2 E2. bind_inv E as ? e3 t3 E3. run_inv_at E. destruct ok; cbn [negb] in E2; [exfalso|by run_inv_at E2].
  revert E2. refine ((_ : hangs _) e1 t1 _ E1).
  do 13 (apply hangs_after; [solve [frame]|intros ?]). apply hangs_first. intros e4 t4 v4 He.
  repeat case_match; try done. by apply invocations_never_return.
Qed.

(** The test never exits with success unless it was asked for help. *)
Lemma main_exit_code `{Cxxopts, Cereal} files lib argv s t code vs s' t' :
  main statuses infos fuel waits files lib argv s t = Ok ((code, vs), s', t') → options argv = Ok None ∨ code = 1.
Proof using.
  unfold main. intros E. bind_inv E as o s1 t1 E1. apply lift_Ok in E1 as (Eo & -> & ->).
  destruct o as [opts|]; [right|by left]. bind_inv E as dev s2 t2 E2. bind_inv E as set s3 t3 E3. bind_inv E as e s4 t4 E4.
  apply thread_construct in E4. unfold with_object in E.
  destruct (body _ _ _ _ _ _ _ e t4) as [[[r e'] t5]|] eqn:Eb; [|done]. injection E as -> <- <-.
  exact (body_exit_code _ _ _ _ _ _ _ _ E4 Eb).
Qed.

(** C23. The test of the C++ interface does not get past its first future. An executor that was just constructed
    and has allocated its threads invokes the function once and submits a second invocation: then the test waits
    for the future of the second one and is still waiting after any number of moments a background thread could
    have used, whatever arrives from the network, because neither the constructor, nor [allocate], nor the
    invocations start that thread. So after its constructor the test either faults, or hangs, or exits with 1. *)
Theorem interface_test_waits_forever address port numcores memory lease dev s0 t0 e0 s1 t1
    len symbols mi mo hot cores start skip t2 ok e t3 fname in1 in2 out1 out2 t4 r e1 t5 id e2 t6 :
  executor_construct address port numcores memory lease dev s0 t0 = Ok (e0, s1, t1) →
  allocate statuses infos fuel len symbols mi mo hot cores start skip e0 t2 = Ok (ok, e, t3) →
  execute fuel fname in1 out1 e t4 = Ok (r, e1, t5) → async fname in1 out1 (-1) e1 t5 = Ok (Some id, e2, t6) →
  invocations fuel waits fname in1 in2 out1 out2 e t4 = Fault StillRunning ∧
  ∀ lib opts bench t' exit e' t'',
    body statuses infos fuel waits lib opts bench e0 t' = Ok (exit, e', t'') → exit.1 = 1.
Proof using.
  intros E0%thread_construct Ea%thread_allocate E1 E2. split.
  - apply (first_future_pending _ _ _ _ _ _ _ _ _ _ _ _ _ (eq_trans Ea E0) E1 E2).
  - intros lib opts bench t' exit e' t'' E. exact (body_exit_code _ _ _ _ _ _ _ _ E0 E).
Qed.
End Waiting.

(** One thread connects and announces its buffer; then every poll that follows another call returns the
    result of the last word written. *)
Definition test_env : Env :=
  scripted_env 8 (λ t _ _,
      match t with
      | Cpoll_cq _ _ :: _ => (0, [])
      | _ => (1, [mk_wc 0 0 7 (htonl (Z.land (2 ^ 31 - 2 ^ 16) (default 0 (last (words t))))) 4])
      end)
    (λ t, (0, mk_cm_event (if existsb (λ c, match c with Cget_cm_event => true | _ => false end) t
                           then RDMA_CM_EVENT_ESTABLISHED else RDMA_CM_EVENT_CONNECT_REQUEST) (mk_cm_id 9 some_qp 0 3) 0 0))
    (λ _, 0) (λ _, 0).

Definition test_infos : trace → Z → Buffer.RemoteBuffer := λ _ _, Buffer.mk_remote 8192 44 0.
Definition test_device : device_data := mk_device "mlx5" "10.0.0.1" 10000 128 32.

(** The run: constructed, allocated, invoked once and submitted once. *)
Definition test_construct : result (executor * unit * trace) :=
  @executor_construct test_env "10.10.1.1" 10000 1 512 1 test_device tt [].
Definition test_allocate (e : executor) (t : trace) : result (bool * executor * trace) :=
  @allocate test_env (λ _ _, 0) test_infos 8 1000 ["resize"; "empty"]%string 64 64 0 1 0 true e t.
Definition test_execute (e : executor) (t : trace) : result (bool * Z * executor * trace) :=
  @execute test_env 8 "resize" demo_input demo_output e t.
Definition test_async (e : executor) (t : trace) : result (option Z * executor * trace) :=
  @async test_env "resize" demo_input demo_output (-1) e t.

(** The run up to each step, and whether it ends as expected. *)
Definition the_run {X} (last : executor → trace → option X) : option X :=
  match test_construct with
  | Ok (e0, _, t1) =>
      match test_allocate e0 t1 with
      | Ok (_, e, t3) =>
          match test_execute e t3 with
          | Ok ((true, 4), e1, t5) =>
              match test_async e1 t5 with Ok (Some 1, e2, t6) => last e2 t6 | _ => None end
          | _ => None
          end
      | _ => None
      end
  | _ => None
  end.

(** What is missing is the thread: with it, the event of the result ends the wait. *)
Example background_thread_would_answer :
  the_run (λ e t, match @get test_env [false; true] 1 (set_background_thread true e) t with
                  | Ok (v, _, _) => Some v
                  | Fault _ => None
                  end) = Some 0.
Proof. vm_compute. reflexivity. Qed.

Lemma the_run_steps {X} (last : executor → trace → option X) x : the_run last = Some x →
  ∃ e0 s1 t1 ok e t3 e1 t5 e2 t6,
    test_construct = Ok (e0, s1, t1) ∧ test_allocate e0 t1 = Ok (ok, e, t3) ∧
    test_execute e t3 = Ok ((true, 4), e1, t5) ∧ test_async e1 t5 = Ok (Some 1, e2, t6).
Proof.
  unfold the_run. generalize test_construct, test_allocate, test_execute, test_async. intros c a x' y E.
  repeat (case_match; try discriminate E). simplify_eq. naive_solver.
Qed.

(** The first invocation is answered; the future of the second one is never. *)
Lemma interface_test_waits_forever_witness : ∃ e t e1 t1,
  @execute test_env 8 "resize" demo_input demo_output e t = Ok ((true, 4), e1, t1) ∧
  @invocations test_env 8 (λ _, replicate 100 true) "resize" demo_input demo_input demo_output demo_output e t
    = Fault StillRunning.
Proof.
  destruct (the_run_steps _ _ background_thread_would_answer)
    as (e0 & s1 & t1 & ok & e & t3 & e1 & t5 & e2 & t6 & E0 & E1 & E2 & E3).
  exists e, t3, e1, t5. split; [exact E2|].
  exact (proj1 (@interface_test_waits_forever test_env (λ _ _, 0) test_infos 8 (λ _, replicate 100 true)
    "10.10.1.1" 10000 1 512 1 test_device tt [] e0 s1 t1 1000 ["resize"; "empty"]%string 64 64 0 1 0 true t1 ok e t3
    "resize" demo_input demo_input demo_output demo_output t3 (true, 4) e1 t5 1 e2 t6 E0 E1 E2 E3)).
Defined.
End CppInterface.
