(* ===== verification/ParallelInvocations.v ===== *)
(** * Parallel invocations

    src/benchmarks/parallel_invocations{.hpp,_opts.cpp,.cpp}: a client that allocates an executor with
    several cores and measures invocations of one function on all of them. *)

From S2P Require Import Prelude CommandLine Verbs Buffer Queue Connection Messages Rdma Invocation ExecutorThread ClientConnection ClientExecutor System Archive Benchmarks.

Module ParallelInvocations.
Import CommandLine ClientConnection Archive ClientExecutor Benchmarks.

Record Options := mk_Options {
  json_config : string; device_database : string; executors_database : string; output_stats : string;
  verbose : bool; fname : string; flib : string; input_size : Z; output_size : Z; o_numcores : Z }.

Definition declared : list option_spec :=
  [mk_option "c" "config" false None; mk_option "" "device-database" false None;
   mk_option "" "executors-database" false (Some ""); mk_option "" "output-stats" false (Some "");
   mk_option "v" "verbose" true (Some "false"); mk_option "" "name" false None; mk_option "" "functions" false None;
   mk_option "s" "input-size" false (Some "1"); mk_option "" "output-size" false (Some "1");
   mk_option "" "cores" false (Some "0"); mk_option "h" "help" true (Some "false")]%string.

Definition options `{Cxxopts} (argv : list string) : result (option Options) :=
  parsed ← CommandLine.or_throw "options" (cx_parse declared argv);
  let p := parsed.1 in
  if bool_decide (parsed.2 "help"%string ≠ 0%nat) then Ok None else
  json_config ← as_string p "config";
  device_database ← as_string p "device-database";
  verbose ← as_bool p "verbose";
  fname ← as_string p "name";
  flib ← as_string p "functions";
  input_size ← as_int p "input-size";
  output_size ← as_int p "output-size";
  output_stats ← as_string p "output-stats";
  executors_database ← as_string p "executors-database";
  numcores ← as_int p "cores";
  Ok (Some (mk_Options json_config device_database executors_database output_stats verbose fname flib input_size
              output_size numcores)).

(** The number of cores of the command line, if there is one. *)
Definition override (opts : Options) (b : BenchmarkSettings) : BenchmarkSettings :=
  if 0 <? o_numcores opts then
    mk_BenchmarkSettings (repetitions b) (warmup_repetitions b) (pin_threads b) (hot_timeout b) (o_numcores opts) (memory b)
  else b.

Section Main.
Context `{Env} `{NthElement} (statuses : trace → Z → Z) (infos : trace → Z → Buffer.RemoteBuffer) (fuel tries : nat).

(** The buffers of one core. *)
Definition input_buffer (size : Z) : M client_state Buffer.t :=
  s ← read;
  b ← Buffer.allocate size 1 DATA_HEADER_SIZE;
  Buffer.on_buffer b (Buffer.register_memory (Rdma.p_pd (e_state (c_exec s))) IBV_ACCESS_LOCAL_WRITE).
Definition output_buffer (size : Z) : M client_state Buffer.t :=
  s ← read;
  b ← Buffer.allocate size 1 0;
  Buffer.on_buffer b (Buffer.register_memory (Rdma.p_pd (e_state (c_exec s)))
    (Z.lor IBV_ACCESS_LOCAL_WRITE IBV_ACCESS_REMOTE_WRITE)).

Fixpoint buffers (make : M client_state Buffer.t) (n : nat) : M client_state (list Buffer.t) :=
  match n with
  | O => mret []
  | S n => b ← make; l ← buffers make n; mret (b :: l)
  end.

Definition run (opts : Options) (bench : BenchmarkSettings) (ins outs : list Buffer.t) : M client_state (list string) :=
  for_each (range (warmup_repetitions bench)) (λ _, on_exec (execute_all fuel (fname opts) ins outs) ;; mret tt) ;;
  measure_all fuel tries (Z.to_nat (repetitions bench)) (fname opts) ins outs ;;
  on_bench (summary 0) ;;
  s ← read;
  let stats := if bool_decide (output_stats opts = ""%string) then [] else export_csv ["time"%string] (c_bench s) in
  on_exec deallocate ;;
  mret stats.

Definition body (lib : library) (opts : Options) (bench : BenchmarkSettings) : M client_state (Z * list string) :=
  ok ← on_exec (allocate statuses infos fuel (lib (flib opts)).1 (lib (flib opts)).2 (input_size opts)
                  (input_size opts) (hot_timeout bench) (numcores bench) 0 false);
  r ← (if negb ok then mret (1, []) else
         ins ← buffers (input_buffer (input_size opts)) (Z.to_nat (numcores bench));
         outs ← buffers (output_buffer (output_size opts)) (Z.to_nat (numcores bench));
         stats ← run opts bench ins outs;
         for_each outs Buffer.destroy ;;
         for_each ins Buffer.destroy ;;
         mret (0, stats));
  on_exec executor_destroy ;;
  mret r.

Definition main `{Cxxopts, Cereal} (files : string → option stream) (lib : library) (argv : list string) :
    M unit (Z * list string) :=
  o ← lift (options argv);
  match o with
  | None => mret (0, [])
  | Some opts =>
      devices ← lift (devices_deserialize (files (device_database opts)));
      settings ← lift (settings_deserialize devices (files (json_config opts)));
      let bench := override opts (benchmark settings) in
      e ← executor_construct "10.10.1.1" 10000 (numcores bench) (memory bench) 1 (s_device settings);
      with_object (mk_client_state e construct) (body lib opts bench)
  end.
End Main.
End ParallelInvocations.
